(* ===== verification/_CoqProject ===== *)
-Q . S2P
Prelude.v
PrefixEnd.v
OpCounter.v
RpcPolicies.v
Runtime.v
Log.v
Etcd.v
CompletionQueue.v
Threads.v
Compose.v
ActiveQueue.v
Balance.v
Candidate.v
CandidateFacts.v
Safety.v
Interleave.v
CandidateSafety.v
Campaign.v
Leadership.v
Resign.v
Progress.v
Server.v
Election.v
MutualExclusion.v
LeaderLock.v
Observer.v
ObserverFacts.v
Following.v
Session.v
SessionFacts.v
SessionSafety.v
Membership.v
Interceptors.v
Typing.v
Facade.v
Constants.v
FacadeFacts.v
FacadeSafety.v
Participant.v
EtcdClient.v
Scenario.v
CandidateTests.v
ClientTests.v
LibraryTests.v
Script.v
Programs.v
Experiments.v
ExperimentFacts.v
Examples.v
ExampleFacts.v
Joined.v
IntegrationTests.v
