(* ===== verification/Prelude.v ===== *)
(** * Gee-H: leader election over etcd, a verification development

    Gee-H (src/gh/) is a C++ library with which processes elect a leader through an etcd
    cluster. Its parts, from the bottom up:
    - a completion queue ([gh/completion_queue.hpp], [gh/detail/base_completion_queue.cpp]) that
      hands asynchronous gRPC operations to the gRPC library and calls a functor, or completes
      a future, when gRPC reports that an operation is done;
    - [async_op_counter] ([gh/detail/async_op_counter.hpp]), with which an object counts the
      operations whose callbacks refer to it, and waits for them before it is destroyed;
    - [session_impl] ([gh/detail/session_impl.hpp]), which holds an etcd lease and keeps it alive;
    - [election_candidate_impl] ([gh/detail/election_candidate_impl.hpp]), which publishes a node
      under the lease, waits for its predecessor to go, and so becomes the leader;
    - [election_observer_impl] ([gh/detail/election_observer_impl.hpp]), which follows an election
      and tells its subscribers who leads;
    - [cluster_membership_impl] ([gh/detail/cluster_membership_impl.hpp]), which keeps the list of
      the members of the cluster, and the policies for errors ([gh/detail/rpc_policies.cpp]);
    - [active_completion_queue] ([gh/active_completion_queue.hpp]), which owns a queue and its thread, and
      [etcd_client] ([gh/etcd_client.hpp]), a client for single requests;
    - the facades of the library: [leader_election] ([gh/leader_election.cpp]), a session and a candidate on one
      queue, and [watch_election] ([gh/watch_election.cpp]), an observer;
    - helpers: [prefix_end], logging, assertions, exceptions made from gRPC errors;
    - command line programs: two examples (src/examples/) and two experiments (src/experiments/).

    ** The model

    Code that does not block is a function in the state and exception monad [M] of this file:
    an outcome is a return, a C++ exception with the state reached, or undefined
    behaviour. Code that blocks (a member that waits on a future or on a counter) is a
    resumption in the monad [P]: it has finished, or it waits in some world for a condition.
    The world of a thread is the state of one object and the queue. [CompletionQueue.sched] runs
    a thread next to the event loop: any completion may come at any point where the thread
    waits, and the thread goes on when its condition holds. Critical sections of a [std::mutex] are kept, the
    mutex being a flag whose second lock is undefined behaviour; other data races are not
    modelled, and the handlers of one queue run one at a time, as one thread runs the
    queue. Callbacks are values of an inductive type with one constructor per lambda of the source, and what they
    captured; the class [CompletionQueue.Client] says what an object promises to the queue (its callbacks
    only use the operations of the queue), and the queue's theorems are proved against it. The interceptor, a template
    parameter of [completion_queue], is the class [CompletionQueue.Interceptor]: what calls an operation makes, and how
    they return. The one of the library ([grpc_library]) and the one of the tests ([mocked_grpc_interceptor]) are its
    instances; code over an interceptor is modelled for every one, the theorems on whole objects use the library's.

    gRPC and etcd are not part of the sources. The calls to gRPC are recorded in [trace]; the
    completions, with whatever status and message, are the inputs of the model, so that
    the theorems hold for every behaviour of the server and of the network. What a theorem needs of
    them (a transaction that succeeded, a watch that was cancelled) is in its statement. Mutual exclusion needs
    the answers of a real server: [Server.EtcdServer] is its interface, and in [MutualExclusion] an
    operation that completes well has the answer the server gave, at some moment since it started. The
    text format of protobuf messages is the parameter [Etcd.TextFormat]; the functors an
    application subscribes, and the iteration order of an [std::unordered_map], are the
    parameter [Observer.Application].

    Integers keep their width where it shows: 64-bit conversions are written out
    ([Runtime.to_uint64], [Runtime.to_int64]), signed overflow of times, delays and error counts is
    undefined behaviour. The [int] of [async_op_counter] is an unbounded [Z]: it counts
    operations that are in memory.

    There is no fuel in the model of the library: the event loop ([CompletionQueue.run]) and
    [CompletionQueue.sched] consume a list of events, everything else is structural or free of loops. Theorems
    on executions hold for every list. The command line programs are interaction trees over the calls
    they make; their loops poll a flag of a signal handler and need not end. Such a program is
    run in an environment that answers each call from the history, and [Script.wp] is total: a theorem about a program
    that polls assumes that the flag is set at some point ([ExampleFacts.interrupts]). [Script.run] evaluates
    a program for the witnesses, with fuel for its steps (40 to 1000, and the run ends before
    that).

    Bounds: where a theorem needs times in range, etcd's limit on the TTL of a lease is assumed
    ([SessionSafety.max_lease_ttl], 9000000000 seconds), and a clock of at most 2^62 nanoseconds since 1970 (the year 2116): the
    refresh of a lease is a fifth of its TTL ahead, the deadlines of the experiments 50 milliseconds, and both sums stay below
    2^63.

    ** The files

    - [Prelude]: outcomes, the monads [M] and [P], relations that code respects
      ([m ⊨ R]) with the tactic [respects_solve], strings, the hint database [gh].
    - [PrefixEnd]: [gh::prefix_end] and the byte order of keys. The range from a prefix to its
      [prefix_end] is exact for a prefix that does not end in 0xFF, and what it is otherwise.
    - [OpCounter]: [async_op_counter] and [async_op_tracer]; threads that share a counter as the
      step function [OpCounter.apply] over their atomic sections. One waiter always returns and is a
      barrier; two waiters, and a waiter that destroys the counter, are counterexamples.
    - [RpcPolicies]: the two policy interfaces as classes, the three policies as instances: the delays
      and the retries in closed form.
    - [Runtime]: [std::promise], numbers in text, [GH_ASSERT_THROW], errors of gRPC.
    - [Log]: the log, its sinks and [GH_LOG]: what a log statement writes, and to whom.
    - [Etcd]: the messages, with the fields the sources use.
    - [CompletionQueue]: the queue, its operations and the loop. A callback runs at most once, a
      future is completed with the value or the exception of its operation, the loop ends after [shutdown].
    - [Compose]: objects that share a queue. A client with a queue of its own is a part of a whole ([Compose.Part]): its
      code runs in the whole on a view, and a thread of the whole does what it does alone.
    - [ActiveQueue]: [active_completion_queue]: the destructor ends the loop's thread; a move
      assignment leaves the source able to shut down the target's queue.
    - [Balance]: counts of the operations in the queue, and how code shifts them against a counter.
    - [Safety]: triples for code that must not run into undefined behaviour, for [M] and for [P], and
      the rule that turns one for a thread into a statement on every run of [sched]. An invariant that holds
      while the others run is also kept by what other objects do to the queue ([Safety.interferes]). The class
      [Safety.rely] says which events are admissible, all of them by default.
    - [Threads]: equations for a thread that makes one call and waits for its future.
    - [Candidate]: [election_candidate_impl].
    - [CandidateFacts]: its counters are in step with the queue, the result of a campaign is
      final, and the one event that elects.
    - [CandidateSafety]: no member and no event of a candidate leads to undefined
      behaviour, and exceptions come only from the checks of the source.
    - [Campaign]: what the creation of the node does for every answer of etcd.
    - [Leadership]: the keys a query covers, the reads of the watch, the destructor as a barrier, and
      two ways a candidate hangs (a query cancelled, a watch lost to a compaction).
    - [Resign]: what [proclaim] publishes for every answer of etcd, and how [resign] cancels the watches.
    - [Progress]: a campaign that goes well: the stages of a candidate for each predecessor, what etcd answers for it
      to get on, and that it is elected in the end, however many predecessors there are.
    - [Server]: an etcd server as a class with the laws of its documentation that an election rests on, and an
      instance in memory.
    - [Election]: a candidate next to a server that answers its requests: whatever happens, a candidate that
      takes itself for the leader has no older node in its election. The rules for threads
      ([vtriple]), and the triples of [campaign] and the other members.
    - [MutualExclusion]: any number of candidates, other clients, expiring leases and crashes around a server:
      at most one leader among the candidates whose nodes exist; runs around the server in memory.
    - [LeaderLock]: the abstract election, a lock with a first-come-first-served queue, and the refinement: every
      run of the candidates around the server is a run of the lock.
    - [Observer], [ObserverFacts]: [election_observer_impl]: the reports follow the changes of the leader,
      every subscriber gets them, the counter, the destructor, the undefined behaviours.
    - [Following]: the history of an election as a sequence of changes to its keys; an observer that reads it from the
      point its query tells, in whatever portions, knows exactly the keys that exist, and its leader is the oldest.
    - [Session], [SessionFacts]: [session_impl]: the grant of the lease, the keep-alive cycle,
      its end, the destructor, the revocation.
    - [SessionSafety]: no member and no event of a session leads to undefined behaviour, and no handler
      throws, while the TTLs are those etcd grants and the clock is in range.
    - [Membership]: [cluster_membership_impl], against the interface of the backoff policy.
    - [Interceptors]: the clients over two queues with different interceptors that return: they do the same, and only the
      record of the calls to gRPC differs, so that tests over the mock speak for the code over gRPC.
    - [Typing]: an operation is completed with a message of the type it asked for: the handlers of the candidate
      never read a message as another type.
    - [Facade], [FacadeFacts]: the interfaces [session], [election_candidate] and [election_observer] as classes, the
      implementations and the facades as their instances: how events reach the two parts of a
      [leader_election], its constructor, and that it refines a candidate and a session.
    - [Constants]: the members no callback changes.
    - [Interleave], [FacadeSafety]: the events of objects on one queue in any order. What one does is interference for the
      other, so that a triple of a thread of one holds in the whole, with any property of the other that is
      stable (a frame rule). The constructor of a [leader_election], its members and its destructor lead to no undefined
      behaviour, next to any events of both objects within the limits of the session; its candidate is as safe as it is
      alone, and the destructor leaves no operation either object counts in the queue.
    - [Participant]: a [leader_election] that is made, campaigns and wins, on one queue, with the keep-alive cycle
      of its session in any order between the events of the campaign.
    - [EtcdClient]: [client_async_op] and [etcd_client]: what the future of a lease request ends with.
    - [Scenario], [CandidateTests], [ClientTests], [LibraryTests]: the unit tests of the repository as runs of the
      model over the mocked interceptor: every expectation of the tests holds of it.
    - [IntegrationTests]: the tests against etcd, as runs around the store of [Server.Memory], with several participants.

    - [Script], [Programs]: interaction trees for the command line programs, environments and [wp]; the calls the programs
      make, with the type of each answer.
    - [Experiments], [ExperimentFacts]: [cluster_failure_behavior] and [watcher_and_compaction]: how a leader is picked among the
      members of a cluster, what an exit code of 0 means, and the node that outlives its lease.
    - [Examples], [ExampleFacts]: [join_election] and [observe_election]: the members of the library they call,
      in order, for all its answers.
    - [Joined]: [join_election] over the [leader_election] of the model: from the command line to the answers of etcd, a
      participant that nobody interrupts before it leads announces its victory.

    The names are those of the source; [C<n>] numbers the main theorems by importance.

    ** Not modelled

    How Google Mock counts and matches calls: the mock of an interceptor is a parameter that says how each call ends. A
    mock of the repository that completes the operation within the call is modelled as a completion that comes next and
    takes the operation off the table. What the text format of protobuf prints, with the one test of it. The log statements
    inside the other components: they write to the sinks of [Log] and change nothing else. In the command
    line programs the members of the library are calls that return or throw; what they do is in the other
    files, and [Joined] puts the two together for one run, up to the result of the campaign. The Python driver and the build files are left out for good. *)

From Stdlib Require Export Ascii String.
From stdpp Require Export base gmap sets list strings pretty.

(** ** Scope, hint database *)

Declare Scope gh_scope.
Delimit Scope gh_scope with gh.
#[export] Set Default Goal Selector "!".
#[export] Set Warnings "-clear-no-such-hyp".
Open Scope gh_scope.
Open Scope Z_scope.

Create HintDb gh.
Create Rewrite HintDb gh.
#[export] Hint Extern 0 (PreOrder _) => typeclasses eauto : gh.

(** ** Outcomes: what a C++ function does when control leaves it *)

(** The error codes of [std::future_error] the sources can meet. *)
Inductive future_errc :=
  | broken_promise
  | future_already_retrieved
  | promise_already_satisfied
  | no_state.

(** The exception objects the sources throw or let through. *)
Inductive exn :=
  | runtime_error (what : string)
  | invalid_argument (what : string)
  | future_error (code : future_errc)
  | app_exception (id : Z).

#[export] Instance future_errc_eq_dec : EqDecision future_errc.
Proof. solve_decision. Defined.
#[export] Instance exn_eq_dec : EqDecision exn.
Proof. solve_decision. Defined.

(** [Ok]: normal return; [Throw]: a C++ exception propagates, the object state
    reached so far is kept; [UB]: the language gives the execution no meaning (a null
    [shared_ptr] dereferenced, a dangling reference used, a mutex locked twice by
    one thread). No handler or destructor runs after [UB]. *)
Inductive outcome (A : Type) :=
  | Ok (a : A)
  | Throw (e : exn)
  | UB (why : string).
Arguments Ok {A} a.
Arguments Throw {A} e.
Arguments UB {A} why.

#[export] Instance outcome_eq_dec `{EqDecision A} : EqDecision (outcome A).
Proof. solve_decision. Defined.

Definition is_ok {A} (o : outcome A) : bool :=
  match o with Ok _ => true | _ => false end.

(** The outcome with another value, when there is one. *)
Definition with_result {A B} (b : B) (o : outcome A) : outcome B :=
  match o with Ok _ => Ok b | Throw e => Throw e | UB why => UB why end.

(** ** Code that does not block: a state and exception monad *)

(** [M W A]: code run to completion by one thread on the world [W]. The state is kept
    when an exception propagates, as C++ keeps it. *)
Definition M (W A : Type) : Type := W -> W * outcome A.

#[export] Instance M_ret {W} : MRet (M W) := fun A a w => (w, Ok a).
#[export] Instance M_bind {W} : MBind (M W) := fun A B f m w =>
  match m w with
  | (w', Ok a) => f a w'
  | (w', Throw e) => (w', Throw e)
  | (w', UB s) => (w', UB s)
  end.

Definition throw {W A} (e : exn) : M W A := fun w => (w, Throw e).
Definition undefined {W A} (why : string) : M W A := fun w => (w, UB why).
Definition get {W} : M W W := fun w => (w, Ok w).
Definition gets {W A} (f : W -> A) : M W A := fun w => (w, Ok (f w)).
Definition modify {W} (f : W -> W) : M W unit := fun w => (f w, Ok tt).

(** [try { m } catch (e) { h(e) }] *)
Definition try_catch {W A} (m : M W A) (h : exn -> M W A) : M W A := fun w =>
  match m w with
  | (w', Throw e) => h e w'
  | r => r
  end.

(** A loop over a sequence, an exception leaves it. *)
Fixpoint for_each {W A} (l : list A) (body : A -> M W unit) : M W unit :=
  match l with
  | [] => mret tt
  | x :: l' => body x ;; for_each l' body
  end.

Definition when {W} (b : bool) (m : M W unit) : M W unit := if b then m else mret tt.

(** ** Code that blocks: resumptions *)

(** [prog W A]: a thread that finished in a world with an outcome, or is blocked in a
    world until a condition over the world holds and then goes on. While it is
    blocked the other threads change the world. *)
Inductive prog (W A : Type) :=
  | Finished (w : W) (r : outcome A)
  | Blocked (w : W) (until : W -> bool) (k : W -> prog W A).
Arguments Finished {W A} w r.
Arguments Blocked {W A} w until k.

(** [P W A]: code that may block, from the world it starts in. *)
Definition P (W A : Type) : Type := W -> prog W A.

Definition lift {W A} (m : M W A) : P W A := fun w =>
  let '(w', r) := m w in Finished w' r.

(** Continue a thread with code for each of its outcomes. *)
Fixpoint prog_then {W A B} (p : prog W A) (f : W -> outcome A -> prog W B) : prog W B :=
  match p with
  | Finished w r => f w r
  | Blocked w until k => Blocked w until (fun w' => prog_then (k w') f)
  end.

#[export] Instance P_ret {W} : MRet (P W) := fun A a w => Finished w (Ok a).
#[export] Instance P_bind {W} : MBind (P W) := fun A B f m w =>
  prog_then (m w) (fun w' r =>
    match r with
    | Ok a => f a w'
    | Throw e => Finished w' (Throw e)
    | UB s => Finished w' (UB s)
    end).

(** Block until the condition holds. *)
Definition block_until {W} (until : W -> bool) : P W unit := fun w =>
  if until w then Finished w (Ok tt) else Blocked w until (fun w' => Finished w' (Ok tt)).

(** A scope with a destructor: [d] runs when [m] returns and when it throws. *)
Definition with_destructor {W A} (m : P W A) (d : M W unit) : P W A := fun w =>
  prog_then (m w) (fun w' r =>
    match r with
    | UB s => Finished w' (UB s)
    | _ => match d w' with
           | (w'', Ok _) => Finished w'' r
           | (w'', Throw e) => Finished w'' (Throw e)
           | (w'', UB s) => Finished w'' (UB s)
           end
    end).

Definition P_try_catch {W A} (m : P W A) (h : exn -> P W A) : P W A := fun w =>
  prog_then (m w) (fun w' r =>
    match r with
    | Throw e => h e w'
    | _ => Finished w' r
    end).

Definition P_throw {W A} (e : exn) : P W A := fun w => Finished w (Throw e).

Fixpoint P_for_each {W A} (l : list A) (body : A -> P W unit) : P W unit :=
  match l with
  | [] => mret tt
  | x :: l' => body x ;; P_for_each l' body
  end.

(** The world a thread is in. *)
Definition prog_world {W A} (p : prog W A) : W :=
  match p with Finished w _ => w | Blocked w _ _ => w end.
Definition prog_outcome {W A} (p : prog W A) : option (outcome A) :=
  match p with Finished _ r => Some r | Blocked _ _ _ => None end.

(** Another thread changes the world of a thread. *)
Definition prog_set_world {W A} (f : W -> W) (p : prog W A) : prog W A :=
  match p with
  | Finished w r => Finished (f w) r
  | Blocked w until k => Blocked (f w) until k
  end.

(** The scheduler gives a thread the processor: a blocked thread goes on when its
    condition holds. *)
Definition wake {W A} (p : prog W A) : prog W A :=
  match p with
  | Finished _ _ => p
  | Blocked w until k => if until w then k w else p
  end.

(** ** Symbolic execution of the monads *)

Ltac munfold :=
  unfold mbind, mret, M_bind, M_ret, P_bind, P_ret, throw, undefined, get, gets, modify,
    lift, when in *; cbn in *.

Lemma bind_ok {W A B} (m : M W A) (f : A -> M W B) w w' a :
  m w = (w', Ok a) -> (m ≫= f) w = f a w'.
Proof. unfold mbind, M_bind. by intros ->. Qed.

Lemma when_true {W} (m : M W unit) : when true m = m.
Proof. reflexivity. Qed.
Lemma when_false {W} (m : M W unit) : when false m = mret tt.
Proof. reflexivity. Qed.

Lemma bind_throw {W A B} (m : M W A) (f : A -> M W B) w w' e :
  m w = (w', Throw e) -> (m ≫= f) w = (w', Throw e).
Proof. unfold mbind, M_bind. by intros ->. Qed.

(** ** Relations that code respects

    [m ⊨ R]: whatever world [m] starts in, it ends (normally, by an exception or by
    undefined behaviour) in a world related to it. For a preorder [R] this is closed
    under every way the monad composes code, so that it is proved operation by
    operation with the hints below. *)

Definition respects {W A} (R : W -> W -> Prop) (m : M W A) : Prop := forall w, R w (m w).1.
Notation "m ⊨ R" := (respects R m) (at level 70, no associativity) : gh_scope.

Section respects.
Context {W : Type} (R : W -> W -> Prop) `{!PreOrder R}.

Lemma respects_ret {A} (a : A) : (mret a : M W A) ⊨ R.
Proof. intros w. apply reflexivity. Qed.
Lemma respects_throw {A} e : (throw e : M W A) ⊨ R.
Proof. intros w. apply reflexivity. Qed.
Lemma respects_undefined {A} s : (undefined s : M W A) ⊨ R.
Proof. intros w. apply reflexivity. Qed.
Lemma respects_get : (get : M W W) ⊨ R.
Proof. intros w. apply reflexivity. Qed.
Lemma respects_gets {A} (f : W -> A) : gets f ⊨ R.
Proof. intros w. apply reflexivity. Qed.
Lemma respects_modify f : (forall w, R w (f w)) -> modify f ⊨ R.
Proof. intros H w. apply H. Qed.
Lemma respects_bind {A B} (m : M W A) (f : A -> M W B) :
  m ⊨ R -> (forall a, f a ⊨ R) -> (m ≫= f) ⊨ R.
Proof.
  intros Hm Hf w. unfold mbind, M_bind. specialize (Hm w).
  destruct (m w) as [w' [a|e|s]]; cbn in *; [|done..].
  etrans; [done|]. apply Hf.
Qed.
Lemma respects_try_catch {A} (m : M W A) h :
  m ⊨ R -> (forall e, h e ⊨ R) -> try_catch m h ⊨ R.
Proof.
  intros Hm Hh w. unfold try_catch. specialize (Hm w).
  destruct (m w) as [w' [a|e|s]]; cbn in *; try done.
  etrans; [done|]. apply Hh.
Qed.
Lemma respects_when b (m : M W unit) : m ⊨ R -> when b m ⊨ R.
Proof. intros Hm. destruct b; [done|]. apply respects_ret. Qed.
Lemma respects_for_each {A} (l : list A) body :
  (forall x, body x ⊨ R) -> for_each l body ⊨ R.
Proof.
  intros Hb. induction l; cbn; [apply respects_ret|].
  apply respects_bind; [apply Hb|done].
Qed.
Lemma respects_if {A} (b : bool) (m1 m2 : M W A) :
  m1 ⊨ R -> m2 ⊨ R -> (if b then m1 else m2) ⊨ R.
Proof. by destruct b. Qed.
End respects.

(** Chains of [bind], [if], [match] and loops whose leaves are hints of [gh]. *)
Ltac respects_step :=
  match goal with
  | |- respects _ (mret _) => refine (respects_ret _ _)
  | |- respects _ (throw _) => refine (respects_throw _ _)
  | |- respects _ (undefined _) => refine (respects_undefined _ _)
  | |- respects _ get => refine (respects_get _)
  | |- respects _ (gets _) => refine (respects_gets _ _)
  | |- respects _ (mbind _ _) => refine (respects_bind _ _ _ _ _); [| intros ?]
  | |- respects _ (try_catch _ _) => refine (respects_try_catch _ _ _ _ _); [| intros ?]
  | |- respects _ (when _ _) => refine (respects_when _ _ _ _)
  | |- respects _ (for_each _ _) => refine (respects_for_each _ _ _ _); intros ?
  | |- respects _ (if _ then _ else _) => apply respects_if
  | |- respects _ (match ?x with _ => _ end) => destruct x
  | |- respects _ (let _ := _ in _) => cbv zeta
  end.
Ltac respects_solve := repeat (solve [eauto with gh] || respects_step); eauto with gh.

(** The same for a thread that may block: each of its atomic sections respects the
    relation, whatever the other threads did in between. *)
Fixpoint prog_respects {W A} (R : W -> W -> Prop) (p : prog W A) : Prop :=
  match p with
  | Finished _ _ => True
  | Blocked _ until k =>
      forall w, until w = true -> R w (prog_world (k w)) /\ prog_respects R (k w)
  end.

Definition P_respects {W A} (R : W -> W -> Prop) (m : P W A) : Prop :=
  forall w, R w (prog_world (m w)) /\ prog_respects R (m w).

Section P_respects.
Context {W : Type} (R : W -> W -> Prop) `{!PreOrder R}.

Lemma prog_respects_then {A B} (p : prog W A) (f : W -> outcome A -> prog W B) :
  prog_respects R p -> (forall w r, R w (prog_world (f w r)) /\ prog_respects R (f w r)) ->
  R (prog_world p) (prog_world (prog_then p f)) /\ prog_respects R (prog_then p f).
Proof.
  intros Hp Hf. induction p as [w r|w until k IH]; cbn in *; [apply Hf|].
  split; [reflexivity|]. intros w' Hu. destruct (Hp w' Hu) as [H1 H2].
  destruct (IH w' H2) as [H3 H4]. split; [by etrans|done].
Qed.

Lemma P_respects_then {A B} (m : P W A) (f : W -> outcome A -> prog W B) :
  P_respects R m -> (forall w r, R w (prog_world (f w r)) /\ prog_respects R (f w r)) ->
  P_respects R (fun w => prog_then (m w) f).
Proof.
  intros Hm Hf w. destruct (Hm w) as [H1 H2].
  destruct (prog_respects_then (m w) f H2 Hf) as [H3 H4]. split; [by etrans|done].
Qed.

Lemma P_respects_ret {A} (a : A) : P_respects R (mret a : P W A).
Proof. intros w. split; [reflexivity|done]. Qed.
Lemma P_respects_throw {A} e : P_respects R (P_throw e : P W A).
Proof. intros w. split; [reflexivity|done]. Qed.
Lemma P_respects_lift {A} (m : M W A) : m ⊨ R -> P_respects R (lift m).
Proof. intros Hm w. specialize (Hm w). unfold lift. destruct (m w). by split. Qed.
Lemma P_respects_bind {A B} (m : P W A) (f : A -> P W B) :
  P_respects R m -> (forall a, P_respects R (f a)) -> P_respects R (m ≫= f).
Proof.
  intros Hm Hf. apply P_respects_then; [done|]. intros w [a|e|s]; [apply Hf|..];
    (split; [reflexivity|done]).
Qed.
Lemma P_respects_block until : P_respects R (block_until until).
Proof.
  intros w. unfold block_until. destruct (until w); [by split|].
  split; [reflexivity|]. intros w' _. by split.
Qed.
Lemma P_respects_destructor {A} (m : P W A) d :
  P_respects R m -> d ⊨ R -> P_respects R (with_destructor m d).
Proof.
  intros Hm Hd. apply P_respects_then; [done|]. intros w r. specialize (Hd w).
  destruct r; [..|by split]; by destruct (d w) as [w' [[]|e'|s]].
Qed.
Lemma P_respects_for_each {A} (l : list A) body :
  (forall x, P_respects R (body x)) -> P_respects R (P_for_each l body).
Proof.
  intros Hb. induction l; cbn; [apply P_respects_ret|]. by apply P_respects_bind.
Qed.
Lemma P_respects_if {A} (b : bool) (m1 m2 : P W A) :
  P_respects R m1 -> P_respects R m2 -> P_respects R (if b then m1 else m2).
Proof. by destruct b. Qed.
Lemma P_respects_try_catch {A} (m : P W A) h :
  P_respects R m -> (forall e, P_respects R (h e)) -> P_respects R (P_try_catch m h).
Proof.
  intros Hm Hh. apply P_respects_then; [done|]. intros w [a|e|s]; [|apply Hh|];
    (split; [reflexivity|done]).
Qed.
End P_respects.

(** The same chains for code that may block. *)
Ltac P_respects_step :=
  match goal with
  | |- P_respects _ (mret _) => refine (P_respects_ret _ _)
  | |- P_respects _ (P_throw _) => refine (P_respects_throw _ _)
  | |- P_respects _ (mbind _ _) => refine (P_respects_bind _ _ _ _ _); [| intros ?]
  | |- P_respects _ (block_until _) => refine (P_respects_block _ _)
  | |- P_respects _ (with_destructor _ _) => refine (P_respects_destructor _ _ _ _ _)
  | |- P_respects _ (P_try_catch _ _) => refine (P_respects_try_catch _ _ _ _ _); [| intros ?]
  | |- P_respects _ (lift _) => apply P_respects_lift
  | |- P_respects _ (if _ then _ else _) => apply P_respects_if
  | |- P_respects _ (match ?x with _ => _ end) => destruct x
  | |- P_respects _ (let _ := _ in _) => cbv zeta
  | |- respects _ _ => respects_step
  end.
Ltac P_respects_solve := repeat (solve [eauto with gh] || P_respects_step); eauto with gh.

(** ** Case analysis in hypotheses and goals *)

(** Destruct the scrutinee of a [match] or [if], remembering the equation. *)
Ltac case_any :=
  match goal with
  | |- context [match ?x with _ => _ end] => destruct x eqn:?
  | H : context [match ?x with _ => _ end] |- _ => destruct x eqn:?
  end.

(** ** Lists and options *)

Lemma foldl_app_cons {A B} (f : A -> B -> A) (a : A) (l1 l2 : list B) x :
  foldl f a (l1 ++ x :: l2) = foldl f (f (foldl f a l1) x) l2.
Proof. by rewrite foldl_app. Qed.

Lemma map_size_insert_delete {V} (m : gmap Z V) k v :
  m !! k = Some v -> size m = S (size (delete k m)).
Proof. intros H. rewrite <- (insert_delete_id m k v H) at 1.
  apply map_size_insert_None, lookup_delete_eq. Qed.

(** ** Strings

    A [std::string] is a sequence of 8-bit characters, [NUL] allowed. *)

Abbreviation bytes := list_ascii_of_string.

Lemma bytes_app s t : bytes (s +:+ t) = bytes s ++ bytes t.
Proof.
  induction s as [|c s IH]; [done|].
  change (c :: bytes (s +:+ t) = c :: bytes s ++ bytes t). by rewrite IH.
Qed.

Lemma string_of_app l m :
  string_of_list_ascii (l ++ m) = string_of_list_ascii l +:+ string_of_list_ascii m.
Proof.
  induction l as [|c l IH]; [done|].
  change (String c (string_of_list_ascii (l ++ m)) =
          String c (string_of_list_ascii l +:+ string_of_list_ascii m)).
  by rewrite IH.
Qed.

Lemma bytes_inj s t : bytes s = bytes t -> s = t.
Proof.
  intros H. by rewrite <- (string_of_list_ascii_of_string s), H,
    string_of_list_ascii_of_string.
Qed.

Lemma string_app_nil_r s : s +:+ "" = s.
Proof. apply bytes_inj. rewrite bytes_app. apply app_nil_r. Qed.
Lemma string_app_assoc s t u : s +:+ (t +:+ u) = (s +:+ t) +:+ u.
Proof. apply bytes_inj. rewrite !bytes_app. apply app_assoc. Qed.
