(* ===== verification/PrefixEnd.v ===== *)
(** * [gh::prefix_end] (gh/prefix_end.hpp, gh/prefix_end.cpp)

    [etcd] answers range queries over the keys in [[key, range_end)], in the order of
    their bytes; [prefix_end] computes the [range_end] that should select the keys
    with a given prefix. A [std::string] is a Rocq [string], that is a sequence of
    8-bit characters with [NUL] allowed. *)

From S2P Require Import Prelude.
Open Scope Z_scope.
Open Scope gh_scope.

(** ** Bytes and their order *)

(** [std::uint8_t(c)] *)
Definition byte (c : ascii) : Z := Z.of_N (N_of_ascii c).
(** A byte from an [int], as the conversion to [char] keeps its low eight bits. *)
Definition to_char (z : Z) : ascii := ascii_of_N (Z.to_N (z mod 256)).

(** Keys in the order of their bytes, as [etcd] and [std::less<std::string>] have it. *)
Fixpoint lex_ltb (a b : list ascii) : bool :=
  match a, b with
  | [], [] => false
  | [], _ :: _ => true
  | _ :: _, [] => false
  | x :: a', y :: b' =>
      if byte x <? byte y then true
      else if byte y <? byte x then false
      else lex_ltb a' b'
  end.
Definition key_ltb (a b : string) : bool := lex_ltb (bytes a) (bytes b).

(** The keys a range request selects. *)
Definition in_range (lo hi k : string) : bool := negb (key_ltb k lo) && key_ltb k hi.

Definition has_prefix (p k : string) : Prop := exists rest, k = p +:+ rest.

(** ** The function *)

(** The loop, over the characters in reverse order, and [needs_append] at its end. *)
Fixpoint carry (rs : list ascii) : list ascii * bool :=
  match rs with
  | [] => ([], true)
  | c :: rs' =>
      if byte c =? 255 then
        let '(r, needs_append) := carry rs' in (to_char 0 :: r, needs_append)
      else (to_char (byte c + 1) :: rs', false)
  end.

Definition prefix_end (prefix : string) : string :=
  let '(r, needs_append) := carry (reverse (bytes prefix)) in
  string_of_list_ascii (if needs_append then reverse r ++ [to_char 1] else reverse r).

(** ** Bytes *)

Lemma byte_range c : 0 <= byte c < 256.
Proof. unfold byte. pose proof (N_ascii_bounded c). lia. Qed.

Lemma byte_inj c d : byte c = byte d -> c = d.
Proof.
  unfold byte. intros H%N2Z.inj.
  by rewrite <- (ascii_N_embedding c), <- (ascii_N_embedding d), H.
Qed.

Lemma byte_to_char z : 0 <= z < 256 -> byte (to_char z) = z.
Proof.
  intros Hz. unfold byte, to_char. rewrite Z.mod_small by done.
  rewrite N_ascii_embedding by lia. lia.
Qed.

Lemma has_prefix_bytes p k : has_prefix p k <-> bytes p `prefix_of` bytes k.
Proof.
  split.
  - intros [r ->]. rewrite bytes_app. by eexists.
  - intros [r Hr]. exists (string_of_list_ascii r). apply bytes_inj.
    by rewrite bytes_app, list_ascii_of_string_of_list_ascii.
Qed.

(** ** The order *)

Lemma lex_ltb_irrefl a : lex_ltb a a = false.
Proof. induction a as [|x a IH]; cbn; [done|]. by rewrite Z.ltb_irrefl. Qed.

Lemma lex_ltb_cons x y a b :
  lex_ltb (x :: a) (y :: b) = true <->
  byte x < byte y \/ (x = y /\ lex_ltb a b = true).
Proof.
  cbn. destruct (Z.ltb_spec (byte x) (byte y)); [by split; [left|]|].
  destruct (Z.ltb_spec (byte y) (byte x)).
  - split; [done|]. intros [|[-> _]]; lia.
  - assert (x = y) as -> by (apply byte_inj; lia).
    split; [by right|]. intros [|[_ ?]]; [lia|done].
Qed.

(** ** The result, by the shape of the prefix *)

Definition ff (n : nat) : list ascii := replicate n (to_char 255).
Definition zeros (n : nat) : list ascii := replicate n (to_char 0).

Lemma reverse_ff n : reverse (ff n) = ff n.
Proof. apply reverse_replicate. Qed.
Lemma reverse_zeros n : reverse (zeros n) = zeros n.
Proof. apply reverse_replicate. Qed.

Lemma carry_ff n rs :
  carry (ff n ++ rs) = (zeros n ++ (carry rs).1, (carry rs).2).
Proof.
  induction n as [|n IH]; cbn; [by destruct (carry rs)|].
  unfold ff, zeros in *. rewrite byte_to_char by lia. cbn.
  by rewrite IH.
Qed.

Lemma prefix_end_bump q c n :
  byte c <> 255 ->
  prefix_end (string_of_list_ascii (q ++ c :: ff n)) =
  string_of_list_ascii (q ++ to_char (byte c + 1) :: zeros n).
Proof.
  intros Hc. unfold prefix_end. rewrite list_ascii_of_string_of_list_ascii.
  rewrite reverse_app, reverse_cons, <- app_assoc, reverse_ff, carry_ff. cbn.
  rewrite (proj2 (Z.eqb_neq _ _) Hc). cbn.
  by rewrite reverse_app, reverse_cons, reverse_involutive, reverse_zeros, <- app_assoc.
Qed.

Lemma prefix_end_all_ff n :
  prefix_end (string_of_list_ascii (ff n)) =
  string_of_list_ascii (zeros n ++ [to_char 1]).
Proof.
  unfold prefix_end. rewrite list_ascii_of_string_of_list_ascii.
  rewrite reverse_ff. pose proof (carry_ff n []) as H. rewrite app_nil_r in H. rewrite H.
  cbn. by rewrite app_nil_r, reverse_zeros.
Qed.

(** Every string is one of the two shapes. *)
Lemma ff_cases l : (exists n, l = ff n) \/ (exists q c n, l = q ++ c :: ff n /\ byte c <> 255).
Proof.
  induction l as [|x l IH]; [by left; exists 0%nat|].
  destruct IH as [[n ->]|(q & c & n & -> & Hc)].
  - destruct (decide (byte x = 255)) as [Hx|Hx].
    + left. exists (S n). cbn. f_equal. apply byte_inj. by rewrite byte_to_char.
    + right. by exists [], x, n.
  - right. by exists (x :: q), c, n.
Qed.

(** ** What the range selects *)

Lemma not_lt_ff k n : lex_ltb k (ff n) = false <-> ff n `prefix_of` k.
Proof.
  revert k. induction n as [|n IH]; intros k;
    [|change (ff (S n)) with (to_char 255 :: ff n)].
  - split; [intros _; apply prefix_nil|]. by destruct k.
  - destruct k as [|x k].
    + split; [done|]. intros [? [=]].
    + rewrite <- not_true_iff_false, lex_ltb_cons, byte_to_char by lia.
      pose proof (byte_range x). split.
      * intros Hn. assert (byte x = 255) by (destruct (decide (byte x = 255)); [done|];
          exfalso; apply Hn; left; lia).
        assert (x = to_char 255) as -> by (apply byte_inj; by rewrite byte_to_char).
        apply prefix_cons, IH, not_true_iff_false. intros ?. apply Hn. by right.
      * intros Hp Hl. assert (x = to_char 255) as -> by (by apply prefix_cons_inv_1 in Hp).
        apply prefix_cons_inv_2 in Hp. apply IH in Hp.
        rewrite byte_to_char in Hl by lia. destruct Hl as [|[_ Hl]]; [lia|congruence].
Qed.

Lemma lt_zeros k n : lex_ltb k (zeros n) = true <-> exists j, (j < n)%nat /\ k = zeros j.
Proof.
  revert k. induction n as [|n IH]; intros k;
    [|change (zeros (S n)) with (to_char 0 :: zeros n)].
  - split; [by destruct k|]. intros (j & ? & _). lia.
  - destruct k as [|x k].
    + split; [|done]. intros _. exists 0%nat. split; [lia|done].
    + rewrite lex_ltb_cons, IH, byte_to_char by lia. pose proof (byte_range x). split.
      * intros [|[-> (j & ? & ->)]]; [lia|]. exists (S j). split; [lia|done].
      * intros ([|j] & ? & Hj); [done|]. injection Hj as -> ->. right. split; [done|].
        exists j. split; [lia|done].
Qed.

Lemma range_bump q c n k :
  byte c <> 255 ->
  lex_ltb k (q ++ c :: ff n) = false /\
  lex_ltb k (q ++ to_char (byte c + 1) :: zeros n) = true <->
  (q ++ c :: ff n `prefix_of` k \/
   exists j, (j < n)%nat /\ k = q ++ to_char (byte c + 1) :: zeros j).
Proof.
  intros Hc. pose proof (byte_range c) as Hr.
  assert (Hc' : byte (to_char (byte c + 1)) = byte c + 1) by (apply byte_to_char; lia).
  revert k. induction q as [|y q IH]; intros k; cbn [app].
  - destruct k as [|x k].
    { split; [by intros []|]. intros [[? [=]]|(? & _ & [=])]. }
    rewrite <- not_true_iff_false, !lex_ltb_cons, Hc', lt_zeros. split.
    + intros [Hn [Hl|[-> (j & Hj & ->)]]]; [|right; by exists j].
      assert (x = c) as -> by (apply byte_inj; destruct (decide (byte x < byte c));
        [exfalso; apply Hn; by left|lia]).
      left. apply prefix_cons, not_lt_ff, not_true_iff_false. intros ?. apply Hn. by right.
    + intros [Hp|(j & Hj & [= -> ->])].
      * assert (x = c) as -> by (by apply prefix_cons_inv_1 in Hp).
        apply prefix_cons_inv_2, not_lt_ff in Hp. split; [|left; lia].
        intros [|[_ ?]]; [lia|congruence].
      * split; [|right; eauto]. rewrite Hc'. intros [|[Heq _]]; [lia|].
        apply (f_equal byte) in Heq. lia.
  - destruct k as [|x k].
    { split; [by intros []|]. intros [[? [=]]|(? & _ & [=])]. }
    rewrite <- not_true_iff_false, !lex_ltb_cons. split.
    + intros [Hn [?|[-> Ht]]]; [exfalso; apply Hn; by left|].
      destruct (proj1 (IH k)) as [Hp|(j & Hj & ->)].
      { split; [|done]. apply not_true_iff_false. intros ?. apply Hn. by right. }
      * left. by apply prefix_cons.
      * right. by exists j.
    + intros [Hp|(j & Hj & [= -> ->])].
      * assert (x = y) as -> by (by apply prefix_cons_inv_1 in Hp).
        apply prefix_cons_inv_2 in Hp.
        destruct (proj2 (IH k) (or_introl Hp)) as [H1 H2].
        split; [intros [|[_ ?]]; [lia|congruence]|by right].
      * destruct (proj2 (IH (q ++ to_char (byte c + 1) :: zeros j))) as [H1 H2];
          [right; by exists j|].
        split; [intros [|[_ ?]]; [lia|congruence]|by right].
Qed.

Lemma in_range_bytes lo hi k :
  in_range lo hi k = true <->
  lex_ltb (bytes k) (bytes lo) = false /\ lex_ltb (bytes k) (bytes hi) = true.
Proof.
  unfold in_range, key_ltb. rewrite andb_true_iff, negb_true_iff. done.
Qed.

(** The keys selected, for every prefix that has a byte other than 0xFF. *)
Lemma in_range_prefix_end q c n k :
  byte c <> 255 ->
  let p := string_of_list_ascii (q ++ c :: ff n) in
  in_range p (prefix_end p) k = true <->
  has_prefix p k \/
  exists j, (j < n)%nat /\ bytes k = q ++ to_char (byte c + 1) :: zeros j.
Proof.
  intros Hc p. subst p. rewrite prefix_end_bump by done.
  rewrite in_range_bytes, has_prefix_bytes, !list_ascii_of_string_of_list_ascii.
  by apply range_bump.
Qed.

Lemma in_range_prefix_end_1 (p : string) (c : ascii) (k : string) :
  byte c <> 255 ->
  in_range (p +:+ String c "") (prefix_end (p +:+ String c "")) k = true <->
  has_prefix (p +:+ String c "") k.
Proof.
  intros Hc. pose proof (in_range_prefix_end (bytes p) c 0 k Hc) as H.
  cbn in H. rewrite string_of_app, string_of_list_ascii_of_string in H. cbn in H.
  rewrite H. split; [|by left]. intros [|(j & ? & _)]; [done|lia].
Qed.

(** C27. For a prefix that does not end in the byte 0xFF the range from the prefix to
    [prefix_end] selects exactly the keys that have the prefix. *)
Theorem prefix_end_exact (p : string) (c : ascii) (k : string) :
  byte c <> 255 ->
  in_range (p +:+ String c "") (prefix_end (p +:+ String c "")) k = true <->
  has_prefix (p +:+ String c "") k.
Proof. apply in_range_prefix_end_1. Qed.

Lemma prefix_end_exact_witness :
  byte "/"%char <> 255 /\
  (in_range "foo/" (prefix_end "foo/") "foo/1a" = true <-> has_prefix "foo/" "foo/1a").
Proof. split; [done|]. apply (prefix_end_exact "foo" "/"%char "foo/1a"). done. Defined.

(** In general, with [n] trailing bytes 0xFF after a byte [c] that is not 0xFF, the
    range selects the keys with the prefix and exactly [n] further candidates: the
    bytes before [c], [c] plus one, and fewer than [n] bytes 0x00. *)
Theorem prefix_end_trailing_ff (q : list ascii) (c : ascii) (n : nat) (k : string) :
  byte c <> 255 ->
  let p := string_of_list_ascii (q ++ c :: ff n) in
  in_range p (prefix_end p) k = true <->
  has_prefix p k \/
  exists j, (j < n)%nat /\ bytes k = q ++ to_char (byte c + 1) :: zeros j.
Proof. apply in_range_prefix_end. Qed.

(** The key "ABD" is selected by the prefix "ABC\xFF" it does not have. *)
Lemma prefix_end_trailing_ff_witness :
  let p := string_of_list_ascii (bytes "AB" ++ "C"%char :: ff 1) in
  in_range p (prefix_end p) "ABD" = true.
Proof.
  cbv zeta. apply prefix_end_trailing_ff; [done|]. right. exists 0%nat. split; [lia|done].
Defined.

Lemma lt_zeros_one k n : lex_ltb k (zeros (S n) ++ [to_char 1]) = true -> lex_ltb k (ff (S n)) = true.
Proof.
  change (zeros (S n) ++ [to_char 1]) with (to_char 0 :: (zeros n ++ [to_char 1])).
  change (ff (S n)) with (to_char 255 :: ff n).
  destruct k as [|x k]; [done|]. rewrite !lex_ltb_cons, !byte_to_char by lia.
  intros [|[-> _]]; [left; lia|]. left. rewrite byte_to_char; lia.
Qed.

(** For a prefix that consists of bytes 0xFF only the range is empty: not even the
    prefix itself is selected. *)
Theorem prefix_end_all_ff_empty (n : nat) (k : string) :
  let p := string_of_list_ascii (ff (S n)) in
  in_range p (prefix_end p) k = false.
Proof.
  intros p. subst p. rewrite prefix_end_all_ff. apply not_true_iff_false.
  rewrite in_range_bytes, !list_ascii_of_string_of_list_ascii.
  intros [H1 H2%lt_zeros_one]. congruence.
Qed.

(** ** The function as arithmetic *)

(** A key as a number in base 256, its first byte the most significant. *)
Definition little (rs : list ascii) : Z := foldr (fun c acc => byte c + 256 * acc) 0 rs.
Definition number (s : string) : Z := little (reverse (bytes s)).
Definition all_ff (s : string) : bool := forallb (fun c => byte c =? 255) (bytes s).

Lemma little_cons c rs : little (c :: rs) = byte c + 256 * little rs.
Proof. done. Qed.
Lemma little_inj rs rs' : length rs = length rs' -> little rs = little rs' -> rs = rs'.
Proof.
  revert rs'. induction rs as [|c rs IH]; intros [|c' rs']; try done. intros [= Hl] E.
  rewrite !little_cons in E.
  pose proof (byte_range c). pose proof (byte_range c').
  assert (little rs = little rs' /\ byte c = byte c') as [E1 E2] by lia.
  f_equal; [by apply byte_inj|by apply IH].
Qed.

Lemma carry_spec rs :
  (carry rs).2 = forallb (fun c => byte c =? 255) rs /\ length (carry rs).1 = length rs /\
  ((carry rs).2 = false -> little (carry rs).1 = little rs + 1).
Proof.
  induction rs as [|c rs (IH1 & IH2 & IH3)]; [done|]. cbn [carry forallb].
  destruct (Z.eqb_spec (byte c) 255) as [Hc|Hc]; cbn [andb].
  - destruct (carry rs) as [r n]. cbn [fst snd length] in *. split; [done|]. split; [lia|].
    intros Hn. rewrite !little_cons, byte_to_char by lia. specialize (IH3 Hn). lia.
  - split; [done|]. split; [done|]. intros _. cbn [fst]. pose proof (byte_range c).
    rewrite !little_cons, byte_to_char by lia. lia.
Qed.

Lemma forallb_reverse {A} (f : A -> bool) l : forallb f (reverse l) = forallb f l.
Proof.
  apply eq_true_iff_eq. rewrite !forallb_forall. setoid_rewrite <- list_elem_of_In.
  by setoid_rewrite elem_of_reverse.
Qed.

(** C28. [prefix_end] is addition: for a prefix with a byte other than 0xFF the result is the one string of the
    same length that is greater by one, when both are read as numbers in base 256; otherwise the
    loop has turned all bytes to zero and a one is appended. *)
Theorem prefix_end_successor (p r : string) :
  (all_ff p = false -> r = prefix_end p <-> String.length r = String.length p /\ number r = number p + 1) /\
  (all_ff p = true -> prefix_end p = string_of_list_ascii (zeros (String.length p)) +:+ String (to_char 1) "").
Proof.
  assert (Hlen : forall s, String.length s = length (bytes s)).
  { intros s. induction s as [|c s IH]; [done|]. cbn. by rewrite IH. }
  pose proof (carry_spec (reverse (bytes p))) as (Hc & Hl & Hn).
  rewrite forallb_reverse in Hc. rewrite length_reverse in Hl. split.
  - intros Hff. unfold all_ff in Hff. rewrite Hff in Hc. specialize (Hn Hc).
    assert (He : prefix_end p = string_of_list_ascii (reverse (carry (reverse (bytes p))).1)).
    { unfold prefix_end. destruct (carry _) as [x n]. cbn in Hc. by rewrite Hc. }
    assert (Hb : bytes (prefix_end p) = reverse (carry (reverse (bytes p))).1)
      by (by rewrite He, list_ascii_of_string_of_list_ascii).
    split.
    + intros ->. unfold number. rewrite !Hlen, Hb, reverse_involutive, length_reverse. done.
    + rewrite !Hlen. intros [Hr Hnum]. apply bytes_inj. rewrite Hb. rewrite <- (reverse_involutive (bytes r)).
      f_equal. apply little_inj; [by rewrite length_reverse, Hl|]. unfold number in Hnum. lia.
  - intros Hff. assert (Hz : bytes p = ff (length (bytes p))).
    { unfold all_ff in Hff. rewrite forallb_forall in Hff. apply list_eq_Forall2, Forall2_same_length_lookup.
      unfold ff. split; [by rewrite length_replicate|]. intros i x y Hx Hy.
      apply lookup_replicate in Hy as [-> _]. apply byte_inj. rewrite byte_to_char by lia.
      apply Z.eqb_eq, Hff, list_elem_of_In. by eapply list_elem_of_lookup_2. }
    rewrite Hlen, <- (string_of_list_ascii_of_string p) at 1. rewrite Hz at 1. rewrite prefix_end_all_ff.
    by rewrite string_of_app.
Qed.

Lemma prefix_end_successor_witness :
  prefix_end "e/" = "e0" /\ number "e0" = number "e/" + 1.
Proof.
  destruct (prefix_end_successor "e/" "e0") as [Hs _]. destruct Hs as [_ Hback]; [reflexivity|].
  split; [|reflexivity]. symmetry. apply Hback. split; reflexivity.
Defined.
