(* ===== verification/OpCounter.v ===== *)
(** * [async_op_counter] and [async_op_tracer] (gh/detail/async_op_counter.hpp and .cpp)

    The counter of pending asynchronous operations that every client object uses to
    wait for its callbacks. First the operations, each one a critical section of
    [mu_], as the client models use them; then the threads that share a counter, as
    an executable transition system with the condition variable. [pending_] is an [int]; it is
    modelled in [Z], an overflow needs 2^31 operations in flight at once. The annotations
    only build a log message and are left out. *)

From S2P Require Import Prelude.
Open Scope Z_scope.
Open Scope gh_scope.

Module OpCounter.

(** ** The operations *)

Record async_op_counter := Counter { pending : Z; shutdown_flag : bool }.

#[export] Instance counter_eq_dec : EqDecision async_op_counter.
Proof. solve_decision. Defined.

(** The constructor. *)
Definition new_counter : async_op_counter := Counter 0 false.

Definition shutdown (c : async_op_counter) : async_op_counter := Counter (pending c) true.
Definition in_shutdown (c : async_op_counter) : bool := shutdown_flag c.

(** [add_op], with its result. *)
Definition add_op (c : async_op_counter) : async_op_counter * bool :=
  if shutdown_flag c then (c, false) else (Counter (pending c + 1) (shutdown_flag c), true).
Definition async_op_start := add_op.

(** [del_op], and whether it goes on to notify the condition variable. *)
Definition del_op (c : async_op_counter) : async_op_counter * bool :=
  let c' := Counter (pending c - 1) (shutdown_flag c) in (c', pending c' =? 0).
Definition async_op_done (c : async_op_counter) : async_op_counter := (del_op c).1.

(** [block_until_all_done]: the flag it sets, the condition it waits for. *)
Definition block_enter (c : async_op_counter) : async_op_counter := shutdown c.
Definition all_done (c : async_op_counter) : bool := pending c =? 0.

(** [async_op_tracer]: its constructor and its destructor. *)
Definition tracer_ctor (c : async_op_counter) : async_op_counter * bool := async_op_start c.
Definition tracer_dtor (c : async_op_counter) : async_op_counter := async_op_done c.

(** The operations as code over the counter. *)
Definition start : M async_op_counter bool := fun c =>
  let '(c', b) := async_op_start c in (c', Ok b).
Definition done : M async_op_counter unit := fun c => (async_op_done c, Ok tt).
Definition enter_block : M async_op_counter unit := fun c => (block_enter c, Ok tt).

(** ** Threads that share a counter *)

(** A thread in [block_until_all_done]: asleep in [cv_.wait], woken up (or about to
    evaluate the predicate again), or returned. *)
Inductive waiter := Sleeping | Awake | Returned.

#[export] Instance waiter_eq_dec : EqDecision waiter.
Proof. solve_decision. Defined.

(** [notifiers]: the threads in [del_op] that released [mu_] with the count at zero and have not yet
    called [notify_one]; [alive]: the counter is not destroyed; [dangling]:
    [notify_one] was called on a destroyed counter. *)
Record config := Config {
  counter : async_op_counter;
  waiters : list waiter;
  notifiers : nat;
  alive : bool;
  dangling : bool
}.

Definition initial : config := Config new_counter [] 0 true false.

Inductive event :=
  | EStart                       (* [async_op_start] *)
  | EDone                        (* [async_op_done], up to [lock.unlock()] *)
  | ENotify (i : nat)            (* [cv_.notify_one()] wakes waiter [i] *)
  | ENotifyNone                  (* [cv_.notify_one()] with nobody asleep *)
  | EEnter                       (* a thread calls [block_until_all_done] *)
  | ERecheck (i : nat)           (* a woken thread evaluates the predicate *)
  | ESpurious (i : nat)          (* a spurious wake up *)
  | EDestroy.                    (* the owner destroys the counter *)

Definition asleep (w : waiter) : bool := bool_decide (w = Sleeping).
Definition returned (w : waiter) : bool := bool_decide (w = Returned).

(** What [cv_.wait] does with the predicate at hand. *)
Definition after_test (c : async_op_counter) : waiter :=
  if all_done c then Returned else Sleeping.

(** One step of a thread, [None] when the event is not possible. *)
Definition apply (e : event) (s : config) : option config :=
  let '(Config c ws n al d) := s in
  match e with
  | EStart => if al then Some (Config (add_op c).1 ws n al d) else None
  | EDone =>
      if al then let '(c', notify) := del_op c in
        Some (Config c' ws (if notify then S n else n) al d)
      else None
  | ENotify i =>
      match n, ws !! i with
      | S n', Some Sleeping => Some (Config c (<[i := Awake]> ws) n' al (d || negb al))
      | _, _ => None
      end
  | ENotifyNone =>
      match n with
      | S n' => if existsb asleep ws then None else Some (Config c ws n' al (d || negb al))
      | O => None
      end
  | EEnter =>
      if al then let c' := block_enter c in
        Some (Config c' (ws ++ [after_test c']) n al d)
      else None
  | ERecheck i =>
      match ws !! i with
      | Some Awake => Some (Config c (<[i := after_test c]> ws) n al d)
      | _ => None
      end
  | ESpurious i =>
      match ws !! i with
      | Some Sleeping => Some (Config c (<[i := Awake]> ws) n al d)
      | _ => None
      end
  | EDestroy =>
      (* the owner destroys it once every thread it had waiting has returned *)
      if al && negb (bool_decide (ws = [])) && forallb returned ws then
        Some (Config c ws n false d)
      else None
  end.

Definition step (s s' : config) : Prop := exists e, apply e s = Some s'.
Definition reachable (s : config) : Prop := rtc step initial s.

Fixpoint run (es : list event) (s : config) : option config :=
  match es with
  | [] => Some s
  | e :: es' => match apply e s with Some s' => run es' s' | None => None end
  end.

(** ** Lemmas *)

Lemma run_app es1 es2 s :
  run (es1 ++ es2) s = match run es1 s with Some s' => run es2 s' | None => None end.
Proof. revert s. induction es1 as [|e es IH]; intros s; cbn; [done|]. by destruct (apply e s). Qed.

Lemma run_rtc es s s' : run es s = Some s' -> rtc step s s'.
Proof.
  revert s. induction es as [|e es IH]; intros s; cbn; [intros [= ->]; apply rtc_refl|].
  destruct (apply e s) as [s1|] eqn:He; [|done]. intros H.
  eapply rtc_l; [by exists e|by apply IH].
Qed.

(** Invariants by rule induction over the steps. *)

Lemma reachable_ind (I : config -> Prop) :
  I initial -> (forall e s s', reachable s -> I s -> apply e s = Some s' -> I s') ->
  forall s, reachable s -> I s.
Proof.
  intros H0 Hs s Hr. revert s Hr. apply rtc_ind_r; [done|].
  intros s1 s2 Hr [e He] HI. by eapply Hs.
Qed.

Lemma reachable_run es s s' : reachable s -> run es s = Some s' -> reachable s'.
Proof. intros Hr H. eapply rtc_trans; [done|]. by eapply run_rtc. Qed.

(** Case analysis of a step. *)
Ltac apply_cases H :=
  unfold apply in H; cbn in H;
  repeat (let E := fresh "E" in
    match type of H with
    | match ?x with _ => _ end = _ => destruct x eqn:E; try discriminate H
    end);
  try discriminate H; injection H as <-; cbn in *; simplify_eq/=.

(** A waiter exists only after the shut down; one that returned saw the count at zero, and
    nothing was counted since. *)
Definition waiters_ok (s : config) : Prop :=
  (waiters s <> [] -> shutdown_flag (counter s) = true) /\
  (Returned ∈ waiters s -> pending (counter s) <= 0).

Lemma insert_not_nil {A} (l : list A) i x : <[i := x]> l <> [] -> l <> [].
Proof. by destruct l. Qed.

Lemma elem_of_insert_other {A} (l : list A) i (x y : A) :
  y ∈ <[i := x]> l -> y = x \/ y ∈ l.
Proof.
  intros (j & Hj)%list_elem_of_lookup. destruct (decide (i = j)) as [->|Hne].
  - destruct (decide (j < length l)%nat) as [Hl|Hl].
    + rewrite list_lookup_insert_eq in Hj by done. left. congruence.
    + rewrite list_insert_ge in Hj by lia. right. apply list_elem_of_lookup. eauto.
  - rewrite list_lookup_insert_ne in Hj by done. right. apply list_elem_of_lookup. eauto.
Qed.

Lemma after_test_returned c : after_test c = Returned -> pending c = 0.
Proof. unfold after_test, all_done. case_match; [|done]. intros _. by apply Z.eqb_eq. Qed.
Lemma after_test_sleeping c : after_test c = Sleeping -> pending c <> 0.
Proof. unfold after_test, all_done. case_match; [done|]. intros _. by apply Z.eqb_neq. Qed.

Lemma waiters_ok_reachable s : reachable s -> waiters_ok s.
Proof.
  apply reachable_ind; [split; cbn; [done|by intros ?%not_elem_of_nil]|].
  intros e [[p sd] ws n al d] s' _ [Hsd Hret] He. cbn in Hsd, Hret.
  destruct e; apply_cases He; split; cbn; try done.
  - intros Hne. unfold add_op. cbn. by rewrite Hsd.
  - intros Hin. unfold add_op. cbn. rewrite Hsd; [|by intros ->; apply not_elem_of_nil in Hin].
    cbn. auto.
  - intros Hin. specialize (Hret Hin). lia.
  - intros Hne%insert_not_nil. auto.
  - intros [|]%elem_of_insert_other; [done|auto].
  - intros [Hin|Hin]%elem_of_app; [auto|].
    apply list_elem_of_singleton in Hin. symmetry in Hin.
    apply after_test_returned in Hin. cbn in Hin. lia.
  - intros Hne%insert_not_nil. auto.
  - intros [Hx|]%elem_of_insert_other; [|auto].
    symmetry in Hx. apply after_test_returned in Hx. cbn in Hx. lia.
  - intros Hne%insert_not_nil. auto.
  - intros [|]%elem_of_insert_other; [done|auto].
Qed.

(** A thread that sleeps alone with the count at zero has a notification coming. *)
Definition no_lost_wakeup (s : config) : Prop :=
  waiters s = [Sleeping] -> pending (counter s) = 0 -> (1 <= notifiers s)%nat.

Lemma insert_singleton {A} (ws : list A) i x y z :
  <[i := x]> ws = [y] -> ws !! i = Some z -> ws = [z] /\ x = y.
Proof.
  intros H Hi. assert (length ws = 1%nat) as Hl by (by rewrite <- (length_insert ws i x), H).
  pose proof (lookup_lt_Some _ _ _ Hi) as Hlt. destruct ws as [|a [|b ws]]; try done.
  destruct i as [|i]; [|cbn in *; lia]. by simplify_eq/=.
Qed.

Lemma no_lost_wakeup_reachable s : reachable s -> no_lost_wakeup s.
Proof.
  apply reachable_ind; [done|].
  intros e [[p sd] ws n al d] s' Hr%waiters_ok_reachable Hnl He.
  destruct Hr as [Hsd _]. unfold no_lost_wakeup in *. cbn in Hsd, Hnl.
  destruct e; apply_cases He; try done; intros Hws Hp.
  - subst ws. unfold add_op in Hp. cbn in Hp. rewrite Hsd in Hp by done. auto.
  - rewrite Hp. cbn. lia.
  - by destruct (insert_singleton _ _ _ _ _ Hws ltac:(eassumption)).
  - by subst ws.
  - destruct ws as [|? [|]]; [|done..]. injection Hws as Hw.
    by apply after_test_sleeping in Hw.
  - destruct (insert_singleton _ _ _ _ _ Hws ltac:(eassumption)) as [_ Hw].
    by apply after_test_sleeping in Hw.
  - by destruct (insert_singleton _ _ _ _ _ Hws ltac:(eassumption)).
Qed.

Lemma after_test_zero c : pending c = 0 -> after_test c = Returned.
Proof. unfold after_test, all_done. by intros ->. Qed.

(** A thread that waits alone returns once the count is at zero. *)
Lemma waiter_returns_at_zero s w :
  reachable s -> waiters s = [w] -> pending (counter s) = 0 ->
  exists es s', (forall i, ESpurious i ∉ es) /\ (length es <= 2)%nat /\
    run es s = Some s' /\ waiters s' = [Returned].
Proof.
  intros Hr%no_lost_wakeup_reachable Hws Hp.
  destruct s as [[p sd] ws n al d]. cbn in *. subst ws p.
  destruct w.
  - specialize (Hr eq_refl eq_refl). cbn in Hr. destruct n as [|n]; [lia|].
    exists [ENotify 0; ERecheck 0]. eexists. split_and!; [|done..].
    intros i. rewrite !not_elem_of_cons. by split_and!; [..|apply not_elem_of_nil].
  - exists [ERecheck 0]. eexists. split_and!; [|cbn; lia|done|done].
    intros i. rewrite !not_elem_of_cons. by split_and!; [..|apply not_elem_of_nil].
  - exists []. eexists. split_and!; [|cbn; lia|done|done]. intros i. apply not_elem_of_nil.
Qed.

(** The pending operations complete one after the other. *)
Lemma run_dones n s :
  alive s = true -> pending (counter s) = Z.of_nat n ->
  exists s', run (replicate n EDone) s = Some s' /\ pending (counter s') = 0 /\
    waiters s' = waiters s /\ alive s' = true.
Proof.
  revert s. induction n as [|n IH]; intros s Hal Hp; cbn.
  - exists s. split_and!; done.
  - destruct s as [[p sd] ws m al d]. cbn in *. subst al.
    edestruct (IH (Config (Counter (p - 1) sd) ws
                     (if p - 1 =? 0 then S m else m) true d)) as (s' & H1 & H2 & H3 & H4);
      [done|cbn; lia|]. cbn in *. eauto.
Qed.

(** C29. [block_until_all_done] does not hang: from every reachable state in which one thread is
    inside it, after the [n] pending operations complete, a notification and a test
    of the predicate (both available, no spurious wake up needed) make it return. *)
Theorem block_until_all_done_returns (s : config) (w : waiter) (n : nat) :
  reachable s -> waiters s = [w] -> alive s = true ->
  pending (counter s) = Z.of_nat n ->
  exists es s', (forall i, ESpurious i ∉ es) /\ (length es <= 2)%nat /\
    run (replicate n EDone ++ es) s = Some s' /\ waiters s' = [Returned].
Proof.
  intros Hr Hws Hal Hp.
  destruct (run_dones n s Hal Hp) as (s1 & Hrun & Hp1 & Hws1 & _).
  destruct (waiter_returns_at_zero s1 w) as (es & s' & H1 & H2 & H3 & H4);
    [by eapply reachable_run|congruence|done|].
  exists es, s'. split_and!; [done..| |done]. by rewrite run_app, Hrun.
Qed.

Lemma block_until_all_done_returns_witness :
  exists es s', (forall i, ESpurious i ∉ es) /\ (length es <= 2)%nat /\
    run (replicate 2 EDone ++ es) (Config (Counter 2 true) [Sleeping] 0 true false) = Some s' /\
    waiters s' = [Returned].
Proof.
  apply (block_until_all_done_returns _ Sleeping 2); [|done..].
  eapply (reachable_run [EStart; EStart; EEnter]); [apply rtc_refl|done].
Defined.



(** A thread asleep with the count at or below zero and no notification coming sleeps on. *)
Lemma asleep_forever i es s s' :
  waiters s !! i = Some Sleeping -> shutdown_flag (counter s) = true ->
  pending (counter s) <= 0 -> notifiers s = 0%nat ->
  ESpurious i ∉ es -> run es s = Some s' -> waiters s' !! i = Some Sleeping.
Proof.
  revert s. induction es as [|e es IH]; cbn; intros s Hi Hsd Hp Hn Hes Hrun;
    [by injection Hrun as <-|].
  apply not_elem_of_cons in Hes as [Hne Hes].
  destruct (apply e s) as [s1|] eqn:He; [|done].
  destruct s as [[p sd] ws n al d]. cbn in Hi, Hsd, Hp, Hn. subst sd n.
  apply (IH s1); [..|done|done]; clear IH Hrun Hes; destruct e; apply_cases He; try done;
    try lia.
  - by rewrite lookup_app_l by (by eapply lookup_lt_Some).
  - rewrite list_lookup_insert_ne; [done|]. intros ->. congruence.
  - rewrite list_lookup_insert_ne; [done|]. intros ->. congruence.
  - destruct (Z.eqb_spec (p - 1) 0); [lia|done].
Qed.

(** [notify_one] serves one thread: with two threads in [block_until_all_done] there is an
    execution after which one of them never returns (spurious wake ups aside), although every
    operation has completed. *)
Theorem two_waiters_lost_wakeup :
  exists s, run [EStart; EEnter; EEnter; EDone; ENotify 0; ERecheck 0] initial = Some s /\
    pending (counter s) = 0 /\ waiters s = [Returned; Sleeping] /\
    forall es s', ESpurious 1 ∉ es -> run es s = Some s' -> waiters s' !! 1%nat = Some Sleeping.
Proof.
  eexists. split; [reflexivity|]. split_and!; [done..|].
  intros es s' Hes Hrun. by eapply asleep_forever; [| | | | |exact Hrun].
Qed.

(** [del_op] notifies after it has released the mutex: a waiter can see the count at zero in
    between, return, and destroy the counter, which [notify_one] then uses. One operation
    and one waiter are enough. *)
Theorem notify_after_destroy :
  exists s, run [EStart; EDone; EEnter; EDestroy; ENotifyNone] initial = Some s /\
    alive s = false /\ dangling s = true.
Proof. by eexists. Qed.

(** An [async_op_tracer] keeps the balance of a counter that is not shut down, but on a
    counter that is, its destructor removes an operation its constructor did not add. *)
Theorem async_op_tracer_balance (c : async_op_counter) :
  tracer_dtor (tracer_ctor c).1 =
  Counter (if in_shutdown c then pending c - 1 else pending c) (shutdown_flag c).
Proof.
  destruct c as [p []]; unfold tracer_dtor, tracer_ctor, async_op_done, async_op_start; cbn;
    [done|]. by rewrite Z.add_simpl_r.
Qed.

End OpCounter.
