(* ===== verification/RpcPolicies.v ===== *)
(** * RPC policies (gh/detail/rpc_policies.hpp and .cpp, rpc_backoff_policy.hpp,
      rpc_retry_policy.hpp)

    The policies are stateful objects with a virtual [on_failure]; it is modelled in the
    monad [M] over the policy's own state. Counts of milliseconds are [std::int64_t] and the
    error count is an [int]: arithmetic that overflows them is [UB]. *)

From S2P Require Import Prelude.
Open Scope Z_scope.
Open Scope gh_scope.

(** ** Machine integers and [std::chrono] durations *)

Definition INT_MAX : Z := 2 ^ 31 - 1.
Definition INT64_MAX : Z := 2 ^ 63 - 1.
Definition INT64_MIN : Z := - 2 ^ 63.

(** The value of signed 64-bit arithmetic. *)
Definition int64 {W} (z : Z) : M W Z :=
  if (INT64_MIN <=? z) && (z <=? INT64_MAX) then mret z
  else undefined "signed 64-bit overflow".

Lemma int64_in_range {W} z (w : W) : INT64_MIN <= z <= INT64_MAX -> int64 z w = (w, Ok z).
Proof.
  intros [H1%Z.leb_le H2%Z.leb_le]. unfold int64. by rewrite H1, H2.
Qed.

(** [std::chrono::duration<std::int64_t, std::ratio<num, den>>] with [count] ticks. *)
Record duration := Duration { count : Z; num : Z; den : Z }.
Definition milliseconds (n : Z) : duration := Duration n 1 1000.
Definition seconds (n : Z) : duration := Duration n 1 1.

(** [std::chrono::duration_cast<std::chrono::milliseconds>(d).count()], towards zero. *)
Definition duration_cast_ms (d : duration) : Z := Z.quot (count d * num d * 1000) (den d).

Lemma duration_cast_ms_milliseconds n : duration_cast_ms (milliseconds n) = n.
Proof. unfold duration_cast_ms, milliseconds. cbn. rewrite Z.mul_1_r. by apply Z.quot_mul. Qed.
#[export] Hint Rewrite duration_cast_ms_milliseconds : gh.

(** ** The interfaces *)

(** [rpc_backoff_policy]: [on_failure] returns the delay in milliseconds, [clone] copies; the
    states the constructors and the operations produce satisfy [backoff_inv], on which
    [on_failure] returns normally, a delay that is not negative. *)
Class rpc_backoff_policy (T : Type) := {
  backoff_on_failure : M T Z;
  backoff_clone : T -> T;
  backoff_inv : T -> Prop;
  backoff_ok t : backoff_inv t ->
    exists t' d, backoff_on_failure t = (t', Ok d) /\ backoff_inv t' /\ 0 <= d;
  backoff_clone_inv t : backoff_inv t -> backoff_inv (backoff_clone t)
}.

(** [rpc_retry_policy]: [on_failure] at a time of the system clock tells whether to try
    again; [clone] may read the clock. *)
Class rpc_retry_policy (T : Type) := {
  retry_on_failure (now : Z) : M T bool;
  retry_clone (now : Z) : T -> T
}.

(** ** [exponential_backoff] *)

Module exponential_backoff.

Record t := Backoff { min_delay : Z; max_delay : Z; current_delay : Z }.

#[export] Instance t_eq_dec : EqDecision t.
Proof. solve_decision. Defined.

Definition validate_arguments (s : t) : outcome unit :=
  if max_delay s <? min_delay s then
    Throw (invalid_argument ("exponential_backoff() - min_delay (" +:+ pretty (min_delay s) +:+
      "ms) should be <= max_delay (" +:+ pretty (max_delay s) +:+ "ms)"))
  else Ok tt.

(** The constructor. [current_delay_(min_delay)] compiles for exact conversions only,
    which agree with the cast. *)
Definition make (min_delay max_delay : duration) : outcome t :=
  let s := Backoff (duration_cast_ms min_delay) (duration_cast_ms max_delay)
                   (duration_cast_ms min_delay) in
  match validate_arguments s with
  | Ok _ => Ok s
  | Throw e => Throw e
  | UB w => UB w
  end.

Definition on_failure : M t Z :=
  current ← gets current_delay;
  doubled ← int64 (2 * current);
  modify (fun s => Backoff (min_delay s) (max_delay s) doubled);;
  s ← get;
  when (max_delay s <? current_delay s)
    (modify (fun s => Backoff (min_delay s) (max_delay s) (max_delay s)));;
  mret current.

(** [new exponential_backoff( *this)] *)
Definition clone (s : t) : t := s.

(** States of a policy with delays that leave room for the doubling. *)
Definition inv (s : t) : Prop :=
  0 <= min_delay s /\ min_delay s <= current_delay s <= max_delay s /\
  2 * max_delay s <= INT64_MAX.

Lemma on_failure_step s :
  inv s ->
  on_failure s =
    (Backoff (min_delay s) (max_delay s) (max_delay s `min` (2 * current_delay s)),
     Ok (current_delay s)).
Proof.
  destruct s as [lo hi cur]. unfold inv. cbn. intros (H1 & H2 & H3).
  unfold on_failure. munfold.
  rewrite int64_in_range by (unfold INT64_MIN, INT64_MAX in *; lia). munfold.
  destruct (Z.ltb_spec hi (2 * cur)); munfold; do 2 f_equal; lia.
Qed.

Lemma inv_step s :
  inv s -> inv (Backoff (min_delay s) (max_delay s) (max_delay s `min` (2 * current_delay s))).
Proof. unfold inv. cbn. lia. Qed.

(** The delays of [n] consecutive calls. *)
Fixpoint delays (n : nat) : M t (list Z) :=
  match n with
  | O => mret []
  | S n' => d ← on_failure; ds ← delays n'; mret (d :: ds)
  end.

Lemma delays_from s n :
  inv s -> (delays n s).2 = Ok ((fun k => max_delay s `min` (current_delay s * 2 ^ Z.of_nat k)) <$> seq 0 n).
Proof.
  revert s. induction n as [|n IH]; intros s Hs; [done|].
  cbn [delays]. munfold. rewrite on_failure_step by done. munfold.
  specialize (IH _ (inv_step _ Hs)). cbn in IH.
  destruct (delays n _) as [w r]. cbn in IH. subst r. munfold. f_equal.
  destruct Hs as (H1 & H2 & H3). f_equal.
  - change (Z.of_nat 0) with 0. lia.
  - rewrite <- fmap_S_seq, <- list_fmap_compose. apply list_fmap_ext. intros _ k _. cbn.
    rewrite Nat2Z.inj_succ, Z.pow_succ_r by lia.
    pose proof (Z.pow_pos_nonneg 2 (Z.of_nat k)). nia.
Qed.

(** C38. The delays of an [exponential_backoff] double from the minimum and saturate at the
    maximum: the [k]-th call of [on_failure] returns min(max, min * 2^k), without
    overflow as long as twice the maximum is a 64-bit integer. *)
Theorem exponential_backoff_delays (lo hi : Z) (n : nat) (s : t) :
  0 <= lo -> 2 * hi <= INT64_MAX ->
  make (milliseconds lo) (milliseconds hi) = Ok s ->
  (delays n s).2 = Ok ((fun k => hi `min` (lo * 2 ^ Z.of_nat k)) <$> seq 0 n).
Proof.
  intros Hlo Hhi. unfold make, validate_arguments. autorewrite with gh. cbn.
  destruct (Z.ltb_spec hi lo); [done|]. intros [= <-].
  rewrite delays_from; [done|]. unfold inv. cbn. lia.
Qed.

Lemma exponential_backoff_delays_witness :
  (delays 5 (Backoff 10 50 10)).2 = Ok [10; 20; 40; 50; 50].
Proof. apply (exponential_backoff_delays 10 50 5); [lia|unfold INT64_MAX; lia|done]. Defined.

End exponential_backoff.

#[export] Program Instance exponential_backoff_policy : rpc_backoff_policy exponential_backoff.t := {|
  backoff_on_failure := exponential_backoff.on_failure;
  backoff_clone := exponential_backoff.clone;
  backoff_inv := exponential_backoff.inv
|}.
Next Obligation.
  intros s Hs. eexists _, _. split; [by apply exponential_backoff.on_failure_step|].
  split; [by apply exponential_backoff.inv_step|]. destruct Hs. lia.
Qed.
Next Obligation. done. Qed.

(** ** [limited_errors] *)

Module limited_errors.

Record t := Limited { maximum_count : Z; current_count : Z }.

Definition validate_arguments (s : t) : outcome unit :=
  if maximum_count s <=? 0 then
    Throw (invalid_argument
      ("limited_errors() - maximum_count (" +:+ pretty (maximum_count s) +:+ ") should be >= 0"))
  else Ok tt.

Definition make (maximum_count : Z) : outcome t :=
  let s := Limited maximum_count 0 in
  match validate_arguments s with
  | Ok _ => Ok s
  | Throw e => Throw e
  | UB w => UB w
  end.

(** [return current_count_++ < maximum_count_;] *)
Definition on_failure (now : Z) : M t bool :=
  s ← get;
  if current_count s =? INT_MAX then undefined "int overflow"
  else
    modify (fun s => Limited (maximum_count s) (current_count s + 1));;
    mret (current_count s <? maximum_count s).

Definition clone (now : Z) (s : t) : t := s.

Fixpoint failures (now : Z) (n : nat) : M t (list bool) :=
  match n with
  | O => mret []
  | S n' => b ← on_failure now; bs ← failures now n'; mret (b :: bs)
  end.

Lemma failures_from now s n :
  0 <= current_count s -> current_count s + Z.of_nat n <= INT_MAX ->
  (failures now n s).2 =
    Ok ((fun k => current_count s + Z.of_nat k <? maximum_count s) <$> seq 0 n).
Proof.
  revert s. induction n as [|n IH]; intros s H0 Hn; [done|].
  cbn [failures]. unfold on_failure. munfold.
  destruct (Z.eqb_spec (current_count s) INT_MAX); [lia|]. munfold.
  specialize (IH (Limited (maximum_count s) (current_count s + 1))). cbn in IH.
  rewrite Nat2Z.inj_succ in Hn.
  destruct (failures now n _) as [w r]. cbn in IH. rewrite IH by lia. munfold. do 2 f_equal.
  - by rewrite Z.add_0_r.
  - rewrite <- fmap_S_seq, <- list_fmap_compose. apply list_fmap_ext. intros _ k _. cbn.
    f_equal. lia.
Qed.

(** A [limited_errors] policy allows exactly [maximum_count] retries: the [k]-th failure
    (from 0) is retried when [k < maximum_count], for as many failures as an [int] counts. *)
Theorem limited_errors_retries (m now : Z) (n : nat) (s : t) :
  make m = Ok s -> Z.of_nat n <= INT_MAX ->
  0 < m /\ (failures now n s).2 = Ok ((fun k => Z.of_nat k <? m) <$> seq 0 n).
Proof.
  unfold make, validate_arguments. cbn. destruct (Z.leb_spec m 0); [done|].
  intros [= <-] Hn. split; [done|]. by rewrite failures_from.
Qed.

Lemma limited_errors_retries_witness :
  0 < 3 /\ (failures 0 5 (Limited 3 0)).2 = Ok [true; true; true; false; false].
Proof. apply (limited_errors_retries 3 0 5); [done|unfold INT_MAX; lia]. Defined.

(** The constructor rejects a zero count with a message that says zero is accepted. *)
Lemma make_zero_rejected :
  make 0 = Throw (invalid_argument "limited_errors() - maximum_count (0) should be >= 0").
Proof. reflexivity. Qed.

End limited_errors.

#[export] Instance limited_errors_policy : rpc_retry_policy limited_errors.t := {|
  retry_on_failure := limited_errors.on_failure;
  retry_clone := limited_errors.clone
|}.

(** ** [limited_time] *)

Module limited_time.

Record t := Timed { duration_ : Z; deadline_ : Z }.

(** The constructor reads the clock. *)
Definition make (now : Z) (maximum_duration : duration) : t :=
  let d := duration_cast_ms maximum_duration in Timed d (now + d).

Definition on_failure (now : Z) : M t bool := s ← get; mret (now <? deadline_ s).

(** [new limited_time(duration_)]: the deadline is computed again. *)
Definition clone (now : Z) (s : t) : t := make now (milliseconds (duration_ s)).

(** A [limited_time] policy made at [t0] retries at the times before [t0 + d]; its clone made at
    [t1], however late, retries at the times before [t1 + d]: cloning this policy
    restarts its budget. *)
Theorem limited_time_clone (t0 t1 now : Z) (d : duration) :
  let s := make t0 d in
  (on_failure now s).2 = Ok (now <? t0 + duration_cast_ms d) /\
  (on_failure now (clone t1 s)).2 = Ok (now <? t1 + duration_cast_ms d).
Proof.
  cbv zeta. unfold on_failure, clone, make. munfold. by autorewrite with gh.
Qed.

End limited_time.

#[export] Instance limited_time_policy : rpc_retry_policy limited_time.t := {|
  retry_on_failure := limited_time.on_failure;
  retry_clone := limited_time.clone
|}.
