(* ===== verification/Runtime.v ===== *)
(** * Run-time services: [std::promise], strings of numbers, assertions and gRPC errors

    The pieces every component uses: the one-shot state shared by a [std::promise] and its
    futures, [std::hex] and decimal output, [GH_ASSERT_THROW] (gh/assert_throw.hpp and
    .cpp), the annotations appended to error messages (gh/detail/append_annotations.hpp) and the
    exceptions made from a [grpc::Status] (gh/detail/grpc_errors.hpp). *)

From Stdlib Require Import HexadecimalString HexadecimalN.
From S2P Require Import Prelude.
Open Scope Z_scope.
Open Scope gh_scope.

(** ** [std::promise] *)

(** Whether [get_future] was called, and the value or exception stored. *)
Record promise (A : Type) := Promise { retrieved : bool; result : option (outcome A) }.
Arguments Promise {A} retrieved result.
Arguments retrieved {A} p.
Arguments result {A} p.

Definition new_promise {A} : promise A := Promise false None.

(** [set_value] and [set_exception]: they throw when a result is stored already. *)
Definition promise_set {A} (r : outcome A) : M (promise A) unit := fun p =>
  match result p with
  | Some _ => (p, Throw (future_error promise_already_satisfied))
  | None => (Promise (retrieved p) (Some r), Ok tt)
  end.

Definition promise_get_future {A} : M (promise A) unit := fun p =>
  if retrieved p then (p, Throw (future_error future_already_retrieved))
  else (Promise true (result p), Ok tt).

(** The destructor of an unsatisfied promise stores an error for its futures. *)
Definition promise_abandon {A} (p : promise A) : promise A :=
  match result p with
  | Some _ => p
  | None => Promise (retrieved p) (Some (Throw (future_error broken_promise)))
  end.

(** A result, once there, stays. *)
Definition promise_le {A} (p p' : promise A) : Prop :=
  forall r, result p = Some r -> result p' = Some r.

#[export] Instance promise_le_preorder {A} : PreOrder (@promise_le A).
Proof. split; [by intros p r|]. intros p q r H1 H2 x Hx. by apply H2, H1. Qed.

Lemma promise_set_le {A} (r : outcome A) : promise_set r ⊨ promise_le.
Proof. intros p x Hx. unfold promise_set. by rewrite Hx. Qed.
Lemma promise_get_future_le {A} : @promise_get_future A ⊨ promise_le.
Proof. intros p x Hx. unfold promise_get_future. by destruct (retrieved p). Qed.
#[export] Hint Resolve promise_set_le promise_get_future_le : gh.

(** [std::future_status], and its output (gh/detail/stream_future_status.hpp); a value cast from another
    integer is no enumerator. *)
Inductive future_status := deferred | ready | timeout | no_enumerator.
#[export] Instance future_status_eq_dec : EqDecision future_status.
Proof. solve_decision. Defined.
Definition print_future_status (os : string) (x : future_status) : outcome string :=
  match x with
  | timeout => Ok (os +:+ "[timeout]")
  | ready => Ok (os +:+ "[ready]")
  | deferred => Ok (os +:+ "[deferred]")
  | no_enumerator => Throw (runtime_error "unknown std::future_status")
  end.
(** [wait_for(0ms)] of a future of a promise. *)
Definition wait_for_0 {A} (p : promise A) : future_status :=
  match result p with Some _ => ready | None => timeout end.

(** ** Output of integers *)

(** [os << std::hex << n] for an unsigned integer. *)
Definition to_hex (n : N) : string := NilZero.string_of_uint (N.to_hex_uint n).

Lemma to_hex_uint_not_nil n : N.to_hex_uint n <> Hexadecimal.Nil.
Proof.
  intros H. assert (n = 0%N) as ->; [|discriminate].
  rewrite <- (Unsigned.of_to n), H. reflexivity.
Qed.

Lemma to_hex_inj n m : to_hex n = to_hex m -> n = m.
Proof.
  unfold to_hex. intros H%(f_equal NilZero.uint_of_string).
  rewrite !NilZero.usu in H by apply to_hex_uint_not_nil.
  injection H as H. by apply Unsigned.to_uint_inj.
Qed.

(** No output of [std::hex] has a separator in it. *)
Lemma string_of_hex_uint_no_slash d :
  "/"%char ∉ list_ascii_of_string (NilEmpty.string_of_uint d).
Proof.
  induction d; cbn; rewrite ?not_elem_of_cons; try (split; [done|exact IHd]).
  apply not_elem_of_nil.
Qed.

Lemma to_hex_no_slash n : "/"%char ∉ list_ascii_of_string (to_hex n).
Proof.
  unfold to_hex. pose proof (to_hex_uint_not_nil n) as H.
  destruct (N.to_hex_uint n) as [|d|d|d|d|d|d|d|d|d|d|d|d|d|d|d|d] eqn:E; [done|..];
    unfold NilZero.string_of_uint; apply string_of_hex_uint_no_slash.
Qed.

(** Conversions between 64-bit integers: modulo 2^64. *)
Definition to_uint64 (z : Z) : Z := z mod 2 ^ 64.
Definition to_int64 (z : Z) : Z := (z + 2 ^ 63) mod 2 ^ 64 - 2 ^ 63.

Lemma to_int64_to_uint64 z : - 2 ^ 63 <= z < 2 ^ 63 -> to_int64 (to_uint64 z) = z.
Proof.
  intros Hz. unfold to_int64, to_uint64.
  rewrite Zplus_mod_idemp_l, Z.mod_small; lia.
Qed.

(** ** Assertions *)

(** [assert_throw_impl]. *)
Definition assert_throw_impl {W} (what function filename : string) (lineno : Z) : M W unit :=
  throw (runtime_error ("assertion failure (" +:+ what +:+ ") was not true in " +:+ function +:+
    "@ (" +:+ filename +:+ ":" +:+ pretty lineno +:+ ")")).

(** [GH_ASSERT_THROW(P)]. *)
Definition GH_ASSERT_THROW {W} (b : bool) (what function filename : string) (lineno : Z) : M W unit :=
  if b then mret tt else assert_throw_impl what function filename lineno.

(** ** gRPC errors *)

Record status := Status { error_code : Z; error_message : string }.
Definition status_OK : status := Status 0 "".
Definition status_ok (s : status) : bool := error_code s =? 0.

#[export] Instance status_eq_dec : EqDecision status.
Proof. solve_decision. Defined.

(** [append_annotations]: each annotation in turn. *)
Fixpoint append_annotations (os : string) (a : list string) : string :=
  match a with
  | [] => os
  | h :: t => append_annotations (os +:+ h) t
  end.

Definition make_exception (s : status) (location : string) (a : list string) : exn :=
  runtime_error (append_annotations
    (location +:+ " grpc error: " +:+ error_message s +:+ " [" +:+ pretty (error_code s) +:+ "]") a).

Definition check_grpc_status {W} (s : status) (location : string) (a : list string) : M W unit :=
  if status_ok s then mret tt else throw (make_exception s location a).

Lemma append_annotations_app os a b :
  append_annotations os (a ++ b) = append_annotations (append_annotations os a) b.
Proof. revert os. induction a as [|h t IH]; intros os; [done|]. apply IH. Qed.

Lemma append_annotations_concat os a :
  append_annotations os a = os +:+ foldr String.append "" a.
Proof.
  revert os. induction a as [|h t IH]; intros os; cbn [append_annotations foldr].
  - by rewrite string_app_nil_r.
  - by rewrite IH, string_app_assoc.
Qed.
