(* ===== verification/Log.v ===== *)
(** * The logging framework (gh/log.hpp, log.cpp, log_severity.hpp, log_severity.cpp, log_sink.hpp)

    A [log] holds a minimum severity and a list of sinks; [GH_LOG(level) << text] formats a message and
    writes it to every sink. What a sink does with a message is up to the application: here it is
    recorded in [written], and whether it throws is the parameter [Sinks]. *)

From S2P Require Import Prelude.
Open Scope Z_scope.
Open Scope gh_scope.

Module Log.

(** ** Severities *)

Inductive severity :=
  | trace | debug | info | notice | warning | error | critical | alert | fatal.

#[export] Instance severity_eq_dec : EqDecision severity.
Proof. solve_decision. Defined.

(** [int(x)] *)
Definition int_of (x : severity) : Z :=
  match x with
  | trace => 0 | debug => 1 | info => 2 | notice => 3 | warning => 4 | error => 5
  | critical => 6 | alert => 7 | fatal => 8
  end.
Definition HIGHEST : severity := fatal.
Definition LOWEST : severity := trace.
(** [GH_MIN_SEVERITY], and the enumerator made from it. *)
Definition GH_MIN_SEVERITY : severity := info.
Definition LOWEST_ENABLED : severity := GH_MIN_SEVERITY.

Definition severity_ltb (a b : severity) : bool := int_of a <? int_of b.

(** [os << x]: the name from the table. *)
Definition names : list string :=
  ["trace"; "debug"; "info"; "notice"; "warning"; "error"; "critical"; "alert"; "fatal"].
Definition print_severity (x : severity) : string := default "" (names !! Z.to_nat (int_of x)).

Definition level_compile_time_disabled (lvl : severity) : bool := severity_ltb lvl GH_MIN_SEVERITY.

(** ** The core *)

(** A sink of the application may throw an exception for a message. *)
Class Sinks (sink : Type) := { sink_throws (s : sink) (sev : severity) (msg : string) : option exn }.

(** [written] has the latest message first. *)
Record log (sink : Type) := LogCore {
  mu_ : bool;
  min_severity_ : severity;
  sinks_ : list sink;
  written : list (sink * severity * string)
}.
Arguments LogCore {sink} _ _ _ _.
Arguments mu_ {sink} _.
Arguments min_severity_ {sink} _.
Arguments sinks_ {sink} _.
Arguments written {sink} _.

Section log.
Context {sink : Type} `{Sinks sink}.
#[local] Abbreviation W := (log sink).

Definition new_log : log sink := LogCore false LOWEST [] [].

(** [singleton_], made by the first call. *)
Definition instance (singleton_ : option (log sink)) : option (log sink) * log sink :=
  match singleton_ with
  | Some l => (singleton_, l)
  | None => (Some new_log, new_log)
  end.

(** A member with a [std::lock_guard]. *)
Definition with_lock {A} (m : M W A) : M W A :=
  b ← gets mu_;
  if (b : bool) then undefined "mutex locked twice by a thread"
  else
    modify (fun s => LogCore true (min_severity_ s) (sinks_ s) (written s));;
    a ← m;
    modify (fun s => LogCore false (min_severity_ s) (sinks_ s) (written s));;
    mret a.

Definition add_sink (s : sink) : M W unit :=
  with_lock (modify (fun l => LogCore (mu_ l) (min_severity_ l) (sinks_ l ++ [s]) (written l))).
Definition clear_sinks : M W unit :=
  with_lock (modify (fun l => LogCore (mu_ l) (min_severity_ l) [] (written l))).
Definition set_min_severity (sev : severity) : M W unit :=
  with_lock (modify (fun l => LogCore (mu_ l) sev (sinks_ l) (written l))).
Definition min_severity : M W severity := with_lock (gets min_severity_).

(** [log_to_functor::log]: forwards to the functor. *)
Definition sink_log (s : sink) (sev : severity) (msg : string) : M W unit :=
  modify (fun l => LogCore (mu_ l) (min_severity_ l) (sinks_ l) ((s, sev, msg) :: written l));;
  match sink_throws s sev msg with Some e => throw e | None => mret tt end.

Definition write (sev : severity) (msg : string) : M W unit :=
  sinks ← gets sinks_;
  match sinks with
  | [] => mret tt
  | _ =>
      lowest ← min_severity;
      if severity_ltb sev lowest then mret tt
      else
        match sinks with
        | [s] => sink_log s sev msg
        | _ => for_each sinks (fun s => sink_log s sev msg)
        end
  end.

(** ** Loggers *)

(** [logger<false>]; [lineno] is [None] while it is not initialized. *)
Record logger := Logger {
  os : string;
  sev : severity;
  function : string;
  filename : string;
  lineno : option Z;
  closed : bool
}.

(** The constructor. *)
Definition make_logger (s : severity) (func file : string) (line : Z) : M W logger :=
  lowest ← min_severity;
  if severity_ltb s lowest then mret (Logger "" s "" "" None true)
  else mret (Logger ("[" +:+ print_severity s +:+ "] ") s func file (Some line) false).

(** [explicit operator bool] *)
Definition is_open (l : logger) : bool := negb (closed l).

(** [l.get() << text] *)
Definition stream (text : string) (l : logger) : logger :=
  Logger (os l +:+ text) (sev l) (function l) (filename l) (lineno l) (closed l).

Definition write_to (l : logger) : M W logger :=
  match lineno l with
  | None => undefined "lineno read before it is initialized"
  | Some line =>
      let os' := os l +:+ " in " +:+ function l +:+ " (" +:+ filename l +:+ ":" +:+ pretty line +:+ ")" in
      write (sev l) os';;
      mret (Logger os' (sev l) (function l) (filename l) (lineno l) true)
  end.

(** [null_stream]: [n << x] is [n]. *)
Inductive null_stream := null.
Definition null_put {A} (n : null_stream) (x : A) : null_stream := n.

(** [logger<true>], with its [os]: [operator bool], [get] and [write_to]. *)
Record disabled_logger := Disabled { null_os : null_stream }.
Definition disabled_is_open (l : disabled_logger) : bool := false.
Definition disabled_get (l : disabled_logger) : null_stream := null_os l.
Definition disabled_write_to (l : disabled_logger) : M W unit := mret tt.

(** The [for] loop of [GH_LOG_I], at most [fuel] rounds of it: whether it ended. [text] is the code of the
    expression streamed. *)
Fixpoint log_loop (fuel : nat) (l : logger) (text : M W string) : M W bool :=
  match fuel with
  | O => mret false
  | S fuel' =>
      if is_open l then
        t ← text;
        l' ← write_to (stream t l);
        log_loop fuel' l' text
      else mret true
  end.

(** [GH_LOG_I(level, sink) << text]. A level that is disabled at compile time has a
    [logger<true>], whose [operator bool] is false. *)
Definition GH_LOG_I (fuel : nat) (level : severity) (func file : string) (line : Z) (text : M W string) :
    M W bool :=
  if level_compile_time_disabled level then mret true
  else
    l ← make_logger level func file line;
    log_loop fuel l text.

(** ** What is guaranteed *)

Lemma min_severity_eq (l : log sink) : mu_ l = false -> min_severity l = (l, Ok (min_severity_ l)).
Proof. destruct l as [b m ss r]. cbn. intros ->. done. Qed.

(** The calls that reach the sinks of a list: up to the first that throws. *)
Fixpoint sent (ss : list sink) (sv : severity) (msg : string) : list (sink * severity * string) * outcome unit :=
  match ss with
  | [] => ([], Ok tt)
  | s :: ss' =>
      match sink_throws s sv msg with
      | Some e => ([(s, sv, msg)], Throw e)
      | None => let '(l, r) := sent ss' sv msg in ((s, sv, msg) :: l, r)
      end
  end.

Definition record_calls (calls : list (sink * severity * string)) (l : log sink) : log sink :=
  LogCore (mu_ l) (min_severity_ l) (sinks_ l) (reverse calls ++ written l).

Lemma sink_log_eq s sv msg l :
  sink_log s sv msg l =
  (record_calls [(s, sv, msg)] l, match sink_throws s sv msg with Some e => Throw e | None => Ok tt end).
Proof. destruct l. unfold sink_log. munfold. by destruct (sink_throws s sv msg). Qed.

Lemma for_each_sent ss sv msg l :
  for_each ss (fun s => sink_log s sv msg) l =
  (record_calls (sent ss sv msg).1 l, (sent ss sv msg).2).
Proof.
  revert l. induction ss as [|s ss IH]; intros [b m k r]; [done|].
  cbn [for_each sent]. munfold. rewrite sink_log_eq.
  destruct (sink_throws s sv msg) as [e|]; [done|].
  rewrite IH. destruct (sent ss sv msg) as [calls o]. unfold record_calls. cbn [fst snd written].
  by rewrite (reverse_cons calls), <- app_assoc.
Qed.

(** [write] on every branch: the special case of one sink is the loop. *)
Lemma write_eq sv msg l :
  mu_ l = false ->
  write sv msg l =
  if severity_ltb sv (min_severity_ l) then (l, Ok tt)
  else (record_calls (sent (sinks_ l) sv msg).1 l, (sent (sinks_ l) sv msg).2).
Proof.
  destruct l as [b m ss r]. cbn [mu_ sinks_ min_severity_]. intros ->. unfold write. munfold.
  destruct ss as [|s ss]; [by destruct (severity_ltb sv m)|].
  rewrite min_severity_eq by done. cbn [min_severity_ sinks_]. destruct (severity_ltb sv m); [done|].
  rewrite <- for_each_sent. destruct ss as [|s' ss]; [|done]. cbn [for_each]. munfold.
  rewrite sink_log_eq. by destruct (sink_throws s sv msg).
Qed.

(** The text of a message. *)
Definition message_text (lv : severity) (text func file : string) (line : Z) : string :=
  "[" +:+ print_severity lv +:+ "] " +:+ text +:+ " in " +:+ func +:+ " (" +:+ file +:+ ":" +:+ pretty line
    +:+ ")".

(** C39. A log statement writes its message once. Below [info], or below the minimum severity of
    the log, it does nothing, and the expression streamed is not evaluated. Otherwise
    the expression is evaluated once, and the message, with its severity and its place
    around it, goes to each sink in the order they were added, up to a sink that throws; two tests of
    the loop's condition are enough. *)
Theorem log_statement_effect fuel lv func file line (text : M W string) (l : log sink) :
  mu_ l = false -> (forall w, mu_ (text w).1 = mu_ w) ->
  GH_LOG_I (S (S fuel)) lv func file line text l =
  if severity_ltb lv info || severity_ltb lv (min_severity_ l) then (l, Ok true)
  else
    match text l with
    | (l', Ok t) =>
        let msg := message_text lv t func file line in
        if severity_ltb lv (min_severity_ l') then (l', Ok true)
        else
          let '(calls, r) := sent (sinks_ l') lv msg in
          (record_calls calls l',
           match r with Ok _ => Ok true | Throw e => Throw e | UB w => UB w end)
    | (l', Throw e) => (l', Throw e)
    | (l', UB w) => (l', UB w)
    end.
Proof.
  intros Hmu Htext. unfold GH_LOG_I, level_compile_time_disabled, GH_MIN_SEVERITY.
  destruct (severity_ltb lv info); [done|]. cbn [orb]. unfold make_logger. munfold.
  rewrite min_severity_eq by done.
  destruct (severity_ltb lv (min_severity_ l)); munfold; [done|].
  specialize (Htext l). destruct (text l) as [l' [t|e|w]]; [|done..]. cbn in Htext.
  unfold write_to. cbn. munfold. rewrite write_eq by congruence. unfold message_text.
  rewrite <- !string_app_assoc.
  destruct (severity_ltb lv (min_severity_ l')); [done|].
  destruct (sent _ _ _) as [calls [[]|e|w]]; done.
Qed.

End log.

(** Two sinks, of which the second throws. *)
#[local] Instance bool_sinks : Sinks bool := {
  sink_throws s _ _ := if s then Some (runtime_error "sink") else None
}.

Lemma log_statement_effect_witness :
  let l : log bool := LogCore false notice [false; true; false] [] in
  let msg := "[error] late in run (queue.cpp:56)" in
  GH_LOG_I 2 error "run" "queue.cpp" 56 (mret "late") l =
  (record_calls [(false, error, msg); (true, error, msg)] l, Throw (runtime_error "sink")).
Proof.
  cbv zeta. etrans.
  - apply (log_statement_effect 0 error "run" "queue.cpp" 56 (mret "late")
      (LogCore false notice [false; true; false] [])); [done|]. intros w. reflexivity.
  - vm_compute. reflexivity.
Defined.

End Log.
