(* ===== verification/Etcd.v ===== *)
(** * The messages exchanged with etcd

    The etcd protocol buffers (a git submodule) and the code generated from them are not
    part of the sources; these records hold the fields the sources read and write, with the names the
    protocol gives them. A message starts with its default value, and an accessor
    of a [oneof] that holds another alternative returns the default. The printer of the
    protobuf library, which only shows up in error messages, is a parameter. *)

From S2P Require Import Prelude Runtime.
Open Scope Z_scope.
Open Scope gh_scope.

(** ** KV *)

(** [mvccpb::KeyValue] *)
Record KeyValue := KV { kv_key : string; kv_value : string; kv_create_revision : Z }.
Definition KeyValue_default : KeyValue := KV "" "" 0.
#[export] Instance KeyValue_eq_dec : EqDecision KeyValue.
Proof. solve_decision. Defined.

Inductive SortOrder := NONE | ASCEND | DESCEND.
Inductive SortTarget := KEY | CREATE.

Record RangeRequest := {
  rr_key : string;
  rr_range_end : string;
  rr_max_create_revision : Z;
  rr_sort_order : SortOrder;
  rr_sort_target : SortTarget;
  rr_limit : Z
}.

Record RangeResponse := { rg_revision : Z; rg_kvs : list KeyValue }.
Definition RangeResponse_default : RangeResponse := {| rg_revision := 0; rg_kvs := [] |}.

(** The [oneof] of [RequestOp]. *)
Inductive RequestOp :=
  | request_put (key value : string) (lease : Z)
  | request_range (key : string)
  | request_delete_range (key : string)
  | REQUEST_NOT_SET.

(** [Compare]: the sources only compare a creation revision for equality. *)
Record Compare := { cmp_key : string; cmp_create_revision : Z }.

Record TxnRequest := {
  tq_compare : list Compare;
  tq_success : list RequestOp;
  tq_failure : list RequestOp
}.

Inductive ResponseOp :=
  | response_range_op (r : RangeResponse)
  | response_other.
Definition response_range (r : ResponseOp) : RangeResponse :=
  match r with response_range_op r => r | response_other => RangeResponse_default end.

Record TxnResponse := {
  tx_revision : Z;
  tx_succeeded : bool;
  tx_responses : list ResponseOp
}.
Definition TxnResponse_default : TxnResponse :=
  {| tx_revision := 0; tx_succeeded := false; tx_responses := [] |}.

(** ** Watch *)

Inductive WatchRequest :=
  | create_request (key range_end : string) (start_revision : Z) (progress_notify prev_kv : bool)
  | cancel_request (watch_id : Z).

Inductive EventType := PUT | DELETE.
#[export] Instance EventType_eq_dec : EqDecision EventType.
Proof. solve_decision. Defined.

(** [mvccpb::Event] *)
Record Event := { ev_type : EventType; ev_kv : KeyValue; ev_prev_kv : KeyValue }.

Record WatchResponse := {
  wr_watch_id : Z;
  wr_created : bool;
  wr_canceled : bool;
  wr_compact_revision : Z;
  wr_events : list Event
}.
Definition WatchResponse_default : WatchResponse :=
  {| wr_watch_id := 0; wr_created := false; wr_canceled := false; wr_compact_revision := 0;
     wr_events := [] |}.

(** ** Lease and cluster *)

Record LeaseGrantResponse := { lg_id : Z; lg_ttl : Z; lg_error : string }.
Definition LeaseGrantResponse_default : LeaseGrantResponse :=
  {| lg_id := 0; lg_ttl := 0; lg_error := "" |}.

(** ** Requests and responses *)

Inductive service := Watch | LeaseKeepAlive.

(** What an asynchronous operation asks gRPC to do. *)
Inductive request :=
  | rq_timer (deadline : Z)
  | rq_range (r : RangeRequest)
  | rq_txn (r : TxnRequest)
  | rq_lease_grant (id ttl : Z)
  | rq_lease_revoke (id : Z)
  | rq_member_list (url : string)
  | rq_create_stream (s : service)
  | rq_write_watch (r : WatchRequest)
  | rq_write_keep_alive (id : Z)
  | rq_read
  | rq_writes_done
  | rq_finish.

(** The message gRPC leaves in an operation. *)
Inductive message :=
  | msg_none
  | msg_range (r : RangeResponse)
  | msg_txn (r : TxnResponse)
  | msg_watch (r : WatchResponse)
  | msg_lease_grant (r : LeaseGrantResponse)
  | msg_keep_alive (ttl : Z)
  | msg_member_list (members : list (list string)).

(** The fields of an operation that gRPC fills in before it reports its tag. *)
Record response := Response { r_status : status; r_message : message }.

Definition as_range (m : message) : RangeResponse :=
  match m with msg_range r => r | _ => RangeResponse_default end.
Definition as_txn (m : message) : TxnResponse :=
  match m with msg_txn r => r | _ => TxnResponse_default end.
Definition as_watch (m : message) : WatchResponse :=
  match m with msg_watch r => r | _ => WatchResponse_default end.
Definition as_lease_grant (m : message) : LeaseGrantResponse :=
  match m with msg_lease_grant r => r | _ => LeaseGrantResponse_default end.
Definition as_keep_alive_ttl (m : message) : Z :=
  match m with msg_keep_alive ttl => ttl | _ => 0 end.
Definition as_member_list (m : message) : list (list string) :=
  match m with msg_member_list l => l | _ => [] end.

(** [google::protobuf::TextFormat::PrintToString], as [print_to_stream] uses it. *)
Class TextFormat := { print_to_stream : message -> string }.
(** A printer that prints nothing. *)
Definition empty_text_format : TextFormat := {| print_to_stream _ := "" |}.
