(* ===== verification/CompletionQueue.v ===== *)
(** * The completion queue (gh/completion_queue.hpp, gh/detail/base_completion_queue.hpp and .cpp,
      gh/detail/default_grpc_interceptor.hpp, gh/detail/stream_async_ops.hpp,
      gh/detail/async_rpc_op.hpp, gh/detail/deadline_timer.hpp, gh/detail/base_async_op.hpp)

    A client object starts asynchronous operations on the queue and gives each one a callback; the
    thread in [run] takes the completions gRPC reports and calls them back. A callback
    is a closure in the sources; here it is a value of a type [K] of the client that says
    which lambda it is and what it captured, and [Client] (below) says what calling it does.
    The world of a thread is the state of one client object and the queue. The
    addresses of operations, their gRPC tags, come from a counter that starts
    at 1: an operation never has the null address, and the queue holds a reference to each
    registered operation, so that its address is not given to another one. *)

From S2P Require Import Prelude Runtime Etcd.
Open Scope Z_scope.
Open Scope gh_scope.

(** ** Data *)

(** The lambdas of the overloads with [use_future], with what they capture besides the promise. *)
Inductive adapter :=
  | adapt_rpc (location : string)
  | adapt_create_stream (name : string)
  | adapt_writes_done
  | adapt_finish.

Inductive callback (K : Type) :=
  | functor (k : K)
  | set_future (p : Z) (a : adapter).
Arguments functor {K} k.
Arguments set_future {K} p a.

(** [base_async_op] and the classes derived from it. *)
Record async_op (K : Type) := AsyncOp {
  op_name : string;
  op_callback : callback K;
  op_request : request
}.
Arguments AsyncOp {K} op_name op_callback op_request.
Arguments op_name {K} a.
Arguments op_callback {K} a.
Arguments op_request {K} a.

(** The methods of [mocked_grpc_interceptor::mocked]. *)
Inductive mocked_method :=
  | m_make_deadline_timer
  | m_async_rpc
  | m_async_create_rdwr_stream
  | m_async_write
  | m_async_read
  | m_async_writes_done
  | m_async_finish
  | m_try_cancel.

(** The calls made to the gRPC library, or to a mock. *)
Inductive grpc_call :=
  | alarm_start (deadline tag : Z)
  | stub_unary (r : request)
  | reader_finish (tag : Z)
  | stub_stream (s : service) (tag : Z)
  | stream_write (r : request) (tag : Z)
  | stream_read (tag : Z)
  | stream_writes_done (tag : Z)
  | stream_finish (tag : Z)
  | context_try_cancel
  | alarm_cancel (tag : Z)
  | mocked_call (method : mocked_method) (tag : Z).

(** [trace] has the latest call first; [now] is what [system_clock::now()] returns. *)
Record completion_queue (K : Type) := Queue {
  pending_ops : gmap Z (async_op K);
  next_op : Z;
  promises : gmap Z (promise response);
  next_promise : Z;
  trace : list grpc_call;
  shutdown_ : bool;
  now : Z
}.
Arguments Queue {K} _ _ _ _ _ _ _.
Arguments pending_ops {K} c.
Arguments next_op {K} c.
Arguments promises {K} c.
Arguments next_promise {K} c.
Arguments trace {K} c.
Arguments shutdown_ {K} c.
Arguments now {K} c.

Definition new_queue {K} : completion_queue K := Queue ∅ 1 ∅ 1 [] false 0.

Definition set_pending_ops {K} (m : gmap Z (async_op K)) (q : completion_queue K) :=
  Queue m (next_op q) (promises q) (next_promise q) (trace q) (shutdown_ q) (now q).
Definition set_promises {K} (m : gmap Z (promise response)) (q : completion_queue K) :=
  Queue (pending_ops q) (next_op q) m (next_promise q) (trace q) (shutdown_ q) (now q).

Record world (S K : Type) := World { self : S; queue : completion_queue K }.
Arguments World {S K} self queue.
Arguments self {S K} w.
Arguments queue {S K} w.

(** ** The interceptors *)

(** [grpc_interceptor_type], the parameter of the queue: how it hands an operation over (the calls it makes, and how
    it returns), how it cancels what is pending on a stream, and what a timer it was given has to cancel. *)
Class Interceptor := {
  intercept (name : string) (r : request) (tag : Z) : list grpc_call * outcome unit;
  try_cancel_calls : list grpc_call;
  alarm_cancel_calls (tag : Z) : list grpc_call
}.

(** What the interceptor does to hand an operation to gRPC. *)
Definition default_grpc_interceptor (r : request) (tag : Z) : list grpc_call :=
  match r with
  | rq_timer deadline => [alarm_start deadline tag]
  | rq_range _ | rq_txn _ | rq_lease_grant _ _ | rq_lease_revoke _ | rq_member_list _ =>
      [stub_unary r; reader_finish tag]
  | rq_create_stream s => [stub_stream s tag]
  | rq_write_watch _ | rq_write_keep_alive _ => [stream_write r tag]
  | rq_read => [stream_read tag]
  | rq_writes_done => [stream_writes_done tag]
  | rq_finish => [stream_finish tag]
  end.
#[export] Instance grpc_library : Interceptor := {|
  intercept _ r tag := (default_grpc_interceptor r tag, Ok tt);
  try_cancel_calls := [context_try_cancel];
  alarm_cancel_calls tag := [alarm_cancel tag]
|}.

(** The member of the interceptor that the queue calls for an operation. *)
Definition method_for (r : request) : mocked_method :=
  match r with
  | rq_timer _ => m_make_deadline_timer
  | rq_range _ | rq_txn _ | rq_lease_grant _ _ | rq_lease_revoke _ | rq_member_list _ => m_async_rpc
  | rq_create_stream _ => m_async_create_rdwr_stream
  | rq_write_watch _ | rq_write_keep_alive _ => m_async_write
  | rq_read => m_async_read
  | rq_writes_done => m_async_writes_done
  | rq_finish => m_async_finish
  end.

(** The mock that the copies of an interceptor share, as its expectations: how the call of a method for an operation
    with some name ends. *)
Definition mocked := mocked_method -> string -> outcome unit.

(** [mocked_grpc_interceptor]: each member forwards to the method of the mock with its name. No alarm is made for
    a timer, [deadline_timer::cancel] finds none. *)
Definition mocked_grpc_interceptor (shared_mock : mocked) : Interceptor := {|
  intercept name r tag := ([mocked_call (method_for r) tag], shared_mock (method_for r) name);
  try_cancel_calls := [mocked_call m_try_cancel 0];
  alarm_cancel_calls _ := []
|}.
(** A mock whose methods return. *)
Definition quiet_mock : mocked := fun _ _ => Ok tt.

(** An interceptor that returns from every operation. *)
Class Returning (I : Interceptor) := intercept_returns name r tag : (intercept name r tag).2 = Ok tt.
#[export] Instance grpc_library_returning : Returning grpc_library.
Proof. done. Qed.
#[export] Instance quiet_mock_returning : Returning (mocked_grpc_interceptor quiet_mock).
Proof. done. Qed.

Section queue.
Context {S K : Type} {I : Interceptor}.
#[local] Abbreviation W := (world S K).

Definition with_self (f : S -> S) (w : W) : W := World (f (self w)) (queue w).
Definition with_queue (f : completion_queue K -> completion_queue K) (w : W) : W :=
  World (self w) (f (queue w)).
Definition modify_self (f : S -> S) : M W unit := modify (with_self f).
Definition gets_self {A} (f : S -> A) : M W A := gets (fun w => f (self w)).
Definition modify_queue (f : completion_queue K -> completion_queue K) : M W unit :=
  modify (with_queue f).
Definition gets_queue {A} (f : completion_queue K -> A) : M W A := gets (fun w => f (queue w)).

(** Code over a part of the client's state. *)
Definition zoom {T A} (proj : S -> T) (upd : T -> S -> S) (m : M T A) : M W A := fun w =>
  let '(t, r) := m (proj (self w)) in (with_self (upd t) w, r).

(** ** [base_completion_queue] *)

(** [std::make_shared<op_type>()], its address. *)
Definition allocate_op : M W Z :=
  tag ← gets_queue next_op;
  modify_queue (fun q => Queue (pending_ops q) (tag + 1) (promises q) (next_promise q) (trace q)
                               (shutdown_ q) (now q));;
  mret tag.

(** [create_op]: the object and its address. *)
Definition create_op (name : string) (cb : callback K) (r : request) : M W (Z * async_op K) :=
  tag ← allocate_op;
  mret (tag, AsyncOp name cb r).

Definition register_op (location : string) (tag : Z) (op : async_op K) : M W Z :=
  ops ← gets_queue pending_ops;
  match ops !! tag with
  | Some _ =>
      assert_throw_impl "r.second != false" "register_op"
        "gh/detail/base_completion_queue.cpp" 76;;
      mret tag
  | None => modify_queue (set_pending_ops (<[tag := op]> ops));; mret tag
  end.

Definition unregister_op (tag : Z) : M W (option (async_op K)) :=
  ops ← gets_queue pending_ops;
  match ops !! tag with
  | Some op => modify_queue (set_pending_ops (delete tag ops));; mret (Some op)
  | None => mret None
  end.

Definition shutdown : M W unit :=
  modify_queue (fun q => Queue (pending_ops q) (next_op q) (promises q) (next_promise q) (trace q)
                               true (now q)).

(** [~base_completion_queue], as the message it logs, if any. [ops] is the table in the order in which the unordered
    map iterates. *)
Definition destroyed_while_holding (ops : list (Z * async_op K)) : option string :=
  match ops with
  | [] => None
  | _ :: _ =>
      Some (" completion queue deleted while holding " +:+ pretty (Z.of_nat (length ops)) +:+
        " pending operations: " +:+ foldl (fun os op => os +:+ op_name op.2 +:+ String "010" "") "" ops)
  end.

Definition call_grpc (calls : list grpc_call) : M W unit :=
  modify_queue (fun q => Queue (pending_ops q) (next_op q) (promises q) (next_promise q)
                               (reverse calls ++ trace q) (shutdown_ q) (now q)).

(** ** [completion_queue] *)

(** A call of the interceptor. *)
Definition intercepted (c : list grpc_call * outcome unit) : M W unit := fun w =>
  ((call_grpc c.1 w).1, c.2).

(** What every operation does: create, register, hand over to the interceptor. *)
Definition start_op (location name : string) (cb : callback K) (r : request) : M W Z :=
  '(tag, op) ← create_op name cb r;
  tag ← register_op location tag op;
  intercepted (intercept name r tag);;
  mret tag.

Definition make_deadline_timer (deadline : Z) (name : string) (k : K) : M W Z :=
  start_op "deadline_timer()" name (functor k) (rq_timer deadline).

Definition make_relative_timer (duration : Z) (name : string) (k : K) : M W Z :=
  t ← gets_queue now;
  make_deadline_timer (t + duration) name k.

(** [deadline_timer::cancel] *)
Definition cancel_timer (tag : Z) : M W unit := call_grpc (alarm_cancel_calls tag).

Definition async_rpc (r : request) (name : string) (k : K) : M W unit :=
  start_op "async_rpc()" name (functor k) r;; mret tt.

Definition async_create_rdwr_stream (s : service) (name : string) (k : K) : M W unit :=
  start_op "async_create_rdwr_stream()" name (functor k) (rq_create_stream s);; mret tt.

Definition async_write (r : request) (name : string) (k : K) : M W unit :=
  start_op "async_write()" name (functor k) r;; mret tt.

Definition async_read (name : string) (k : K) : M W unit :=
  start_op "async_read()" name (functor k) rq_read;; mret tt.

Definition async_writes_done (name : string) (k : K) : M W unit :=
  start_op "async_writes_done()" name (functor k) rq_writes_done;; mret tt.

Definition async_finish (name : string) (k : K) : M W unit :=
  start_op "async_finish()" name (functor k) rq_finish;; mret tt.

Definition try_cancel_on : M W unit := call_grpc try_cancel_calls.

(** [std::make_shared<std::promise<...>>()] *)
Definition make_promise : M W Z :=
  p ← gets_queue next_promise;
  modify_queue (fun q => Queue (pending_ops q) (next_op q) (<[p := new_promise]> (promises q))
                               (p + 1) (trace q) (shutdown_ q) (now q));;
  mret p.

(** An operation on a promise of the queue. *)
Definition on_promise {A} (p : Z) (m : M (promise response) A) : M W A := fun w =>
  match promises (queue w) !! p with
  | Some c => let '(c', r) := m c in
      (with_queue (set_promises (<[p := c']> (promises (queue w)))) w, r)
  | None => (w, UB "dangling promise")
  end.

(** The overloads with [use_future]. *)
Definition start_future (location name : string) (a : adapter) (r : request) : M W Z :=
  p ← make_promise;
  start_op location name (set_future p a) r;;
  on_promise p promise_get_future;;
  mret p.

Definition async_rpc_future (r : request) (name : string) : M W Z :=
  start_future "async_rpc()" name (adapt_rpc name) r.
Definition async_create_rdwr_stream_future (s : service) (name : string) : M W Z :=
  start_future "async_create_rdwr_stream()" name (adapt_create_stream name) (rq_create_stream s).
Definition async_writes_done_future (name : string) : M W Z :=
  start_future "async_writes_done()" name adapt_writes_done rq_writes_done.
Definition async_finish_future (name : string) : M W Z :=
  start_future "async_finish()" name adapt_finish rq_finish.

(** The value or exception each lambda stores. *)
Definition adapt (a : adapter) (resp : response) (ok : bool) : outcome response :=
  match a with
  | adapt_rpc location =>
      if negb ok then Throw (runtime_error "async rpc cancelled")
      else if negb (status_ok (r_status resp)) then
        Throw (make_exception (r_status resp) location [])
      else Ok resp
  | adapt_create_stream name =>
      if negb ok then Throw (runtime_error ("async create_rdwr_stream cancelled for " +:+ name))
      else Ok resp
  | adapt_writes_done =>
      if negb ok then Throw (runtime_error "async writes done cancelled") else Ok resp
  | adapt_finish =>
      if negb ok then Throw (runtime_error "async finished cancelled") else Ok resp
  end.

Definition future_ready (p : Z) (w : W) : bool :=
  match promises (queue w) !! p with
  | Some c => bool_decide (is_Some (result c))
  | None => true
  end.

(** [std::shared_future::get()] *)
Definition future_get (p : Z) : P W response :=
  block_until (future_ready p);;
  lift (fun w =>
    match promises (queue w) !! p with
    | Some c => match result c with
                | Some r => (w, r)
                | None => (w, UB "future not ready")
                end
    | None => (w, UB "dangling future")
    end).

(** ** How code changes the queue

    [wf]: registered addresses and promises were handed out by the allocators. [evolves]:
    well-formedness is kept, an address that was handed out is not registered again, the result of a promise
    stays, a shut down stays, calls made stay made. Every operation of the queue
    respects it, and every client callback has to ([Client]). *)

Definition wf (q : completion_queue K) : Prop :=
  0 < next_op q /\
  (forall tag op, pending_ops q !! tag = Some op -> 0 < tag < next_op q) /\
  (forall p c, promises q !! p = Some c -> p < next_promise q).

Definition queue_le (q q' : completion_queue K) : Prop :=
  wf q -> wf q' /\
  next_op q <= next_op q' /\
  (forall tag op, tag < next_op q -> pending_ops q' !! tag = Some op ->
     pending_ops q !! tag = Some op) /\
  (forall p c, promises q !! p = Some c ->
     exists c', promises q' !! p = Some c' /\ promise_le c c') /\
  (shutdown_ q = true -> shutdown_ q' = true) /\
  (exists l, trace q' = l ++ trace q).

Definition evolves (w w' : W) : Prop := queue_le (queue w) (queue w').

End queue.

#[export] Hint Unfold evolves : gh.

(** ** The event loop *)

(** What a client object promises to the queue: the meaning of its callbacks. *)
Class Client (S K : Type) := {
  invoke (k : K) (resp : response) (ok : bool) : M (world S K) unit;
  invoke_evolves k resp ok : invoke k resp ok ⊨ evolves
}.

(** The results of [grpc::CompletionQueue::AsyncNext]; a null tag is 0. *)
Inductive next_status :=
  | SHUTDOWN
  | TIMEOUT
  | GOT_EVENT (tag : Z) (ok : bool) (resp : response).

Section loop.
Context {S K : Type} `{Client S K}.
#[local] Abbreviation W := (world S K).

(** [op->callback( *op, ok)]: the client's functor, or a lambda of a [use_future] overload. *)
Definition run_callback (op : async_op K) (resp : response) (ok : bool) : M W unit :=
  match op_callback op with
  | functor k => invoke k resp ok
  | set_future p a => on_promise p (promise_set (adapt a resp ok))
  end.

(** The body of the loop for an event. *)
Definition on_event (tag : Z) (ok : bool) (resp : response) : M W unit :=
  if tag =? 0 then mret tt
  else
    op ← unregister_op tag;
    match op with
    | None => mret tt
    | Some op => run_callback op resp ok
    end.

(** [base_completion_queue::run]. Each element of the list is one iteration: what other threads
    do to the world while the loop is in [AsyncNext], and the status it returns. The
    result is the iterations that were not used when the loop ends, [None] when it is still running
    at the end of the list. *)
Fixpoint run (its : list ((W -> W) * next_status)) : M W (option (list ((W -> W) * next_status))) :=
  match its with
  | [] => mret None
  | (others, status) :: its' =>
      stop ← gets_queue shutdown_;
      if (stop : bool) then mret (Some its)
      else
        modify others;;
        match status with
        | SHUTDOWN => mret (Some its')
        | TIMEOUT => run its'
        | GOT_EVENT tag ok resp => on_event tag ok resp;; run its'
        end
  end.

(** A thread of the client object next to the event loop: the loop takes events, the thread
    goes on when what it waits for is there. An exception that leaves a callback ends the
    loop's thread, and with it the program. *)
Inductive sched_event :=
  | ev_completion (tag : Z) (ok : bool) (resp : response)
  | ev_wake
  | ev_clock (t : Z).

Definition set_now (t : Z) (q : completion_queue K) : completion_queue K :=
  Queue (pending_ops q) (next_op q) (promises q) (next_promise q) (trace q) (shutdown_ q) t.

Inductive system (A : Type) :=
  | running (p : prog W A)
  | terminated (e : exn)
  | undefined_behaviour (why : string).
Arguments running {A} p.
Arguments terminated {A} e.
Arguments undefined_behaviour {A} why.

Definition sched_step {A} (e : sched_event) (p : prog W A) : system A :=
  match e with
  | ev_completion tag ok resp =>
      let '(w, r) := on_event tag ok resp (prog_world p) in
      match r with
      | Ok _ => running (prog_set_world (fun _ => w) p)
      | Throw e => terminated e
      | UB s => undefined_behaviour s
      end
  | ev_wake => running (wake p)
  | ev_clock t => running (prog_set_world (with_queue (set_now t)) p)
  end.

Fixpoint sched {A} (es : list sched_event) (p : prog W A) : system A :=
  match es with
  | [] => running p
  | e :: es' =>
      match sched_step e p with
      | running p' => sched es' p'
      | stopped => stopped
      end
  end.

End loop.

Arguments running {S K A} p.
Arguments terminated {S K A} e.
Arguments undefined_behaviour {S K A} why.


(** ** Facts about the operations *)

Section facts.
Context {S K : Type} {I : Interceptor}.
#[local] Abbreviation W := (world S K).
Implicit Types w : W.

#[export] Instance queue_le_preorder : PreOrder (@queue_le K).
Proof.
  split.
  - intros q Hwf. split_and!; try done; [|by exists []].
    intros p c Hc. by exists c.
  - intros q1 q2 q3 H12 H23 Hwf. destruct (H12 Hwf) as (Hwf2 & H1 & H2 & H3 & H4 & [l Hl]).
    destruct (H23 Hwf2) as (Hwf3 & H1' & H2' & H3' & H4' & [l' Hl']).
    split_and!; [done|lia|..].
    + intros tag op Ht Hop. apply H2; [done|]. apply H2'; [lia|done].
    + intros p c Hc. destruct (H3 p c Hc) as (c' & Hc' & ?).
      destruct (H3' p c' Hc') as (c'' & ? & ?). exists c''. split; [done|]. by etrans.
    + auto.
    + exists (l' ++ l). by rewrite Hl', Hl, app_assoc.
Qed.

#[export] Instance evolves_preorder : PreOrder (@evolves S K).
Proof.
  unfold evolves. split; [by intros w|]. intros w1 w2 w3 H1 H2. by etrans.
Qed.

(** The queue after an operation was started. *)
Definition with_op (name : string) (cb : callback K) (r : request) (q : completion_queue K) :
    completion_queue K :=
  Queue (<[next_op q := AsyncOp name cb r]> (pending_ops q)) (next_op q + 1) (promises q)
    (next_promise q) (reverse (intercept name r (next_op q)).1 ++ trace q)
    (shutdown_ q) (now q).

(** [wf], to be computed. *)
Definition wf_b (q : completion_queue K) : bool :=
  (0 <? next_op q) &&
  forallb (fun p => (0 <? p.1) && (p.1 <? next_op q)) (map_to_list (pending_ops q)) &&
  forallb (fun p => p.1 <? next_promise q) (map_to_list (promises q)).

Lemma wf_b_true (q : completion_queue K) : wf_b q = true -> wf q.
Proof.
  intros [[Hn Ho]%andb_prop Hp]%andb_prop. rewrite forallb_forall in Ho, Hp. split_and!; [lia|..].
  - intros tag op Hop%elem_of_map_to_list%list_elem_of_In. specialize (Ho _ Hop). cbn in Ho. lia.
  - intros p c Hc%elem_of_map_to_list%list_elem_of_In. specialize (Hp _ Hc). cbn in Hp. lia.
Qed.

Lemma new_queue_wf : wf (@new_queue K).
Proof. split; [done|]. split; intros ? ? Hl; cbn in Hl; by rewrite lookup_empty in Hl. Qed.

Lemma wf_fresh (q : completion_queue K) : wf q -> pending_ops q !! next_op q = None.
Proof.
  intros (_ & Hops & _). destruct (pending_ops q !! next_op q) eqn:E; [|done].
  apply Hops in E. lia.
Qed.

Lemma wf_fresh_promise (q : completion_queue K) : wf q -> promises q !! next_promise q = None.
Proof.
  intros (_ & _ & Hps). destruct (promises q !! next_promise q) eqn:E; [|done].
  apply Hps in E. lia.
Qed.

(** Starting an operation on a well-formed queue registers it, also when the interceptor throws. *)
Lemma start_op_intercepted location name cb r w :
  wf (queue w) ->
  start_op location name cb r w =
  (with_queue (with_op name cb r) w, with_result (next_op (queue w)) (intercept name r (next_op (queue w))).2).
Proof.
  intros Hwf. unfold start_op, create_op, allocate_op, register_op, intercepted, call_grpc.
  unfold gets_queue, modify_queue. munfold. rewrite wf_fresh by done. munfold.
  destruct (intercept name r (next_op (queue w))).2 as [[]| |]; reflexivity.
Qed.

(** The destructor is silent exactly when no operation is pending. *)
Lemma destroyed_quietly (q : completion_queue K) ops :
  ops ≡ₚ map_to_list (pending_ops q) -> destroyed_while_holding ops = None <-> pending_ops q = ∅.
Proof.
  intros Hp. rewrite <- (map_to_list_empty_iff (pending_ops q)). destruct ops as [|op ops].
  - split; [|done]. intros _. by apply Permutation_nil.
  - split; [done|]. intros E. rewrite E in Hp. by apply Permutation_sym, Permutation_nil in Hp.
Qed.

(** An interceptor that throws leaves the operation in the table for the destructor to complain about. *)
Lemma start_op_throws location name (cb : callback K) r w e ops :
  wf (queue w) -> (intercept name r (next_op (queue w))).2 = Throw e ->
  ops ≡ₚ map_to_list (pending_ops (queue (start_op location name cb r w).1)) ->
  (start_op location name cb r w).2 = Throw e /\ self (start_op location name cb r w).1 = self w /\
  destroyed_while_holding ops <> None.
Proof.
  intros Hwf He. rewrite start_op_intercepted by done. rewrite He. intros Hops. split_and!; [done|done|].
  intros Hn%(destroyed_quietly _ _ Hops). cbn in Hn. by apply insert_non_empty in Hn.
Qed.

(** With an interceptor that returns it does not throw. *)
Lemma start_op_eq `{!Returning I} location name cb r w :
  wf (queue w) ->
  start_op location name cb r w = (with_queue (with_op name cb r) w, Ok (next_op (queue w))).
Proof. intros Hwf. by rewrite start_op_intercepted, intercept_returns. Qed.

Lemma async_rpc_eq `{!Returning I} r name k w :
  wf (queue w) -> async_rpc r name k w = (with_queue (with_op name (functor k) r) w, Ok tt).
Proof. intros Hwf. unfold async_rpc. by rewrite (bind_ok _ _ _ _ _ (start_op_eq _ _ _ _ _ Hwf)). Qed.
Lemma async_write_eq `{!Returning I} r name k w :
  wf (queue w) -> async_write r name k w = (with_queue (with_op name (functor k) r) w, Ok tt).
Proof. intros Hwf. unfold async_write. by rewrite (bind_ok _ _ _ _ _ (start_op_eq _ _ _ _ _ Hwf)). Qed.
Lemma async_read_eq `{!Returning I} name k w :
  wf (queue w) -> async_read name k w = (with_queue (with_op name (functor k) rq_read) w, Ok tt).
Proof. intros Hwf. unfold async_read. by rewrite (bind_ok _ _ _ _ _ (start_op_eq _ _ _ _ _ Hwf)). Qed.

Lemma with_op_le name cb r (q : completion_queue K) : queue_le q (with_op name cb r q).
Proof.
  intros Hwf. pose proof Hwf as (Hn & Hops & Hps). unfold with_op. split_and!; cbn.
  - split_and!; cbn; [lia| |done]. intros tag op.
    destruct (decide (tag = next_op q)) as [->|Hne].
    + rewrite lookup_insert_eq. lia.
    + rewrite lookup_insert_ne by done. intros Hop%Hops. lia.
  - lia.
  - intros tag op Hlt. rewrite lookup_insert_ne by lia. done.
  - intros p c Hc. by exists c.
  - done.
  - by eexists.
Qed.

Lemma queue_le_with_promise (q : completion_queue K) p c c' :
  promises q !! p = Some c -> promise_le c c' ->
  queue_le q (set_promises (<[p := c']> (promises q)) q).
Proof.
  intros Hc Hle Hwf. pose proof Hwf as (Hn & Hops & Hps). split_and!; cbn; try done.
  - split_and!; cbn; try done. intros p0 c0.
    destruct (decide (p0 = p)) as [->|Hne]; [intros _; by eapply Hps|].
    rewrite lookup_insert_ne by done. apply Hps.
  - intros p0 c0 H0. destruct (decide (p0 = p)) as [->|Hne].
    + rewrite lookup_insert_eq. exists c'. split; [done|]. rewrite Hc in H0. by injection H0 as <-.
    + rewrite lookup_insert_ne by done. exists c0. by split.
  - by exists [].
Qed.

Lemma queue_le_unregister (q : completion_queue K) tag :
  queue_le q (set_pending_ops (delete tag (pending_ops q)) q).
Proof.
  intros Hwf. pose proof Hwf as (Hn & Hops & Hps). split_and!; cbn; try done.
  - split_and!; cbn; try done. intros t op [_ Ht]%lookup_delete_Some. by eapply Hops.
  - intros t op _ [_ Ht]%lookup_delete_Some. done.
  - intros p c Hc. by exists c.
  - by exists [].
Qed.

(** Only well-formed queues matter to the relation. *)
Lemma evolves_by_wf {A} (m : M W A) :
  (forall w, wf (queue w) -> evolves w (m w).1) -> m ⊨ evolves.
Proof. intros H w Hwf. by apply H. Qed.

Lemma modify_self_evolves (f : S -> S) : modify_self f ⊨ (@evolves S K).
Proof. intros w. change (queue_le (queue w) (queue w)). apply reflexivity. Qed.
Lemma gets_self_evolves {A} (f : S -> A) : gets_self f ⊨ (@evolves S K).
Proof. intros w. change (queue_le (queue w) (queue w)). apply reflexivity. Qed.
Lemma gets_queue_evolves {A} (f : completion_queue K -> A) : gets_queue f ⊨ (@evolves S K).
Proof. intros w. change (queue_le (queue w) (queue w)). apply reflexivity. Qed.
Lemma zoom_evolves {T A} (proj : S -> T) (upd : T -> S -> S) (m : M T A) :
  zoom proj upd m ⊨ (@evolves S K).
Proof.
  intros w. unfold zoom. destruct (m _).
  change (queue_le (queue w) (queue w)). apply reflexivity.
Qed.

Lemma start_op_evolves location name cb r : start_op location name cb r ⊨ (@evolves S K).
Proof. apply evolves_by_wf. intros w Hwf. rewrite start_op_intercepted by done. apply with_op_le. Qed.

Lemma call_grpc_evolves l : call_grpc l ⊨ (@evolves S K).
Proof.
  intros w Hwf. split_and!; cbn; try done; [|by eexists]. intros p c Hc. by exists c.
Qed.

Definition with_promise (q : completion_queue K) : completion_queue K :=
  Queue (pending_ops q) (next_op q) (<[next_promise q := new_promise]> (promises q))
    (next_promise q + 1) (trace q) (shutdown_ q) (now q).

Lemma make_promise_eq w :
  make_promise w = (with_queue with_promise w, Ok (next_promise (queue w))).
Proof. reflexivity. Qed.

Lemma make_promise_evolves : make_promise ⊨ (@evolves S K).
Proof.
  intros w Hwf. pose proof (wf_fresh_promise _ Hwf) as Hf. pose proof Hwf as (Hn & Hops & Hps).
  rewrite make_promise_eq. split_and!; cbn; try done.
  - split_and!; cbn; try done. intros p c.
    destruct (decide (p = next_promise (queue w))) as [->|Hne]; [intros _; lia|].
    rewrite lookup_insert_ne by done. intros ?%Hps. lia.
  - intros p c Hc. exists c. split; [|done]. rewrite lookup_insert_ne; [done|]. congruence.
  - by exists [].
Qed.

Lemma on_promise_evolves {A} p (m : M (promise response) A) :
  m ⊨ promise_le -> on_promise p m ⊨ (@evolves S K).
Proof.
  intros Hm w. unfold on_promise. destruct (promises (queue w) !! p) as [c|] eqn:Hc;
    [|apply reflexivity].
  specialize (Hm c). destruct (m c) as [c' r]. by eapply queue_le_with_promise.
Qed.

Lemma unregister_op_evolves tag : unregister_op tag ⊨ (@evolves S K).
Proof.
  intros w. unfold unregister_op, gets_queue, modify_queue. munfold.
  destruct (pending_ops (queue w) !! tag); cbn;
    [apply queue_le_unregister|apply reflexivity].
Qed.

Lemma shutdown_evolves : shutdown ⊨ (@evolves S K).
Proof.
  intros w Hwf. split_and!; cbn; try done; [|by exists []]. intros p c Hc. by exists c.
Qed.

End facts.

#[export] Hint Resolve modify_self_evolves gets_self_evolves gets_queue_evolves zoom_evolves
  start_op_evolves call_grpc_evolves make_promise_evolves on_promise_evolves
  unregister_op_evolves shutdown_evolves : gh.

Section facts_lib.
Context {S K : Type} {I : Interceptor}.

Lemma make_deadline_timer_evolves d n k : make_deadline_timer d n k ⊨ (@evolves S K).
Proof. apply start_op_evolves. Qed.
Lemma make_relative_timer_evolves d n k : make_relative_timer d n k ⊨ (@evolves S K).
Proof. unfold make_relative_timer, make_deadline_timer. respects_solve. Qed.
Lemma cancel_timer_evolves t : cancel_timer t ⊨ (@evolves S K).
Proof. apply call_grpc_evolves. Qed.
Lemma try_cancel_on_evolves : try_cancel_on ⊨ (@evolves S K).
Proof. apply call_grpc_evolves. Qed.
Lemma async_rpc_evolves r n k : async_rpc r n k ⊨ (@evolves S K).
Proof. unfold async_rpc. respects_solve. Qed.
Lemma async_write_evolves r n k : async_write r n k ⊨ (@evolves S K).
Proof. unfold async_write. respects_solve. Qed.
Lemma async_read_evolves n k : async_read n k ⊨ (@evolves S K).
Proof. unfold async_read. respects_solve. Qed.
Lemma start_future_evolves l n a r : start_future l n a r ⊨ (@evolves S K).
Proof. unfold start_future. respects_solve. Qed.

End facts_lib.

#[export] Hint Resolve make_deadline_timer_evolves make_relative_timer_evolves
  cancel_timer_evolves try_cancel_on_evolves async_rpc_evolves async_write_evolves
  async_read_evolves start_future_evolves : gh.

(** ** Code and the client's state

    [on_self R]: the state of the client before and after is related by [R]; the
    operations of the queue do not change it. *)

Section on_self.
Context {S K : Type} {I : Interceptor}.
#[local] Abbreviation W := (world S K).

Definition on_self (R : S -> S -> Prop) (w w' : W) : Prop := R (self w) (self w').

#[export] Instance on_self_preorder R `{!PreOrder R} : PreOrder (on_self R).
Proof.
  unfold on_self. split; [intros w; apply reflexivity|]. intros w1 w2 w3 H1 H2. by etrans.
Qed.

Context (R : S -> S -> Prop) `{!PreOrder R}.
Lemma modify_self_on_self g : (forall s, R s (g s)) -> modify_self g ⊨ on_self R.
Proof. intros Hg w. apply Hg. Qed.
Lemma gets_self_on_self {A} (g : S -> A) : gets_self g ⊨ on_self R.
Proof. intros w. unfold on_self. apply reflexivity. Qed.
Lemma gets_queue_on_self {A} (g : completion_queue K -> A) : gets_queue g ⊨ on_self R.
Proof. intros w. unfold on_self. apply reflexivity. Qed.
Lemma modify_queue_on_self g : modify_queue g ⊨ on_self R.
Proof. intros w. unfold on_self. apply reflexivity. Qed.
Lemma zoom_on_self {T A} (proj : S -> T) upd (m : M T A) :
  (forall s t, R s (upd t s)) -> zoom proj upd m ⊨ on_self R.
Proof. intros Hu w. unfold zoom, on_self. destruct (m _). apply Hu. Qed.
Lemma start_op_on_self l n c r : start_op l n c r ⊨ on_self R.
Proof.
  intros w. unfold on_self, start_op, create_op, allocate_op, register_op, intercepted, call_grpc,
    gets_queue, modify_queue. munfold. unfold assert_throw_impl.
  destruct (pending_ops (queue w) !! next_op (queue w)); munfold; [apply reflexivity|].
  destruct (intercept n r (next_op (queue w))) as [cs [[]| |]]; apply reflexivity.
Qed.
Lemma on_promise_on_self {A} p (m : M (promise response) A) : on_promise p m ⊨ on_self R.
Proof.
  intros w. unfold on_self, on_promise.
  destruct (promises (queue w) !! p) as [c|]; [destruct (m c)|]; apply reflexivity.
Qed.
End on_self.

#[export] Hint Resolve modify_self_on_self gets_self_on_self gets_queue_on_self
  modify_queue_on_self zoom_on_self start_op_on_self on_promise_on_self : gh.

Section on_self_lib.
Context {S K : Type} {I : Interceptor} (R : S -> S -> Prop) `{!PreOrder R}.
Lemma async_rpc_on_self r n (k : K) : async_rpc r n k ⊨ on_self R.
Proof. unfold async_rpc. respects_solve. Qed.
Lemma async_write_on_self r n (k : K) : async_write r n k ⊨ on_self R.
Proof. unfold async_write. respects_solve. Qed.
Lemma async_read_on_self n (k : K) : async_read n k ⊨ on_self R.
Proof. unfold async_read. respects_solve. Qed.
Lemma make_deadline_timer_on_self d n (k : K) : make_deadline_timer d n k ⊨ on_self R.
Proof. by apply start_op_on_self. Qed.
Lemma call_grpc_on_self l : call_grpc l ⊨ on_self (K:=K) R.
Proof. by apply modify_queue_on_self. Qed.
End on_self_lib.

#[export] Hint Resolve async_rpc_on_self async_write_on_self async_read_on_self
  make_deadline_timer_on_self call_grpc_on_self : gh.

(** ** Facts about the event loop *)

Section loop_facts.
Context {S K : Type} `{Client S K} {I : Interceptor}.
#[local] Abbreviation W := (world S K).
Implicit Types w : W.

Lemma run_callback_evolves op resp ok : run_callback op resp ok ⊨ evolves.
Proof.
  unfold run_callback. destruct (op_callback op); [apply invoke_evolves|eauto with gh].
Qed.

Lemma on_event_evolves tag ok resp : on_event tag ok resp ⊨ (@evolves S K).
Proof.
  unfold on_event. destruct (tag =? 0); [respects_solve|].
  refine (respects_bind _ _ _ _ _); [eauto with gh|]. intros [op|]; [|respects_solve].
  apply run_callback_evolves.
Qed.

Lemma on_event_pending tag ok resp w op :
  tag <> 0 -> pending_ops (queue w) !! tag = Some op ->
  on_event tag ok resp w =
  run_callback op resp ok (with_queue (set_pending_ops (delete tag (pending_ops (queue w)))) w).
Proof.
  intros Ht%Z.eqb_neq Hop. unfold on_event, unregister_op, gets_queue, modify_queue.
  rewrite Ht. munfold. rewrite Hop. by munfold.
Qed.

Lemma on_event_unknown tag ok resp w :
  pending_ops (queue w) !! tag = None -> on_event tag ok resp w = (w, Ok tt).
Proof.
  intros Hop. unfold on_event, unregister_op, gets_queue, modify_queue.
  destruct (tag =? 0); [done|]. munfold. rewrite Hop. by munfold.
Qed.

Lemma sched_app {A} es es' (p : prog W A) :
  sched (es ++ es') p = match sched es p with running p' => sched es' p' | stopped => stopped end.
Proof.
  revert p. induction es as [|e es IH]; intros p; [done|]. cbn [app sched].
  destruct (sched_step e p); [apply IH|done..].
Qed.

Lemma evolves_not_pending w w' tag :
  wf (queue w) -> evolves w w' -> tag < next_op (queue w) ->
  pending_ops (queue w) !! tag = None -> pending_ops (queue w') !! tag = None.
Proof.
  intros Hwf Hev Ht Hn. destruct (Hev Hwf) as (_ & _ & Hp & _).
  destruct (pending_ops (queue w') !! tag) eqn:E; [|done].
  apply Hp in E; [congruence|done].
Qed.


(** An operation started with [use_future] and completed leaves its future ready with the result
    that the status and the [ok] flag determine, and leaves no trace in the table of
    pending operations; nothing throws. *)
Theorem use_future_completes `{!Returning I} (w : W) location name a r ok resp :
  wf (queue w) ->
  let '(w1, p) := start_future location name a r w in
  let '(w2, res) := on_event (next_op (queue w)) ok resp w1 in
  p = Ok (next_promise (queue w)) /\ res = Ok tt /\
  promises (queue w2) !! next_promise (queue w) = Some (Promise true (Some (adapt a resp ok))) /\
  pending_ops (queue w2) = pending_ops (queue w) /\ self w2 = self w.
Proof.
  intros Hwf. unfold start_future. rewrite (bind_ok _ _ _ _ _ (make_promise_eq w)).
  pose proof (make_promise_evolves w Hwf) as [Hwf1 _].
  rewrite make_promise_eq in Hwf1. cbn in Hwf1.
  rewrite (bind_ok _ _ _ _ _ (start_op_eq _ _ _ _ (with_queue with_promise w) Hwf1)).
  unfold on_promise at 1. munfold. rewrite lookup_insert_eq. cbn.
  pose proof Hwf as (Hpos & _ & _).
  erewrite on_event_pending; [|lia|apply lookup_insert_eq].
  unfold run_callback, on_promise. cbn. rewrite lookup_insert_eq. cbn.
  rewrite lookup_insert_eq. split_and!; try done.
  apply delete_insert_id, wf_fresh, Hwf.
Qed.

(** The outcomes of a completed unary call, by the flag and the status. *)
Lemma adapt_rpc_cases location ok resp :
  adapt (adapt_rpc location) resp ok =
  match ok, status_ok (r_status resp) with
  | false, _ => Throw (runtime_error "async rpc cancelled")
  | true, false => Throw (make_exception (r_status resp) location [])
  | true, true => Ok resp
  end.
Proof. cbn. by destruct ok, (status_ok _). Qed.

(** *** The loop ends *)

Lemma run_stopped its w : its <> [] -> shutdown_ (queue w) = true -> run its w = (w, Ok (Some its)).
Proof.
  intros Hne Hs. destruct its as [|[others status] its]; [done|].
  cbn. unfold gets_queue. munfold. by rewrite Hs.
Qed.

Lemma run_cons others status its w :
  shutdown_ (queue w) = false ->
  run ((others, status) :: its) w =
  match status with
  | SHUTDOWN => (others w, Ok (Some its))
  | TIMEOUT => run its (others w)
  | GOT_EVENT tag ok resp => (on_event tag ok resp ;; run its) (others w)
  end.
Proof. intros Hs. cbn [run]. unfold gets_queue. munfold. rewrite Hs. by destruct status. Qed.

(** The loop returned, with at least [n] iterations not used (or a callback threw). *)
Definition stopped_with {X} (r : outcome (option (list X))) (n : nat) : Prop :=
  match r with
  | Ok None => False
  | Ok (Some rest) => (n <= length rest)%nat
  | _ => True
  end.

(** C36. [shutdown] ends the loop: when [shutdown_] is set during some iteration, the loop does not go
    on to the iterations after the next one; it returns (or a callback has thrown before). Other
    threads are only assumed to keep to the operations of the queue. *)
Theorem run_stops_after_shutdown (w : W) pre others status next post :
  wf (queue w) ->
  Forall (fun it => forall w, evolves w (it.1 w)) (pre ++ (others, status) :: next :: post) ->
  (forall w, shutdown_ (queue (others w)) = true) ->
  stopped_with (run (pre ++ (others, status) :: next :: post) w).2 (length (next :: post)).
Proof.
  intros Hwf Hall Hsd. revert w Hwf. induction pre as [|[o st] pre IH]; intros w Hwf.
  - cbn [app] in *. apply Forall_cons in Hall as [Hev Hall]. cbn in Hev.
    destruct (shutdown_ (queue w)) eqn:Hs.
    { rewrite run_stopped by done. cbn. lia. }
    rewrite run_cons by done. destruct (Hev w Hwf) as (Hwf' & _).
    destruct status as [| |tag ok resp].
    + cbn. lia.
    + rewrite run_stopped by done. cbn. lia.
    + unfold mbind, M_bind. pose proof (on_event_evolves tag ok resp (others w) Hwf') as He.
      destruct (on_event tag ok resp (others w)) as [w1 [[]|e|s]] eqn:E; cbn in He |- *; [|done..].
      destruct He as (_ & _ & _ & _ & He & _). specialize (He (Hsd w)).
      unfold gets_queue. munfold. destruct next as [o s]. rewrite He. cbn. lia.
  - rewrite <- app_comm_cons in *. apply Forall_cons in Hall as [Hev Hall]. cbn in Hev.
    destruct (shutdown_ (queue w)) eqn:Hs.
    { rewrite run_stopped by done. cbn. rewrite length_app. cbn. lia. }
    rewrite run_cons by done. destruct (Hev w Hwf) as (Hwf' & _).
    destruct st as [| |tag ok resp].
    + cbn. rewrite length_app. cbn. lia.
    + by apply IH.
    + unfold mbind, M_bind. pose proof (on_event_evolves tag ok resp (o w) Hwf') as He.
      destruct (on_event tag ok resp (o w)) as [w1 [[]|e|s]]; cbn in He |- *; [|done..].
      apply IH; [done|]. by destruct He.
Qed.

End loop_facts.

(** ** The theorems applied *)

(** A client whose callbacks do nothing, with one operation in the queue. *)
Lemma idle_evolves (k : unit) (resp : response) (ok : bool) :
  (mret tt : M (world unit unit) unit) ⊨ evolves.
Proof. respects_solve. Qed.
#[local] Instance idle_client : Client unit unit := {|
  invoke _ _ _ := mret tt;
  invoke_evolves := idle_evolves
|}.
Definition idle_world : world unit unit :=
  World tt (with_op "read" (functor tt) rq_read new_queue).

Lemma idle_world_wf : wf (queue idle_world).
Proof. by apply wf_b_true. Qed.


Lemma use_future_completes_witness :
  let r := Response (Status 4 "late") msg_none in
  match start_future "l" "call" (adapt_rpc "call") (rq_member_list "") idle_world with
  | (w1, Ok p) => promises (queue (on_event 2 true r w1).1) !! p =
      Some (Promise true (Some (Throw (runtime_error "call grpc error: late [4]"))))
  | _ => False
  end.
Proof.
  cbv zeta. pose proof (use_future_completes idle_world "l" "call" (adapt_rpc "call")
    (rq_member_list "") true (Response (Status 4 "late") msg_none) idle_world_wf) as Hs.
  change (next_op (queue idle_world)) with 2 in Hs.
  destruct (start_future _ _ _ _ idle_world) as [w1 r] eqn:E1.
  destruct (on_event 2 true _ w1) as [w2 x] eqn:E2.
  destruct Hs as (-> & _ & Hp & _). exact Hp.
Defined.

Lemma run_stops_after_shutdown_witness :
  let stop := fun w : world unit unit => (shutdown w).1 in
  let its := [(id, TIMEOUT); (stop, TIMEOUT); (id, TIMEOUT); (id, TIMEOUT)] in
  stopped_with (run its idle_world).2 2.
Proof.
  cbv zeta.
  apply (run_stops_after_shutdown idle_world [(id, TIMEOUT)] (fun w => (shutdown w).1) TIMEOUT
    (id, TIMEOUT) [(id, TIMEOUT)]); [apply idle_world_wf| |done].
  repeat apply List.Forall_cons; [..|apply List.Forall_nil]; intros w; try apply reflexivity.
  apply shutdown_evolves.
Defined.
