(* ===== verification/Threads.v ===== *)
(** * A thread next to the event loop, step by step

    The equations that run a thread of the application: it starts an operation with [use_future],
    blocks on the future, the completion arrives, it wakes up with the result. *)

From Stdlib Require Import FunctionalExtensionality.
From S2P Require Import Prelude Runtime Etcd OpCounter CompletionQueue.
Open Scope Z_scope.
Open Scope gh_scope.

(** ** Resumptions *)

Lemma prog_then_assoc {W A B C} (p : prog W A) (f : W -> outcome A -> prog W B)
    (g : W -> outcome B -> prog W C) :
  prog_then (prog_then p f) g = prog_then p (fun w r => prog_then (f w r) g).
Proof.
  induction p as [w r|w until k IH]; [done|]. cbn. f_equal. extensionality w'. apply IH.
Qed.

Lemma prog_then_ret {W A} (p : prog W A) : prog_then p Finished = p.
Proof. induction p as [w r|w until k IH]; [done|]. cbn. f_equal. extensionality w'. apply IH. Qed.

Lemma prog_then_finished {W A B} w (r : outcome A) (f : W -> outcome A -> prog W B) :
  prog_then (Finished w r) f = f w r.
Proof. reflexivity. Qed.

Lemma P_bind_then {W A B} (m : P W A) (k : A -> P W B) w :
  (m ≫= k) w = prog_then (m w) (fun w' r =>
    match r with
    | Ok a => k a w'
    | Throw e => Finished w' (Throw e)
    | UB s => Finished w' (UB s)
    end).
Proof. reflexivity. Qed.

Lemma P_bind_assoc {W A B C} (m : P W A) (f : A -> P W B) (g : B -> P W C) w :
  (m ≫= fun a => f a ≫= g) w = ((m ≫= f) ≫= g) w.
Proof.
  rewrite !P_bind_then, prog_then_assoc. f_equal. extensionality w'. extensionality r.
  by destruct r.
Qed.

Lemma lift_bind {W A B} (m : M W A) (k : A -> P W B) w w' a :
  m w = (w', Ok a) -> (lift m ≫= k) w = k a w'.
Proof. intros E. rewrite P_bind_then. unfold lift. by rewrite E. Qed.

Section threads.
Context {S K : Type} `{!Client S K}.
#[local] Abbreviation W := (world S K).
Implicit Types w : W.

(** ** A call and its completion *)

(** The world after an operation was started with [use_future] and completed. *)
Definition after_call (name : string) (a : adapter) (rq : request) (ok : bool) (resp : response) w : W :=
  with_queue (fun q =>
    Queue (pending_ops q) (next_op q + 1)
      (<[next_promise q := Promise true (Some (adapt a resp ok))]> (promises q)) (next_promise q + 1)
      (reverse (default_grpc_interceptor rq (next_op q)) ++ trace q) (shutdown_ q) (now q)) w.

Lemma wf_after_call name a rq ok resp w :
  wf (queue w) -> wf (queue (after_call name a rq ok resp w)).
Proof.
  intros (Hn & Ho & Hp). split_and!; cbn; [lia|intros tag op Hop%Ho; lia|].
  intros p c. rewrite lookup_insert_Some. intros [[<- _]|[_ Hc%Hp]]; lia.
Qed.

(** The world the thread blocks in. *)
Definition during_call (name : string) (a : adapter) (rq : request) w : W :=
  with_queue (fun q =>
    Queue (<[next_op q := AsyncOp name (set_future (next_promise q) a) rq]> (pending_ops q))
      (next_op q + 1) (<[next_promise q := Promise true None]> (promises q)) (next_promise q + 1)
      (reverse (default_grpc_interceptor rq (next_op q)) ++ trace q) (shutdown_ q) (now q)) w.

Lemma start_future_eq location name a rq w :
  wf (queue w) ->
  start_future location name a rq w = (during_call name a rq w, Ok (next_promise (queue w))).
Proof.
  intros Hwf. unfold start_future. rewrite (bind_ok _ _ _ _ _ (make_promise_eq w)).
  assert (Hwf1 : wf (with_promise (queue w))) by apply (make_promise_evolves w Hwf).
  rewrite (bind_ok _ _ _ _ _ (start_op_eq _ _ _ _ (with_queue with_promise w) Hwf1)).
  unfold on_promise. munfold. rewrite lookup_insert_eq. cbn. unfold during_call, with_queue, set_promises.
  cbn. by rewrite insert_insert_eq.
Qed.

Lemma complete_call name a rq ok resp w :
  wf (queue w) ->
  on_event (next_op (queue w)) ok resp (during_call name a rq w) =
  (after_call name a rq ok resp w, Ok tt).
Proof.
  intros Hwf. pose proof Hwf as (Hpos & _).
  erewrite on_event_pending; [|lia|apply lookup_insert_eq].
  unfold run_callback, on_promise. cbn. rewrite lookup_insert_eq. cbn.
  unfold after_call, with_queue, set_promises, set_pending_ops. cbn.
  rewrite insert_insert_eq, delete_insert_id; [done|]. by apply wf_fresh.
Qed.

(** Start, block, complete, wake: the thread goes on with the result. *)
Lemma sched_call {C} location name a rq ok resp w (k : W -> outcome response -> prog W C) es :
  wf (queue w) ->
  sched (ev_completion (next_op (queue w)) ok resp :: ev_wake :: es)
    (prog_then ((fut ← lift (start_future location name a rq); future_get fut) w) k) =
  sched es (k (after_call name a rq ok resp w) (adapt a resp ok)).
Proof.
  intros Hwf. rewrite (lift_bind _ _ _ _ _ (start_future_eq location name a rq w Hwf)).
  unfold future_get. rewrite P_bind_then, prog_then_assoc.
  unfold block_until, future_ready at 1. cbn [during_call with_queue queue promises].
  rewrite lookup_insert_eq. rewrite bool_decide_false by (intros [? ?]; done).
  cbn [prog_then sched sched_step prog_world]. rewrite complete_call by done.
  cbn [prog_set_world sched sched_step wake]. unfold future_ready at 1.
  cbn [after_call with_queue queue promises]. rewrite lookup_insert_eq.
  rewrite bool_decide_true by (by eexists). cbn [prog_then result]. unfold lift.
  cbn [after_call with_queue queue promises]. rewrite lookup_insert_eq. done.
Qed.

(** The same with code that uses the result. *)
Lemma sched_await {A C} location name a rq ok resp w (body : response -> P W A)
    (k : W -> outcome A -> prog W C) es :
  wf (queue w) ->
  sched (ev_completion (next_op (queue w)) ok resp :: ev_wake :: es)
    (prog_then ((fut ← lift (start_future location name a rq); x ← future_get fut; body x) w) k) =
  sched es (match adapt a resp ok with
            | Ok x => prog_then (body x (after_call name a rq ok resp w)) k
            | Throw e => k (after_call name a rq ok resp w) (Throw e)
            | UB s => k (after_call name a rq ok resp w) (UB s)
            end).
Proof.
  intros Hwf. rewrite P_bind_assoc, P_bind_then, prog_then_assoc, sched_call by done.
  by destruct (adapt a resp ok).
Qed.

(** Before it wakes up the thread is blocked. *)
Lemma sched_await_blocked {A C} location name a rq ok resp w (body : response -> P W A)
    (k : W -> outcome A -> prog W C) :
  wf (queue w) ->
  exists p, sched [ev_completion (next_op (queue w)) ok resp]
    (prog_then ((fut ← lift (start_future location name a rq); x ← future_get fut; body x) w) k) = running p /\
    prog_outcome p = None.
Proof.
  intros Hwf. rewrite P_bind_assoc, P_bind_then, prog_then_assoc.
  rewrite (lift_bind _ _ _ _ _ (start_future_eq location name a rq w Hwf)).
  unfold future_get. rewrite P_bind_then, prog_then_assoc.
  unfold block_until, future_ready at 1. cbn [during_call with_queue queue promises].
  rewrite lookup_insert_eq. rewrite bool_decide_false by (intros [? ?]; done).
  cbn [prog_then sched sched_step prog_world]. rewrite complete_call by done. by eexists.
Qed.

(** ** Code that goes on when a thread has finished *)

Lemma sched_finished {A} es w (r : outcome A) p : sched es (Finished w r) = running p -> prog_outcome p = Some r.
Proof.
  revert w. induction es as [|[tag ok resp| |t] es IH]; intros w; cbn; [by intros [= <-]| |apply IH|apply IH].
  destruct (on_event tag ok resp w) as [w' [[]|e|s]]; [apply IH|done..].
Qed.

(** Up to a point where the thread is blocked it runs the same with code after it. *)
Lemma sched_then {A C} es (p p0 : prog W A) (f : W -> outcome A -> prog W C) :
  sched es p = running p0 -> prog_outcome p0 = None -> sched es (prog_then p f) = running (prog_then p0 f).
Proof.
  intros Hrun Hp0. revert p Hrun. induction es as [|e es IH]; intros p Hrun; [by injection Hrun as <-|].
  destruct p as [w r|w until k]; [by apply sched_finished in Hrun; congruence|].
  cbn [sched] in *. destruct e as [tag ok resp| |t]; cbn [sched_step] in *.
  - cbn [prog_then prog_world] in *. destruct (on_event tag ok resp w) as [w' [[]|x|x]]; [|done..].
    by apply (IH (Blocked w' until k)).
  - apply IH in Hrun. rewrite <- Hrun. f_equal. cbn. by destruct (until w).
  - by apply (IH (Blocked (with_queue (set_now t) w) until k)).
Qed.

(** When the last event wakes it up it goes on. *)
Lemma sched_then_wake {A C} es (p p0 : prog W A) (f : W -> outcome A -> prog W C) :
  sched es p = running p0 -> prog_outcome p0 = None ->
  sched (es ++ [ev_wake]) (prog_then p f) = running (prog_then (wake p0) f).
Proof.
  intros Hrun Hp0. rewrite sched_app, (sched_then es p p0 f Hrun Hp0). cbn [sched sched_step].
  destruct p0 as [w r|w until k]; [done|]. cbn. by destruct (until w).
Qed.

End threads.
