(* ===== verification/Compose.v ===== *)
(** * Objects that share a completion queue

    Each component is modelled with a queue of its own. In the program several objects use one queue: an
    operation of any of them may be pending, tags and promises come from the same counters. A part of
    a world is an object of it with its callbacks; code of the part runs in the world through its
    view, and what it does there is what it does alone. *)

From Stdlib Require Import FunctionalExtensionality.
From S2P Require Import Prelude Runtime Etcd CompletionQueue Threads.
Open Scope Z_scope.
Open Scope gh_scope.

(** ** Parts *)

(** The object [S] within [S'], its lambdas [K] among [K']. *)
Class Part (S K S' K' : Type) := {
  get_part : S' -> S;
  put_part : S -> S' -> S';
  inj : K -> K';
  sel : K' -> option K;
  get_put s s' : get_part (put_part s s') = s;
  put_get s' : put_part (get_part s') s' = s';
  put_put s1 s2 s' : put_part s2 (put_part s1 s') = put_part s2 s';
  sel_inj k : sel (inj k) = Some k;
  inj_sel k' k : sel k' = Some k -> inj k = k'
}.
Arguments Part S K S' K' : clear implicits.

#[export] Instance left_part S1 K1 S2 K2 : Part S1 K1 (S1 * S2) (K1 + K2).
Proof.
  refine {| get_part := fst; put_part s p := (s, p.2); inj := inl;
            sel k := match k with inl k => Some k | inr _ => None end |}.
  - done.
  - by intros [].
  - done.
  - done.
  - by intros [k'|k'] k [= ->].
Defined.
#[export] Instance right_part S1 K1 S2 K2 : Part S2 K2 (S1 * S2) (K1 + K2).
Proof.
  refine {| get_part := snd; put_part s p := (p.1, s); inj := inr;
            sel k := match k with inr k => Some k | inl _ => None end |}.
  - done.
  - by intros [].
  - done.
  - done.
  - by intros [k'|k'] k [= ->].
Defined.

Section part.
Context {S K S' K' : Type} `{Part S K S' K'}.
#[local] Abbreviation W := (world S K).
#[local] Abbreviation W' := (world S' K').
Implicit Types (w : W) (v : W').

(** ** The view of a part *)

Definition sel_callback (c : callback K') : option (callback K) :=
  match c with
  | functor k => k ← sel k; Some (functor k)
  | set_future p a => Some (set_future p a)
  end.
Definition inj_callback (c : callback K) : callback K' :=
  match c with functor k => functor (inj k) | set_future p a => set_future p a end.
Definition sel_op (op : async_op K') : option (async_op K) :=
  c ← sel_callback (op_callback op); Some (AsyncOp (op_name op) c (op_request op)).
Definition inj_op (op : async_op K) : async_op K' :=
  AsyncOp (op_name op) (inj_callback (op_callback op)) (op_request op).

(** The operations of other objects. *)
Definition others (q : completion_queue K') : gmap Z (async_op K') :=
  filter (fun p => sel_op p.2 = None) (pending_ops q).

Definition view_queue (q : completion_queue K') : completion_queue K :=
  Queue (omap sel_op (pending_ops q)) (next_op q) (promises q) (next_promise q) (trace q) (shutdown_ q) (now q).
Definition merge_queue (q : completion_queue K) (q' : completion_queue K') : completion_queue K' :=
  Queue ((inj_op <$> pending_ops q) ∪ others q') (next_op q) (promises q) (next_promise q) (trace q)
    (shutdown_ q) (now q).

Definition view v : W := World (get_part (self v)) (view_queue (queue v)).
Definition merge w v : W' := World (put_part (self w) (self v)) (merge_queue (queue w) (queue v)).

(** Code of the part in the world. *)
Definition embed {A} (m : M W A) : M W' A := fun v =>
  let '(w, r) := m (view v) in (merge w v, r).
Fixpoint embed_prog {A} (v : W') (p : prog W A) : prog W' A :=
  match p with
  | Finished w r => Finished (merge w v) r
  | Blocked w until k =>
      Blocked (merge w v) (fun u => until (view u)) (fun u => embed_prog u (k (view u)))
  end.
Definition embed_P {A} (m : Prelude.P W A) : Prelude.P W' A := fun v => embed_prog v (m (view v)).

(** ** The view and the world *)

Lemma sel_inj_op op : sel_op (inj_op op) = Some op.
Proof. destruct op as [n [k|p a] r]; [|done]. unfold sel_op. cbn. by rewrite sel_inj. Qed.
Lemma inj_sel_op op' op : sel_op op' = Some op -> inj_op op = op'.
Proof.
  destruct op' as [n [k|p a] r]; unfold sel_op; cbn; [|by intros [= <-]].
  destruct (sel k) as [k0|] eqn:Hk; [|done]. cbn. intros [= <-]. unfold inj_op. cbn. by rewrite (inj_sel k k0).
Qed.

Lemma others_lookup q tag op' : others q !! tag = Some op' <-> pending_ops q !! tag = Some op' /\ sel_op op' = None.
Proof. unfold others. by rewrite map_lookup_filter_Some. Qed.

Lemma view_merge w v : view (merge w v) = w.
Proof.
  destruct w as [s [ops n ps np t sh c]]. unfold view, merge, view_queue, merge_queue. cbn. rewrite get_put.
  do 2 f_equal. apply map_eq. intros tag. rewrite lookup_omap, lookup_union, lookup_fmap.
  destruct (ops !! tag) as [op|] eqn:Ho; cbn.
  - destruct (others (queue v) !! tag); cbn; by rewrite sel_inj_op.
  - destruct (others (queue v) !! tag) as [op'|] eqn:Hp; cbn; [|done]. by apply others_lookup in Hp as [_ ->].
Qed.

Lemma merge_view v : merge (view v) v = v.
Proof.
  destruct v as [s [ops n ps np t sh c]]. unfold view, merge, view_queue, merge_queue, others. cbn. rewrite put_get.
  do 2 f_equal. apply map_eq. intros tag. rewrite lookup_union, lookup_fmap, lookup_omap, map_lookup_filter.
  destruct (ops !! tag) as [op|]; cbn; [|done]. destruct (sel_op op) as [op0|] eqn:Hs; cbn.
  - rewrite option_guard_False by congruence. cbn. by rewrite (inj_sel_op op op0).
  - by rewrite option_guard_True.
Qed.

(** The operations of the part are not where others' are. *)
Definition apart w v : Prop := forall tag op, pending_ops (queue w) !! tag = Some op -> others (queue v) !! tag = None.

Lemma apart_view v : apart (view v) v.
Proof.
  intros tag op Hop. cbn in Hop. rewrite lookup_omap in Hop. apply eq_None_not_Some. intros [op' [Ho Hs]%others_lookup].
  rewrite Ho in Hop. cbn in Hop. congruence.
Qed.

Lemma others_merge w v : apart w v -> others (queue (merge w v)) = others (queue v).
Proof.
  intros Ha. apply map_eq. intros tag. apply option_eq. intros op'. rewrite others_lookup. cbn.
  rewrite lookup_union_Some_raw, lookup_fmap_Some. split.
  - intros [[(op & <- & Hop)|[_ Ho]] Hs]; [by rewrite sel_inj_op in Hs|done].
  - intros Ho. split; [|by apply others_lookup in Ho as [_ ?]]. right. split; [|done].
    rewrite lookup_fmap. destruct (pending_ops (queue w) !! tag) eqn:E; [|done]. apply Ha in E. congruence.
Qed.

Lemma merge_merge w1 w2 v : apart w1 v -> merge w2 (merge w1 v) = merge w2 v.
Proof.
  intros Ha. pose proof (others_merge w1 v Ha) as Ho. unfold merge in *. cbn [self queue] in *. rewrite put_put.
  f_equal. set (q1 := merge_queue (queue w1) (queue v)) in *. unfold merge_queue. by rewrite Ho.
Qed.

Lemma wf_view v : wf (queue v) -> wf (queue (view v)).
Proof.
  intros (Hn & Ho & Hp). split_and!; cbn; [done| |done]. intros tag op. rewrite lookup_omap.
  destruct (pending_ops (queue v) !! tag) as [op'|] eqn:E; [|done]. intros _. by eapply Ho.
Qed.

(** What code does within the view keeps to the queue, and away from others' operations. *)
Definition older w v : Prop := forall tag op', others (queue v) !! tag = Some op' -> 0 < tag < next_op (queue w).

Lemma older_view v : wf (queue v) -> older (view v) v.
Proof. intros (_ & Ho & _) tag op' [Hop _]%others_lookup. cbn. by eapply Ho. Qed.

Lemma evolves_apart w w1 v :
  wf (queue w) -> older w v -> apart w v -> evolves w w1 -> older w1 v /\ apart w1 v.
Proof.
  intros Hwf Hold Ha He. destruct (He Hwf) as (Hwf1 & Hn & Hops & _). split.
  - intros tag op' Ho. apply Hold in Ho. lia.
  - intros tag op Hop. destruct (others (queue v) !! tag) as [op'|] eqn:Ho; [|done].
    pose proof (Hold tag op' Ho). apply Hops in Hop; [|lia]. by rewrite (Ha tag op Hop) in Ho.
Qed.

Lemma wf_merge w v : wf (queue w) -> older w v -> wf (queue (merge w v)).
Proof.
  intros (Hn & Ho & Hp) Hold. split_and!; cbn; [done| |done]. intros tag op'.
  rewrite lookup_union_Some_raw, lookup_fmap_Some. intros [(op & _ & Hop)|[_ Hop]]; [by eapply Ho|by eapply Hold].
Qed.

Lemma others_evolves v w :
  wf (queue v) -> evolves (view v) w -> others (queue (merge w v)) = others (queue v).
Proof.
  intros Hwf He. apply others_merge. eapply evolves_apart; [by apply wf_view|by apply older_view|apply apart_view|done].
Qed.
Lemma evolves_merge v w : evolves (view v) w -> evolves v (merge w v).
Proof.
  intros He Hwf. pose proof (wf_view v Hwf) as Hwfv. pose proof (older_view v Hwf) as Hold.
  destruct (evolves_apart _ _ _ Hwfv Hold (apart_view v) He) as [Hold1 Ha1].
  destruct (He Hwfv) as (Hwf1 & Hn & Hops & Hps & Hsh & Htr).
  split; [by apply wf_merge|]. split; [done|]. split; [|done].
  intros tag op' Ht. cbn. rewrite lookup_union_Some_raw, lookup_fmap_Some.
  intros [(op & <- & Hop)|[_ [Ho _]%others_lookup]]; [|done]. apply Hops in Hop; [|done]. cbn in Hop.
  rewrite lookup_omap in Hop. destruct (pending_ops (queue v) !! tag) as [op2|]; [|done]. cbn in Hop.
  by rewrite (inj_sel_op op2 op).
Qed.
Lemma embed_evolves {A} (m : M W A) : m ⊨ evolves -> embed m ⊨ evolves.
Proof.
  intros Hm v. unfold embed. specialize (Hm (view v)). destruct (m (view v)) as [w r]. by apply evolves_merge.
Qed.

(** A relation on the worlds of the part, and the one it gives for the whole. *)
Lemma embed_P_respects {A} (R : W -> W -> Prop) (R' : W' -> W' -> Prop) (m : Prelude.P W A) :
  (forall v w, R (view v) w -> R' v (merge w v)) -> P_respects R m -> P_respects R' (embed_P m).
Proof.
  intros HR Hm v. destruct (Hm (view v)) as [H1' H2']. unfold embed_P. revert H1' H2'.
  generalize (m (view v)) as p. intros p Hp Hsteps. split; [apply HR in Hp; by destruct p|]. clear Hp.
  revert v. induction p as [w r|w until k IH]; intros v; [done|]. cbn. intros u Hu.
  destruct (Hsteps _ Hu) as [H1' H2']. split; [apply HR in H1'; by destruct (k (view u))|]. by apply IH.
Qed.

End part.

(** ** Events and threads *)

(** The lambdas of a part do, in the world, what they do in its view. *)
Class PartClient (S K S' K' : Type) `{Part S K S' K', Client S K, Client S' K'} :=
  invoke_inj k resp ok : invoke (S:=S') (inj k) resp ok = embed (invoke (S:=S) k resp ok).
Arguments PartClient S K S' K' {_ _ _}.

(** A thread whose sections keep to the queue, for any schedule. *)
Lemma sched_evolves {S K A} `{Client S K} es (p p' : prog (world S K) A) :
  prog_respects evolves p -> sched es p = running p' ->
  evolves (prog_world p) (prog_world p') /\ prog_respects evolves p'.
Proof.
  revert p. induction es as [|e es IH]; intros p Hp Hrun; [injection Hrun as <-; by split; [reflexivity|]|].
  cbn [sched] in Hrun. destruct e as [tag ok resp| |t]; cbn [sched_step] in Hrun.
  - pose proof (on_event_evolves tag ok resp (prog_world p)) as He.
    destruct (on_event tag ok resp (prog_world p)) as [w [[]|x|x]]; [|done..].
    apply IH in Hrun as [Hrun ?]; [|by destruct p]. split; [|done]. etrans; [exact He|]. by destruct p.
  - destruct p as [w r|w until k]; [by apply IH in Hrun|]. cbn in *. destruct (until w) eqn:Hu; [|by apply IH in Hrun].
    destruct (Hp w Hu) as [He Hk]. apply IH in Hrun as [Hrun ?]; [|done]. split; [|done]. by etrans.
  - apply IH in Hrun; by destruct p.
Qed.
Lemma wake_evolves {S K A} (p : prog (world S K) A) :
  prog_respects evolves p -> evolves (prog_world p) (prog_world (wake p)).
Proof.
  destruct p as [w r|w until k]; [reflexivity|]. cbn. intros Hp. destruct (until w) eqn:Hu; [apply (Hp w Hu)|reflexivity].
Qed.

Section part_client.
Context {S K S' K' : Type} `{PartClient S K S' K'}.
#[local] Abbreviation W := (world S K).
#[local] Abbreviation W' := (world S' K').
Implicit Types (w : W) (v : W').

Lemma on_promise_merge {A} p (m : M (promise response) A) w v :
  on_promise p m (merge w v) = let '(w1, r) := on_promise p m w in (merge w1 v, r).
Proof. unfold on_promise. cbn. destruct (promises (queue w) !! p) as [c|]; [|done]. by destruct (m c). Qed.

Lemma embed_keeps_others {A} (m : M W A) v :
  wf (queue v) -> m ⊨ evolves -> others (queue (embed m v).1) = others (queue v).
Proof.
  intros Hwf Hm. specialize (Hm (view v)). unfold embed. destruct (m (view v)) as [w r]. cbn [fst] in *.
  apply (others_merge w v). eapply evolves_apart; [by apply wf_view|by apply older_view|apply apart_view|done].
Qed.

Definition without tag v : W' := with_queue (set_pending_ops (delete tag (pending_ops (queue v)))) v.

Lemma view_without tag v :
  view (without tag v) = with_queue (set_pending_ops (delete tag (pending_ops (queue (view v))))) (view v).
Proof. unfold view, without, view_queue, with_queue, set_pending_ops. cbn. by rewrite omap_delete. Qed.

Lemma merge_without tag w v : others (queue v) !! tag = None -> merge w (without tag v) = merge w v.
Proof.
  intros Ho. unfold merge, merge_queue, without, others. cbn. do 3 f_equal.
  apply map_eq. intros t. apply option_eq. intros op. rewrite !map_lookup_filter_Some, lookup_delete_Some. cbn.
  split; [tauto|]. intros [Hop Hs]. split; [|done]. split; [|done]. intros <-.
  assert (others (queue v) !! tag = Some op) by (by apply others_lookup). congruence.
Qed.

(** An event for the part, or for nobody, does to the world what it does to the part. *)
Lemma on_event_embed tag ok resp v :
  others (queue v) !! tag = None -> on_event tag ok resp v = embed (on_event tag ok resp) v.
Proof.
  intros Ho. destruct (decide (tag = 0)) as [->|Ht]; [unfold embed; cbn; by rewrite merge_view|].
  destruct (pending_ops (queue v) !! tag) as [op'|] eqn:Hop.
  - destruct (sel_op op') as [op|] eqn:Hs;
      [|assert (others (queue v) !! tag = Some op') by (by apply others_lookup); congruence].
    rewrite (on_event_pending _ _ _ _ op') by done. fold (without tag v). unfold embed.
    rewrite (on_event_pending _ _ _ (view v) op) by (done || by cbn; rewrite lookup_omap, Hop).
    rewrite <- view_without. unfold run_callback.
    destruct op' as [n [k'|p a] r]; unfold sel_op in Hs; cbn in *.
    + destruct (sel k') as [k|] eqn:Hk; [|done]. injection Hs as <-. cbn. rewrite <- (inj_sel k' k Hk), invoke_inj.
      unfold embed. destruct (invoke k resp ok _) as [w x]. by rewrite merge_without.
    + injection Hs as <-. cbn. rewrite <- (merge_view (without tag v)), on_promise_merge, view_merge.
      destruct (on_promise _ _ _) as [w x]. by rewrite merge_without.
  - rewrite on_event_unknown by done. unfold embed.
    rewrite on_event_unknown by (cbn; by rewrite lookup_omap, Hop). by rewrite merge_view.
Qed.

(** And it leaves the other objects alone. *)
Lemma event_through_part tag ok resp v :
  wf (queue v) -> others (queue v) !! tag = None ->
  let '(v', r) := on_event tag ok resp v in
  (view v', r) = on_event tag ok resp (view v) /\ others (queue v') = others (queue v) /\
  exists s, self v' = put_part s (self v).
Proof.
  intros Hwf Ho. rewrite on_event_embed by done.
  pose proof (embed_keeps_others (on_event tag ok resp) v Hwf (on_event_evolves tag ok resp)) as Hk.
  unfold embed in *. destruct (on_event tag ok resp (view v)) as [w r]. rewrite view_merge.
  split; [done|]. split; [done|]. by exists (self w).
Qed.

Lemma embed_prog_merge {A} w v (p : prog W A) : apart w v -> embed_prog (merge w v) p = embed_prog v p.
Proof. intros Ha. destruct p; cbn; by rewrite merge_merge. Qed.
Lemma prog_world_embed {A} v (p : prog W A) : prog_world (embed_prog v p) = merge (prog_world p) v.
Proof. by destruct p. Qed.
Lemma embed_set_world {A} v (p : prog W A) w :
  prog_set_world (fun _ => merge w v) (embed_prog v p) = embed_prog v (prog_set_world (fun _ => w) p).
Proof. by destruct p. Qed.

Definition in_world {A} v (s : system (S:=S) (K:=K) A) : system (S:=S') (K:=K') A :=
  match s with
  | running p => running (embed_prog v p)
  | terminated e => terminated e
  | undefined_behaviour why => undefined_behaviour why
  end.

(** The events that are not for other objects. *)
Definition not_for_others v (e : sched_event) : Prop :=
  match e with ev_completion tag _ _ => others (queue v) !! tag = None | _ => True end.

Definition fits v w : Prop := wf (queue w) /\ older w v /\ apart w v.
Lemma fits_view v : wf (queue v) -> fits v (view v).
Proof. intros Hwf. split_and!; [by apply wf_view|by apply older_view|apply apart_view]. Qed.
Lemma fits_evolves v w w1 : fits v w -> evolves w w1 -> fits v w1.
Proof.
  intros (Hwf & Ho & Ha) He. split; [by apply (He Hwf)|]. by eapply evolves_apart.
Qed.

Lemma sched_step_embed {A} e v (p : prog W A) :
  fits v (prog_world p) -> not_for_others v e -> sched_step e (embed_prog v p) = in_world v (sched_step e p).
Proof.
  intros (Hwf & Ho & Ha) He. destruct e as [tag ok resp| |t]; cbn [sched_step].
  - rewrite prog_world_embed, on_event_embed by (by rewrite others_merge). unfold embed. rewrite view_merge.
    destruct (on_event tag ok resp (prog_world p)) as [w [[]|x|x]]; [|done..].
    rewrite merge_merge by done. cbn [in_world]. by rewrite embed_set_world.
  - destruct p as [w r|w until k]; [done|]. cbn. rewrite view_merge. destruct (until w); [|done].
    cbn. by rewrite embed_prog_merge.
  - by destruct p.
Qed.

(** A thread of a part runs in the world as it runs alone, as long as the events that arrive are not for
    the other objects. *)
Theorem sched_embed {A} es v (m : Prelude.P W A) :
  wf (queue v) -> P_respects evolves m -> Forall (not_for_others v) es ->
  sched es (embed_P m v) = in_world v (sched es (m (view v))).
Proof.
  intros Hwf Hm Hes. destruct (Hm (view v)) as [H1' H2'].
  pose proof (fits_evolves _ _ _ (fits_view v Hwf) H1') as Hfit. clear H1' Hm. unfold embed_P.
  revert Hfit H2'. generalize (m (view v)) as p. induction Hes as [|e es He _ IH]; intros p Hfit Hp; [done|].
  cbn [sched]. rewrite sched_step_embed by done.
  assert (Hnext : forall p', sched_step e p = running p' ->
    fits v (prog_world p') /\ prog_respects evolves p').
  { intros p' Hstep. destruct e as [tag ok resp| |t]; cbn in Hstep.
    - pose proof (on_event_evolves tag ok resp (prog_world p)) as Hev.
      destruct (on_event tag ok resp (prog_world p)) as [w [[]|x|x]]; [|done..]. injection Hstep as <-.
      split; [|by destruct p]. destruct p; cbn in *; by eapply fits_evolves.
    - injection Hstep as <-. destruct p as [w r|w until k]; [done|]. cbn in *. destruct (until w) eqn:Hu; [|done].
      destruct (Hp w Hu) as [Hev Hk]. split; [by eapply fits_evolves|done].
    - injection Hstep as <-. destruct p; done. }
  destruct (sched_step e p) as [p'|x|x]; [|done..]. cbn [in_world]. destruct (Hnext p' eq_refl). by apply IH.
Qed.

(** The end of a call of the part: what the caller does next starts in the world the part left. *)
Lemma sched_embed_then {A B} es v (m : Prelude.P W A) (f : W' -> outcome A -> prog W' B) p w r :
  wf (queue v) -> P_respects evolves m -> Forall (not_for_others v) es ->
  sched es (m (view v)) = running p -> prog_outcome p = None -> wake p = Finished w r ->
  sched (es ++ [ev_wake]) (prog_then (embed_P m v) f) = running (f (merge w v) r) /\ fits v w.
Proof.
  intros Hwf Hm Hes Hrun Hp Hwake. pose proof (sched_embed es v m Hwf Hm Hes) as Hemb.
  rewrite Hrun in Hemb. cbn [in_world] in Hemb. destruct (Hm (view v)) as [Hstart Hsteps].
  destruct (sched_evolves es _ _ Hsteps Hrun) as [Hend Hlast].
  pose proof (fits_evolves _ _ _ (fits_evolves _ _ _ (fits_view v Hwf) Hstart) Hend) as Hfit.
  split; [|eapply fits_evolves; [exact Hfit|]; pose proof (wake_evolves p Hlast) as He; by rewrite Hwake in He].
  rewrite (sched_then_wake es _ (embed_prog v p)); [|exact Hemb|by destruct p]. f_equal.
  destruct Hfit as (_ & _ & Ha). destruct p as [w0 r0|w0 until k]; [done|].
  cbn [embed_prog wake prog_world] in *. rewrite view_merge.
  destruct (until w0); [|done]. rewrite embed_prog_merge by done. by rewrite Hwake.
Qed.
End part_client.
