(* ===== verification/ActiveQueue.v ===== *)
(** * [active_completion_queue] (gh/active_completion_queue.hpp, active_completion_queue.cpp)

    The owner of a completion queue and of the thread that runs it. Its members are destroyed in reverse
    order: the queue is shut down, the thread joined, the thread object and the queue released.

    The world is what the objects share: the queues that were shut down, and the threads that are still in
    [run], with their queue. A thread leaves [run] when its queue is shut down
    ([CompletionQueue.run_stops_after_shutdown]); until then it does not end. *)

From S2P Require Import Prelude.
Open Scope Z_scope.
Open Scope gh_scope.

Module ActiveQueue.

(** ** State *)

Record shared := Shared { stopped : gset Z; running : gmap Z Z }.

(** [queue_] and [shutdown_.queue] are pointers to queues, [thread_] is the thread if it is joinable;
    [join_] always points to the [thread_] of its own object. *)
Record active_completion_queue := Active {
  queue_ : option Z;
  thread_ : option Z;
  shutdown_ : option Z
}.

#[export] Instance active_eq_dec : EqDecision active_completion_queue.
Proof. solve_decision. Defined.

#[local] Abbreviation W := shared.

Definition queue (a : active_completion_queue) : option Z := queue_ a.

(** The first constructor: a new queue [q], and a new thread [t] that runs it. *)
Definition make (q t : Z) : M W active_completion_queue :=
  modify (fun w => Shared (stopped w) (<[t := q]> (running w)));;
  mret (Active (Some q) (Some t) (Some q)).

(** The second: from a queue and a thread that runs it. *)
Definition make_from (q t : option Z) : active_completion_queue := Active q t q.

(** The move constructor: the new object, and what is left in [rhs]. *)
Definition move (rhs : active_completion_queue) : active_completion_queue * active_completion_queue :=
  (Active (queue_ rhs) (thread_ rhs) (queue_ rhs), Active None None None).

(** [operator bool] *)
Definition has_queue (a : active_completion_queue) : bool := bool_decide (is_Some (queue_ a)).

(** [cq()] *)
Definition cq (a : active_completion_queue) : M W Z :=
  match queue_ a with
  | Some q => mret q
  | None => undefined "null queue_"
  end.

(** ** Destruction *)

(** [completion_queue::shutdown] on a shared queue. *)
Definition queue_shutdown (q : Z) : M W unit :=
  modify (fun w => Shared ({[q]} ∪ stopped w) (running w)).

Definition destroy_defer_shutdown (q : option Z) : M W unit :=
  match q with Some q => queue_shutdown q | None => mret tt end.

Definition ended (t : Z) (w : W) : bool := bool_decide (running w !! t = None).

(** [thread->join()] if it is joinable; the thread is not joinable afterwards. *)
Definition destroy_defer_join (t : option Z) : P W (option Z) :=
  match t with
  | Some t => block_until (ended t);; mret None
  | None => mret None
  end.

(** [std::thread]'s destructor. *)
Definition destroy_thread (t : option Z) : M W unit :=
  match t with
  | Some _ => undefined "std::terminate: a joinable thread is destroyed"
  | None => mret tt
  end.

(** The destructor: its body only logs, then the members go in the reverse order. *)
Definition destroy (a : active_completion_queue) : P W unit :=
  lift (destroy_defer_shutdown (shutdown_ a));;
  t ← destroy_defer_join (thread_ a);
  lift (destroy_thread t).

(** [*this = std::move(rhs)]: the object, and what is left in [rhs]. [tmp] takes the old members and is
    destroyed at the end. A thread moved onto a joinable one would terminate. *)
Definition move_assign (this rhs : active_completion_queue) :
    P W (active_completion_queue * active_completion_queue) :=
  let '(tmp, this) := move this in
  match thread_ this with
  | Some _ => fun w => Finished w (UB "std::terminate: assignment to a joinable thread")
  | None =>
      let this := Active (queue_ rhs) (thread_ rhs) (queue_ rhs) in
      let rhs := Active None None (shutdown_ rhs) in
      destroy tmp;;
      mret (this, rhs)
  end.

(** ** The threads *)

(** A thread in [run] ends: its queue is shut down. *)
Definition finish (t : Z) (w : W) : option W :=
  q ← running w !! t;
  if decide (q ∈ stopped w) then Some (Shared (stopped w) (delete t (running w))) else None.

(** What other threads do while a destructor waits. *)
Inductive event := ev_finish (t : Z) | ev_shutdown (q : Z).
Definition other (e : event) (w : W) : W :=
  match e with
  | ev_finish t => default w (finish t w)
  | ev_shutdown q => (queue_shutdown q w).1
  end.
Definition run_others {A} (es : list event) (p : prog W A) : prog W A :=
  foldl (fun p e => wake (prog_set_world (other e) p)) p es.

(** ** What is guaranteed *)

(** An object that owns its queue and its thread: what the constructors make. *)
Definition owns (a : active_completion_queue) (q t : Z) (w : W) : Prop :=
  queue_ a = Some q /\ thread_ a = Some t /\ shutdown_ a = Some q /\ (running w !! t = Some q \/ running w !! t = None).

Lemma make_owns q t w : owns (Active (Some q) (Some t) (Some q)) q t (make q t w).1.
Proof. unfold make. munfold. split_and!; [done..|]. left. apply lookup_insert_eq. Qed.

(** The thread [t] runs [q], if it runs at all; [q] is shut down. *)
Definition leaving (q t : Z) (w : W) : Prop :=
  q ∈ stopped w /\ (running w !! t = Some q \/ running w !! t = None).

Lemma leaving_other q t e w : leaving q t w -> leaving q t (other e w).
Proof.
  intros [Hq Ht]. destruct e as [t'|q']; cbn.
  - unfold finish. destruct (running w !! t') as [q'|] eqn:Ht'; cbn; [|done].
    case_decide; [|done]. split; [done|]. cbn.
    destruct (decide (t' = t)) as [->|]; [right; apply lookup_delete_eq|].
    by rewrite lookup_delete_ne.
  - split; [set_solver|done].
Qed.

(** The destructor, up to the join. *)
Definition joining (t : Z) (w : W) : prog W unit :=
  if ended t w then Finished w (Ok tt) else Blocked w (ended t) (fun w => Finished w (Ok tt)).

Lemma destroy_eq a q t w :
  owns a q t w -> destroy a w = joining t (queue_shutdown q w).1.
Proof.
  intros (Hq & Ht & Hs & _). unfold destroy, joining. rewrite Hs, Ht. cbn. munfold.
  unfold block_until. by destruct (ended t _).
Qed.

Lemma joining_event t e w :
  wake (prog_set_world (other e) (joining t w)) =
  if ended t w then Finished (other e w) (Ok tt) else joining t (other e w).
Proof.
  unfold joining. destruct (ended t w) eqn:E; [done|]. cbn.
  by destruct (ended t (other e w)) eqn:E'.
Qed.

Lemma finished_others es w : exists w', run_others es (Finished w (Ok tt)) = Finished w' (Ok tt).
Proof. revert w. induction es as [|e es IH]; intros w; [by exists w|]. apply IH. Qed.

Lemma joining_ends es q t w :
  leaving q t w -> (ended t w = true \/ ev_finish t ∈ es) ->
  exists w', run_others es (joining t w) = Finished w' (Ok tt).
Proof.
  revert w. induction es as [|e es IH]; intros w Hl Hes.
  - destruct Hes as [He|He]; [|by apply not_elem_of_nil in He].
    exists w. cbn. unfold joining. by rewrite He.
  - cbn [run_others foldl]. rewrite joining_event.
    destruct (ended t w) eqn:E; [apply finished_others|].
    apply IH; [by apply leaving_other|].
    destruct Hes as [|[<-|Hes]%elem_of_cons]; [done| |by right].
    left. destruct Hl as [Hq [Ht|Ht]]; [|unfold ended in E; by rewrite Ht in E].
    unfold ended. cbn. unfold finish. rewrite Ht. cbn. rewrite decide_True by done. cbn.
    by rewrite lookup_delete_eq.
Qed.

(** C35. The destructor of an active queue shuts its queue down before it joins the thread, so that
    the join ends: whatever the other threads do, once the thread has had its turn to
    leave [run] (it may have left before) the destructor has returned normally, and the
    joinable thread was not destroyed. *)
Theorem destroy_joins (a : active_completion_queue) (q t : Z) (es : list event) (w : shared) :
  owns a q t w -> (running w !! t = None \/ ev_finish t ∈ es) ->
  exists w', run_others es (destroy a w) = Finished w' (Ok tt).
Proof.
  intros Ho Hes. rewrite (destroy_eq _ _ _ _ Ho). destruct Ho as (_ & _ & _ & Hr).
  apply (joining_ends _ q); [split; [set_solver|done]|].
  destruct Hes as [Hn|]; [left|by right]. unfold ended. cbn. by rewrite Hn.
Qed.

(** Queue 1 with thread 7, queue 2 with thread 8. *)
Definition two_queues : shared := Shared ∅ {[7 := 1; 8 := 2]}.

Lemma destroy_joins_witness :
  exists w', run_others [ev_shutdown 2; ev_finish 8; ev_finish 7]
    (destroy (Active (Some 1) (Some 7) (Some 1)) two_queues) = Finished w' (Ok tt).
Proof.
  apply (destroy_joins _ 1 7).
  - split_and!; [done..|]. left. reflexivity.
  - right. set_solver.
Defined.

(** A move construction hands over everything: the source is left with nothing to shut down and
    nothing to join. A move assignment does not: the source keeps the pointer through which its destructor
    shuts down the queue that the target has taken over, so that the target is left
    with a queue that is shut down. *)
Theorem moves_and_shutdown (this rhs : active_completion_queue) (q t : Z) (w : shared) :
  queue_ this = None -> thread_ this = None -> queue_ rhs = Some q -> thread_ rhs = Some t ->
  shutdown_ rhs = Some q -> q ∉ stopped w ->
  destroy (move rhs).2 w = Finished w (Ok tt) /\
  exists this' rhs' w', move_assign this rhs w = Finished w (Ok (this', rhs')) /\
    queue_ this' = Some q /\ thread_ this' = Some t /\
    destroy rhs' w = Finished w' (Ok tt) /\ q ∈ stopped w'.
Proof.
  intros Hq Ht Hq' Ht' Hs' Hn. split; [done|]. unfold move_assign. cbn. rewrite Hq, Ht. munfold.
  eexists _, _, _. split_and!; [done|done|done| |].
  - unfold destroy. cbn. rewrite Hs'. munfold. done.
  - cbn. set_solver.
Qed.

Lemma moves_and_shutdown_witness :
  exists this' rhs' w', move_assign (Active None None None) (Active (Some 1) (Some 7) (Some 1)) two_queues
      = Finished two_queues (Ok (this', rhs')) /\
    queue_ this' = Some 1 /\ thread_ this' = Some 7 /\
    destroy rhs' two_queues = Finished w' (Ok tt) /\ 1 ∈ stopped w'.
Proof.
  apply (moves_and_shutdown (Active None None None) (Active (Some 1) (Some 7) (Some 1)) 1 7 two_queues);
    try reflexivity. set_solver.
Defined.

End ActiveQueue.
