(* ===== verification/Balance.v ===== *)
(** * Counters and the operations they count

    A client object counts the operations it has in the queue with an [async_op_counter], to wait for
    them before it goes away. [balance] is the difference between the count and the number of
    pending operations of the kind counted; the rules below follow it through the
    code of a handler, branch by branch. *)

From S2P Require Import Prelude Runtime Etcd OpCounter CompletionQueue.
Open Scope Z_scope.
Open Scope gh_scope.
Import OpCounter.

Section balance.
Context {S K : Type}.
#[local] Abbreviation W := (world S K).
Implicit Types w : W.

(** The pending operations whose callback satisfies [f]. *)
Definition count_ops (f : callback K -> bool) (q : completion_queue K) : Z :=
  Z.of_nat (size (filter (fun p => f (op_callback p.2) = true) (pending_ops q))).

Definition balance (proj : S -> async_op_counter) (f : callback K -> bool) (w : W) : Z :=
  OpCounter.pending (proj (self w)) - count_ops f (queue w).

Lemma count_ops_nonneg f (q : completion_queue K) : 0 <= count_ops f q.
Proof. unfold count_ops. lia. Qed.

Lemma count_ops_with_op f name cb r (q : completion_queue K) :
  wf q -> count_ops f (with_op name cb r q) = count_ops f q + Z.b2z (f cb).
Proof.
  intros Hf%wf_fresh. unfold count_ops, with_op. cbn [pending_ops].
  destruct (f cb) eqn:E.
  - rewrite map_filter_insert_True by done.
    rewrite map_size_insert_None; [cbn; lia|]. apply map_lookup_filter_None. by left.
  - rewrite map_filter_insert_False by (cbn; congruence).
    rewrite delete_id by done. cbn. lia.
Qed.

Lemma count_ops_unregister f tag op (q : completion_queue K) :
  pending_ops q !! tag = Some op ->
  count_ops f (set_pending_ops (delete tag (pending_ops q)) q) =
  count_ops f q - Z.b2z (f (op_callback op)).
Proof.
  intros Hop. unfold count_ops. cbn [pending_ops set_pending_ops].
  rewrite map_filter_delete. destruct (f (op_callback op)) eqn:E.
  - rewrite (map_size_insert_delete (filter _ (pending_ops q)) tag op); [cbn; lia|].
    by apply map_lookup_filter_Some.
  - rewrite delete_id; [cbn; lia|]. apply map_lookup_filter_None. right. intros x Hx. cbn.
    congruence.
Qed.

Lemma count_ops_pos f tag op (q : completion_queue K) :
  pending_ops q !! tag = Some op -> f (op_callback op) = true -> 0 < count_ops f q.
Proof.
  intros Hop Hf. unfold count_ops.
  rewrite (map_size_insert_delete (filter _ (pending_ops q)) tag op); [lia|].
  by apply map_lookup_filter_Some.
Qed.

(** ** Shifts

    [shifts f D m]: [m] keeps the queue well-formed and moves the measure [f] by [D] of its
    outcome; nothing is said when it runs into undefined behaviour. *)

Definition shifts {A} (f : W -> Z) (D : outcome A -> Z) (m : M W A) : Prop :=
  forall w w' r, wf (queue w) -> m w = (w', r) -> (forall s, r <> UB s) ->
    wf (queue w') /\ f w' = f w + D r.

Definition by_ {A} (d : Z) : outcome A -> Z := fun _ => d.

Lemma shifts_conseq {A} f (D1 D2 : outcome A -> Z) m :
  shifts f D1 m -> (forall r, D1 r = D2 r) -> shifts f D2 m.
Proof. intros Hm HD w w' r Hwf E Hub. rewrite <- HD. by eapply Hm. Qed.

Lemma shifts_bind {A B} f (D1 : outcome A -> Z) (D : outcome B -> Z) (m : M W A) (k : A -> M W B) :
  shifts f D1 m -> (forall e, D1 (Throw e) = D (Throw e)) ->
  (forall a, shifts f (fun r => D r - D1 (Ok a)) (k a)) ->
  shifts f D (m ≫= k).
Proof.
  intros Hm HD Hk w w' r Hwf E Hub. unfold mbind, M_bind in E.
  destruct (m w) as [w1 r1] eqn:E1. destruct r1 as [a|e|s].
  - destruct (Hm _ _ _ Hwf E1) as [Hwf1 H1]; [done|].
    destruct (Hk a _ _ _ Hwf1 E Hub) as [Hwf2 H2]. split; [done|lia].
  - injection E as <- <-. destruct (Hm _ _ _ Hwf E1) as [Hwf1 H1]; [done|].
    by rewrite <- HD.
  - injection E as <- <-. by destruct (Hub s).
Qed.

(** Code that does not throw on a well-formed queue. *)
Definition never_throws {A} (m : M W A) : Prop :=
  forall w e, wf (queue w) -> (m w).2 <> Throw e.

Lemma shifts_bind_nothrow {A B} f (D1 : outcome A -> Z) (D : outcome B -> Z) (m : M W A)
    (k : A -> M W B) :
  never_throws m -> shifts f D1 m -> (forall a, shifts f (fun r => D r - D1 (Ok a)) (k a)) ->
  shifts f D (m ≫= k).
Proof.
  intros Hn Hm Hk w w' r Hwf E Hub. specialize (Hn w). unfold mbind, M_bind in E.
  destruct (m w) as [w1 r1] eqn:E1. destruct r1 as [a|e|s]; cbn in *.
  - destruct (Hm _ _ _ Hwf E1) as [Hwf1 H1]; [done|].
    destruct (Hk a _ _ _ Hwf1 E Hub) as [Hwf2 H2]. split; [done|lia].
  - by destruct (Hn e Hwf).
  - injection E as <- <-. by destruct (Hub s).
Qed.

Lemma never_throws_bind {A B} (m : M W A) (k : A -> M W B) :
  never_throws m -> m ⊨ evolves -> (forall a, never_throws (k a)) -> never_throws (m ≫= k).
Proof.
  intros Hm He Hk w e Hwf. specialize (Hm w). destruct (He w Hwf) as [Hwf' _].
  unfold mbind, M_bind. destruct (m w) as [w1 [a|e1|s]]; cbn in *; [by apply Hk| |done].
  by destruct (Hm e1 Hwf).
Qed.

Lemma shifts_assoc {A B C} f (D : outcome C -> Z) (m : M W A) (k1 : A -> M W B)
    (k2 : B -> M W C) :
  shifts f D (m ≫= fun a => k1 a ≫= k2) -> shifts f D ((m ≫= k1) ≫= k2).
Proof.
  intros Hs w w' r Hwf E. apply Hs; [done|]. rewrite <- E. unfold mbind, M_bind.
  by destruct (m w) as [? [?|?|?]].
Qed.

(** Code that cannot throw because of its form. *)
Lemma never_throws_modify_self g : never_throws (modify_self g).
Proof. done. Qed.
Lemma never_throws_gets_self {A} (g : S -> A) : never_throws (gets_self g).
Proof. done. Qed.
Lemma never_throws_gets_queue {A} (g : completion_queue K -> A) : never_throws (gets_queue g).
Proof. done. Qed.
Lemma never_throws_call_grpc l : never_throws (call_grpc l).
Proof. done. Qed.
Lemma never_throws_ret {A} (a : A) : never_throws (mret a).
Proof. done. Qed.
Lemma never_throws_undefined {A} s : never_throws (undefined s : M W A).
Proof. done. Qed.
Lemma never_throws_zoom {T A} (proj : S -> T) upd (m : M T A) :
  (forall t e, (m t).2 <> Throw e) -> never_throws (zoom proj upd m).
Proof. intros Hm w e _. unfold zoom. specialize (Hm (proj (self w)) e). by destruct (m _). Qed.
Lemma never_throws_start_op location name cb r : never_throws (start_op location name cb r).
Proof. intros w e Hwf. by rewrite start_op_eq. Qed.

Lemma shifts_ret {A} f (D : outcome A -> Z) a : D (Ok a) = 0 -> shifts f D (mret a).
Proof. intros HD w w' r Hwf [= <- <-] _. rewrite HD. split; [done|lia]. Qed.
Lemma shifts_throw {A} f (D : outcome A -> Z) e : D (Throw e) = 0 -> shifts f D (throw e : M W A).
Proof. intros HD w w' r Hwf [= <- <-] _. rewrite HD. split; [done|lia]. Qed.
Lemma shifts_undefined {A} f (D : outcome A -> Z) s : shifts f D (undefined s : M W A).
Proof. intros w w' r Hwf [= <- <-] Hub. by destruct (Hub s). Qed.
Lemma shifts_when f D b (m : M W unit) :
  (b = true -> shifts f D m) -> (b = false -> D (Ok tt) = 0) -> shifts f D (when b m).
Proof. destruct b; intros H1 H2; [by apply H1|by apply shifts_ret, H2]. Qed.

(** Code that touches neither the queue nor the counter does not move the balance. *)
Definition same_balance (proj : S -> async_op_counter) (w w' : W) : Prop :=
  queue w' = queue w /\ proj (self w') = proj (self w).

#[export] Instance same_balance_preorder proj : PreOrder (same_balance proj).
Proof. split; [done|]. intros w1 w2 w3 [] []. split; congruence. Qed.

Lemma same_balance_shifts {A} proj f (m : M W A) :
  m ⊨ same_balance proj -> shifts (balance proj f) (by_ 0) m.
Proof.
  intros Hm w w' r Hwf E _. specialize (Hm w). rewrite E in Hm. destruct Hm as [H1 H2].
  unfold balance. cbn in *. rewrite H1, H2. unfold by_. split; [done|lia].
Qed.

Lemma same_balance_modify_self proj (g : S -> S) :
  (forall s, proj (g s) = proj s) -> modify_self g ⊨ same_balance proj.
Proof. intros Hg w. split; [done|]. apply Hg. Qed.
Lemma same_balance_gets_self {A} proj (g : S -> A) : gets_self g ⊨ same_balance proj.
Proof. done. Qed.
Lemma same_balance_gets_queue {A} proj (g : completion_queue K -> A) :
  gets_queue g ⊨ same_balance proj.
Proof. done. Qed.
Lemma same_balance_zoom {T A} proj (pr : S -> T) (upd : T -> S -> S) (m : M T A) :
  (forall t s, proj (upd t s) = proj s) -> zoom pr upd m ⊨ same_balance proj.
Proof. intros Hu w. unfold zoom. destruct (m _). split; [done|]. apply Hu. Qed.

(** The counter's own operations. *)
Definition by_start (r : outcome bool) : Z := match r with Ok true => 1 | _ => 0 end.

Lemma start_shifts proj upd f :
  (forall t s, proj (upd t s) = t) ->
  shifts (balance proj f) by_start (zoom proj upd OpCounter.start).
Proof.
  intros Hu w w' r Hwf E _. unfold zoom, OpCounter.start, async_op_start, add_op in E.
  unfold balance. destruct (shutdown_flag (proj (self w))); injection E as <- <-; cbn;
    rewrite Hu; cbn; split; try done; lia.
Qed.

Lemma done_shifts proj upd f :
  (forall t s, proj (upd t s) = t) ->
  shifts (balance proj f) (by_ (-1)) (zoom proj upd OpCounter.done).
Proof.
  intros Hu w w' r Hwf [= <- <-] _. unfold balance, by_. cbn. rewrite Hu. cbn.
  split; [done|lia].
Qed.

(** The queue's operations. *)
Lemma start_op_shifts proj f location name cb r :
  shifts (balance proj f) (by_ (- Z.b2z (f cb))) (start_op location name cb r).
Proof.
  intros w w' res Hwf E _. rewrite start_op_eq in E by done. injection E as <- <-.
  unfold balance, by_. cbn. rewrite count_ops_with_op by done. split; [|lia].
  by apply with_op_le.
Qed.

Lemma shifts_to_unit {A} f d (m : M W A) : shifts f (by_ d) m -> shifts f (by_ d) (m ;; mret tt).
Proof. intros Hm. eapply shifts_bind; [done|done|]. intros a. apply shifts_ret. unfold by_. lia. Qed.

Lemma async_rpc_shifts proj f r name k :
  shifts (balance proj f) (by_ (- Z.b2z (f (functor k)))) (async_rpc r name k).
Proof. apply shifts_to_unit, start_op_shifts. Qed.
Lemma async_write_shifts proj f r name k :
  shifts (balance proj f) (by_ (- Z.b2z (f (functor k)))) (async_write r name k).
Proof. apply shifts_to_unit, start_op_shifts. Qed.
Lemma async_read_shifts proj f name k :
  shifts (balance proj f) (by_ (- Z.b2z (f (functor k)))) (async_read name k).
Proof. apply shifts_to_unit, start_op_shifts. Qed.
Lemma make_deadline_timer_shifts proj f d name k :
  shifts (balance proj f) (by_ (- Z.b2z (f (functor k)))) (make_deadline_timer d name k).
Proof. apply start_op_shifts. Qed.
Lemma call_grpc_shifts proj f l : shifts (balance proj f) (by_ 0) (call_grpc l).
Proof.
  intros w w' r Hwf [= <- <-] _. unfold balance, by_. cbn. split; [done|]. unfold count_ops. cbn. lia.
Qed.

Lemma start_future_shifts proj f location name a r :
  (forall p a, f (set_future p a) = false) ->
  shifts (balance proj f) (by_ 0) (start_future location name a r).
Proof.
  intros Hf w w' res Hwf E _. unfold start_future in E.
  rewrite (bind_ok _ _ _ _ _ (make_promise_eq w)) in E.
  assert (Hwf1 : wf (with_promise (queue w))) by apply (make_promise_evolves w Hwf).
  rewrite (bind_ok _ _ _ _ _ (start_op_eq _ _ _ _ (with_queue with_promise w) Hwf1)) in E.
  pose proof (start_future_evolves location name a r w Hwf) as [Hwf' _].
  unfold start_future in Hwf'. rewrite (bind_ok _ _ _ _ _ (make_promise_eq w)) in Hwf'.
  rewrite (bind_ok _ _ _ _ _ (start_op_eq _ _ _ _ (with_queue with_promise w) Hwf1)) in Hwf'.
  unfold on_promise in *. munfold. rewrite lookup_insert_eq in *. cbn in *. injection E as <- <-.
  split; [done|]. unfold balance, by_. cbn. pose proof (count_ops_with_op f name
    (set_future (next_promise (queue w)) a) r _ Hwf1) as Hc.
  unfold count_ops, with_op in *. cbn in *. rewrite Hc, Hf. cbn. lia.
Qed.

(** An event: the operation leaves the queue, then its callback runs. *)
Lemma on_event_shift `{!Client S K} proj f tag ok resp w w' op r d :
  wf (queue w) -> tag <> 0 -> pending_ops (queue w) !! tag = Some op ->
  on_event tag ok resp w = (w', r) -> (forall s, r <> UB s) ->
  shifts (balance proj f) (by_ (d - Z.b2z (f (op_callback op)))) (run_callback op resp ok) ->
  wf (queue w') /\ balance proj f w' = balance proj f w + d.
Proof.
  intros Hwf Ht Hop E Hub Hs. rewrite (on_event_pending _ _ _ _ op) in E by done.
  destruct (queue_le_unregister (queue w) tag Hwf) as [Hwf1 _].
  destruct (Hs (with_queue _ w) _ _ Hwf1 E Hub) as [Hwf' Hb].
  split; [done|]. rewrite Hb. unfold balance, by_. cbn.
  rewrite (count_ops_unregister _ _ op) by done. lia.
Qed.

Lemma on_promise_shifts proj f p (r : outcome response) :
  shifts (balance proj f) (by_ 0) (on_promise (S:=S) (K:=K) p (promise_set r)).
Proof.
  intros w w' res Hwf E Hub.
  pose proof (on_promise_evolves p _ (promise_set_le r) w Hwf) as Hev. rewrite E in Hev.
  split; [by destruct Hev|]. unfold on_promise in E.
  destruct (promises (queue w) !! p) as [c|]; [|injection E as <- <-; by destruct (Hub "dangling promise"%string)].
  destruct (promise_set r c). injection E as <- <-. unfold balance, by_, count_ops. cbn. lia.
Qed.

End balance.

(** ** Counters that are shut down

    [drains]: a counter that is shut down stays so, and does not grow. *)

Section drains.
Context {S K : Type} (proj : S -> async_op_counter).

Definition drains (s s' : S) : Prop :=
  in_shutdown (proj s) = true ->
  in_shutdown (proj s') = true /\ OpCounter.pending (proj s') <= OpCounter.pending (proj s).

#[export] Instance drains_preorder : PreOrder drains.
Proof.
  split; [by intros s|]. intros a b c H1 H2 Hs. destruct (H1 Hs) as [Hb ?].
  destruct (H2 Hb). split; [done|lia].
Qed.

Lemma drains_eq s s' : proj s' = proj s -> drains s s'.
Proof. intros E Hs. by rewrite E. Qed.
Lemma start_drains upd :
  (forall t s, proj (upd t s) = t) -> zoom proj upd OpCounter.start ⊨ on_self (K:=K) drains.
Proof.
  intros Hu w Hs. unfold zoom, OpCounter.start, async_op_start, add_op. unfold in_shutdown in *.
  rewrite Hs. cbn. by rewrite Hu.
Qed.
Lemma done_drains upd :
  (forall t s, proj (upd t s) = t) -> zoom proj upd OpCounter.done ⊨ on_self (K:=K) drains.
Proof. intros Hu w Hs. unfold in_shutdown in *. cbn in *. rewrite Hu. cbn. split; [done|lia]. Qed.
End drains.
#[export] Hint Extern 2 (drains _ _ _) => (apply drains_eq; reflexivity) : gh.
#[export] Hint Resolve start_drains done_drains : gh.

Create HintDb shifts.
Create HintDb nothrow.
#[export] Hint Resolve never_throws_modify_self never_throws_gets_self never_throws_gets_queue
  never_throws_call_grpc never_throws_ret never_throws_undefined never_throws_start_op : nothrow.

Lemma never_throws_counter_start t e : (OpCounter.start t).2 <> Throw e.
Proof. by destruct t as [? []]. Qed.
Lemma never_throws_counter_done t e : (OpCounter.done t).2 <> Throw e.
Proof. done. Qed.
#[export] Hint Resolve never_throws_zoom never_throws_counter_start never_throws_counter_done
  : nothrow.

Ltac nothrow_step :=
  match goal with
  | |- never_throws (mbind _ _) => apply never_throws_bind; [| | intros ?]
  | |- never_throws (match ?x with _ => _ end) => destruct x
  | |- _ ⊨ _ => respects_solve
  end.
Ltac nothrow_solve := repeat (solve [eauto with nothrow] || nothrow_step).

Lemma never_throws_async_rpc {S K} r name (k : K) : never_throws (S:=S) (async_rpc r name k).
Proof. unfold async_rpc. nothrow_solve. Qed.
Lemma never_throws_async_write {S K} r name (k : K) : never_throws (S:=S) (async_write r name k).
Proof. unfold async_write. nothrow_solve. Qed.
Lemma never_throws_async_read {S K} name (k : K) : never_throws (S:=S) (async_read name k).
Proof. unfold async_read. nothrow_solve. Qed.
Lemma never_throws_make_deadline_timer {S K} d name (k : K) :
  never_throws (S:=S) (make_deadline_timer d name k).
Proof. apply never_throws_start_op. Qed.
#[export] Hint Resolve never_throws_async_rpc never_throws_async_write never_throws_async_read
  never_throws_make_deadline_timer : nothrow.
#[export] Hint Resolve start_shifts done_shifts start_op_shifts async_rpc_shifts async_write_shifts
  async_read_shifts make_deadline_timer_shifts call_grpc_shifts : shifts.
#[export] Hint Resolve same_balance_gets_self same_balance_gets_queue same_balance_zoom
  same_balance_modify_self : gh.

(** One step of a proof of [shifts]: leaves by the hints, what is left is arithmetic. *)
Ltac shifts_arith := intros; cbn; unfold by_, by_start; cbn; try lia.
#[export] Hint Extern 0 (_ = _) => reflexivity : gh shifts.
Ltac shifts_leaf :=
  first [ solve [eauto with shifts] | apply same_balance_shifts; solve [respects_solve] ].
Ltac shifts_step :=
  lazymatch goal with
  | |- shifts _ _ (mret _) => apply shifts_ret; shifts_arith
  | |- shifts _ _ (throw _) => apply shifts_throw; shifts_arith
  | |- shifts _ _ (undefined _) => apply shifts_undefined
  | |- shifts _ _ (mbind _ (when ?b _)) => destruct b; [rewrite when_true | rewrite when_false]
  | |- shifts _ _ (mbind _ (mbind _ _)) => apply shifts_assoc
  | |- shifts _ _ (mbind _ _) =>
      first [ eapply shifts_bind_nothrow; [solve [nothrow_solve] | shifts_leaf | intros ?]
            | eapply shifts_bind; [shifts_leaf | shifts_arith | intros ?] ]
  | |- shifts _ _ (when ?b _) => first [is_var b; destruct b; [rewrite when_true | rewrite when_false] | apply shifts_when; [intros ? | intros ?; shifts_arith]]
  | |- shifts _ _ (if negb ?b then _ else _) => destruct b; cbn [negb]
  | |- shifts _ _ (if ?b then _ else _) => destruct b
  | |- shifts _ _ (let _ := _ in _) => cbv zeta
  | |- shifts _ _ (match ?x with _ => _ end) => destruct x
  | |- shifts _ _ _ => eapply shifts_conseq; [shifts_leaf | shifts_arith]
  end.
