(* ===== verification/Candidate.v ===== *)
(** * [election_candidate_impl] (gh/detail/election_candidate_impl.hpp)

    A candidate in an election: it puts a node with its value under its lease, asks etcd for the node
    that precedes it, watches that node, and considers itself elected when a query finds no
    predecessor. The handlers ([on_...]) run in the thread of the event loop, to completion;
    the members an application calls block, and the handlers run while they do.

    The critical sections of [mu_] are kept, with the mutex as a flag. The loggers
    are left out. *)

From stdpp Require Import sorting.
From S2P Require Import Prelude Runtime PrefixEnd OpCounter Etcd CompletionQueue.
Open Scope Z_scope.
Open Scope gh_scope.
Import OpCounter.

Module Candidate.

(** ** State *)

(** [cancels] holds the counters local to the calls of [resign] in progress, which the
    callbacks of the cancel requests refer to. *)
Record candidate := Cand {
  mu_ : bool;
  lease_id_ : N;
  watcher_stream_ : bool;
  election_name_ : string;
  election_prefix_ : string;
  candidate_value_ : string;
  candidate_key_ : string;
  creation_revision_ : Z;
  current_watches_ : gset Z;
  watched_keys_ : gset string;
  elected_ : bool;
  promise_ : promise bool;
  ops_ : async_op_counter;
  reads_ : async_op_counter;
  cancels : gmap Z async_op_counter
}.

Definition set_mu b s := Cand b (lease_id_ s) (watcher_stream_ s) (election_name_ s)
  (election_prefix_ s) (candidate_value_ s) (candidate_key_ s) (creation_revision_ s)
  (current_watches_ s) (watched_keys_ s) (elected_ s) (promise_ s) (ops_ s) (reads_ s) (cancels s).
Definition set_watcher_stream b s := Cand (mu_ s) (lease_id_ s) b (election_name_ s)
  (election_prefix_ s) (candidate_value_ s) (candidate_key_ s) (creation_revision_ s)
  (current_watches_ s) (watched_keys_ s) (elected_ s) (promise_ s) (ops_ s) (reads_ s) (cancels s).
Definition set_candidate_value v s := Cand (mu_ s) (lease_id_ s) (watcher_stream_ s)
  (election_name_ s) (election_prefix_ s) v (candidate_key_ s) (creation_revision_ s)
  (current_watches_ s) (watched_keys_ s) (elected_ s) (promise_ s) (ops_ s) (reads_ s) (cancels s).
Definition set_creation_revision r s := Cand (mu_ s) (lease_id_ s) (watcher_stream_ s)
  (election_name_ s) (election_prefix_ s) (candidate_value_ s) (candidate_key_ s) r
  (current_watches_ s) (watched_keys_ s) (elected_ s) (promise_ s) (ops_ s) (reads_ s) (cancels s).
Definition set_current_watches x s := Cand (mu_ s) (lease_id_ s) (watcher_stream_ s)
  (election_name_ s) (election_prefix_ s) (candidate_value_ s) (candidate_key_ s)
  (creation_revision_ s) x (watched_keys_ s) (elected_ s) (promise_ s) (ops_ s) (reads_ s)
  (cancels s).
Definition set_watched_keys x s := Cand (mu_ s) (lease_id_ s) (watcher_stream_ s)
  (election_name_ s) (election_prefix_ s) (candidate_value_ s) (candidate_key_ s)
  (creation_revision_ s) (current_watches_ s) x (elected_ s) (promise_ s) (ops_ s) (reads_ s)
  (cancels s).
Definition set_elected b s := Cand (mu_ s) (lease_id_ s) (watcher_stream_ s) (election_name_ s)
  (election_prefix_ s) (candidate_value_ s) (candidate_key_ s) (creation_revision_ s)
  (current_watches_ s) (watched_keys_ s) b (promise_ s) (ops_ s) (reads_ s) (cancels s).
Definition set_promise p s := Cand (mu_ s) (lease_id_ s) (watcher_stream_ s) (election_name_ s)
  (election_prefix_ s) (candidate_value_ s) (candidate_key_ s) (creation_revision_ s)
  (current_watches_ s) (watched_keys_ s) (elected_ s) p (ops_ s) (reads_ s) (cancels s).
Definition set_ops c s := Cand (mu_ s) (lease_id_ s) (watcher_stream_ s) (election_name_ s)
  (election_prefix_ s) (candidate_value_ s) (candidate_key_ s) (creation_revision_ s)
  (current_watches_ s) (watched_keys_ s) (elected_ s) (promise_ s) c (reads_ s) (cancels s).
Definition set_reads c s := Cand (mu_ s) (lease_id_ s) (watcher_stream_ s) (election_name_ s)
  (election_prefix_ s) (candidate_value_ s) (candidate_key_ s) (creation_revision_ s)
  (current_watches_ s) (watched_keys_ s) (elected_ s) (promise_ s) (ops_ s) c (cancels s).
Definition set_cancels m s := Cand (mu_ s) (lease_id_ s) (watcher_stream_ s) (election_name_ s)
  (election_prefix_ s) (candidate_value_ s) (candidate_key_ s) (creation_revision_ s)
  (current_watches_ s) (watched_keys_ s) (elected_ s) (promise_ s) (ops_ s) (reads_ s) m.

(** The lambdas given to the queue, with their captures besides [this]. *)
Inductive cb :=
  | cb_range_request
  | cb_watch_create (wkey : string) (wrevision : Z)
  | cb_watch_cancel (w : Z) (cancels : Z)
  | cb_watch_read (wkey : string) (wrevision : Z).

#[export] Instance cb_eq_dec : EqDecision cb.
Proof. solve_decision. Defined.

(** The constructor. *)
Definition election_prefix (election_name : string) : string := election_name +:+ "/".
Definition candidate_key (election_name : string) (lease_id : N) : string :=
  election_prefix election_name +:+ to_hex lease_id.
Definition election_candidate_impl (lease_id : N) (election_name candidate_value : string) :
    candidate :=
  Cand false lease_id false election_name (election_prefix election_name) candidate_value
    (candidate_key election_name lease_id) 0 ∅ ∅ false new_promise new_counter new_counter ∅.

Section candidate.
Context `{TextFormat} {I : Interceptor}.
#[local] Abbreviation W := (world candidate cb).

(** ** The parts of the state the members use *)

Definition lock : M W unit :=
  b ← gets_self mu_;
  if (b : bool) then undefined "mutex locked twice by a thread" else modify_self (set_mu true).
Definition unlock : M W unit := modify_self (set_mu false).

(** [*watcher_stream_] *)
Definition deref_stream : M W unit :=
  b ← gets_self watcher_stream_;
  if (b : bool) then mret tt else undefined "null watcher_stream_".

Definition ops_start : M W bool := zoom ops_ set_ops OpCounter.start.
Definition ops_done : M W unit := zoom ops_ set_ops OpCounter.done.
Definition reads_start : M W bool := zoom reads_ set_reads OpCounter.start.
Definition reads_done : M W unit := zoom reads_ set_reads OpCounter.done.

(** [block_until_all_done] on a counter of the object. *)
Definition block_on (proj : candidate -> async_op_counter)
    (upd : async_op_counter -> candidate -> candidate) : P W unit :=
  lift (zoom proj upd OpCounter.enter_block);;
  block_until (fun w => all_done (proj (self w))).

(** A scope with an [async_op_tracer] on [ops_]. *)
Definition with_tracer {A} (m : P W A) : P W A :=
  lift ops_start;; with_destructor m ops_done.

(** ** Accessors *)

Definition elected : M W bool := gets_self elected_.
Definition key : M W string := gets_self candidate_key_.
Definition value : M W string := gets_self candidate_value_.
Definition creation_revision : M W Z := gets_self creation_revision_.
Definition lease_id : M W N := gets_self lease_id_.

Definition log_header (log : string) (s : candidate) : string := candidate_key_ s +:+ " " +:+ log.

(** ** The election result *)

Definition election_result (result : bool) : M W unit :=
  modify_self (set_elected result);;
  try_catch (zoom promise_ set_promise (promise_set (Ok result)))
    (fun ex => if bool_decide (ex = future_error promise_already_satisfied) then mret tt
               else throw ex).

Definition check_election_over_maybe : M W unit :=
  lock;;
  watched ← gets_self watched_keys_;
  unlock;;
  when (bool_decide (watched = ∅)) (election_result true).

(** ** The search for a predecessor *)

(** The request: at most one key with the prefix, the last one created before ours. *)
Definition predecessor_request (s : candidate) : RangeRequest := {|
  rr_key := election_prefix_ s;
  rr_range_end := prefix_end (election_prefix_ s);
  rr_max_create_revision := creation_revision_ s - 1;
  rr_sort_order := DESCEND;
  rr_sort_target := CREATE;
  rr_limit := 1
|}.

(** The result of [async_op_start] is not tested. *)
Definition query_predecessor : M W unit :=
  c ← gets_self ops_;
  if in_shutdown c then election_result false
  else
    req ← gets_self predecessor_request;
    ops_start;;
    async_rpc (rq_range req) "election_candidate/query_predecessor" cb_range_request.

(** The loop over the keys found; the result is false when it left the function. *)
Fixpoint watch_keys (revision : Z) (kvs : list KeyValue) : M W bool :=
  match kvs with
  | [] => mret true
  | kv :: kvs' =>
      started ← ops_start;
      if negb started then mret false
      else
        modify_self (fun s => set_watched_keys ({[kv_key kv]} ∪ watched_keys_ s) s);;
        deref_stream;;
        async_write (rq_write_watch (create_request (kv_key kv) "" revision false true))
          "election_candidate/on_range_request/watch" (cb_watch_create (kv_key kv) revision);;
        watch_keys revision kvs'
  end.

Definition on_range_request (op : response) (ok : bool) : M W unit :=
  if negb ok then election_result false
  else
    ops_done;;
    header ← gets_self (log_header "on_range_request()");
    check_grpc_status (r_status op) header [", response="; print_to_stream (r_message op)];;
    let resp := as_range (r_message op) in
    completed ← watch_keys (rg_revision resp) (rg_kvs resp);
    when completed check_election_over_maybe.

Definition on_watch_create (op : response) (ok : bool) (wkey : string) (wrevision : Z) : M W unit :=
  ops_done;;
  if negb ok then mret tt
  else
    started ← reads_start;
    if negb started then mret tt
    else
      deref_stream;;
      async_read "election_candidate/on_watch_create/read" (cb_watch_read wkey wrevision).

(** [cancels.async_op_done()] through the reference the callback captured. *)
Definition on_watch_cancel (op : response) (ok : bool) (watched_id : Z) (c : Z) : M W unit :=
  m ← gets_self cancels;
  match (m : gmap Z async_op_counter) !! c with
  | Some counter => modify_self (set_cancels (<[c := async_op_done counter]> m))
  | None => undefined "dangling async_op_counter"
  end.

(** The keys a list of events removes from [watched_keys_]. *)
Definition erase_deleted (events : list Event) (keys : gset string) : gset string :=
  foldl (fun keys ev =>
           if bool_decide (ev_type ev = DELETE) then keys ∖ {[kv_key (ev_prev_kv ev)]} else keys)
        keys events.

Definition on_watch_read (op : response) (ok : bool) (wkey : string) (wrevision : Z) : M W unit :=
  reads_done;;
  if negb ok then mret tt
  else
    let resp := as_watch (r_message op) in
    lock;;
    when (wr_created resp)
      (modify_self (fun s =>
         set_current_watches ({[to_uint64 (wr_watch_id resp)]} ∪ current_watches_ s) s));;
    modify_self (fun s => set_watched_keys (erase_deleted (wr_events resp) (watched_keys_ s)) s);;
    if wr_canceled resp || negb (wr_compact_revision resp =? 0) then
      modify_self (fun s =>
        set_current_watches (current_watches_ s ∖ {[to_uint64 (wr_watch_id resp)]}) s);;
      unlock;;
      query_predecessor
    else
      watched ← gets_self watched_keys_;
      if bool_decide (watched = ∅) then unlock;; query_predecessor
      else
        started ← reads_start;
        when started
          (deref_stream;;
           async_read "election_candidate/on_watch_read/read" (cb_watch_read wkey wrevision));;
        unlock.

(** ** The campaign *)

Definition create_watch_stream : P W unit :=
  with_tracer (
    fut ← lift (async_create_rdwr_stream_future Watch "election_candidate/watch");
    future_get fut;;
    lift (modify_self (set_watcher_stream true))).

Definition commit (r : TxnRequest) (name : string) : P W TxnResponse :=
  with_tracer (
    fut ← lift (async_rpc_future (rq_txn r) name);
    resp ← future_get fut;
    mret (as_txn (r_message resp))).

Definition publish_request (value : string) (failure_op : RequestOp) (s : candidate) : TxnRequest := {|
  tq_compare := [{| cmp_key := candidate_key_ s; cmp_create_revision := creation_revision_ s |}];
  tq_success := [request_put (candidate_key_ s) value (to_int64 (Z.of_N (lease_id_ s)))];
  tq_failure := match failure_op with REQUEST_NOT_SET => [] | _ => [failure_op] end
|}.

Definition publish_value (value : string) (failure_op : RequestOp) : P W TxnResponse :=
  req ← lift (gets_self (publish_request value failure_op));
  commit req "election_candidate/publish_value".

Definition create_node_request (s : candidate) : TxnRequest := {|
  tq_compare := [{| cmp_key := candidate_key_ s; cmp_create_revision := 0 |}];
  tq_success := [request_put (candidate_key_ s) (candidate_value_ s)
                   (to_int64 (Z.of_N (lease_id_ s)))];
  tq_failure := [request_range (candidate_key_ s)]
|}.

(** The node existed: take over its creation revision, publish our value if it has another one. *)
Definition adopt_node (resp : TxnResponse) : P W unit :=
  lift (GH_ASSERT_THROW (Nat.eqb (length (tx_responses resp)) 1)
    "resp.responses().size() == 1" "create_node" "gh/detail/election_candidate_impl.hpp" 232);;
  let kvs := rg_kvs (response_range (default response_other (head (tx_responses resp)))) in
  lift (GH_ASSERT_THROW (Nat.eqb (length kvs) 1)
    "resp.responses(0).response_range().kvs().size() == 1U" "create_node"
    "gh/detail/election_candidate_impl.hpp" 233);;
  let kv := default KeyValue_default (head kvs) in
  lift (modify_self (set_creation_revision (kv_create_revision kv)));;
  s ← lift (gets_self id);
  if bool_decide (kv_value kv = candidate_value_ s) then mret tt
  else
    published ← publish_value (candidate_value_ s) (request_delete_range (candidate_key_ s));
    if tx_succeeded published then mret tt
    else
      P_throw (runtime_error ("Unexpected failure writing new value on existing key=" +:+
        candidate_key_ s +:+ String "010" "txn result=" +:+ print_to_stream (msg_txn published)
        +:+ String "010" "")).

Definition create_node : P W unit :=
  c ← lift (gets_self ops_);
  if in_shutdown c then P_throw (runtime_error "create_node() called after shutdown()")
  else
    req ← lift (gets_self create_node_request);
    resp ← commit req "election_candidate/create_node";
    lift (modify_self (set_creation_revision (tx_revision resp)));;
    if tx_succeeded resp then mret tt else adopt_node resp.

Definition campaign_impl : P W unit :=
  create_watch_stream;;
  create_node;;
  lift query_predecessor.

(** The future returned is the one of [promise_]. *)
Definition campaign : P W unit :=
  c ← lift (gets_self ops_);
  if in_shutdown c then
    P_throw (runtime_error "campaign() called after election candidate was shutdown.")
  else
    lift (zoom promise_ set_promise promise_get_future);;
    campaign_impl.

Definition proclaim (new_value : string) : P W unit :=
  c ← lift (gets_self ops_);
  if in_shutdown c then
    P_throw (runtime_error "proclaim() called after election candidate was shutdown.")
  else
    result ← publish_value new_value REQUEST_NOT_SET;
    if tx_succeeded result then lift (modify_self (set_candidate_value new_value))
    else
      k ← lift key;
      P_throw (runtime_error (k +:+ " unexpected failure writing new value:" +:+
        String "010" (print_to_stream (msg_txn result)) +:+ String "010" "")).

(** ** Resignation and destruction *)

(** The set is iterated in order. *)
Definition in_order (s : gset Z) : list Z := merge_sort Z.le (elements s).

(** A fresh counter of pending cancellations. *)
Definition make_cancels : M W Z :=
  m ← gets_self cancels;
  let c := fresh (dom (m : gmap Z async_op_counter)) in
  modify_self (set_cancels (<[c := new_counter]> m));;
  mret c.
Definition on_cancels {A} (c : Z) (m : M async_op_counter A) : M W A := fun w =>
  match cancels (self w) !! c with
  | Some counter =>
      let '(counter', r) := m counter in
      (with_self (fun s => set_cancels (<[c := counter']> (cancels s)) s) w, r)
  | None => (w, UB "dangling async_op_counter")
  end.
Definition destroy_cancels (c : Z) : M W unit :=
  modify_self (fun s => set_cancels (delete c (cancels s)) s).

(** The loop over the watches; the result is false when it left the function. *)
Fixpoint cancel_watches (c : Z) (watches : list Z) : M W bool :=
  match watches with
  | [] => mret true
  | w :: watches' =>
      started ← on_cancels c OpCounter.start;
      if negb started then mret false
      else
        deref_stream;;
        async_write (rq_write_watch (cancel_request (to_int64 w)))
          "election_candidate/cancel_watcher" (cb_watch_cancel w c);;
        cancel_watches c watches'
  end.

(** [resign] after the watches are cancelled. *)
Definition close_stream : P W unit :=
  lift (deref_stream;; try_cancel_on);;
  block_on reads_ set_reads;;
  with_tracer (
    lift deref_stream;;
    writes_done_complete ← lift (async_writes_done_future "election_candidate/writes_done");
    future_get writes_done_complete;;
    with_tracer (
      lift deref_stream;;
      finished_complete ← lift (async_finish_future "election_candidate/finish");
      future_get finished_complete;;
      lift (election_result false))).

Definition resign : P W unit :=
  c ← lift (gets_self ops_);
  if in_shutdown c then
    P_throw (runtime_error "resign() called after election candidate was shutdown.")
  else
    lift lock;;
    watches ← lift (gets_self current_watches_);
    lift (modify_self (set_current_watches ∅));;
    stream ← lift (gets_self watcher_stream_);
    lift unlock;;
    if negb stream then mret tt
    else
      cs ← lift make_cancels;
      with_destructor (
        completed ← lift (cancel_watches cs (in_order watches));
        if negb completed then mret tt
        else
          lift (on_cancels cs OpCounter.enter_block);;
          block_until (fun w => match cancels (self w) !! cs with
                                | Some counter => all_done counter
                                | None => true
                                end);;
          close_stream) (destroy_cancels cs).

(** The destructor. *)
Definition cleanup : P W unit :=
  c ← lift (gets_self ops_);
  if in_shutdown c then mret tt
  else
    stream ← lift (gets_self watcher_stream_);
    lift (when stream try_cancel_on);;
    block_on ops_ set_ops;;
    block_on reads_ set_reads.

(** ** The client of the queue *)

Definition invoke_cb (k : cb) (op : response) (ok : bool) : M W unit :=
  match k with
  | cb_range_request => on_range_request op ok
  | cb_watch_create wkey wrevision => on_watch_create op ok wkey wrevision
  | cb_watch_cancel w c => on_watch_cancel op ok w c
  | cb_watch_read wkey wrevision => on_watch_read op ok wkey wrevision
  end.

(** Every member keeps to the operations of the queue. *)
Ltac evolve := cbv zeta; respects_solve.

Lemma cand_lock_evolves : lock ⊨ (@evolves candidate cb).
Proof. unfold lock. evolve. Qed.
Lemma cand_unlock_evolves : unlock ⊨ (@evolves candidate cb).
Proof. unfold unlock. evolve. Qed.
Lemma cand_ops_start_evolves : ops_start ⊨ (@evolves candidate cb).
Proof. unfold ops_start. evolve. Qed.
Lemma cand_ops_done_evolves : ops_done ⊨ (@evolves candidate cb).
Proof. unfold ops_done. evolve. Qed.
Lemma reads_start_evolves : reads_start ⊨ (@evolves candidate cb).
Proof. unfold reads_start. evolve. Qed.
Lemma reads_done_evolves : reads_done ⊨ (@evolves candidate cb).
Proof. unfold reads_done. evolve. Qed.
Lemma cand_deref_stream_evolves : deref_stream ⊨ (@evolves candidate cb).
Proof. unfold deref_stream. evolve. Qed.
#[local] Hint Resolve cand_deref_stream_evolves cand_lock_evolves cand_unlock_evolves cand_ops_start_evolves cand_ops_done_evolves
  reads_start_evolves reads_done_evolves : gh.

Lemma election_result_evolves b : election_result b ⊨ (@evolves candidate cb).
Proof. unfold election_result. evolve. Qed.
#[local] Hint Resolve election_result_evolves : gh.
Lemma check_election_over_maybe_evolves : check_election_over_maybe ⊨ (@evolves candidate cb).
Proof. unfold check_election_over_maybe. evolve. Qed.
Lemma query_predecessor_evolves : query_predecessor ⊨ (@evolves candidate cb).
Proof. unfold query_predecessor. evolve. Qed.
#[local] Hint Resolve check_election_over_maybe_evolves query_predecessor_evolves : gh.
Lemma watch_keys_evolves r kvs : watch_keys r kvs ⊨ (@evolves candidate cb).
Proof. induction kvs; cbn [watch_keys]; evolve. Qed.
#[local] Hint Resolve watch_keys_evolves : gh.
Lemma check_grpc_status_evolves s l a : check_grpc_status s l a ⊨ (@evolves candidate cb).
Proof. unfold check_grpc_status. evolve. Qed.
#[local] Hint Resolve check_grpc_status_evolves : gh.

Lemma cand_invoke_cb_evolves k op ok : invoke_cb k op ok ⊨ evolves.
Proof.
  destruct k; cbn [invoke_cb];
    unfold on_range_request, on_watch_create, on_watch_cancel, on_watch_read; evolve.
Qed.

#[export] Instance candidate_client : Client candidate cb := {|
  invoke := invoke_cb;
  invoke_evolves := cand_invoke_cb_evolves
|}.

End candidate.

(** A candidate in the election [e], with the lease 0xa1, on a new queue. *)
Definition sample_candidate : world candidate cb :=
  World (election_candidate_impl 161 "e" "value") new_queue.

(** A campaign next to an event loop: the stream is created, the node is created, a predecessor is
    found, and its key is deleted. *)
Definition campaign_events : list sched_event := [
  ev_completion 1 true (Response status_OK msg_none); ev_wake;
  ev_completion 2 true (Response status_OK (msg_txn
    {| tx_revision := 7; tx_succeeded := true; tx_responses := [] |})); ev_wake;
  ev_completion 3 true (Response status_OK (msg_range
    {| rg_revision := 8; rg_kvs := [KV "e/1" "v" 3] |}));
  ev_completion 4 true (Response status_OK msg_none);
  ev_completion 5 true (Response status_OK (msg_watch {| wr_watch_id := 0; wr_created := true;
    wr_canceled := false; wr_compact_revision := 0; wr_events := [] |}));
  ev_completion 6 true (Response status_OK (msg_watch {| wr_watch_id := 0; wr_created := false;
    wr_canceled := false; wr_compact_revision := 0;
    wr_events := [{| ev_type := DELETE; ev_kv := KV "e/1" "" 0; ev_prev_kv := KV "e/1" "v" 3 |}] |}));
  ev_completion 7 true (Response status_OK (msg_range {| rg_revision := 9; rg_kvs := [] |})) ].

(** The world after the first [n] of these events. *)
Definition campaign_world (n : nat) : world candidate cb :=
  match @sched _ _ (@candidate_client empty_text_format _) _ (take n campaign_events)
          (@campaign empty_text_format _ sample_candidate) with
  | running p => prog_world p
  | _ => sample_candidate
  end.

End Candidate.
