(* ===== verification/CandidateFacts.v ===== *)
(** * What the election candidate guarantees

    The balance of the operation counters on every event, the conditions under which a
    candidate becomes the leader, and what each callback does with its response. *)

From S2P Require Import Prelude Runtime PrefixEnd OpCounter Etcd CompletionQueue Balance.
From S2P Require Import Candidate.
Open Scope Z_scope.
Open Scope gh_scope.
Import OpCounter Candidate.

Section facts.
Context `{TextFormat}.
#[local] Abbreviation W := (world candidate cb).
Implicit Types w : W.

(** ** Balance *)

Definition ops_kind (c : callback cb) : bool :=
  match c with functor cb_range_request | functor (cb_watch_create _ _) => true | _ => false end.
Definition reads_kind (c : callback cb) : bool :=
  match c with functor (cb_watch_read _ _) => true | _ => false end.

Abbreviation balance_ops := (balance (K:=cb) ops_ ops_kind).
Abbreviation balance_reads := (balance (K:=cb) reads_ reads_kind).

Ltac same := intros; unfold ops_start, ops_done, reads_start, reads_done, lock, unlock, deref_stream,
  election_result, check_election_over_maybe, check_grpc_status; respects_solve.

Lemma cand_ops_start_ops : shifts balance_ops by_start ops_start.
Proof. by apply start_shifts. Qed.
Lemma cand_ops_done_ops : shifts balance_ops (by_ (-1)) ops_done.
Proof. by apply done_shifts. Qed.
Lemma cand_reads_start_reads : shifts balance_reads by_start reads_start.
Proof. by apply start_shifts. Qed.
Lemma cand_reads_done_reads : shifts balance_reads (by_ (-1)) reads_done.
Proof. by apply done_shifts. Qed.
Lemma cand_ops_start_reads : shifts balance_reads (by_ 0) ops_start.
Proof. apply same_balance_shifts. same. Qed.
Lemma cand_ops_done_reads : shifts balance_reads (by_ 0) ops_done.
Proof. apply same_balance_shifts. same. Qed.
Lemma cand_reads_start_ops : shifts balance_ops (by_ 0) reads_start.
Proof. apply same_balance_shifts. same. Qed.
Lemma cand_reads_done_ops : shifts balance_ops (by_ 0) reads_done.
Proof. apply same_balance_shifts. same. Qed.

#[local] Hint Resolve cand_ops_start_ops cand_ops_done_ops cand_reads_start_reads cand_reads_done_reads
  cand_ops_start_reads cand_ops_done_reads cand_reads_start_ops cand_reads_done_ops : shifts.

Lemma election_result_same proj b :
  (forall x s, proj (set_elected x s) = proj s) -> (forall x s, proj (set_promise x s) = proj s) ->
  election_result b ⊨ same_balance (K:=cb) proj.
Proof. intros H1 H2. unfold election_result. respects_solve. Qed.

Ltac nothrow := intros; unfold ops_start, ops_done, reads_start, reads_done, lock, unlock, deref_stream;
  nothrow_solve.
Lemma cand_ops_start_nothrow : never_throws ops_start.
Proof. nothrow. Qed.
Lemma cand_ops_done_nothrow : never_throws ops_done.
Proof. nothrow. Qed.
Lemma cand_reads_start_nothrow : never_throws reads_start.
Proof. nothrow. Qed.
Lemma cand_reads_done_nothrow : never_throws reads_done.
Proof. nothrow. Qed.
Lemma cand_lock_nothrow : never_throws lock.
Proof. nothrow. Qed.
Lemma cand_deref_stream_nothrow : never_throws deref_stream.
Proof. nothrow. Qed.
Lemma cand_unlock_nothrow : never_throws unlock.
Proof. nothrow. Qed.

(** [set_value] on a satisfied promise is ignored: the first result stays. *)
Lemma election_result_eq b w :
  election_result b w =
  (with_self (fun s => set_promise (match result (promise_ s) with
                                    | Some _ => promise_ s
                                    | None => Promise (retrieved (promise_ s)) (Some (Ok b))
                                    end) (set_elected b s)) w, Ok tt).
Proof.
  unfold election_result, modify_self, try_catch, zoom, promise_set. munfold.
  unfold with_self. destruct (result (promise_ (self w))); cbn.
  - by rewrite bool_decide_true.
  - done.
Qed.
Lemma election_result_nothrow b : never_throws (election_result b).
Proof. intros w e _. by rewrite election_result_eq. Qed.
#[local] Hint Resolve cand_ops_start_nothrow cand_ops_done_nothrow cand_reads_start_nothrow cand_reads_done_nothrow
  cand_lock_nothrow cand_unlock_nothrow cand_deref_stream_nothrow election_result_nothrow : nothrow.

(** Code that touches none of the counters. *)
Ltac same_leaf := apply same_balance_shifts; first
  [ by apply election_result_same
  | unfold lock, unlock, deref_stream, check_election_over_maybe, check_grpc_status, when;
    repeat first [ by apply election_result_same | respects_step | solve [eauto with gh] ] ].
Ltac shifts_leaf ::= first [ solve [eauto with shifts] | solve [same_leaf] ].

Lemma check_election_over_maybe_same proj :
  (forall x s, proj (set_elected x s) = proj s) -> (forall x s, proj (set_promise x s) = proj s) ->
  (forall x s, proj (set_mu x s) = proj s) ->
  check_election_over_maybe ⊨ same_balance (K:=cb) proj.
Proof.
  intros H1 H2 H3. pose proof (election_result_same proj true H1 H2).
  unfold check_election_over_maybe, lock, unlock. respects_solve.
Qed.
Lemma check_election_over_maybe_ops : shifts balance_ops (by_ 0) check_election_over_maybe.
Proof. by apply same_balance_shifts, check_election_over_maybe_same. Qed.
Lemma check_election_over_maybe_reads : shifts balance_reads (by_ 0) check_election_over_maybe.
Proof. by apply same_balance_shifts, check_election_over_maybe_same. Qed.
#[local] Hint Resolve check_election_over_maybe_ops check_election_over_maybe_reads : shifts.

(** A query is one more operation, counted, in the queue. *)
Definition after_query (w : W) : W :=
  World (set_ops (Counter (OpCounter.pending (ops_ (self w)) + 1) false) (self w))
    (with_op "election_candidate/query_predecessor" (functor cb_range_request)
       (rq_range (predecessor_request (self w))) (queue w)).

Lemma query_predecessor_eq w :
  wf (queue w) -> in_shutdown (ops_ (self w)) = false ->
  query_predecessor w = (after_query w, Ok tt).
Proof.
  intros Hwf Hs. unfold query_predecessor, gets_self, async_rpc, ops_start, zoom,
    OpCounter.start, async_op_start, add_op. munfold. rewrite Hs. munfold.
  unfold in_shutdown in Hs. rewrite Hs. munfold. rewrite start_op_eq by done. done.
Qed.

Lemma query_predecessor_shutdown w :
  in_shutdown (ops_ (self w)) = true -> query_predecessor w = election_result false w.
Proof. intros Hs. unfold query_predecessor, gets_self. munfold. by rewrite Hs. Qed.

Lemma query_predecessor_shifts proj f d :
  (forall x s, proj (set_elected x s) = proj s) -> (forall x s, proj (set_promise x s) = proj s) ->
  (forall w, wf (queue w) -> in_shutdown (ops_ (self w)) = false ->
     balance proj f (after_query w) = balance proj f w + d) ->
  d = 0 -> shifts (balance proj f) (by_ 0) query_predecessor.
Proof.
  intros He Hp Hq -> w w' r Hwf E Hub. destruct (in_shutdown (ops_ (self w))) eqn:Hs.
  - rewrite query_predecessor_shutdown in E by done.
    eapply (same_balance_shifts proj f (election_result false)); [|done..].
    by apply election_result_same.
  - rewrite query_predecessor_eq in E by done. injection E as <- <-.
    split; [by apply with_op_le|]. by apply Hq.
Qed.

Lemma query_predecessor_ops : shifts balance_ops (by_ 0) query_predecessor.
Proof.
  apply (query_predecessor_shifts _ _ 0); [done..| |done].
  intros w Hwf Hs. unfold balance, after_query. cbn. rewrite count_ops_with_op by done. cbn. lia.
Qed.
Lemma query_predecessor_reads : shifts balance_reads (by_ 0) query_predecessor.
Proof.
  apply (query_predecessor_shifts _ _ 0); [done..| |done].
  intros w Hwf Hs. unfold balance, after_query. cbn. rewrite count_ops_with_op by done. cbn. lia.
Qed.
#[local] Hint Resolve query_predecessor_ops query_predecessor_reads : shifts.

Lemma watch_keys_ops r kvs : shifts balance_ops (by_ 0) (watch_keys r kvs).
Proof. induction kvs as [|kv kvs IH]; cbn [watch_keys]; repeat shifts_step. Qed.
Lemma watch_keys_reads r kvs : shifts balance_reads (by_ 0) (watch_keys r kvs).
Proof. induction kvs as [|kv kvs IH]; cbn [watch_keys]; repeat shifts_step. Qed.
#[local] Hint Resolve watch_keys_ops watch_keys_reads : shifts.

(** The balance of a callback's own code; the operation it was called for is already gone. *)
Lemma cand_invoke_cb_ops k resp ok :
  shifts balance_ops
    (by_ ((match k with cb_range_request => Z.b2z (negb ok) | _ => 0 end) -
          Z.b2z (ops_kind (functor k)))) (invoke_cb k resp ok).
Proof.
  destruct k; cbn [invoke_cb ops_kind];
    unfold on_range_request, on_watch_create, on_watch_cancel, on_watch_read;
    destruct ok; cbn [negb]; repeat shifts_step.
Qed.
Lemma cand_invoke_cb_reads k resp ok :
  shifts balance_reads (by_ (- Z.b2z (reads_kind (functor k)))) (invoke_cb k resp ok).
Proof.
  destruct k; cbn [invoke_cb reads_kind];
    unfold on_range_request, on_watch_create, on_watch_cancel, on_watch_read;
    destruct ok; cbn [negb]; repeat shifts_step.
Qed.



(** The callback was called with [ok] false for a query for the predecessor. *)
Definition query_failed (c : callback cb) (ok : bool) : bool :=
  match c with functor cb_range_request => negb ok | _ => false end.

Lemma cand_event_counts w w' tag op ok resp r :
  wf (queue w) -> pending_ops (queue w) !! tag = Some op ->
  on_event tag ok resp w = (w', r) -> (forall s, r <> UB s) ->
  wf (queue w') /\
  balance_ops w' = balance_ops w + Z.b2z (query_failed (op_callback op) ok) /\
  balance_reads w' = balance_reads w.
Proof.
  intros Hwf Hop E Hub. pose proof Hwf as (_ & Hpos & _). specialize (Hpos _ _ Hop).
  assert (tag <> 0) as Ht by lia.
  destruct (on_event_shift ops_ ops_kind tag ok resp w w' op r
    (Z.b2z (query_failed (op_callback op) ok))) as [H1 H2]; try done.
  { unfold run_callback. destruct (op_callback op) as [k|p a].
    - eapply shifts_conseq; [apply (cand_invoke_cb_ops k resp ok)|]. intros ?. by destruct k.
    - apply on_promise_shifts. }
  destruct (on_event_shift reads_ reads_kind tag ok resp w w' op r 0) as [H3 H4]; try done.
  { unfold run_callback. destruct (op_callback op) as [k|p a].
    - eapply shifts_conseq; [apply (cand_invoke_cb_reads k resp ok)|]. intros ?. unfold by_. lia.
    - apply on_promise_shifts. }
  split_and!; [done..|lia].
Qed.

(** C14. Every event keeps the two counters in step with the queue: [ops_] minus the queries and
    watch requests in the queue, and [reads_] minus the reads in it, are what they were before;
    except that a query that completes with [ok] false is never counted down. *)
Theorem candidate_counts_operations w w' tag op ok resp r :
  wf (queue w) -> pending_ops (queue w) !! tag = Some op ->
  on_event tag ok resp w = (w', r) -> (forall s, r <> UB s) ->
  wf (queue w') /\
  balance_ops w' = balance_ops w + Z.b2z (query_failed (op_callback op) ok) /\
  balance_reads w' = balance_reads w.
Proof. apply cand_event_counts. Qed.

(** ** The election result *)

(** Code that does not make the candidate the leader. *)
Definition no_victory (s s' : candidate) : Prop := elected_ s' = true -> elected_ s = true.
#[local] Instance no_victory_preorder : PreOrder no_victory.
Proof. split; [intros s Hs; exact Hs|]. intros a b c H1 H2 H3. by apply H1, H2. Qed.

(** A result for the campaign stays. *)
Definition result_stays (s s' : candidate) : Prop := promise_le (promise_ s) (promise_ s').
#[local] Instance result_stays_preorder : PreOrder result_stays.
Proof.
  split; [by intros s r|]. intros a b c H1 H2. unfold result_stays in *. by etrans.
Qed.

(** The keys waited for only grow. *)
Definition keys_grow (s s' : candidate) : Prop := watched_keys_ s ⊆ watched_keys_ s'.
#[local] Instance keys_grow_preorder : PreOrder keys_grow.
Proof.
  unfold keys_grow. split; [intros s; set_solver|]. intros a b c H1 H2. set_solver.
Qed.

Ltac frame := intros; unfold ops_start, ops_done, reads_start, reads_done, lock, unlock, deref_stream,
  check_grpc_status; cbv zeta; respects_solve.
#[local] Hint Extern 1 (no_victory _ _) => (intros ?; assumption) : gh.
#[local] Hint Extern 1 (result_stays _ _) => (intros ? ?; assumption) : gh.

Lemma election_result_false_no_victory : election_result false ⊨ (on_self (K:=cb) no_victory).
Proof. intros w. rewrite election_result_eq. by intros ?. Qed.
Lemma election_result_stays b : election_result b ⊨ (on_self (K:=cb) result_stays).
Proof.
  intros w. rewrite election_result_eq. intros r Hr. cbn in *. by rewrite Hr.
Qed.
#[local] Hint Resolve election_result_false_no_victory election_result_stays : gh.

Lemma query_predecessor_no_victory : query_predecessor ⊨ (on_self (K:=cb) no_victory).
Proof. unfold query_predecessor. frame. Qed.
Lemma watch_keys_no_victory r kvs : watch_keys r kvs ⊨ (on_self (K:=cb) no_victory).
Proof. induction kvs; cbn [watch_keys]; frame. Qed.
#[local] Hint Resolve query_predecessor_no_victory watch_keys_no_victory : gh.

Lemma check_election_over_maybe_stays : check_election_over_maybe ⊨ (on_self (K:=cb) result_stays).
Proof. unfold check_election_over_maybe. frame. Qed.
Lemma query_predecessor_stays : query_predecessor ⊨ (on_self (K:=cb) result_stays).
Proof. unfold query_predecessor. frame. Qed.
Lemma watch_keys_stays r kvs : watch_keys r kvs ⊨ (on_self (K:=cb) result_stays).
Proof. induction kvs; cbn [watch_keys]; frame. Qed.
#[local] Hint Resolve check_election_over_maybe_stays query_predecessor_stays
  watch_keys_stays : gh.

(** The result a campaign's future has got is final: no event changes it, whatever [elected()]
    says later. *)
Theorem candidate_result_final w tag ok resp r :
  result (promise_ (self w)) = Some r ->
  result (promise_ (self (on_event tag ok resp w).1)) = Some r.
Proof.
  assert (on_event tag ok resp ⊨ on_self result_stays) as Hm; [|apply (Hm w)].
  unfold on_event. destruct (tag =? 0); [frame|].
  unfold unregister_op. frame.
  unfold run_callback. destruct (op_callback a) as [k|p x]; [|frame].
  destruct k; cbn [invoke candidate_client invoke_cb];
    unfold on_range_request, on_watch_create, on_watch_cancel, on_watch_read; frame.
Qed.

(** The loop over the keys found by a query. *)
Lemma watch_keys_grow r kvs : watch_keys r kvs ⊨ (on_self (K:=cb) keys_grow).
Proof.
  assert (Hk : forall k s, keys_grow s (set_watched_keys ({[k]} ∪ watched_keys_ s) s))
    by (intros k s; unfold keys_grow; cbn; set_solver).
  assert (Hs : forall t s, keys_grow s (set_ops t s)) by (intros t s; unfold keys_grow; set_solver).
  induction kvs; cbn [watch_keys]; frame.
Qed.

Lemma watch_keys_cons r kv kvs w w' :
  watch_keys r (kv :: kvs) w = (w', Ok true) -> kv_key kv ∈ watched_keys_ (self w').
Proof.
  intros E. pose proof (watch_keys_grow r kvs) as Hg. cbn [watch_keys] in E.
  unfold ops_start, zoom, OpCounter.start, async_op_start, add_op in E. munfold.
  destruct (shutdown_flag (ops_ (self w))) eqn:Hs; cbn in E; [by injection E|].
  unfold modify_self, deref_stream, gets_self in E. munfold.
  destruct (watcher_stream_ (self w)); cbn in E; [|done].
  set (w1 := with_self (fun s => set_watched_keys _ s) _) in E.
  pose proof (async_write_on_self keys_grow (rq_write_watch
     (create_request (kv_key kv) "" r false true)) "election_candidate/on_range_request/watch"
     (cb_watch_create (kv_key kv) r) w1) as Hw.
  destruct (async_write _ _ _ w1) as [w2 [[]|e|x]]; [|done..].
  specialize (Hg w2). rewrite E in Hg. apply Hg, Hw. subst w1. cbn. set_solver.
Qed.

(** The answer of a query, as a function of the state it finds. *)
Lemma range_request_elects op w :
  mu_ (self w) = false -> elected_ (self w) = false ->
  elected_ (self (on_range_request op true w).1) = true <->
  status_ok (r_status op) = true /\ rg_kvs (as_range (r_message op)) = [] /\
  watched_keys_ (self w) = ∅.
Proof.
  intros Hmu Hel. unfold on_range_request. cbn [negb].
  unfold ops_done, zoom, OpCounter.done, gets_self, check_grpc_status. munfold.
  set (w1 := with_self _ w). destruct (status_ok _); munfold; [|rewrite Hel; by split; [|intros (? & _)]].
  destruct (rg_kvs _) as [|kv kvs].
  - cbn [watch_keys]. munfold. unfold check_election_over_maybe, lock, unlock, gets_self, modify_self.
    munfold. rewrite Hmu. munfold. unfold bool_decide.
    destruct (decide_rel _ _ _) as [He|He]; munfold; [|rewrite Hel; by split; [|intros (_ & _ & ?)]].
    by rewrite election_result_eq.
  - assert (elected_ (self w1) = false) as Hel1 by done.
    pose proof (watch_keys_no_victory (rg_revision (as_range (r_message op))) (kv :: kvs) w1) as Hn.
    destruct (watch_keys _ _ w1) as [w2 r2] eqn:Ew.
    assert (elected_ (self w2) <> true) as Hn2 by (intros H2%Hn; congruence). clear Hn.
    destruct r2 as [[]|e|x]; cbn; [|by split; [|intros (_ & ? & _)]..].
    apply watch_keys_cons in Ew. split; [|by intros (_ & ? & _)].
    unfold check_election_over_maybe, lock, unlock, gets_self, modify_self. munfold.
    destruct (mu_ (self w2)); munfold; [done|].
    rewrite bool_decide_false by set_solver. done.
Qed.

Lemma other_callbacks_no_victory k op ok :
  (k = cb_range_request -> ok = false) -> invoke_cb k op ok ⊨ (on_self (K:=cb) no_victory).
Proof.
  intros Hk. destruct k; cbn [invoke_cb]; [rewrite Hk by done; unfold on_range_request; frame|..];
    unfold on_watch_create, on_watch_cancel, on_watch_read; frame.
Qed.

(** C9. A candidate becomes the leader by one event only: a query for the predecessor completes,
    with an OK status, finds no key, and no key found by an earlier query is still waited for. And
    then it does. *)
Theorem elected_exactly_when w w' tag op ok resp r :
  wf (queue w) -> mu_ (self w) = false -> elected_ (self w) = false ->
  pending_ops (queue w) !! tag = Some op -> on_event tag ok resp w = (w', r) ->
  elected_ (self w') = true <->
  op_callback op = functor cb_range_request /\ ok = true /\ status_ok (r_status resp) = true /\
  rg_kvs (as_range (r_message resp)) = [] /\ watched_keys_ (self w) = ∅.
Proof.
  intros Hwf Hmu Hel Hop E. pose proof Hwf as (_ & Hpos & _). specialize (Hpos _ _ Hop).
  rewrite (on_event_pending _ _ _ _ op) in E by (done || lia).
  set (w1 := with_queue _ w) in E.
  assert (self w1 = self w) as Hw1 by done.
  assert (Hno : elected_ (self (run_callback op resp ok w1).1) = true ->
    op_callback op = functor cb_range_request /\ ok = true).
  { unfold run_callback. destruct (op_callback op) as [k|p a] eqn:Ec; intros H1.
    - destruct (decide (k = cb_range_request /\ ok = true)) as [[-> ->]|Hn]; [done|].
      assert (k = cb_range_request -> ok = false) as Hk by (intros ->; destruct ok; tauto).
      apply (other_callbacks_no_victory k resp ok Hk w1) in H1. congruence.
    - rewrite (on_promise_on_self eq p (promise_set (adapt a resp ok)) w1) in Hw1. congruence. }
  rewrite E in Hno. cbn in Hno. split.
  - intros H1. destruct (Hno H1) as [Ec ->]. rewrite <- Hw1 in Hmu, Hel |- *.
    apply (range_request_elects resp w1) in Hmu as Hr; [|done].
    unfold run_callback in E. rewrite Ec in E.
    change (on_range_request resp true w1 = (w', r)) in E. rewrite E in Hr. by apply Hr in H1 as (? & ? & ?).
  - intros (Ec & -> & Hrest). rewrite <- Hw1 in Hmu, Hel, Hrest.
    unfold run_callback in E. rewrite Ec in E.
    change (on_range_request resp true w1 = (w', r)) in E.
    pose proof (range_request_elects resp w1 Hmu Hel) as Hr. rewrite E in Hr. by apply Hr.
Qed.

End facts.

(** ** The theorems applied, in the course of a campaign *)

#[local] Existing Instance empty_text_format.

Lemma campaign_world_wf n : (n < 10)%nat -> wf (queue (campaign_world n)).
Proof. intros Hn. do 10 (destruct n as [|n]; [apply wf_b_true; by vm_compute|]). lia. Qed.

(** The query is cancelled: the operation is gone, the count is not. *)
Lemma candidate_counts_operations_witness :
  let w' := (on_event 3 false (Response status_OK msg_none) (campaign_world 4)).1 in
  balance ops_ ops_kind w' = balance ops_ ops_kind (campaign_world 4) + 1.
Proof.
  cbv zeta.
  destruct (candidate_counts_operations (campaign_world 4)
    (on_event 3 false (Response status_OK msg_none) (campaign_world 4)).1 3
    (default (AsyncOp "" (functor cb_range_request) rq_read)
       (pending_ops (queue (campaign_world 4)) !! 3)) false
    (Response status_OK msg_none) (Ok tt)) as (_ & Hb & _).
  - apply campaign_world_wf. lia.
  - by vm_compute.
  - by vm_compute.
  - done.
  - rewrite Hb. by vm_compute.
Defined.

Lemma candidate_result_final_witness :
  result (promise_ (self (on_event 8 false (Response status_OK msg_none) (campaign_world 9)).1)) =
  Some (Ok true).
Proof. apply candidate_result_final. by vm_compute. Defined.

Lemma elected_exactly_when_witness :
  elected_ (self (campaign_world 8)) = false /\
  elected_ (self (on_event 7 true (Response status_OK (msg_range
    {| rg_revision := 9; rg_kvs := [] |})) (campaign_world 8)).1) = true.
Proof.
  split; [by vm_compute|].
  eapply (elected_exactly_when (campaign_world 8) _ 7
    (default (AsyncOp "" (functor (cb_watch_cancel 0 0)) rq_read)
       (pending_ops (queue (campaign_world 8)) !! 7)) true
    (Response status_OK (msg_range {| rg_revision := 9; rg_kvs := [] |}))).
  - apply campaign_world_wf. lia.
  - by vm_compute.
  - by vm_compute.
  - by vm_compute.
  - apply surjective_pairing.
  - by split_and!.
Defined.
