(* ===== verification/Safety.v ===== *)
(** * Code that does not go wrong

    Triples over the world of a client and the queue: from a world where [P] holds, the code
    ends with a result and [Q], or with an exception that [E] allows; never in undefined
    behaviour. [sound] is what the queue guarantees about the promises of the operations in it;
    [inv J] adds that every pending callback finds what it needs, [J], in its object. *)

From S2P Require Import Prelude Runtime Etcd OpCounter CompletionQueue Balance.
Open Scope Z_scope.
Open Scope gh_scope.

Section triple.
Context {W : Type}.

Definition triple {A} (P : W -> Prop) (m : M W A) (Q : A -> W -> Prop) (E : exn -> W -> Prop) :
    Prop :=
  forall w, P w ->
    match m w with
    | (w', Ok a) => Q a w'
    | (w', Throw e) => E e w'
    | (_, UB _) => False
    end.

Lemma triple_ret {A} (P : W -> Prop) (a : A) Q E :
  (forall w, P w -> Q a w) -> triple P (mret a) Q E.
Proof. intros H w Hw. by apply H. Qed.
Lemma triple_throw {A} (P : W -> Prop) e (Q : A -> W -> Prop) (E : exn -> W -> Prop) :
  (forall w, P w -> E e w) -> triple P (throw e) Q E.
Proof. intros H w Hw. by apply H. Qed.
Lemma triple_bind {A B} P (R : A -> W -> Prop) (m : M W A) (k : A -> M W B) Q E :
  triple P m R E -> (forall a, triple (R a) (k a) Q E) -> triple P (m ≫= k) Q E.
Proof.
  intros Hm Hk w Hw. specialize (Hm w Hw). unfold mbind, M_bind.
  destruct (m w) as [w' [a|e|s]]; [|done..]. by apply Hk.
Qed.
Lemma triple_conseq {A} (P P' : W -> Prop) (m : M W A) (Q Q' : A -> W -> Prop)
    (E E' : exn -> W -> Prop) :
  triple P' m Q' E' -> (forall w, P w -> P' w) -> (forall a w, Q' a w -> Q a w) ->
  (forall e w, E' e w -> E e w) -> triple P m Q E.
Proof.
  intros Hm HP HQ HE w Hw. specialize (Hm w (HP w Hw)).
  destruct (m w) as [w' [a|e|s]]; [by apply HQ|by apply HE|done].
Qed.
Lemma triple_assoc {A B C} P (m : M W A) (k1 : A -> M W B) (k2 : B -> M W C) Q E :
  triple P (m ≫= fun a => k1 a ≫= k2) Q E -> triple P ((m ≫= k1) ≫= k2) Q E.
Proof.
  intros Hm w Hw. specialize (Hm w Hw). unfold mbind, M_bind in *.
  by destruct (m w) as [? [?|?|?]].
Qed.
Lemma triple_ret_bind {A B} P (a : A) (k : A -> M W B) Q E :
  triple P (k a) Q E -> triple P (mret a ≫= k) Q E.
Proof. done. Qed.
Lemma triple_any_throw {A} (P : W -> Prop) (m : M W A) (Q : A -> W -> Prop) E :
  triple P m Q (fun _ _ => False) -> triple P m Q E.
Proof. intros Hm. by eapply triple_conseq. Qed.
Lemma triple_bind_nothrow {A B} P (R : A -> W -> Prop) (m : M W A) (k : A -> M W B) Q E :
  triple P m R (fun _ _ => False) -> (forall a, triple (R a) (k a) Q E) -> triple P (m ≫= k) Q E.
Proof. intros Hm Hk. eapply triple_bind; [by apply triple_any_throw|done]. Qed.
Lemma triple_when (P : W -> Prop) b (m : M W unit) Q E :
  (b = true -> triple P m Q E) -> (b = false -> forall w, P w -> Q tt w) ->
  triple P (when b m) Q E.
Proof. intros Hm H. destruct b; [by apply Hm|by apply triple_ret, H]. Qed.
Lemma triple_pure {A} (P : W -> Prop) (phi : Prop) (m : M W A) Q E :
  (phi -> triple P m Q E) -> triple (fun w => phi /\ P w) m Q E.
Proof. intros H w [Hphi Hw]. by apply H. Qed.

End triple.

(** Code that keeps an invariant and does not throw. *)
Abbreviation keeps I m := (triple I%function m (fun _ => I%function) (fun _ _ => False)).

Section safety.
Context {S K : Type}.
#[local] Abbreviation W := (world S K).
Implicit Types w : W.

(** ** The futures of the operations in the queue *)

(** An operation started with [use_future] has a promise of its own, without a result; the results
    there are values or exceptions. *)
Definition futures_ok (q : completion_queue K) : Prop :=
  (forall tag op p a, pending_ops q !! tag = Some op -> op_callback op = set_future p a ->
     exists c, promises q !! p = Some c /\ result c = None) /\
  (forall tag tag' op op' p a a', pending_ops q !! tag = Some op -> pending_ops q !! tag' = Some op' ->
     op_callback op = set_future p a -> op_callback op' = set_future p a' -> tag = tag') /\
  (forall p c s, promises q !! p = Some c -> result c <> Some (UB s)).

Definition sound (q : completion_queue K) : Prop := wf q /\ futures_ok q.

Lemma sound_new : sound new_queue.
Proof.
  split; [split; [done|]; split; intros ? ? H; cbn in H; by rewrite lookup_empty in H|].
  split_and!; cbn; intros *; rewrite lookup_empty; discriminate.
Qed.

Lemma sound_with_op name k r q : sound q -> sound (with_op name (functor k) r q).
Proof.
  intros [Hwf (H1 & H2 & H3)]. split; [by apply with_op_le|]. split_and!; cbn; [..|done].
  - intros tag op p a. rewrite lookup_insert_Some. intros [[_ <-]|[_ Hop]] Hcb; [done|].
    by eapply H1.
  - intros tag tag' op op' p a a'. rewrite !lookup_insert_Some.
    intros [[_ <-]|[_ Hop]] [[_ <-]|[_ Hop']] Hcb Hcb'; try done. by eapply H2.
Qed.

Lemma sound_unregister q tag :
  sound q -> sound (set_pending_ops (delete tag (pending_ops q)) q).
Proof.
  intros [Hwf (H1 & H2 & H3)]. split; [by apply queue_le_unregister|]. split_and!; cbn; [..|done].
  - intros t op p a [_ Hop]%lookup_delete_Some. by eapply H1.
  - intros t t' op op' p a a' [_ Hop]%lookup_delete_Some [_ Hop']%lookup_delete_Some. by eapply H2.
Qed.

Lemma sound_start_future name a r q :
  sound q -> sound (with_op name (set_future (next_promise q) a) r (with_promise q)).
Proof.
  intros [Hwf (H1 & H2 & H3)]. pose proof (wf_fresh_promise _ Hwf) as Hfresh.
  assert (Hwf1 : wf (with_promise q)).
  { pose proof (make_promise_evolves (S:=unit) (World tt q) Hwf) as [Hwf1 _]. exact Hwf1. }
  assert (Hne : forall tag op a', pending_ops q !! tag = Some op ->
    op_callback op <> set_future (next_promise q) a').
  { intros tag op a' Hop Hcb. destruct (H1 _ _ _ _ Hop Hcb) as (c & Hc & _). congruence. }
  split; [by apply with_op_le|]. split_and!; cbn.
  - intros tag op p a'. rewrite lookup_insert_Some. intros [[_ <-]|[_ Hop]] Hcb.
    + injection Hcb as <- _. exists new_promise. by rewrite lookup_insert_eq.
    + destruct (H1 _ _ _ _ Hop Hcb) as (c & Hc & Hr). exists c. split; [|done].
      rewrite lookup_insert_ne; [done|]. congruence.
  - intros tag tag' op op' p a1 a2. rewrite !lookup_insert_Some.
    intros [[<- <-]|[? Hop]] [[<- <-]|[? Hop']] Hcb Hcb'; [done|..|by eapply H2].
    + injection Hcb as <- _. by destruct (Hne _ _ _ Hop' Hcb').
    + injection Hcb' as <- _. by destruct (Hne _ _ _ Hop Hcb).
  - intros p c x. rewrite lookup_insert_Some. intros [[_ <-]|[_ Hc]]; [done|]. by eapply H3.
Qed.

(** The result of an operation that left the queue. *)
Lemma sound_fulfil q tag op p a c r :
  sound q -> pending_ops q !! tag = Some op -> op_callback op = set_future p a ->
  let q1 := set_pending_ops (delete tag (pending_ops q)) q in
  promises q !! p = Some c -> (forall s, r <> Some (UB s)) ->
  sound (set_promises (<[p := Promise (retrieved c) r]> (promises q1)) q1).
Proof.
  intros Hq Hop Hcb q1 Hc Hub. destruct (sound_unregister q tag Hq) as [Hwf1 (H1 & H2 & H2')].
  destruct Hq as [Hwf (H3 & H4 & _)]. split; [|split_and!; cbn; [|apply H2|]].
  - destruct Hwf1 as (? & ? & Hp). split_and!; try done. cbn. intros p0 c0.
    rewrite lookup_insert_Some. intros [[<- _]|[_ H5]]; [by eapply Hp|by eapply Hp].
  - intros t op0 p0 a0 Hop0 Hcb0. destruct (H1 _ _ _ _ Hop0 Hcb0) as (c0 & Hc0 & Hr0).
    exists c0. split; [|done]. rewrite lookup_insert_ne; [done|]. intros ->.
    apply lookup_delete_Some in Hop0 as [Hne Hop0]. by destruct Hne; eapply H4.
  - intros p0 c0 x. rewrite lookup_insert_Some. intros [[_ <-]|[_ Hc0]]; [apply Hub|].
    by eapply H2'.
Qed.

(** ** Invariants of a client *)

Context (J : S -> K -> Prop).

(** Every pending functor has its precondition. *)
Definition ready (s : S) (q : completion_queue K) : Prop :=
  forall tag op k, pending_ops q !! tag = Some op -> op_callback op = functor k -> J s k.

Definition inv (I : S -> Prop) w : Prop :=
  sound (queue w) /\ ready (self w) (queue w) /\ I (self w).

Lemma inv_weaken (I I' : S -> Prop) w : (forall s, I s -> I' s) -> inv I w -> inv I' w.
Proof. intros H (? & ? & ?). split_and!; auto. Qed.

Lemma start_op_keeps I location name k r :
  (forall s, I s -> J s k) -> keeps (inv I) (start_op location name (functor k) r).
Proof.
  intros Hk w (Hs & Hr & Hi). rewrite start_op_eq by apply Hs.
  split_and!; [by apply sound_with_op| |done]. intros tag op k' Hop Hcb. cbn in Hop.
  rewrite lookup_insert_Some in Hop. destruct Hop as [[_ <-]|[_ Hop]].
  - injection Hcb as <-. by apply Hk.
  - by eapply Hr.
Qed.

Lemma async_rpc_keeps I r name k :
  (forall s, I s -> J s k) -> keeps (inv I) (async_rpc r name k).
Proof.
  intros Hk. eapply triple_bind; [by apply start_op_keeps|]. intros ?. by apply triple_ret.
Qed.
Lemma async_write_keeps I r name k :
  (forall s, I s -> J s k) -> keeps (inv I) (async_write r name k).
Proof.
  intros Hk. eapply triple_bind; [by apply start_op_keeps|]. intros ?. by apply triple_ret.
Qed.
Lemma async_read_keeps I name k :
  (forall s, I s -> J s k) -> keeps (inv I) (async_read name k).
Proof.
  intros Hk. eapply triple_bind; [by apply start_op_keeps|]. intros ?. by apply triple_ret.
Qed.

Lemma start_future_keeps I location name a r : keeps (inv I) (start_future location name a r).
Proof.
  intros w (Hs & Hr & Hi). pose proof (sound_start_future name a r _ Hs) as Hs'.
  unfold start_future. rewrite (bind_ok _ _ _ _ _ (make_promise_eq w)).
  destruct Hs as [Hwf Hfut].
  assert (Hwf1 : wf (with_promise (queue w))) by apply (make_promise_evolves w Hwf).
  rewrite (bind_ok _ _ _ _ _ (start_op_eq _ _ _ _ (with_queue with_promise w) Hwf1)).
  unfold on_promise. munfold. rewrite lookup_insert_eq. cbn.
  destruct Hs' as [(Hn & Ho & Hp) (Hf1 & Hf2 & Hf3)].
  split_and!; [|intros tag op k Hop Hcb|done].
  - split; [split_and!; try done; cbn in *|split_and!; [cbn in *|done|cbn in *]].
    + intros p c Hc. rewrite insert_insert_eq in Hc.
      destruct (decide (p = next_promise (queue w))) as [->|Hne]; [lia|].
      rewrite lookup_insert_ne in Hc by done. apply Hwf in Hc. lia.
    + intros tag op p a' Hop Hcb. destruct (Hf1 _ _ _ _ Hop Hcb) as (c & Hc & Hres).
      rewrite insert_insert_eq. destruct (decide (p = next_promise (queue w))) as [->|Hne].
      * exists (Promise true None). by rewrite lookup_insert_eq.
      * exists c. rewrite lookup_insert_ne in Hc |- *; done.
    + intros p c x. rewrite insert_insert_eq, lookup_insert_Some. intros [[_ <-]|[Hne Hc]]; [done|].
      apply (Hf3 p). by rewrite lookup_insert_ne.
  - cbn in Hop. rewrite lookup_insert_Some in Hop. destruct Hop as [[_ <-]|[_ Hop]]; [discriminate Hcb|].
    by eapply Hr.
Qed.

Lemma start_future_live I location name a r :
  triple (inv I) (start_future location name a r)
    (fun p w => inv I w /\ wf (queue w) /\ is_Some (promises (queue w) !! p)) (fun _ _ => False).
Proof.
  intros w Hw. pose proof (start_future_keeps I location name a r w Hw) as Hk.
  destruct Hw as [[Hwf _] _]. unfold start_future in *.
  rewrite (bind_ok _ _ _ _ _ (make_promise_eq w)) in *.
  assert (Hwf1 : wf (with_promise (queue w))) by apply (make_promise_evolves w Hwf).
  rewrite (bind_ok _ _ _ _ _ (start_op_eq _ _ _ _ (with_queue with_promise w) Hwf1)) in *.
  unfold on_promise in *. munfold. rewrite lookup_insert_eq in *. cbn in *.
  split_and!; [done|apply Hk|]. rewrite lookup_insert_eq. by eexists.
Qed.

Lemma call_grpc_keeps I l : keeps (inv I) (call_grpc l).
Proof. intros w ([(? & ? & ?) ?] & ? & ?). by split_and!. Qed.

Lemma modify_self_triple (I I' : S -> Prop) g :
  (forall s, I s -> I' (g s)) -> (forall s k, I s -> J s k -> J (g s) k) ->
  triple (inv I) (modify_self g) (fun _ => inv I') (fun _ _ => False).
Proof.
  intros Hi Hj w (Hs & Hr & HI). split_and!; [done| |by apply Hi]. cbn.
  intros tag op k Hop Hcb. apply Hj; [done|]. by eapply Hr.
Qed.

Lemma gets_self_triple {A} (I : S -> Prop) (g : S -> A) :
  triple (inv I) (gets_self g) (fun a => inv (fun s => I s /\ a = g s)) (fun _ _ => False).
Proof. intros w (? & ? & ?). by split_and!. Qed.

Lemma gets_self_keeps {A} (I : S -> Prop) (g : S -> A) : keeps (inv I) (gets_self g).
Proof. by intros w ?. Qed.

Lemma zoom_keeps {T A} (I : S -> Prop) (proj : S -> T) upd (m : M T A) :
  (forall s t, I s -> I (upd t s)) -> (forall s t k, I s -> J s k -> J (upd t s) k) ->
  (forall t, is_ok (m t).2 = true) -> keeps (inv I) (zoom proj upd m).
Proof.
  intros Hi Hj Hm w (Hs & Hr & HI). unfold zoom. specialize (Hm (proj (self w))).
  destruct (m _) as [t [a|e|x]]; [|done..]. split_and!; [done| |by apply Hi]. cbn.
  intros tag op k Hop Hcb. apply Hj; [done|]. by eapply Hr.
Qed.

(** ** Events *)

Context `{!Client S K}.

(** If every callback keeps the invariant when its precondition holds, the event loop never goes
    wrong, and the only exceptions are those of the callbacks. A callback may also count on a fact [G] of the
    queue in which the pending operations have no part, such as the time. *)
Lemma on_event_safe_given (G : completion_queue K -> Prop) (I : S -> Prop) (E : K -> response -> bool -> exn -> Prop)
    w tag ok resp :
  (forall q ops, G q -> G (set_pending_ops ops q)) ->
  (forall k, triple (fun w => inv (fun s => I s /\ J s k) w /\ G (queue w)) (invoke k resp ok) (fun _ => inv I)
     (fun e w => inv I w /\ E k resp ok e)) ->
  inv I w -> G (queue w) ->
  let '(w', r) := on_event tag ok resp w in
  inv I w' /\
  (r = Ok tt \/ exists op k e, pending_ops (queue w) !! tag = Some op /\
     op_callback op = functor k /\ r = Throw e /\ E k resp ok e).
Proof.
  intros HG Hk (Hs & Hr & Hi) Hg. destruct (pending_ops (queue w) !! tag) as [op|] eqn:Hop.
  2:{ rewrite on_event_unknown by done. split; [done|by left]. }
  assert (tag <> 0) as Ht by (apply Hs in Hop; lia).
  rewrite (on_event_pending _ _ _ _ op) by done. set (w1 := with_queue _ w).
  assert (Hr1 : ready (self w1) (queue w1)).
  { intros t op1 k1 Hop1. cbn in Hop1. apply lookup_delete_Some in Hop1 as [_ ?]. by eapply Hr. }
  unfold run_callback. destruct (op_callback op) as [k|p a] eqn:Ecb.
  - assert (inv (fun s => I s /\ J s k) w1 /\ G (queue w1)) as H1.
    { split; [|by apply HG]. split_and!; [by apply sound_unregister|done..|]. by eapply Hr. }
    specialize (Hk k w1 H1). destruct (invoke k resp ok w1) as [w' [[]|e|x]]; [by split; [|left]| |done].
    destruct Hk as [Hinv HE]. split; [done|]. right. by exists op, k, e.
  - destruct (proj1 (proj2 Hs) _ _ _ _ Hop Ecb) as (c & Hc & Hres).
    unfold on_promise. cbn. rewrite Hc. unfold promise_set. rewrite Hres.
    split; [|by left]. split_and!; [|done..].
    apply (sound_fulfil _ _ op _ a); try done. intros s [= Hu]. by destruct a, ok; cbn in Hu;
      try destruct (negb _).
Qed.

Lemma on_event_safe (I : S -> Prop) (E : K -> response -> bool -> exn -> Prop) w tag ok resp :
  (forall k, triple (inv (fun s => I s /\ J s k)) (invoke k resp ok) (fun _ => inv I)
     (fun e w => inv I w /\ E k resp ok e)) ->
  inv I w ->
  let '(w', r) := on_event tag ok resp w in
  inv I w' /\
  (r = Ok tt \/ exists op k e, pending_ops (queue w) !! tag = Some op /\
     op_callback op = functor k /\ r = Throw e /\ E k resp ok e).
Proof.
  intros Hk Hi. apply (on_event_safe_given (fun _ => True)); [done| |done..].
  intros k. eapply triple_conseq; [apply Hk|by intros ? []|done..].
Qed.

End safety.

(** Code that leaves the clock alone and gives no promise a result; the event loop alone does both. *)
Definition passive {S K} (w w' : world S K) : Prop :=
  now (queue w') = now (queue w) /\
  forall p c r, promises (queue w') !! p = Some c -> result c = Some r ->
    exists c0, promises (queue w) !! p = Some c0 /\ result c0 = Some r.
#[export] Instance passive_preorder S K : PreOrder (@passive S K).
Proof.
  split; [split; [done|by eauto]|]. intros w1 w2 w3 [H1 H1'] [H2 H2']. split; [congruence|].
  intros p c r Hc Hr. destruct (H2' p c r Hc Hr) as (c0 & Hc0 & Hr0). by eapply H1'.
Qed.

Lemma passive_same {S K} (w w' : world S K) :
  now (queue w') = now (queue w) -> promises (queue w') = promises (queue w) -> passive w w'.
Proof. intros Hn Hp. split; [done|]. rewrite Hp. eauto. Qed.

(** ** Interference

    What the code of other objects that share the queue, and of the threads that use them, does to an object: it
    leaves the object and the operations with its callbacks alone. *)

Section interference.
Context {S K : Type}.
Implicit Types w : world S K.

Definition same_callbacks (q q' : completion_queue K) : Prop :=
  forall tag name k rq, pending_ops q !! tag = Some (AsyncOp name (functor k) rq) <->
                        pending_ops q' !! tag = Some (AsyncOp name (functor k) rq).

Record interferes w w' : Prop := {
  interferes_self : self w' = self w;
  interferes_evolves : evolves w w';
  interferes_sound : sound (queue w) -> sound (queue w');
  interferes_callbacks : same_callbacks (queue w) (queue w');
  interferes_passive : passive w w'
}.

#[export] Instance interferes_preorder : PreOrder interferes.
Proof.
  split; [by intros w|]. intros w1 w2 w3 [H1 H2 H3 H4 H5] [H1' H2' H3' H4' H5']. split; [congruence|by etrans|auto| |by etrans].
  intros tag name k rq. etrans; [apply H4|apply H4'].
Qed.

Lemma same_callbacks_op (q q' : completion_queue K) tag op k :
  same_callbacks q q' -> op_callback op = functor k -> pending_ops q !! tag = Some op <-> pending_ops q' !! tag = Some op.
Proof. intros Hq Hcb. destruct op as [name c rq]. cbn in Hcb. subst c. apply Hq. Qed.

Lemma count_ops_interferes f (q q' : completion_queue K) :
  (forall p a, f (set_future p a) = false) -> same_callbacks q q' -> count_ops f q' = count_ops f q.
Proof.
  intros Hf Hq. unfold count_ops. do 2 f_equal. apply map_eq. intros tag. apply option_eq. intros op.
  rewrite !map_lookup_filter_Some. cbn. destruct op as [name [k|p a] rq]; cbn; [|rewrite Hf; naive_solver].
  pose proof (Hq tag name k rq). naive_solver.
Qed.
Lemma balance_interferes proj f w w' :
  (forall p a, f (set_future p a) = false) -> interferes w w' -> balance proj f w' = balance proj f w.
Proof.
  intros Hf [Hs _ _ Hq _]. unfold balance. by rewrite Hs, (count_ops_interferes f (queue w)).
Qed.
Lemma inv_interferes (J : S -> K -> Prop) I w w' : interferes w w' -> inv J I w -> inv J I w'.
Proof.
  intros [Hs _ Hsound Hq _] (H1 & H2 & H3). unfold inv. rewrite Hs. split_and!; [by apply Hsound| |done].
  intros tag op k Hop Hcb. eapply H2; [|done]. by apply (same_callbacks_op _ _ tag op k Hq Hcb).
Qed.
Lemma wf_interferes w w' : interferes w w' -> wf (queue w) -> wf (queue w').
Proof. intros [_ He _ _ _] Hwf. by apply He. Qed.
End interference.

(** ** Threads

    [admissible] says what the environment may do: a class, so that a component whose code is safe only for some inputs
    states once which ones. Without an instance of its own, everything is admissible. [stable I]: admissible events keep [I], and so does interference. [psafe]: a thread that waits does so under a stable invariant, which is
    enough to go on from whatever world it is woken in; it never gets into undefined
    behaviour, and [Q] or [E] holds at its end. *)

Class rely := admissible : sched_event -> Prop.
#[export] Instance any_event : rely | 100 := fun _ => True.
Lemma any_admissible es : Forall (@admissible any_event) es.
Proof. by apply Forall_true. Qed.

Section threads.
Context {S K : Type} `{!Client S K} {Rely : rely}.
#[local] Abbreviation W := (world S K).
Implicit Types w : W.

Definition stable (I : W -> Prop) : Prop :=
  (forall w w' tag ok resp,
     admissible (ev_completion tag ok resp) -> I w -> on_event tag ok resp w = (w', Ok tt) -> I w') /\
  (forall w t, admissible (ev_clock t) -> I w -> I (with_queue (set_now t) w)) /\
  (forall w w', interferes w w' -> I w -> I w').

Lemma stable_and I1 I2 : stable I1 -> stable I2 -> stable (fun w => I1 w /\ I2 w).
Proof.
  intros (H1 & H1' & H1'') (H2 & H2' & H2''). split_and!.
  - intros w w' tag ok resp Ha [] E. split; [by eapply H1|by eapply H2].
  - intros w t Ha []. split; [by apply H1'|by apply H2'].
  - intros w w' Hi []. split; [by eapply H1''|by eapply H2''].
Qed.

(** The base invariant, under which events do not go wrong. *)
Context (B : W -> Prop).

Fixpoint psafe {A} (Q : A -> W -> Prop) (E : exn -> W -> Prop) (p : prog W A) : Prop :=
  match p with
  | Finished w (Ok a) => Q a w
  | Finished w (Throw e) => E e w
  | Finished _ (UB _) => False
  | Blocked w until k =>
      exists I, stable I /\ (forall w, I w -> B w) /\ I w /\
        forall w', I w' -> until w' = true -> psafe Q E (k w')
  end.

Definition ptriple {A} (P : W -> Prop) (m : Prelude.P W A) (Q : A -> W -> Prop) (E : exn -> W -> Prop) :
    Prop := forall w, P w -> psafe Q E (m w).

Lemma psafe_conseq {A} (Q Q' : A -> W -> Prop) (E E' : exn -> W -> Prop) p :
  psafe Q' E' p -> (forall a w, Q' a w -> Q a w) -> (forall e w, E' e w -> E e w) -> psafe Q E p.
Proof.
  intros Hp HQ HE. induction p as [w [a|e|s]|w until k IH]; cbn in *; [by apply HQ|by apply HE|done|].
  destruct Hp as (I & H1 & H2 & H3 & H4). exists I. split_and!; auto.
Qed.

Lemma psafe_then {A C} (Q : A -> W -> Prop) E (Q' : C -> W -> Prop) E' p f :
  psafe Q E p ->
  (forall a w, Q a w -> psafe Q' E' (f w (Ok a))) ->
  (forall e w, E e w -> psafe Q' E' (f w (Throw e))) ->
  psafe Q' E' (prog_then p f).
Proof.
  intros Hp HQ HE. induction p as [w [a|e|s]|w until k IH]; cbn in *; [by apply HQ|by apply HE|done|].
  destruct Hp as (I & H1 & H2 & H3 & H4). exists I. split_and!; auto.
Qed.

Lemma ptriple_bind {A C} P (R : A -> W -> Prop) (m : Prelude.P W A) (k : A -> Prelude.P W C) Q E :
  ptriple P m R E -> (forall a, ptriple (R a) (k a) Q E) -> ptriple P (m ≫= k) Q E.
Proof.
  intros Hm Hk w Hw. eapply psafe_then; [by apply Hm|..]; [intros a w' H; by apply Hk|done].
Qed.
Lemma ptriple_conseq {A} (P P' : W -> Prop) (m : Prelude.P W A) (Q Q' : A -> W -> Prop) E E' :
  ptriple P' m Q' E' -> (forall w, P w -> P' w) -> (forall a w, Q' a w -> Q a w) ->
  (forall e w, E' e w -> E e w) -> ptriple P m Q E.
Proof. intros Hm HP HQ HE w Hw. eapply psafe_conseq; [by apply Hm, HP|done..]. Qed.
Lemma ptriple_lift {A} P (m : M W A) Q E : triple P m Q E -> ptriple P (lift m) Q E.
Proof. intros Hm w Hw. specialize (Hm w Hw). unfold lift. by destruct (m w) as [w' [a|e|s]]. Qed.
Lemma ptriple_ret {A} (P : W -> Prop) (a : A) Q E :
  (forall w, P w -> Q a w) -> ptriple P (mret a) Q E.
Proof. intros H w Hw. by apply H. Qed.
Lemma ptriple_throw {A} (P : W -> Prop) e (Q : A -> W -> Prop) (E : exn -> W -> Prop) :
  (forall w, P w -> E e w) -> ptriple P (P_throw e) Q E.
Proof. intros H w Hw. by apply H. Qed.
Lemma ptriple_block I until (Q : W -> Prop) E :
  stable I -> (forall w, I w -> B w) -> (forall w, I w -> until w = true -> Q w) ->
  ptriple I (block_until until) (fun _ => Q) E.
Proof.
  intros Hs HB HQ w Hw. unfold block_until. destruct (until w) eqn:Hu; cbn; [by apply HQ|].
  exists I. split_and!; auto.
Qed.
Lemma ptriple_destructor {A} P (m : Prelude.P W A) d (Q Q' : A -> W -> Prop) E E' :
  ptriple P m Q' E' ->
  (forall a, triple (Q' a) d (fun _ => Q a) E) -> (forall e, triple (E' e) d (fun _ => E e) E) ->
  ptriple P (with_destructor m d) Q E.
Proof.
  intros Hm HQ HE w Hw. eapply psafe_then; [by apply Hm|..]; cbn.
  - intros a w' H. specialize (HQ a w' H). by destruct (d w') as [w2 [[]|e|s]].
  - intros e w' H. specialize (HE e w' H). by destruct (d w') as [w2 [[]|e'|s]].
Qed.

(** A promise that exists keeps existing. *)
Definition live (p : Z) w : Prop := wf (queue w) /\ is_Some (promises (queue w) !! p).

Lemma live_stable p : stable (live p).
Proof.
  assert (Hev : forall w w', evolves w w' -> live p w -> live p w').
  { intros w w' Hev [Hwf [c Hc]]. destruct (Hev Hwf) as (Hwf' & _ & _ & Hp & _). split; [done|].
    destruct (Hp p c Hc) as (c' & Hc' & _). by exists c'. }
  split_and!; [|by intros w t _ [(? & ? & ?) ?]|intros w w' []; by apply Hev].
  intros w w' tag ok resp _ Hl E. pose proof (on_event_evolves tag ok resp w) as Hw. rewrite E in Hw. by eapply Hev.
Qed.

(** Waiting for a future ends with the value or the exception in it. *)
Lemma future_get_result I p :
  stable I -> (forall w, I w -> B w) ->
  (forall w c r, I w -> promises (queue w) !! p = Some c -> result c = Some r ->
     forall s, r <> UB s) ->
  ptriple (fun w => I w /\ live p w) (future_get p)
    (fun r w => I w /\ exists c, promises (queue w) !! p = Some c /\ result c = Some (Ok r)) (fun _ => I).
Proof.
  intros Hs HB Hub. eapply ptriple_bind.
  - apply (ptriple_block (fun w => I w /\ live p w) _
             (fun w => (I w /\ live p w) /\ future_ready p w = true));
      [by apply stable_and, live_stable|by intros w []; auto|done].
  - intros _ w ([Hw [_ [c Hc]]] & Hr). unfold lift, future_ready in *. rewrite Hc in *.
    apply bool_decide_eq_true in Hr as [r Hr]. rewrite Hr.
    specialize (Hub w c r Hw Hc Hr). destruct r as [a|e|s]; [by cbn; split; [|exists c]|done|by destruct (Hub s)].
Qed.
Lemma future_get_safe I p :
  stable I -> (forall w, I w -> B w) ->
  (forall w c r, I w -> promises (queue w) !! p = Some c -> result c = Some r ->
     forall s, r <> UB s) ->
  ptriple (fun w => I w /\ live p w) (future_get p) (fun _ => I) (fun _ => I).
Proof. intros Hs HB Hub. eapply ptriple_conseq; [by apply future_get_result|done|by intros r w []|done]. Qed.

(** The futures of the queue in particular. *)
Lemma await_safe (J : S -> K -> Prop) (I : S -> Prop) p :
  stable (inv J I) -> (forall w, inv J I w -> B w) ->
  ptriple (fun w => inv J I w /\ live p w) (future_get p) (fun _ => inv J I) (fun _ => inv J I).
Proof.
  intros Hs HB. apply future_get_safe; [done..|].
  intros w c r ([_ (_ & _ & Hub)] & _) Hc Hr s ->. by eapply Hub.
Qed.

(** A running thread stays safe, whatever the events. *)
Lemma sched_psafe {A} (Q : A -> W -> Prop) E es p p' :
  (forall a, stable (Q a)) -> (forall e, stable (E e)) ->
  psafe Q E p -> Forall admissible es -> sched es p = running p' -> psafe Q E p'.
Proof.
  intros HQ HE Hsafe Hes. revert p Hsafe.
  assert (Hset : forall p w', psafe Q E p ->
    (forall I, stable I -> I (prog_world p) -> I w') -> psafe Q E (prog_set_world (fun _ => w') p)).
  { intros [w [a|e|s]|w until k] w'; cbn; intros Hp Hw'; [by apply Hw'|by apply Hw'|done|].
    destruct Hp as (I & H1 & H2 & H3 & H4). exists I. split_and!; [done..|by apply Hw'|done]. }
  induction Hes as [|[tag ok resp| |t] es Ha _ IH]; intros p Hp Hrun; cbn in Hrun; [by injection Hrun as <-|..].
  - destruct (on_event tag ok resp (prog_world p)) as [w' [[]|e|s]] eqn:Ee; [|done..].
    eapply IH, Hrun. apply Hset; [done|]. intros I (HI & _) Hi. by eapply HI.
  - eapply IH, Hrun. destruct p as [w r|w until k]; cbn; [done|].
    destruct (until w) eqn:Hu; [|done]. destruct Hp as (I & _ & _ & H3 & H4). by apply H4.
  - eapply IH, Hrun. replace (prog_set_world (with_queue (set_now t)) p) with
      (prog_set_world (fun _ => with_queue (set_now t) (prog_world p)) p) by (by destruct p).
    apply Hset; [done|]. intros I (_ & HI & _) Hi. by apply HI.
Qed.

(** A thread that waits for what never comes. *)
Lemma sched_blocked {A} (I : W -> Prop) es w until (k : W -> prog W A) p :
  stable I -> (forall w, I w -> until w = false) -> I w -> Forall admissible es ->
  sched es (Blocked w until k) = running p -> prog_outcome p = None.
Proof.
  intros (HI & HI' & _) Hu Hw Hes. revert w Hw. induction Hes as [|[tag ok resp| |t] es Ha _ IH]; intros w Hw Hrun;
    cbn in Hrun; [by injection Hrun as <-|..].
  - destruct (on_event tag ok resp w) as [w' [[]|e|s]] eqn:Ee; [|done..].
    eapply IH, Hrun. by eapply HI.
  - rewrite Hu in Hrun by done. by eapply IH.
  - eapply IH, Hrun. by apply HI'.
Qed.

(** A safe thread next to the event loop: if no event goes wrong from a world of the base
    invariant, nothing goes wrong, and the thread stays safe. *)
Lemma sched_safe {A} (Q : A -> W -> Prop) E (X : exn -> Prop) es p :
  (forall w tag ok resp, admissible (ev_completion tag ok resp) -> B w ->
     match on_event tag ok resp w with
     | (_, Ok _) => True | (_, Throw e) => X e | (_, UB _) => False
     end) ->
  (forall a, stable (Q a)) -> (forall e, stable (E e)) ->
  (forall a w, Q a w -> B w) -> (forall e w, E e w -> B w) ->
  psafe Q E p -> Forall admissible es ->
  match sched es p with
  | running p' => psafe Q E p'
  | terminated e => X e
  | undefined_behaviour _ => False
  end.
Proof.
  intros HB HQ HE HQB HEB Hp Hes.
  assert (Hworld : forall p, psafe Q E p -> B (prog_world p)).
  { intros [w [a|e|s]|w until k]; cbn; [apply HQB|apply HEB|done|].
    intros (I & _ & H2 & H3 & _). by apply H2. }
  induction es as [|e es IH] using rev_ind; [done|]. apply Forall_app in Hes as [Hes He].
  pose proof (proj1 (Forall_singleton _ _) He) as Ha. specialize (IH Hes). rewrite sched_app.
  destruct (sched es p) as [p1|x|x] eqn:E1; [|done..].
  destruct e as [tag ok resp| |t].
  - specialize (HB (prog_world p1) tag ok resp Ha (Hworld p1 IH)).
    pose proof (sched_psafe Q E [ev_completion tag ok resp] p1) as Hs. cbn in Hs |- *.
    destruct (on_event tag ok resp (prog_world p1)) as [w' [[]|e|s]]; [|done..]. by apply Hs.
  - by apply (sched_psafe Q E [ev_wake] p1).
  - by apply (sched_psafe Q E [ev_clock t] p1).
Qed.

(** In particular when the thread ends in the base invariant. *)
Lemma sched_keeps_base {A} (X : exn -> Prop) es (p : prog W A) :
  stable B ->
  (forall w tag ok resp, admissible (ev_completion tag ok resp) -> B w ->
     match on_event tag ok resp w with
     | (_, Ok _) => True | (_, Throw e) => X e | (_, UB _) => False
     end) ->
  psafe (fun _ => B) (fun _ => B) p -> Forall admissible es ->
  match sched es p with
  | running p' => B (prog_world p')
  | terminated e => X e
  | undefined_behaviour _ => False
  end.
Proof.
  intros HS HB Hp Hes. pose proof (sched_safe (fun _ : A => B) (fun _ => B) X es p HB) as Hs.
  destruct (sched es p) as [p'|e|s]; [|by apply Hs..]. specialize (Hs (fun _ => HS) (fun _ => HS)).
  assert (psafe (fun _ : A => B) (fun _ => B) p') as Hp' by (by apply Hs).
  destruct p' as [w [a|e|s]|w until k]; cbn in *; [done..|].
  destruct Hp' as (I & _ & HI & Hw & _). by apply HI.
Qed.

(** *** Waiting for a counter *)

(** The counter is shut down; and nothing it counts is pending. *)
Definition closed (proj : S -> OpCounter.async_op_counter) w : Prop :=
  OpCounter.in_shutdown (proj (self w)) = true.
Definition quiet (proj : S -> OpCounter.async_op_counter) w : Prop :=
  OpCounter.in_shutdown (proj (self w)) = true /\ OpCounter.pending (proj (self w)) <= 0.

Lemma closed_stable proj :
  (forall tag ok resp, on_event tag ok resp ⊨ on_self (drains proj)) -> stable (closed proj).
Proof.
  intros Hd. split_and!; [|done|by intros w w' [Hs _ _ _ _]; unfold closed; rewrite Hs].
  intros w w' tag ok resp _ Hc E. specialize (Hd tag ok resp w).
  rewrite E in Hd. by apply Hd.
Qed.
Lemma quiet_stable proj :
  (forall tag ok resp, on_event tag ok resp ⊨ on_self (drains proj)) -> stable (quiet proj).
Proof.
  intros Hd. split_and!; [|done|by intros w w' [Hs _ _ _ _]; unfold quiet; rewrite Hs].
  intros w w' tag ok resp _ [Hc Hp] E. specialize (Hd tag ok resp w).
  rewrite E in Hd. destruct (Hd Hc) as [Hc' Hp']. split; [done|]. cbn in *. lia.
Qed.

End threads.

(** A weaker base. *)
Lemma ptriple_base {S K A} `{!Client S K} {Rely : rely} (B B' P : world S K -> Prop) (m : Prelude.P (world S K) A) Q E :
  ptriple B P m Q E -> (forall w, B w -> B' w) -> ptriple B' P m Q E.
Proof.
  intros Hm HB w Hw. specialize (Hm w Hw). induction (m w) as [w' r|w' until k IH]; [done|]. cbn in *.
  destruct Hm as (I & H1 & H2 & H3 & H4). exists I. split_and!; auto.
Qed.

(** An object without callbacks in the queue: events leave it alone, whatever it is. *)
Definition absent {S K} : world S K -> Prop := inv (fun _ _ => False) (fun _ => True).
Lemma absent_event {S K} `{!Client S K} tag ok resp (w : world S K) :
  absent w -> absent (on_event tag ok resp w).1 /\ (on_event tag ok resp w).2 = Ok tt.
Proof.
  intros Hw. pose proof (on_event_safe (fun _ _ => False) (fun _ => True) (fun _ _ _ _ => False) w tag ok resp) as He.
  destruct (on_event tag ok resp w) as [w' r]. destruct He as [Hw' [->|(_ & k & e & _ & _ & _ & [])]]; [|done|by split].
  intros k w0 (_ & _ & _ & []).
Qed.
Lemma absent_stable {S K} `{!Client S K} {Rely : rely} : stable (@absent S K).
Proof.
  split_and!; [|by intros w t _ ([(? & ? & ?) ?] & ? & ?)|intros w w'; apply inv_interferes].
  intros w w' tag ok resp _ Hw E. pose proof (absent_event tag ok resp w Hw) as [Hw' _]. by rewrite E in Hw'.
Qed.

(** [block_until_all_done] on a counter of the client. *)
Lemma block_on_quiet {S K} `{!Client S K} {Rely : rely} (proj : S -> OpCounter.async_op_counter) upd
    (I : world S K -> Prop) E :
  stable I -> stable (closed proj) -> (forall t s, proj (upd t s) = t) ->
  (forall t w, I w -> proj (self w) = t -> I (with_self (upd (OpCounter.shutdown t)) w)) ->
  ptriple (fun _ => True) I
    (lift (zoom proj upd OpCounter.enter_block);;
     block_until (fun w => OpCounter.all_done (proj (self w))))
    (fun _ w => I w /\ quiet proj w) E.
Proof.
  intros HI Hc Hp Henter. eapply (ptriple_bind _ _ (fun _ w => I w /\ closed proj w)).
  - apply ptriple_lift. intros w Hw. cbn. split; [by apply Henter|]. unfold closed. cbn. by rewrite Hp.
  - intros _. apply ptriple_block; [by apply stable_and|done|].
    intros w [Hw Hcl] Hd. split; [done|]. split; [done|]. unfold OpCounter.all_done in Hd. lia.
Qed.

Create HintDb safe.
#[export] Hint Resolve async_rpc_keeps async_write_keeps async_read_keeps start_future_keeps
  call_grpc_keeps gets_self_keeps start_op_keeps : safe.

(** One step of a proof that code keeps an invariant. *)
Ltac safe_step :=
  cbv beta;
  lazymatch goal with
  | |- triple _ (mret _) _ _ => apply triple_ret; done
  | |- triple _ (mbind _ (when ?b _)) _ _ => destruct b; [rewrite when_true | rewrite when_false]
  | |- triple _ (mbind _ (mbind _ _)) _ _ => apply triple_assoc
  | |- triple _ (mbind _ (mret _)) _ _ => apply triple_ret_bind
  | |- triple _ (mbind _ _) _ _ =>
      eapply triple_bind_nothrow; [solve [eauto with safe] | intros ?]
  | |- triple _ (when _ _) _ _ => apply triple_when; [intros ?|done]
  | |- triple _ (if negb ?b then _ else _) _ _ => destruct b; cbn [negb]
  | |- triple _ (if ?b then _ else _) _ _ => destruct b
  | |- triple _ _ _ _ => apply triple_any_throw; solve [eauto with safe]
  end.
