(* ===== verification/Interleave.v ===== *)
(** * Objects that share a queue, in any order of events

    [Compose] follows a thread of a part while the queue is quiet for the others. Here the events of the others come in
    between: for the part they are interference ([Safety.interferes]), and what is proved of the part with
    stable invariants holds in the whole. *)

From S2P Require Import Prelude Runtime Etcd OpCounter CompletionQueue Balance Threads Safety Compose.
Open Scope Z_scope.
Open Scope gh_scope.

(** ** Code that keeps the futures sound and is passive *)

Section keeps_sound.
Context {S K : Type}.
#[local] Abbreviation W := (world S K).

Definition keeps_sound (w w' : W) : Prop :=
  (sound (queue w) -> sound (queue w')) /\ passive w w'.
#[export] Instance keeps_sound_preorder : PreOrder keeps_sound.
Proof. split; [by intros w|]. intros w1 w2 w3 [H1 ?] [H2 ?]. split; [auto|by etrans]. Qed.

#[local] Abbreviation always := (inv (fun (_ : S) (_ : K) => True) (fun _ => True)).
Lemma sound_always w : sound (queue w) -> always w.
Proof. intros Hs. by split_and!. Qed.
Lemma keeps_sound_triple {A} (m : M W A) : keeps always m -> m ⊨ passive -> m ⊨ keeps_sound.
Proof.
  intros Hm Hc w. specialize (Hc w). split; [|exact Hc]. intros Hs. specialize (Hm w (sound_always w Hs)).
  destruct (m w) as [w' [a|e|s]]; [apply Hm|done..].
Qed.
Lemma keeps_sound_queue {A} (m : M W A) : (forall w, queue (m w).1 = queue w) -> m ⊨ keeps_sound.
Proof. intros Hm w. specialize (Hm w). destruct (m w). cbn in *. split; [by rewrite Hm|]. by apply passive_same; rewrite Hm. Qed.

Lemma modify_self_sound f : modify_self f ⊨ keeps_sound.
Proof. by apply keeps_sound_queue. Qed.
Lemma gets_self_sound {A} (f : S -> A) : gets_self f ⊨ keeps_sound.
Proof. by apply keeps_sound_queue. Qed.
Lemma gets_queue_sound {A} (f : completion_queue K -> A) : gets_queue f ⊨ keeps_sound.
Proof. by apply keeps_sound_queue. Qed.
Lemma zoom_sound {T A} (proj : S -> T) upd (m : M T A) : zoom proj upd m ⊨ keeps_sound.
Proof. apply keeps_sound_queue. intros w. unfold zoom. by destruct (m _). Qed.

Lemma start_op_passive location name c r : start_op location name c r ⊨ (@passive S K).
Proof.
  intros w. unfold start_op, create_op, allocate_op, register_op, call_grpc, gets_queue, modify_queue. munfold.
  unfold assert_throw_impl. by destruct (pending_ops (queue w) !! next_op (queue w)); munfold; apply passive_same.
Qed.
Lemma make_promise_passive : make_promise ⊨ (@passive S K).
Proof.
  intros w. rewrite make_promise_eq. split; [done|]. intros p c r. cbn. rewrite lookup_insert_Some. intros [[_ <-]|[_ Hc]]; [done|by eauto].
Qed.
Lemma get_future_passive p : on_promise p promise_get_future ⊨ (@passive S K).
Proof.
  intros w. unfold on_promise. destruct (promises (queue w) !! p) as [c|] eqn:Hp; [|reflexivity].
  assert (Hr : result (promise_get_future c).1 = result c) by (unfold promise_get_future; by destruct (retrieved c)).
  destruct (promise_get_future c) as [c' x]. split; [done|]. intros p0 c0 r. cbn in *.
  rewrite lookup_insert_Some. intros [[<- <-]|[_ Hc]] Hres; [exists c; split; [done|congruence]|by eauto].
Qed.
#[local] Hint Resolve start_op_passive get_future_passive make_promise_passive : gh.
Lemma start_future_passive location name a r : start_future location name a r ⊨ (@passive S K).
Proof. unfold start_future. respects_solve. Qed.

Lemma call_grpc_sound l : call_grpc l ⊨ keeps_sound.
Proof. apply keeps_sound_triple; [apply call_grpc_keeps|]. intros w. by apply passive_same. Qed.
Lemma start_op_sound location name k r : start_op location name (functor k) r ⊨ keeps_sound.
Proof. apply keeps_sound_triple; [by apply start_op_keeps|apply start_op_passive]. Qed.
Lemma start_future_sound location name a r : start_future location name a r ⊨ keeps_sound.
Proof. apply keeps_sound_triple; [apply start_future_keeps|apply start_future_passive]. Qed.
Lemma future_get_sound p : P_respects keeps_sound (future_get p).
Proof.
  unfold future_get. P_respects_solve. apply keeps_sound_queue. intros w.
  destruct (promises (queue w) !! p) as [c|]; [by destruct (result c)|done].
Qed.

#[local] Hint Resolve call_grpc_sound start_op_sound : gh.
Lemma async_rpc_sound r name k : async_rpc r name k ⊨ keeps_sound.
Proof. unfold async_rpc. respects_solve. Qed.
Lemma async_write_sound r name k : async_write r name k ⊨ keeps_sound.
Proof. unfold async_write. respects_solve. Qed.
Lemma async_read_sound name k : async_read name k ⊨ keeps_sound.
Proof. unfold async_read. respects_solve. Qed.
Lemma make_deadline_timer_sound d name k : make_deadline_timer d name k ⊨ keeps_sound.
Proof. unfold make_deadline_timer. respects_solve. Qed.
Lemma cancel_timer_sound tag : cancel_timer tag ⊨ keeps_sound.
Proof. apply call_grpc_sound. Qed.
Lemma try_cancel_on_sound : try_cancel_on ⊨ keeps_sound.
Proof. apply call_grpc_sound. Qed.
End keeps_sound.
#[export] Hint Resolve modify_self_sound gets_self_sound gets_queue_sound zoom_sound call_grpc_sound start_op_sound
  start_future_sound future_get_sound async_rpc_sound async_write_sound async_read_sound make_deadline_timer_sound
  cancel_timer_sound try_cancel_on_sound : gh.

(** ** The two parts of a whole *)

Class Disjoint {S1 K1 S2 K2 S' K'} (P1 : Part S1 K1 S' K') (P2 : Part S2 K2 S' K') := {
  get_put_other s s' : get_part (Part:=P2) (put_part (Part:=P1) s s') = get_part (Part:=P2) s';
  sel_inj_other k : sel (Part:=P1) (inj (Part:=P2) k) = None;
  sel_other k' : sel (Part:=P1) k' = None -> is_Some (sel (Part:=P2) k')
}.
#[export] Instance left_right S1 K1 S2 K2 : Disjoint (left_part S1 K1 S2 K2) (right_part S1 K1 S2 K2).
Proof. split; [done..|]. by intros [k|k]; [|exists k]. Qed.
#[export] Instance right_left S1 K1 S2 K2 : Disjoint (right_part S1 K1 S2 K2) (left_part S1 K1 S2 K2).
Proof. split; [done..|]. by intros [k|k]; [exists k|]. Qed.

Section view.
Context {S K S' K' : Type} {P : Part S K S' K'}.
Implicit Types q : completion_queue K'.

Lemma view_functor q tag name k rq :
  pending_ops (view_queue q) !! tag = Some (AsyncOp name (functor k) rq) <->
  pending_ops q !! tag = Some (AsyncOp name (functor (inj k)) rq).
Proof.
  cbn. rewrite lookup_omap. destruct (pending_ops q !! tag) as [op'|]; cbn; [|done]. split.
  - intros Hs. by rewrite <- (inj_sel_op op' _ Hs).
  - intros [= ->]. apply (sel_inj_op (AsyncOp name (functor k) rq)).
Qed.
Lemma view_future q tag name p a rq :
  pending_ops (view_queue q) !! tag = Some (AsyncOp name (set_future p a) rq) <->
  pending_ops q !! tag = Some (AsyncOp name (set_future p a) rq).
Proof.
  cbn. rewrite lookup_omap. destruct (pending_ops q !! tag) as [op'|]; cbn; [|done]. split.
  - intros Hs. by rewrite <- (inj_sel_op op' _ Hs).
  - by intros [= ->].
Qed.

(** The futures are everybody's. *)
Lemma futures_ok_view q : futures_ok (view_queue q) <-> futures_ok q.
Proof.
  assert (Hf : forall op p a, op_callback op = set_future p a -> exists name rq, op = AsyncOp (K:=K) name (set_future p a) rq)
    by (intros [name c rq] p a Hc; cbn in Hc; subst c; eauto).
  assert (Hf' : forall op p a, op_callback op = set_future p a -> exists name rq, op = AsyncOp (K:=K') name (set_future p a) rq)
    by (intros [name c rq] p a Hc; cbn in Hc; subst c; eauto).
  split; intros (H1 & H2 & H3); (split_and!; [| |exact H3]).
  - intros tag op p a Hop Hc. destruct (Hf' op p a Hc) as (name & rq & ->). apply view_future in Hop. by eapply H1.
  - intros tag tag' op op' p a a' Hop Hop' Hc Hc'.
    destruct (Hf' op p a Hc) as (n & rq & ->). destruct (Hf' op' p a' Hc') as (n' & rq' & ->).
    apply view_future in Hop, Hop'. by eapply H2.
  - intros tag op p a Hop Hc. destruct (Hf op p a Hc) as (name & rq & ->). apply view_future in Hop. by eapply H1.
  - intros tag tag' op op' p a a' Hop Hop' Hc Hc'.
    destruct (Hf op p a Hc) as (n & rq & ->). destruct (Hf op' p a' Hc') as (n' & rq' & ->).
    apply view_future in Hop, Hop'. by eapply H2.
Qed.
Lemma wf_view_queue q : wf q -> wf (view_queue q).
Proof.
  intros (Hn & Ho & Hp). split_and!; cbn; [done| |done]. intros tag op. rewrite lookup_omap.
  destruct (pending_ops q !! tag) as [op'|] eqn:E; [|done]. intros _. by eapply Ho.
Qed.
Lemma sound_view q : wf q -> sound (view_queue q) <-> futures_ok q.
Proof.
  intros Hwf. rewrite <- futures_ok_view. split; [by intros []|]. intros Hf. by split; [apply wf_view_queue|].
Qed.

Lemma view_queue_le q q' : wf q -> queue_le q q' -> queue_le (view_queue q) (view_queue q').
Proof.
  intros Hwf Hle _. destruct (Hle Hwf) as (Hwf' & Hn & Hops & Hps & Hsh & Htr).
  split_and!; [by apply wf_view_queue|done| |done..]. intros tag op Ht. cbn. rewrite !lookup_omap.
  destruct (pending_ops q' !! tag) as [op'|] eqn:E; cbn; [|done]. by rewrite (Hops tag op' Ht E).
Qed.
End view.

(** What the code of a part does in the whole is interference for a part that is disjoint from it. *)
Section disjoint.
Context {S1 K1 S2 K2 S' K' : Type} {P1 : Part S1 K1 S' K'} {P2 : Part S2 K2 S' K'} {HD : Disjoint P1 P2}.
#[local] Abbreviation W' := (world S' K').
Implicit Types v : W'.

(** As a relation on the whole. *)
Definition disturbs v v' : Prop :=
  wf (queue v) -> wf (queue v') /\ interferes (view (H:=P2) v) (view (H:=P2) v').
#[export] Instance disturbs_preorder : PreOrder disturbs.
Proof.
  split; [by intros v|]. intros v1 v2 v3 H12 H23 Hwf. destruct (H12 Hwf) as [Hwf2 Hi].
  destruct (H23 Hwf2) as [Hwf3 Hi']. split; [done|]. by etrans.
Qed.

Lemma sel_op_other name k rq : sel_op (H:=P1) (AsyncOp name (functor (inj (Part:=P2) k)) rq) = None.
Proof. unfold sel_op. cbn. by rewrite sel_inj_other. Qed.

Lemma merge_disturbs v w :
  evolves (view (H:=P1) v) w -> keeps_sound (view (H:=P1) v) w -> disturbs v (merge (H:=P1) w v).
Proof.
  intros He Hs Hwf. pose proof (evolves_merge (H:=P1) v w He) as Hm. pose proof (Hm Hwf) as (Hwf' & _).
  split; [done|]. split.
  - apply get_put_other.
  - by apply view_queue_le.
  - intros Hsound. apply (sound_view (P:=P2)) in Hsound; [|done]. apply (sound_view (P:=P2)); [done|].
    apply (sound_view (P:=P1)) in Hsound; [|done]. apply Hs in Hsound as [_ Hf].
    apply (futures_ok_view (P:=P1)). pose proof (view_merge (H:=P1) w v) as Hv. apply (f_equal queue) in Hv.
    change (futures_ok (queue (view (H:=P1) (merge (H:=P1) w v)))). by rewrite Hv.
  - intros tag name k rq. etrans; [apply (view_functor (P:=P2))|]. symmetry. etrans; [apply (view_functor (P:=P2))|].
    pose proof (others_evolves (H:=P1) v w Hwf He) as Ho.
    pose proof (others_lookup (H:=P1) (queue v) tag (AsyncOp name (functor (inj k)) rq)) as H1.
    pose proof (others_lookup (H:=P1) (queue (merge (H:=P1) w v)) tag (AsyncOp name (functor (inj k)) rq)) as H2.
    rewrite Ho in H2. pose proof (sel_op_other name k rq). tauto.
  - apply Hs.
Qed.

Lemma embed_disturbs {A} (m : M (world S1 K1) A) : m ⊨ evolves -> m ⊨ keeps_sound -> embed (H:=P1) m ⊨ disturbs.
Proof.
  intros He Hs v. specialize (He (view v)). specialize (Hs (view v)). unfold embed.
  destruct (m (view v)) as [w r]. by apply merge_disturbs.
Qed.
End disjoint.

(** ** The callbacks of a client keep the futures sound *)

Class Sound (S K : Type) `{Client S K} := invoke_sound k resp ok : invoke (S:=S) (K:=K) k resp ok ⊨ keeps_sound.
Arguments Sound S K {_}.

(** An event that calls a functor. *)
Lemma on_event_sound {S K} `{Sound S K} tag ok resp w :
  (forall op p a, pending_ops (queue w) !! tag = Some op -> op_callback op <> set_future p a) ->
  keeps_sound w (on_event tag ok resp w).1.
Proof.
  intros Hfun. destruct (decide (tag = 0)) as [->|Ht]; [reflexivity|].
  destruct (pending_ops (queue w) !! tag) as [op|] eqn:Hop; [|by rewrite on_event_unknown].
  rewrite (on_event_pending _ _ _ _ op) by done. unfold run_callback.
  destruct (op_callback op) as [k|p a] eqn:Ecb; [|by destruct (Hfun op p a)].
  set (w1 := with_queue _ w). transitivity w1; [|apply invoke_sound].
  split; [apply sound_unregister|by apply passive_same].
Qed.

(** ** Events *)

Section whole.
Context {S1 K1 S2 K2 S' K' : Type} {P1 : Part S1 K1 S' K'} {P2 : Part S2 K2 S' K'} {HD : Disjoint P1 P2}.
Context {C1 : Client S1 K1} {C2 : Client S2 K2} {C' : Client S' K'}.
Context {PC1 : PartClient S1 K1 S' K'} {PC2 : PartClient S2 K2 S' K'} {HS1 : Sound S1 K1}.
Context {Rely : rely}.
#[local] Abbreviation W2 := (world S2 K2).
#[local] Abbreviation W' := (world S' K').
Implicit Types v : W'.
#[local] Abbreviation view2 := (view (H:=P2)).

(** An operation of neither part is a future's. *)
Lemma not_both v tag op : others (H:=P2) (queue v) !! tag = Some op -> others (H:=P1) (queue v) !! tag = None.
Proof.
  intros [Hop Hsel]%others_lookup. apply eq_None_not_Some. intros [op' [Hop' Hsel']%others_lookup].
  rewrite Hop in Hop'. injection Hop' as <-. destruct op as [name [k|p a] rq]; unfold sel_op in *; cbn in *; [|done].
  destruct (sel (Part:=P1) k) eqn:Hk; [done|]. destruct (sel_other (P2:=P2) k Hk) as [k2 Hk2]. by rewrite Hk2 in Hsel.
Qed.

(** An event for a functor of the first part. *)
Lemma foreign_event tag ok resp v op :
  others (H:=P2) (queue v) !! tag = Some op -> disturbs (P2:=P2) v (on_event tag ok resp v).1.
Proof.
  intros Ho2. pose proof (not_both v tag op Ho2) as Ho. rewrite (on_event_embed (H:=P1)) by done. unfold embed.
  pose proof (on_event_evolves tag ok resp (view (H:=P1) v)) as He.
  assert (keeps_sound (view (H:=P1) v) (on_event tag ok resp (view (H:=P1) v)).1) as Hs.
  { apply on_event_sound. intros op1 p a Hop1 Hcb. destruct op1 as [name c rq]. cbn in Hcb. subst c.
    apply view_future in Hop1. apply others_lookup in Ho2 as [Hop Hsel]. rewrite Hop in Hop1. by injection Hop1 as ->. }
  destruct (on_event tag ok resp (view v)) as [w r]. by apply merge_disturbs.
Qed.

(** What is stable in a part is stable in the whole. *)
Definition in_part (I : W2 -> Prop) v : Prop := wf (queue v) /\ I (view2 v).

Lemma view_interferes v v' : wf (queue v) -> interferes v v' -> interferes (view2 v) (view2 v').
Proof.
  intros Hwf [Hself Hev Hsound Hcb Hnow]. split.
  - cbn. by rewrite Hself.
  - by apply view_queue_le.
  - destruct (Hev Hwf) as (Hwf' & _). intros Hs%(sound_view (P:=P2)); [|done]. apply (sound_view (P:=P2)); [done|].
    by apply Hsound.
  - intros tag name k rq. etrans; [apply (view_functor (P:=P2))|]. symmetry. etrans; [apply (view_functor (P:=P2))|].
    symmetry. apply Hcb.
  - done.
Qed.

Lemma stable_in_part I : stable I -> stable (in_part I).
Proof.
  intros (Hev & Ht & Hi). split_and!.
  - intros v v' tag ok resp Ha [Hwf HI] E. pose proof (on_event_evolves tag ok resp v) as Hw. rewrite E in Hw.
    split; [by apply (Hw Hwf)|]. destruct (others (H:=P2) (queue v) !! tag) as [op|] eqn:Ho.
    + pose proof (foreign_event tag ok resp v op Ho Hwf) as [_ Hf]. rewrite E in Hf. by eapply Hi.
    + pose proof (event_through_part (H:=P2) tag ok resp v Hwf Ho) as H. rewrite E in H. destruct H as [H _].
      by eapply Hev.
  - intros v t Ha [Hwf HI]. split; [|by apply (Ht (view2 v))]. destruct Hwf as (? & ? & ?). by split_and!.
  - intros v v' Hvv [Hwf HI]. split; [by eapply wf_interferes|]. eapply Hi; [|exact HI]. by apply view_interferes.
Qed.

(** ** Threads

    A frame rule: what is proved of a thread of a part holds of it in the whole, and so does a property [F] that
    events keep and that the code of the part does not disturb. *)

(** What the code of the second part does. *)
Definition tame (w w' : W2) : Prop := evolves w w' /\ keeps_sound w w'.

Record framed (F : W' -> Prop) : Prop := {
  framed_stable : stable F;
  framed_kept v w : wf (queue v) -> tame (view2 v) w -> F v -> F (merge (H:=P2) w v)
}.
Lemma framed_true : framed (fun _ => True).
Proof. by repeat split. Qed.

Lemma psafe_frame {A} F B (Q : A -> W2 -> Prop) E p v :
  framed F -> prog_respects tame p -> psafe B Q E p -> wf (queue (merge (prog_world p) v)) -> F (merge (prog_world p) v) ->
  psafe (fun v => in_part B v /\ F v) (fun a v => in_part (Q a) v /\ F v) (fun e v => in_part (E e) v /\ F v) (embed_prog (H:=P2) v p).
Proof.
  intros [HF Hkept]. revert v. induction p as [w [a|e|s]|w until k IH]; intros v Hp Hsafe Hwf Hv; cbn in *;
    [by unfold in_part; rewrite view_merge..|done|].
  destruct Hsafe as (I & Hst & HB & HI & Hnext). exists (fun u => in_part I u /\ F u). split_and!.
  - apply stable_and; [by apply stable_in_part|done].
  - intros u [[Hu HIu] HFu]. split; [|done]. split; [done|by apply HB].
  - unfold in_part. by rewrite view_merge.
  - done.
  - intros u [[Hu HIu] HFu] Huntil. destruct (Hp _ Huntil) as [Htame Hk]. apply IH; [done|by apply Hnext|..].
    + destruct Htame as [He _]. by apply (evolves_merge (H:=P2) u _ He).
    + by apply Hkept.
Qed.

Lemma ptriple_frame {A} F B P (m : Prelude.P W2 A) Q E :
  framed F -> P_respects tame m -> ptriple B P m Q E ->
  ptriple (fun v => in_part B v /\ F v) (fun v => in_part P v /\ F v) (embed_P (H:=P2) m)
    (fun a v => in_part (Q a) v /\ F v) (fun e v => in_part (E e) v /\ F v).
Proof.
  intros HF Hm Hp v [[Hwf HP] HFv]. destruct (Hm (view2 v)) as [Htame Hprog]. pose proof Htame as [He _].
  apply psafe_frame; [done..|by apply Hp| |].
  - by apply (evolves_merge (H:=P2) v _ He).
  - by apply HF.
Qed.
End whole.

(** The other part's stable properties are framed. *)
Lemma framed_other {S1 K1 S2 K2 S' K'} {P1 : Part S1 K1 S' K'} {P2 : Part S2 K2 S' K'} {HD : Disjoint P1 P2}
    {HD' : Disjoint P2 P1} {C1 : Client S1 K1} {C2 : Client S2 K2} {C' : Client S' K'}
    {PC1 : PartClient S1 K1 S' K'} {PC2 : PartClient S2 K2 S' K'} {HS2 : Sound S2 K2} {Rely : rely} (I : world S1 K1 -> Prop) :
  stable I -> framed (P2:=P2) (in_part (P2:=P1) I).
Proof.
  intros HI. split; [by apply (stable_in_part (P1:=P2))|]. intros v w Hwf [He Hs] [_ Hv].
  destruct (merge_disturbs (P1:=P2) (P2:=P1) v w He Hs Hwf) as [Hwf' Hi]. split; [done|]. by eapply HI.
Qed.

Lemma P_respects_and {W A} (R1 R2 : W -> W -> Prop) (m : Prelude.P W A) :
  P_respects R1 m -> P_respects R2 m -> P_respects (fun w w' => R1 w w' /\ R2 w w') m.
Proof.
  intros H1 H2 w. destruct (H1 w) as [H1w H1p], (H2 w) as [H2w H2p]. split; [done|]. clear H1 H2 H1w H2w.
  induction (m w) as [w' r|w' until k IH]; [done|]. cbn in *. intros u Hu.
  destruct (H1p u Hu), (H2p u Hu). by split; [|apply IH].
Qed.

(** ** The end of the loop

    When the loop is left by an exception or goes wrong, a callback did it. *)
Lemma sched_stopped {S K A} `{Client S K} es (p : prog (world S K) A) :
  match sched es p with
  | running _ => True
  | terminated e => exists es1 tag ok resp es2 p1, es = es1 ++ ev_completion tag ok resp :: es2 /\
      sched es1 p = running p1 /\ (on_event tag ok resp (prog_world p1)).2 = Throw e
  | undefined_behaviour s => exists es1 tag ok resp es2 p1, es = es1 ++ ev_completion tag ok resp :: es2 /\
      sched es1 p = running p1 /\ (on_event tag ok resp (prog_world p1)).2 = UB s
  end.
Proof.
  revert p. induction es as [|e es IH]; intros p; [done|]. cbn [sched].
  destruct (sched_step e p) as [p'|x|x] eqn:Estep.
  - specialize (IH p').
    destruct (sched es p'); [done|..]; destruct IH as (es1 & tag & ok & resp & es2 & p1 & -> & Hrun & He);
      exists (e :: es1), tag, ok, resp, es2, p1; (split_and!; [done| |done]); cbn [sched]; by rewrite Estep.
  - destruct e as [tag ok resp| |t]; [|done..]. exists [], tag, ok, resp, es, p. split_and!; [done..|]. cbn in Estep.
    destruct (on_event tag ok resp (prog_world p)) as [w [[]|e|s]]; by simplify_eq.
  - destruct e as [tag ok resp| |t]; [|done..]. exists [], tag, ok, resp, es, p. split_and!; [done..|]. cbn in Estep.
    destruct (on_event tag ok resp (prog_world p)) as [w [[]|e|s]]; by simplify_eq.
Qed.
