(* ===== verification/CandidateSafety.v ===== *)
(** * A candidate never runs into undefined behaviour

    Whatever gRPC reports, and in whatever order, the handlers of a candidate and the members an
    application calls do not lock the mutex twice, dereference a null stream, use a
    counter that went away or satisfy a promise twice. *)

From S2P Require Import Prelude Runtime PrefixEnd OpCounter Etcd CompletionQueue Balance Safety.
From S2P Require Import Candidate CandidateFacts.
Open Scope Z_scope.
Open Scope gh_scope.
Import OpCounter Candidate.

Section safety.
Context `{TextFormat} {Rely : rely}.
#[local] Abbreviation W := (world candidate cb).
Implicit Types w : W.

(** What a pending callback needs: the stream it reads from and writes to, or the local counter of
    the [resign] that waits for it. *)
Definition callback_needs (s : candidate) (k : cb) : Prop :=
  match k with
  | cb_watch_cancel _ c => c ∈ dom (cancels s)
  | _ => watcher_stream_ s = true
  end.

(** What a call of [resign] knows of its local counter while the event loop counts it down. *)
Record cancels_fact := CancelsFact {
  fact :> gmap Z async_op_counter -> Prop;
  fact_done m c counter :
    fact m -> m !! c = Some counter -> fact (<[c := async_op_done counter]> m)
}.
Definition anything : cancels_fact := CancelsFact (fun _ => True) (fun _ _ _ _ _ => I).

Lemma alive_done x m c counter :
  x ∈ dom m -> m !! c = Some counter ->
  x ∈ dom (<[c := async_op_done counter]> m : gmap Z async_op_counter).
Proof. set_solver. Qed.
Definition alive (x : Z) : cancels_fact := CancelsFact (fun m => x ∈ dom m) (alive_done x).

Definition is_drained (x : Z) (m : gmap Z async_op_counter) : Prop :=
  exists counter, m !! x = Some counter /\ pending counter <= 0.
Lemma drained_done x m c counter :
  is_drained x m -> m !! c = Some counter -> is_drained x (<[c := async_op_done counter]> m).
Proof.
  intros (counter' & Hc & Hp) Hm. unfold is_drained. destruct (decide (x = c)) as [->|Hne].
  - exists (async_op_done counter). rewrite lookup_insert_eq. split; [done|]. cbn.
    assert (counter = counter') as -> by congruence. lia.
  - exists counter'. by rewrite lookup_insert_ne.
Qed.
Definition drained (x : Z) : cancels_fact := CancelsFact (is_drained x) (drained_done x).

Definition is_open (x : Z) (m : gmap Z async_op_counter) : Prop :=
  exists counter, m !! x = Some counter /\ shutdown_flag counter = false.
Lemma open_done x m c counter :
  is_open x m -> m !! c = Some counter -> is_open x (<[c := async_op_done counter]> m).
Proof.
  intros (counter' & Hc & Hp) Hm. unfold is_open. destruct (decide (x = c)) as [->|Hne].
  - exists (async_op_done counter). rewrite lookup_insert_eq. split; [done|]. cbn.
    by assert (counter = counter') as -> by congruence.
  - exists counter'. by rewrite lookup_insert_ne.
Qed.
Definition still_open (x : Z) : cancels_fact := CancelsFact (is_open x) (open_done x).

(** The mutex is held or not, the stream is there if [st] says so, and [cs] of the counters. *)
Definition holds (b st : bool) (cs : cancels_fact) (s : candidate) : Prop :=
  mu_ s = b /\ (st = true -> watcher_stream_ s = true) /\ cs (cancels s).

Abbreviation cinv b st cs := (inv callback_needs (holds b st cs)).

Ltac by_frame := first [ by intros ? ? (? & ? & ?); split_and!
                       | by intros ? (? & ? & ?); split_and!
                       | by intros ? [] ? ? | by intros ? ? [] ? | by intros [? []]
                       | by intros ? [] | done ].

Lemma cand_lock_holds st cs :
  triple (cinv false st cs) lock (fun _ => cinv true st cs) (fun _ _ => False).
Proof.
  intros w Hw. pose proof Hw as (_ & _ & Hmu & _). unfold lock, gets_self. munfold. rewrite Hmu.
  revert w Hw Hmu. intros w Hw _. apply (modify_self_triple _ (holds false st cs)); [..|done];
    [by intros s (_ & ? & ?)|by intros s []].
Qed.
Lemma cand_unlock_holds st cs :
  triple (cinv true st cs) unlock (fun _ => cinv false st cs) (fun _ _ => False).
Proof. apply modify_self_triple; [by intros s (_ & ? & ?)|by intros s []]. Qed.
Lemma cand_deref_stream_keeps b cs : keeps (cinv b true cs) deref_stream.
Proof.
  intros w Hw. pose proof Hw as (_ & _ & _ & Hst & _). unfold deref_stream, gets_self. munfold.
  by rewrite Hst.
Qed.

Lemma cand_ops_start_keeps b st cs : keeps (cinv b st cs) ops_start.
Proof. apply zoom_keeps; [by_frame|by intros ? ? []|by intros [? []]]. Qed.
Lemma cand_ops_done_keeps b st cs : keeps (cinv b st cs) ops_done.
Proof. apply zoom_keeps; [by_frame|by intros ? ? []|done]. Qed.
Lemma reads_start_keeps b st cs : keeps (cinv b st cs) reads_start.
Proof. apply zoom_keeps; [by_frame|by intros ? ? []|by intros [? []]]. Qed.
Lemma reads_done_keeps b st cs : keeps (cinv b st cs) reads_done.
Proof. apply zoom_keeps; [by_frame|by intros ? ? []|done]. Qed.
Lemma set_watched_keys_keeps b st cs g :
  keeps (cinv b st cs) (modify_self (fun s => set_watched_keys (g s) s)).
Proof. apply modify_self_triple; [by_frame|by intros ? []]. Qed.
Lemma set_current_watches_keeps b st cs g :
  keeps (cinv b st cs) (modify_self (fun s => set_current_watches (g s) s)).
Proof. apply modify_self_triple; [by_frame|by intros ? []]. Qed.
#[local] Hint Resolve cand_ops_start_keeps cand_ops_done_keeps reads_start_keeps reads_done_keeps
  cand_deref_stream_keeps cand_lock_holds cand_unlock_holds set_watched_keys_keeps set_current_watches_keeps : safe.
#[local] Hint Extern 2 (forall s : candidate, holds _ _ _ s -> callback_needs s _) =>
  (intros ? (? & ? & ?); cbn; auto) : safe.

Lemma election_result_keeps b st cs r : keeps (cinv b st cs) (election_result r).
Proof.
  intros w (Hs & Hr & Hi). rewrite election_result_eq. split_and!; [done| |done].
  intros tag op k Hop Hcb. specialize (Hr tag op k Hop Hcb). by destruct k.
Qed.
#[local] Hint Resolve election_result_keeps : safe.

Lemma gets_shutdown_keeps b st cs : keeps (cinv b st cs) (gets_self ops_).
Proof. apply gets_self_keeps. Qed.

Lemma query_predecessor_keeps cs : keeps (cinv false true cs) query_predecessor.
Proof. unfold query_predecessor. repeat safe_step. Qed.
Lemma watch_keys_keeps cs r kvs : keeps (cinv false true cs) (watch_keys r kvs).
Proof. induction kvs as [|kv kvs IH]; cbn [watch_keys]; repeat safe_step. Qed.
#[local] Hint Resolve query_predecessor_keeps watch_keys_keeps : safe.
Lemma check_election_over_maybe_keeps st cs : keeps (cinv false st cs) check_election_over_maybe.
Proof. unfold check_election_over_maybe. repeat safe_step. Qed.
#[local] Hint Resolve check_election_over_maybe_keeps : safe.

(** The only exception that leaves a handler: the status of a query. *)
Definition status_error (k : cb) (resp : response) (ok : bool) (e : exn) : Prop :=
  k = cb_range_request /\ ok = true /\ status_ok (r_status resp) = false /\
  exists location a, e = make_exception (r_status resp) location a.

Lemma on_range_request_safe cs op ok :
  triple (cinv false true cs) (on_range_request op ok) (fun _ => cinv false true cs)
    (fun e w => cinv false true cs w /\ status_error cb_range_request op ok e).
Proof.
  unfold on_range_request. destruct ok; cbn [negb]; [|repeat safe_step].
  do 2 safe_step. apply (triple_bind _ (fun _ => cinv false true cs)); [|intros ?; repeat safe_step].
  unfold check_grpc_status. destruct (status_ok (r_status op)) eqn:Hs; [safe_step|].
  apply triple_throw. intros w Hw. split; [done|]. split_and!; [done..|]. by eexists _, _.
Qed.

Lemma cand_invoke_cb_safe st cs k op ok :
  triple (inv callback_needs (fun s => holds false st cs s /\ callback_needs s k))
    (invoke_cb k op ok) (fun _ => cinv false st cs)
    (fun e w => cinv false st cs w /\ status_error k op ok e).
Proof.
  assert (Hweak : forall w, cinv false true cs w -> cinv false st cs w).
  { intros w. apply inv_weaken. intros s (? & ? & ?). split_and!; auto. }
  assert (Hstrong : k = cb_range_request \/ (exists a b, k = cb_watch_create a b) \/
      (exists a b, k = cb_watch_read a b) ->
    forall w, inv callback_needs (fun s => holds false st cs s /\ callback_needs s k) w ->
      cinv false true cs w).
  { intros Hk w. apply inv_weaken. intros s [(? & ? & ?) Hn]. split_and!; auto.
    intros _. destruct Hk as [->|[(? & ? & ->)|(? & ? & ->)]]; exact Hn. }
  assert (Hreader : forall m : M W unit,
    (k = cb_range_request \/ (exists a b, k = cb_watch_create a b) \/
      (exists a b, k = cb_watch_read a b)) -> keeps (cinv false true cs) m ->
    triple (inv callback_needs (fun s => holds false st cs s /\ callback_needs s k)) m
      (fun _ => cinv false st cs) (fun e w => cinv false st cs w /\ status_error k op ok e)).
  { intros m Hk Hm. eapply triple_conseq; [exact Hm|by apply Hstrong|intros ? ?; apply Hweak|].
    by intros ? ? []. }
  destruct k as [|key rev|watch c|key rev]; cbn [invoke_cb].
  - eapply triple_conseq; [apply (on_range_request_safe cs)|apply Hstrong; auto|auto|].
    intros e w [? ?]. auto.
  - apply Hreader; [naive_solver|].
    unfold on_watch_create. repeat safe_step.
  - intros w (Hs & Hr & (Hmu & Hst & Hcs) & Hn). unfold on_watch_cancel, gets_self. munfold.
    apply elem_of_dom in Hn as [counter Hc]. rewrite Hc. unfold modify_self. munfold.
    split_and!; [done| |split_and!; [done..|by apply fact_done]].
    intros tag op' k' Hop Hcb. specialize (Hr tag op' k' Hop Hcb). destruct k'; try done.
    cbn in *. set_solver.
  - apply Hreader; [naive_solver|].
    unfold on_watch_read. repeat safe_step.
Qed.

Lemma cinv_event st cs w tag ok resp :
  cinv false st cs w ->
  let '(w', r) := on_event tag ok resp w in
  cinv false st cs w' /\
  (r = Ok tt \/ exists op k e, pending_ops (queue w) !! tag = Some op /\
     op_callback op = functor k /\ r = Throw e /\ status_error k resp ok e).
Proof. apply (on_event_safe callback_needs (holds false st cs)). intros k. apply cand_invoke_cb_safe. Qed.

Lemma cinv_stable st cs : stable (cinv false st cs).
Proof.
  split_and!; [| |intros w w'; apply inv_interferes].
  - intros w w' tag ok resp _ Hw E. pose proof (cinv_event st cs w tag ok resp Hw) as He.
    rewrite E in He. apply He.
  - intros w t _ ([(? & ? & ?) ?] & ? & ?). by split_and!.
Qed.

(** ** The counters of cancellations *)

Definition cancel_counter (c : Z) (s : candidate) : async_op_counter :=
  default new_counter (cancels s !! c).
Definition cancel_kind (c : Z) (k : callback cb) : bool :=
  match k with functor (cb_watch_cancel _ c') => c =? c' | _ => false end.
Abbreviation balance_cancels c := (balance (cancel_counter c) (cancel_kind c)).

(** Code that changes neither the queue nor these counters. *)
Ltac same_cancels := intros; apply same_balance_shifts; unfold ops_start, ops_done, reads_start,
  reads_done, lock, unlock, deref_stream, check_grpc_status; respects_solve.

Section cancels.
Context (c : Z).
#[local] Abbreviation unmoved m := (shifts (balance_cancels c) (by_ 0) m).

Lemma ops_start_cancels : unmoved ops_start.
Proof. same_cancels. Qed.
Lemma ops_done_cancels : unmoved ops_done.
Proof. same_cancels. Qed.
Lemma reads_start_cancels : unmoved reads_start.
Proof. same_cancels. Qed.
Lemma reads_done_cancels : unmoved reads_done.
Proof. same_cancels. Qed.
Lemma lock_cancels : unmoved lock.
Proof. same_cancels. Qed.
Lemma unlock_cancels : unmoved unlock.
Proof. same_cancels. Qed.
Lemma deref_stream_cancels : unmoved deref_stream.
Proof. same_cancels. Qed.
Lemma check_grpc_status_cancels s l a : unmoved (check_grpc_status s l a).
Proof. same_cancels. Qed.
Lemma gets_self_cancels {A} (g : candidate -> A) : unmoved (gets_self g).
Proof. same_cancels. Qed.
Lemma modify_self_cancels (g : candidate -> candidate) :
  (forall s, cancels (g s) = cancels s) -> unmoved (modify_self g).
Proof.
  intros Hg. apply same_balance_shifts, same_balance_modify_self. intros s. unfold cancel_counter.
  by rewrite Hg.
Qed.
Lemma election_result_cancels b : unmoved (election_result b).
Proof. apply same_balance_shifts. by apply election_result_same. Qed.
Lemma check_election_over_maybe_cancels : unmoved check_election_over_maybe.
Proof. apply same_balance_shifts. by apply check_election_over_maybe_same. Qed.
#[local] Hint Resolve ops_start_cancels ops_done_cancels reads_start_cancels reads_done_cancels
  lock_cancels unlock_cancels deref_stream_cancels check_grpc_status_cancels gets_self_cancels modify_self_cancels
  election_result_cancels check_election_over_maybe_cancels : shifts.

Lemma query_predecessor_cancels : unmoved query_predecessor.
Proof.
  apply (query_predecessor_shifts _ _ 0); [done..| |done].
  intros w Hwf Hs. unfold balance, after_query. cbn. rewrite count_ops_with_op by done. unfold cancel_counter. cbn. lia.
Qed.
#[local] Hint Resolve query_predecessor_cancels : shifts.

Lemma watch_keys_cancels r kvs : unmoved (watch_keys r kvs).
Proof. induction kvs as [|kv kvs IH]; cbn [watch_keys]; repeat shifts_step. Qed.
#[local] Hint Resolve watch_keys_cancels : shifts.

Lemma on_watch_cancel_cancels op ok watched c' :
  shifts (balance_cancels c) (by_ (- Z.b2z (c =? c'))) (on_watch_cancel op ok watched c').
Proof.
  intros w w' r Hwf E Hub. unfold on_watch_cancel, gets_self, modify_self in E. munfold.
  destruct (cancels (self w) !! c') as [counter|] eqn:Hc;
    injection E as <- <-; [|by destruct (Hub "dangling async_op_counter"%string)].
  split; [done|]. unfold balance, cancel_counter, by_. cbn.
  destruct (Z.eqb_spec c c') as [->|Hne].
  - rewrite lookup_insert_eq, Hc. cbn. lia.
  - rewrite lookup_insert_ne by done. cbn. lia.
Qed.

Lemma invoke_cb_cancels k resp ok :
  shifts (balance_cancels c) (by_ (- Z.b2z (cancel_kind c (functor k)))) (invoke_cb k resp ok).
Proof.
  destruct k; cbn [invoke_cb cancel_kind]; [| |apply on_watch_cancel_cancels|];
    unfold on_range_request, on_watch_create, on_watch_read;
    destruct ok; cbn [negb]; repeat shifts_step.
Qed.
End cancels.

(** ** The members the application calls *)

(** Each counter of cancellations counts the cancel requests in the queue. *)
Definition cancels_counted w : Prop := forall c, balance_cancels c w = 0.

Definition cand_ok (b st : bool) (cs : cancels_fact) w : Prop := cinv b st cs w /\ cancels_counted w.

(** Under the base invariant nothing goes wrong; the members go from one such invariant to another. *)
Definition base : W -> Prop := cand_ok false false anything.
Abbreviation steps cs P m Q := (ptriple base P m (fun _ => Q) (fun _ => cand_ok false false cs)).

Lemma cand_ok_base st cs w : cand_ok false st cs w -> base w.
Proof.
  intros [Hw ?]. split; [|done]. revert w Hw H0. intros w Hw _. revert Hw. apply inv_weaken.
  intros s (? & ? & ?). by split_and!.
Qed.

Lemma cand_ok_forget st cs w : cand_ok false st cs w -> cand_ok false false cs w.
Proof.
  intros [Hw Hb]. split; [|done]. eapply inv_weaken, Hw. intros s (? & ? & ?). by split_and!.
Qed.

(** An event under the invariant: the only exception is the status error of a query. *)
Lemma cand_ok_event st cs w tag ok resp :
  cand_ok false st cs w ->
  let '(w', r) := on_event tag ok resp w in
  cand_ok false st cs w' /\
  (r = Ok tt \/ exists op k e, pending_ops (queue w) !! tag = Some op /\
     op_callback op = functor k /\ r = Throw e /\ status_error k resp ok e).
Proof.
  intros [Hw Hb]. pose proof (cinv_event st cs w tag ok resp Hw) as He.
  destruct (on_event tag ok resp w) as [w' r] eqn:E. destruct He as [Hw' Hr].
  split; [split|]; [done| |done]. intros c. rewrite <- (Hb c).
  destruct (pending_ops (queue w) !! tag) as [op|] eqn:Hop.
  2:{ rewrite on_event_unknown in E by done. by injection E as <- _. }
  assert (tag <> 0) as Ht by (destruct Hw as [[(_ & Hp & _) _] _]; apply Hp in Hop; lia).
  destruct (on_event_shift (cancel_counter c) (cancel_kind c) tag ok resp w w' op r 0)
    as [_ Heq]; [apply Hw|done..| | |lia].
  - intros s ->. destruct Hr as [?|(? & ? & ? & ? & ? & ? & ?)]; done.
  - unfold run_callback. destruct (op_callback op) as [k|p a].
    + apply invoke_cb_cancels.
    + apply on_promise_shifts.
Qed.

(** An event of a candidate: the one exception is that of a query with an error status. *)
Lemma cand_event_outcome st cs w tag ok resp :
  cand_ok false st cs w ->
  match on_event tag ok resp w with
  | (_, Ok _) => True
  | (_, Throw e) => exists s location a, status_ok s = false /\ e = make_exception s location a
  | (_, UB _) => False
  end.
Proof.
  intros Hw. pose proof (cand_ok_event st cs w tag ok resp Hw) as He.
  destruct (on_event tag ok resp w) as [w1 [[]|e|y]]; [done|..];
    destruct He as (_ & [?|(? & ? & ? & _ & _ & ? & (_ & _ & ? & ? & ? & ?))]); try done.
  simplify_eq. eauto.
Qed.

Lemma cand_ok_stable st cs : stable (cand_ok false st cs).
Proof.
  split_and!; [| |intros w w' Hi [Hw Hb]; split; [by eapply inv_interferes|]; intros c; by rewrite (balance_interferes _ _ w)].
  - intros w w' tag ok resp _ Hw E. pose proof (cand_ok_event st cs w tag ok resp Hw) as He.
    rewrite E in He. apply He.
  - intros w t _ [([(? & ? & ?) ?] & ? & ?) Hb]. split; [by split_and!|]. exact Hb.
Qed.
#[local] Hint Resolve cand_ok_base cand_ok_stable : safe.

Lemma lift_steps {A} b st cs b' st' cs' (m : M W A) :
  triple (cinv b st cs) m (fun _ => cinv b' st' cs') (fun _ _ => False) ->
  (forall c, shifts (balance_cancels c) (by_ 0) m) ->
  steps cs (cand_ok b st cs) (lift m) (cand_ok b' st' cs').
Proof.
  intros Hm Hs cs0. apply ptriple_lift. apply triple_any_throw. intros w [Hw Hb].
  specialize (Hm w Hw). destruct (m w) as [w' [a|e|s]] eqn:E; [|done..]. split; [done|].
  intros c. destruct (Hs c w w' (Ok a)) as [_ ->]; [apply Hw|done..|]. rewrite (Hb c). done.
Qed.

Lemma steps_bind {A C} cs P R (m : Prelude.P W A) (k : A -> Prelude.P W C) Q :
  steps cs P m R -> (forall a, steps cs R (k a) Q) -> steps cs P (m ≫= k) Q.
Proof. apply ptriple_bind. Qed.

Lemma start_future_steps st cs location name a r :
  ptriple base (cand_ok false st cs) (lift (start_future location name a r))
    (fun p w => cand_ok false st cs w /\ live p w) (fun _ => cand_ok false false cs).
Proof.
  apply ptriple_lift, triple_any_throw. intros w [Hw Hb].
  pose proof (start_future_live callback_needs (holds false st cs) location name a r w Hw) as Hl.
  destruct (start_future location name a r w) as [w' [p|e|s]] eqn:E; [|done..].
  destruct Hl as [Hw' Hl]. split; [split|]; [done| |done]. intros c.
  destruct (start_future_shifts (cancel_counter c) (cancel_kind c) location name a r)
    with w w' (Ok p) as [_ ->]; [done|apply Hw|done..|]. by rewrite (Hb c).
Qed.

Lemma future_get_steps st cs p :
  ptriple base (fun w => cand_ok false st cs w /\ live p w) (future_get p)
    (fun _ => cand_ok false st cs) (fun _ => cand_ok false false cs).
Proof.
  eapply ptriple_conseq.
  - apply (future_get_safe base (cand_ok false st cs) p (cand_ok_stable st cs) (cand_ok_base st cs)).
    intros w c x [[[_ (_ & _ & Hub)] _] _] Hc Hr s ->. by eapply Hub.
  - auto.
  - auto.
  - intros ? w. apply cand_ok_forget.
Qed.

(** Start an operation, wait for its result and go on. *)
Lemma await_steps {C} st cs location name a r (k : response -> Prelude.P W C) Q :
  (forall resp, steps cs (cand_ok false st cs) (k resp) Q) ->
  steps cs (cand_ok false st cs)
    (fut ← lift (start_future location name a r); resp ← future_get fut; k resp) Q.
Proof.
  intros Hk. eapply ptriple_bind; [apply start_future_steps|]. intros p.
  eapply ptriple_bind; [apply future_get_steps|]. exact Hk.
Qed.

Lemma ops_done_ok st cs :
  triple (cand_ok false st cs) ops_done (fun _ => cand_ok false st cs) (fun _ _ => False).
Proof.
  intros w [Hw Hb]. pose proof (cand_ops_done_keeps false st cs w Hw) as Hk.
  destruct (ops_done w) as [w' [[]|e|s]] eqn:E; [|done..]. split; [done|]. intros c.
  destruct (ops_done_cancels c w w' (Ok tt)) as [_ ->]; [apply Hw|done..|]. by rewrite (Hb c).
Qed.

Lemma with_tracer_steps {A} st cs st' (m : Prelude.P W A) :
  steps cs (cand_ok false st cs) m (cand_ok false st' cs) ->
  steps cs (cand_ok false st cs) (with_tracer m) (cand_ok false st' cs).
Proof.
  intros Hm. eapply steps_bind.
  - apply lift_steps; [apply cand_ops_start_keeps|]. intros c. apply ops_start_cancels.
  - intros _. eapply ptriple_destructor; [apply Hm|..]; intros ?;
      apply triple_any_throw, ops_done_ok.
Qed.

Lemma block_on_steps st cs proj upd :
  (forall s t, holds false st cs s -> holds false st cs (upd t s)) ->
  (forall s t k, callback_needs s k -> callback_needs (upd t s) k) ->
  (forall s t, cancels (upd t s) = cancels s) ->
  steps cs (cand_ok false st cs) (block_on proj upd) (cand_ok false st cs).
Proof.
  intros H1 H2 H3. eapply steps_bind.
  - apply (lift_steps _ _ _ false st cs).
    + apply zoom_keeps; [done|by auto|done].
    + intros c. apply same_balance_shifts, same_balance_zoom. intros t s. unfold cancel_counter.
      by rewrite H3.
  - intros _. apply ptriple_block; [apply cand_ok_stable|apply cand_ok_base|done].
Qed.

Lemma block_on_ops_steps st cs :
  steps cs (cand_ok false st cs) (block_on ops_ set_ops) (cand_ok false st cs).
Proof. by apply block_on_steps; [..|done]; [|intros ? ? []]. Qed.
Lemma block_on_reads_steps st cs :
  steps cs (cand_ok false st cs) (block_on reads_ set_reads) (cand_ok false st cs).
Proof. by apply block_on_steps; [..|done]; [|intros ? ? []]. Qed.

Lemma gets_steps {A} st cs (g : candidate -> A) :
  steps cs (cand_ok false st cs) (lift (gets_self g)) (cand_ok false st cs).
Proof. apply lift_steps; [apply gets_self_keeps|]. intros c. apply gets_self_cancels. Qed.
Lemma throw_steps {A} st cs e :
  steps cs (cand_ok false st cs) (P_throw e : Prelude.P W A) (cand_ok false st cs).
Proof. apply ptriple_throw, cand_ok_forget. Qed.
Lemma ret_steps {A} st cs (a : A) :
  steps cs (cand_ok false st cs) (mret a : Prelude.P W A) (cand_ok false st cs).
Proof. by apply ptriple_ret. Qed.
Lemma query_steps cs : steps cs (cand_ok false true cs) (lift query_predecessor) (cand_ok false true cs).
Proof. apply lift_steps; [apply query_predecessor_keeps|apply query_predecessor_cancels]. Qed.

Create HintDb steps.
#[local] Hint Resolve gets_steps throw_steps ret_steps query_steps block_on_ops_steps
  block_on_reads_steps await_steps with_tracer_steps : steps.
Ltac steps_step :=
  cbv beta zeta;
  lazymatch goal with
  | |- ptriple _ _ (if ?b then _ else _) _ _ => destruct b
  | |- ptriple _ _ (match ?x with _ => _ end) _ _ => destruct x
  | |- ptriple _ _ (mbind _ _) _ _ => eapply steps_bind; [solve [eauto with steps] | intros ?]
  | |- _ => solve [eauto with steps]
  end.

Lemma assert_steps st cs b s1 s2 s3 n :
  steps cs (cand_ok false st cs) (lift (GH_ASSERT_THROW b s1 s2 s3 n)) (cand_ok false st cs).
Proof.
  destruct b; [apply ret_steps|]. apply ptriple_lift, triple_throw, cand_ok_forget.
Qed.
Lemma modify_steps st cs st' (g : candidate -> candidate) :
  (forall s, holds false st cs s -> holds false st' cs (g s)) ->
  (forall s, cancels (g s) = cancels s) ->
  (forall s, watcher_stream_ s = true -> watcher_stream_ (g s) = true) ->
  steps cs (cand_ok false st cs) (lift (modify_self g)) (cand_ok false st' cs).
Proof.
  intros Hh Hc Hst. apply lift_steps; [apply modify_self_triple; [done|]|].
  - intros s k _. destruct k; cbn; rewrite ?Hc; auto.
  - intros c. by apply modify_self_cancels.
Qed.

Lemma commit_steps st cs r name : steps cs (cand_ok false st cs) (commit r name) (cand_ok false st cs).
Proof. apply with_tracer_steps, await_steps. intros resp. apply ret_steps. Qed.
#[local] Hint Resolve assert_steps commit_steps : steps.

Lemma create_watch_stream_steps cs :
  steps cs (cand_ok false false cs) create_watch_stream (cand_ok false true cs).
Proof.
  apply with_tracer_steps, await_steps. intros resp. apply modify_steps; [|done..].
  intros s (? & _ & ?). by split_and!.
Qed.

Lemma publish_value_steps st cs v op :
  steps cs (cand_ok false st cs) (publish_value v op) (cand_ok false st cs).
Proof. unfold publish_value. repeat steps_step. Qed.
#[local] Hint Resolve publish_value_steps : steps.

Lemma set_creation_revision_steps st cs r :
  steps cs (cand_ok false st cs) (lift (modify_self (set_creation_revision r))) (cand_ok false st cs).
Proof. by apply modify_steps. Qed.
Lemma set_candidate_value_steps st cs v :
  steps cs (cand_ok false st cs) (lift (modify_self (set_candidate_value v))) (cand_ok false st cs).
Proof. by apply modify_steps. Qed.
#[local] Hint Resolve set_creation_revision_steps set_candidate_value_steps : steps.

Lemma create_node_steps st cs : steps cs (cand_ok false st cs) create_node (cand_ok false st cs).
Proof. unfold create_node, adopt_node. repeat steps_step. Qed.
#[local] Hint Resolve create_node_steps create_watch_stream_steps : steps.

Lemma cand_ok_weaken st cs w : cand_ok false true cs w -> cand_ok false st cs w.
Proof.
  intros [Hw ?]. split; [|done]. eapply inv_weaken, Hw. intros s (? & ? & ?). by split_and!; auto.
Qed.

Lemma get_future_steps :
  steps anything (cand_ok false false anything) (lift (zoom promise_ set_promise promise_get_future))
    (cand_ok false false anything).
Proof.
  apply ptriple_lift. intros w ((Hs & Hr & Hi) & Hb). unfold zoom, promise_get_future.
  destruct (retrieved _); (split; [split_and!; [done| |done]|done]);
    intros tag op k Hop Hcb; specialize (Hr tag op k Hop Hcb); by destruct k.
Qed.

Lemma campaign_steps : steps anything base campaign base.
Proof.
  unfold campaign, campaign_impl. steps_step. steps_step; [steps_step|].
  eapply steps_bind; [apply get_future_steps|].
  intros _. eapply steps_bind; [apply create_watch_stream_steps|]. intros _.
  eapply steps_bind; [apply create_node_steps|]. intros _.
  eapply ptriple_conseq; [apply query_steps|done|intros ? w; apply cand_ok_weaken|done].
Qed.

Lemma proclaim_steps v : steps anything base (proclaim v) base.
Proof. unfold proclaim, key. repeat steps_step. Qed.

Lemma cleanup_steps : steps anything base cleanup base.
Proof.
  unfold cleanup. steps_step. steps_step; [steps_step|]. steps_step. eapply steps_bind.
  - apply (lift_steps false false anything false false anything).
    + destruct a0; [apply call_grpc_keeps|by apply triple_ret].
    + intros c. destruct a0; [apply call_grpc_shifts|by apply shifts_ret].
  - intros _. repeat steps_step.
Qed.

(** *** [resign] *)

Lemma make_cancels_steps st :
  ptriple base (cand_ok false st anything) (lift make_cancels)
    (fun c => cand_ok false st (still_open c)) (fun _ => base).
Proof.
  apply ptriple_lift. intros w [(Hs & Hr & Hmu & Hst & _) Hb].
  unfold make_cancels, gets_self, modify_self. munfold.
  set (c := fresh (dom (cancels (self w)))).
  assert (cancels (self w) !! c = None) as Hc by (apply not_elem_of_dom, is_fresh).
  split; [split_and!; [done| |split_and!; [done..|]]|].
  - intros tag op k Hop Hcb. specialize (Hr tag op k Hop Hcb). destruct k; try done.
    cbn in *. set_solver.
  - exists new_counter. cbn. by rewrite lookup_insert_eq.
  - intros c0. rewrite <- (Hb c0). unfold balance, cancel_counter. cbn.
    destruct (decide (c = c0)) as [<-|Hne].
    + by rewrite lookup_insert_eq, Hc.
    + by rewrite lookup_insert_ne.
Qed.

Lemma on_cancels_shifts c0 c {A} (m : M async_op_counter A) (D : outcome A -> Z) :
  (forall t t' r, m t = (t', r) -> pending t' = pending t + D r) ->
  shifts (balance_cancels c0) (fun r => if c0 =? c then D r else 0) (on_cancels c m).
Proof.
  intros Hm w w' r Hwf E Hub. unfold on_cancels in E.
  destruct (cancels (self w) !! c) as [counter|] eqn:Hc;
    [|injection E as <- <-; by destruct (Hub "dangling async_op_counter"%string)].
  destruct (m counter) as [t' x] eqn:Em. injection E as <- <-. split; [done|].
  unfold balance, cancel_counter. cbn. destruct (Z.eqb_spec c0 c) as [->|Hne].
  - rewrite lookup_insert_eq, Hc. cbn. rewrite (Hm _ _ _ Em). lia.
  - rewrite lookup_insert_ne by done. lia.
Qed.

Lemma cancel_watches_shifts c0 c ws : shifts (balance_cancels c0) (by_ 0) (cancel_watches c ws).
Proof.
  induction ws as [|x ws IH]; cbn [cancel_watches]; [by apply shifts_ret|].
  eapply shifts_bind; [apply (on_cancels_shifts _ _ _ by_start)|..].
  - intros [n [|]] t' r [= <- <-]; cbn; lia.
  - intros e. by destruct (c0 =? c).
  - intros [|]; cbn [negb]; [|apply shifts_ret; by destruct (c0 =? c)].
    eapply shifts_bind_nothrow; [apply cand_deref_stream_nothrow|apply deref_stream_cancels|]. intros [].
    eapply shifts_bind_nothrow; [apply never_throws_async_write|apply async_write_shifts|]. intros [].
    eapply shifts_conseq; [apply IH|]. intros r. cbn. unfold by_. destruct (c0 =? c); cbn; lia.
Qed.

Lemma cancel_watches_keeps c ws :
  triple (cinv false true (still_open c)) (cancel_watches c ws)
    (fun b w => b = true /\ cinv false true (still_open c) w) (fun _ _ => False).
Proof.
  induction ws as [|x ws IH]; cbn [cancel_watches]; [by apply triple_ret|].
  apply (triple_bind_nothrow _ (fun b w => b = true /\ cinv false true (still_open c) w)).
  - intros w (Hs & Hr & Hmu & Hst & counter & Hc & Hf). unfold on_cancels. rewrite Hc.
    unfold OpCounter.start, async_op_start, add_op. rewrite Hf. cbn.
    split; [done|]. split_and!; [done| |split_and!; [done..|]].
    + intros tag op k Hop Hcb. specialize (Hr tag op k Hop Hcb). destruct k; try done.
      cbn in *. set_solver.
    + eexists. cbn. rewrite lookup_insert_eq. by split.
  - intros b. apply triple_pure. intros ->. cbn [negb]. safe_step.
    apply (triple_bind_nothrow _ (fun _ => cinv false true (still_open c))); [|intros ?; exact IH].
    apply async_write_keeps. intros s (_ & _ & counter & Hc & _). cbn. by eapply elem_of_dom_2.
Qed.

Lemma deref_stream_steps cs :
  steps cs (cand_ok false true cs) (lift deref_stream) (cand_ok false true cs).
Proof. apply lift_steps; [apply cand_deref_stream_keeps|apply deref_stream_cancels]. Qed.
Lemma election_result_steps st cs b :
  steps cs (cand_ok false st cs) (lift (election_result b)) (cand_ok false st cs).
Proof. apply lift_steps; [apply election_result_keeps|intros c; apply election_result_cancels]. Qed.

Lemma close_stream_steps cs :
  steps cs (cand_ok false true cs) close_stream (cand_ok false true cs).
Proof.
  unfold close_stream. eapply steps_bind.
  { apply (lift_steps false true cs false true cs); [unfold try_cancel_on; repeat safe_step|].
    intros c. eapply shifts_bind_nothrow; [apply cand_deref_stream_nothrow|apply deref_stream_cancels|].
    intros []. eapply shifts_conseq; [apply call_grpc_shifts|]. done. }
  intros _. eapply steps_bind; [apply block_on_reads_steps|]. intros _.
  apply with_tracer_steps. eapply steps_bind; [apply deref_stream_steps|]. intros _.
  apply await_steps. intros _. apply with_tracer_steps.
  eapply steps_bind; [apply deref_stream_steps|]. intros _.
  apply await_steps. intros _. apply election_result_steps.
Qed.

(** The destructor of the local counter, once nothing refers to it. *)
Lemma destroy_cancels_ok st c :
  triple (cand_ok false st (drained c)) (destroy_cancels c) (fun _ => base) (fun _ _ => False).
Proof.
  intros w [(Hs & Hr & Hmu & Hst & counter & Hc & Hp) Hb].
  assert (Hcount : count_ops (cancel_kind c) (queue w) = 0).
  { pose proof (count_ops_nonneg (cancel_kind c) (queue w)). specialize (Hb c).
    unfold balance, cancel_counter in Hb. rewrite Hc in Hb. cbn in Hb. lia. }
  unfold destroy_cancels, modify_self. munfold. split; [split_and!; [done| |by split_and!]|].
  - intros tag op k Hop Hcb. specialize (Hr tag op k Hop Hcb). destruct k as [| |x c'|]; try done.
    cbn in *. destruct (decide (c = c')) as [<-|Hne]; [|set_solver].
    enough (0 < count_ops (cancel_kind c) (queue w)) by lia.
    eapply count_ops_pos; [done|]. rewrite Hcb. cbn. apply Z.eqb_refl.
  - intros c0. rewrite <- (Hb c0). unfold balance, cancel_counter. cbn.
    destruct (decide (c = c0)) as [<-|Hne].
    + rewrite lookup_delete_eq. specialize (Hb c). unfold balance, cancel_counter in Hb.
      rewrite Hc in *. cbn in *. lia.
    + by rewrite lookup_delete_ne.
Qed.

Lemma enter_cancels_steps c E :
  ptriple base (cand_ok false true (still_open c)) (lift (on_cancels c OpCounter.enter_block))
    (fun _ => cand_ok false true (alive c)) E.
Proof.
  apply ptriple_lift. intros w [(Hs & Hr & Hmu & Hst & counter & Hc & Hf) Hb].
  unfold on_cancels. rewrite Hc. cbn. split; [split_and!; [done| |split_and!; [done..|cbn; set_solver]]|].
  + intros tag op k Hop Hcb. specialize (Hr tag op k Hop Hcb). destruct k; try done.
    cbn in *. set_solver.
  + intros c0. rewrite <- (Hb c0). unfold balance, cancel_counter. cbn.
    destruct (decide (c = c0)) as [<-|Hne].
    * by rewrite lookup_insert_eq, Hc.
    * by rewrite lookup_insert_ne.
Qed.

Lemma wait_for_cancels_steps c E :
  ptriple base (cand_ok false true (alive c))
    (block_until (fun w => match cancels (self w) !! c with
                           | Some counter => all_done counter
                           | None => true
                           end))
    (fun _ => cand_ok false true (drained c)) E.
Proof.
  eapply ptriple_block; [apply cand_ok_stable|apply cand_ok_base|].
  intros w [(Hs & Hr & Hmu & Hst & Hc) Hb] Hd. split; [|done]. do 2 (split_and!; [done..|]).
  apply (proj1 (elem_of_dom _ _)) in Hc as [counter Hc]. rewrite Hc in Hd. exists counter. split; [done|].
  unfold all_done in Hd. lia.
Qed.

Lemma resign_after_cancel_steps cs ws :
  ptriple base (cand_ok false true (still_open cs))
    (completed ← lift (cancel_watches cs ws);
     if negb completed then mret tt
     else
       lift (on_cancels cs OpCounter.enter_block);;
       block_until (fun w => match cancels (self w) !! cs with
                             | Some counter => all_done counter
                             | None => true
                             end);;
       close_stream)
    (fun _ => cand_ok false true (drained cs)) (fun _ => cand_ok false false (drained cs)).
Proof.
  apply (ptriple_bind base _ (fun b w => b = true /\ cand_ok false true (still_open cs) w)).
  - apply ptriple_lift, triple_any_throw. intros w [Hw Hb].
    pose proof (cancel_watches_keeps cs ws w Hw) as Hk.
    destruct (cancel_watches cs ws w) as [w' [b|e|s]] eqn:E; [|done..].
    destruct Hk as [-> Hw']. split; [done|]. split; [done|]. intros c.
    destruct (cancel_watches_shifts c cs ws w w' (Ok true)) as [_ ->]; [apply Hw|done..|].
    by rewrite (Hb c).
  - intros [|]; [|by intros w []]. intros w [_ Hw]. revert w Hw. cbn [negb].
    apply (ptriple_bind base _ (fun _ => cand_ok false true (alive cs)));
      [apply enter_cancels_steps|]. intros ?.
    eapply ptriple_bind; [apply wait_for_cancels_steps|]. intros ?. apply close_stream_steps.
Qed.

Lemma lock_steps : steps anything base (lift lock) (cand_ok true false anything).
Proof. apply lift_steps; [apply cand_lock_holds|apply lock_cancels]. Qed.
Lemma unlock_steps st :
  steps anything (cand_ok true st anything) (lift unlock) (cand_ok false st anything).
Proof. apply lift_steps; [apply cand_unlock_holds|apply unlock_cancels]. Qed.

Lemma resign_steps : steps anything base resign base.
Proof.
  unfold resign. steps_step. steps_step; [steps_step|].
  eapply steps_bind; [apply lock_steps|]. intros _.
  eapply (steps_bind _ _ (cand_ok true false anything)).
  { apply lift_steps; [apply gets_self_keeps|]. intros c. apply gets_self_cancels. }
  intros watches. eapply (steps_bind _ _ (cand_ok true false anything)).
  { apply lift_steps; [apply set_current_watches_keeps|]. intros c. by apply modify_self_cancels. }
  intros _. apply (ptriple_bind base _ (fun b => cand_ok true b anything)).
  { apply ptriple_lift. intros w [(Hs & Hr & Hmu & _ & Hc) Hb]. by split_and!. }
  intros stream. eapply steps_bind; [apply unlock_steps|]. intros _.
  destruct stream; cbn [negb]; [|apply ptriple_ret, cand_ok_base].
  apply (ptriple_bind base _ (fun c => cand_ok false true (still_open c)));
    [apply make_cancels_steps|]. intros cs.
  eapply ptriple_destructor; [apply resign_after_cancel_steps|..]; intros ?;
    apply triple_any_throw, destroy_cancels_ok.
Qed.

(** ** What is guaranteed *)

(** The members an application calls. *)
Inductive member :=
  | call_campaign
  | call_proclaim (new_value : string)
  | call_resign
  | call_cleanup.
Definition call (m : member) : Prelude.P W unit :=
  match m with
  | call_campaign => campaign
  | call_proclaim v => proclaim v
  | call_resign => resign
  | call_cleanup => cleanup
  end.

Lemma call_steps m : steps anything base (call m) base.
Proof.
  destruct m; [apply campaign_steps|apply proclaim_steps|apply resign_steps|apply cleanup_steps].
Qed.

(** A new candidate is in the base invariant. *)
Lemma new_candidate_ok lease_id name value :
  base (World (election_candidate_impl lease_id name value) new_queue).
Proof.
  split; [split_and!|].
  - apply sound_new.
  - intros tag op k Hop. cbn in Hop. by rewrite lookup_empty in Hop.
  - by split_and!.
  - intros c. unfold balance, cancel_counter, count_ops. cbn. by rewrite map_filter_empty, map_size_empty.
Qed.

End safety.

Section outcome.
Context `{TextFormat}.
#[local] Abbreviation W := (world candidate cb).
Implicit Types w : W.

(** No undefined behaviour: from a new candidate on, or from any world [base] describes, a
    member an application calls, next to an event loop that reports any completions in any
    order, never locks the mutex twice, uses a null stream or a counter that is gone, or
    stores two results in a promise. The event loop's thread only ends by the exception of
    a query with an error status, and [base] holds again when the member returns or throws. *)
Theorem candidate_no_undefined_behaviour w m es :
  base w ->
  match sched es (call m w) with
  | running p => base (prog_world p)
  | terminated e => exists s location a, status_ok s = false /\ e = make_exception s location a
  | undefined_behaviour _ => False
  end.
Proof.
  intros Hw. apply sched_keeps_base.
  - apply cand_ok_stable.
  - intros w0 tag ok resp _. apply cand_event_outcome.
  - by apply (call_steps m).
  - apply any_admissible.
Qed.

End outcome.

(** The future of the campaign, once it returned, and whether the candidate is the leader. *)
Definition campaign_outcome {A} (s : @system candidate cb A) : option (outcome bool) * bool :=
  match s with
  | running (Finished w _) => (result (promise_ (self w)), elected_ (self w))
  | _ => (None, false)
  end.

Lemma candidate_no_undefined_behaviour_witness :
  let s := @sched _ _ (@candidate_client empty_text_format _) _ campaign_events
             (@call empty_text_format call_campaign sample_candidate) in
  base sample_candidate /\ campaign_outcome s = (Some (Ok true), true) /\
  match s with running p => base (prog_world p) | _ => False end.
Proof.
  cbv zeta. split; [apply new_candidate_ok|]. split; [by vm_compute|].
  pose proof (@candidate_no_undefined_behaviour empty_text_format sample_candidate call_campaign
    campaign_events (new_candidate_ok _ _ _)) as Hs.
  destruct (sched campaign_events _) eqn:E; [exact Hs|vm_compute in E; discriminate E..].
Defined.
