(* ===== verification/Campaign.v ===== *)
(** * A campaign, from its start to the query for the predecessor

    What the members that wait for etcd do with each answer. *)

From S2P Require Import Prelude Runtime PrefixEnd OpCounter Etcd CompletionQueue Threads Balance.
From S2P Require Import Safety Candidate CandidateFacts.
Open Scope Z_scope.
Open Scope gh_scope.
Import OpCounter Candidate.

Section campaign.
Context `{TextFormat}.
#[local] Abbreviation W := (world candidate cb).
Implicit Types w : W.

(** A scope with a tracer, while the counter is not shut down. *)
Lemma cand_with_tracer_eq {A C} (m : P W A) w (k : W -> outcome A -> prog W C) :
  in_shutdown (ops_ (self w)) = false ->
  prog_then (with_tracer m w) k =
  prog_then (m (with_self (fun s => set_ops (Counter (pending (ops_ s) + 1) false) s) w))
    (fun w' r => match r with
                 | UB x => k w' (UB x)
                 | _ => k (with_self (fun s => set_ops (async_op_done (ops_ s)) s) w') r
                 end).
Proof.
  intros Hs. unfold in_shutdown in Hs. unfold with_tracer.
  rewrite (lift_bind _ _ _ (with_self (fun s => set_ops (Counter (pending (ops_ s) + 1) false) s) w) true).
  - unfold with_destructor. rewrite prog_then_assoc. f_equal.
    apply FunctionalExtensionality.functional_extensionality. intros w'.
    apply FunctionalExtensionality.functional_extensionality. intros r. by destruct r.
  - unfold ops_start, zoom, OpCounter.start, async_op_start, add_op. by rewrite Hs.
Qed.

(** Counting an operation up and down again. *)
Lemma ops_up_down s :
  in_shutdown (ops_ s) = false ->
  let s1 := set_ops (Counter (pending (ops_ s) + 1) false) s in
  set_ops (async_op_done (ops_ s1)) s1 = s.
Proof.
  intros Hs. destruct s as [? ? ? ? ? ? ? ? ? ? ? ? [n f] ? ?]. unfold in_shutdown in Hs. cbn in *.
  subst f. unfold async_op_done, del_op, set_ops. cbn. do 2 f_equal. lia.
Qed.

(** The answer of a transaction. *)
Definition txn_answer (name : string) (ok : bool) (resp : response) : outcome TxnResponse :=
  match adapt (adapt_rpc name) resp ok with
  | Ok x => Ok (as_txn (r_message x))
  | Throw e => Throw e
  | UB s => UB s
  end.

Lemma sched_commit {C} r name ok resp w (k : W -> outcome TxnResponse -> prog W C) es :
  wf (queue w) -> in_shutdown (ops_ (self w)) = false ->
  sched (ev_completion (next_op (queue w)) ok resp :: ev_wake :: es)
    (prog_then (commit r name w) k) =
  sched es (k (after_call name (adapt_rpc name) (rq_txn r) ok resp w) (txn_answer name ok resp)).
Proof.
  intros Hwf Hs. unfold commit. rewrite cand_with_tracer_eq by done.
  set (w1 := with_self _ w). change (queue w) with (queue w1) in *. unfold async_rpc_future.
  rewrite (sched_await (S:=candidate) (K:=cb)) by done.
  assert (Hself : with_self (fun s => set_ops (async_op_done (ops_ s)) s)
     (after_call name (adapt_rpc name) (rq_txn r) ok resp w1) =
     after_call name (adapt_rpc name) (rq_txn r) ok resp w).
  { unfold after_call, with_self, with_queue, w1. cbn. f_equal. by apply (ops_up_down (self w)). }
  unfold txn_answer. destruct (adapt (adapt_rpc name) resp ok) eqn:Ha.
  - cbn [mret P_ret prog_then]. by rewrite Hself.
  - by rewrite Hself.
  - exfalso. cbn in Ha. by destruct ok, (status_ok _).
Qed.

(** ** The node *)

(** The node that a failed creation found, if the answer has the form it must have. *)
Definition found_node (t : TxnResponse) : option KeyValue :=
  match tx_responses t with
  | [r] => match rg_kvs (response_range r) with [kv] => Some kv | _ => None end
  | _ => None
  end.

(** Whether and how [create_node] ends with the answer of its transaction. *)
Inductive node_step :=
  | node_created (revision : Z)
  | node_adopted (revision : Z)
  | node_publish (revision : Z)
  | node_malformed.
Definition node_answer (value : string) (t : TxnResponse) : node_step :=
  if tx_succeeded t then node_created (tx_revision t)
  else match found_node t with
       | None => node_malformed
       | Some kv => if bool_decide (kv_value kv = value) then node_adopted (kv_create_revision kv)
                    else node_publish (kv_create_revision kv)
       end.

Definition at_revision (revision : Z) w : W := with_self (set_creation_revision revision) w.

Abbreviation after_create w ok resp :=
  (after_call "election_candidate/create_node" (adapt_rpc "election_candidate/create_node")
     (rq_txn (create_node_request (self w))) ok resp w).
Abbreviation create_answer ok resp := (txn_answer "election_candidate/create_node" ok resp).

Lemma assert_false {A} w what function file line (k : unit -> P W A) :
  exists msg, (lift (GH_ASSERT_THROW false what function file line) ≫= k) w =
    Finished w (Throw (runtime_error msg)).
Proof. by eexists. Qed.

Lemma adopt_node_malformed t w :
  found_node t = None -> exists msg, adopt_node t w = Finished w (Throw (runtime_error msg)).
Proof.
  unfold found_node, adopt_node. intros Hf. destruct (tx_responses t) as [|r [|]]; [by eexists| |by eexists].
  cbn [length Nat.eqb head default]. rewrite P_bind_then. cbn [GH_ASSERT_THROW lift prog_then].
  cbn. destruct (rg_kvs (response_range r)) as [|kv [|]]; [by eexists|done|by eexists].
Qed.

Lemma adopt_node_eq t kv w :
  found_node t = Some kv ->
  adopt_node t w =
  (if bool_decide (kv_value kv = candidate_value_ (self w)) then mret tt
   else
     published ← publish_value (candidate_value_ (self w))
                   (request_delete_range (candidate_key_ (self w)));
     if tx_succeeded published then mret tt
     else
       P_throw (runtime_error ("Unexpected failure writing new value on existing key=" +:+
         candidate_key_ (self w) +:+ String "010" "txn result=" +:+
         print_to_stream (msg_txn published) +:+ String "010" "")))
    (at_revision (kv_create_revision kv) w).
Proof.
  unfold found_node, adopt_node. intros Hf.
  destruct (tx_responses t) as [|r [|]]; [done| |done].
  destruct (rg_kvs (response_range r)) as [|kv' [|]] eqn:E; [done| |done].
  injection Hf as ->. cbn [length Nat.eqb head default]. cbn. rewrite E. done.
Qed.

Lemma sched_create_node {C} w ok resp es (k : W -> outcome unit -> prog W C) :
  wf (queue w) -> in_shutdown (ops_ (self w)) = false ->
  sched (ev_completion (next_op (queue w)) ok resp :: ev_wake :: es) (prog_then (create_node w) k) =
  let w1 := after_create w ok resp in
  match create_answer ok resp with
  | Throw e => sched es (k w1 (Throw e))
  | UB s => sched es (k w1 (UB s))
  | Ok t =>
      let w2 := at_revision (tx_revision t) w1 in
      if tx_succeeded t then sched es (k w2 (Ok tt)) else sched es (prog_then (adopt_node t w2) k)
  end.
Proof.
  intros Hwf Hs. unfold create_node. rewrite P_bind_then.
  cbn [lift gets_self gets prog_then]. rewrite Hs.
  rewrite P_bind_then. cbn [lift gets_self gets prog_then].
  rewrite P_bind_then, prog_then_assoc, sched_commit by done.
  destruct (create_answer ok resp) as [t|e|x]; [|done..]. cbv zeta.
  by destruct (tx_succeeded t).
Qed.

Abbreviation after_publish w value op ok resp :=
  (after_call "election_candidate/publish_value" (adapt_rpc "election_candidate/publish_value")
     (rq_txn (publish_request value op (self w))) ok resp w).
Abbreviation publish_answer ok resp := (txn_answer "election_candidate/publish_value" ok resp).

Lemma sched_publish {C} w value op ok resp es (k : W -> outcome TxnResponse -> prog W C) :
  wf (queue w) -> in_shutdown (ops_ (self w)) = false ->
  sched (ev_completion (next_op (queue w)) ok resp :: ev_wake :: es)
    (prog_then (publish_value value op w) k) =
  sched es (k (after_publish w value op ok resp) (publish_answer ok resp)).
Proof.
  intros Hwf Hs. unfold publish_value. rewrite P_bind_then.
  cbn [lift gets_self gets prog_then]. by apply sched_commit.
Qed.

Lemma txn_answer_not_ub name ok resp s : txn_answer name ok resp <> UB s.
Proof. unfold txn_answer. cbn. by destruct ok, (status_ok _). Qed.

(** C26. The creation of the node, by the answer of its transaction: when the node was created its
    revision is the one of the answer; when the node was there with our value its creation revision is
    taken over; an answer of another form, and an error, throw. In each case one request was made,
    the operation and the counter are gone, and nothing else changed. *)
Theorem create_node_outcome w ok resp :
  wf (queue w) -> in_shutdown (ops_ (self w)) = false ->
  let s := sched [ev_completion (next_op (queue w)) ok resp; ev_wake] (create_node w) in
  let w1 := after_create w ok resp in
  match create_answer ok resp with
  | Throw e => s = running (Finished w1 (Throw e))
  | UB _ => False
  | Ok t =>
      match node_answer (candidate_value_ (self w)) t with
      | node_created revision | node_adopted revision =>
          s = running (Finished (at_revision revision w1) (Ok tt))
      | node_malformed =>
          exists msg, s = running (Finished (at_revision (tx_revision t) w1) (Throw (runtime_error msg)))
      | node_publish revision => exists p, s = running p /\ prog_outcome p = None
      end
  end.
Proof.
  intros Hwf Hs s w1. unfold s. rewrite <- (prog_then_ret (create_node w)).
  rewrite sched_create_node by done. fold w1. pose proof (txn_answer_not_ub
    "election_candidate/create_node" ok resp) as Hub.
  destruct (create_answer ok resp) as [t|e|x]; [|done|by destruct (Hub x)].
  cbv zeta. unfold node_answer. destruct (tx_succeeded t); [done|].
  destruct (found_node t) as [kv|] eqn:Hf.
  - rewrite (adopt_node_eq _ kv) by done.
    change (candidate_value_ (self (at_revision (tx_revision t) w1))) with (candidate_value_ (self w)).
    destruct (bool_decide _); [done|]. rewrite prog_then_ret.
    exists ((published ← publish_value (candidate_value_ (self w))
                 (request_delete_range (candidate_key_ (self w)));
       if tx_succeeded published then mret tt
       else P_throw (runtime_error ("Unexpected failure writing new value on existing key=" +:+
           candidate_key_ (self w) +:+ String "010" "txn result=" +:+
           print_to_stream (msg_txn published) +:+ String "010" "")))
         (at_revision (kv_create_revision kv) w1)). split; [done|].
    unfold publish_value, commit. rewrite !P_bind_then. cbn [lift gets_self gets prog_then].
    rewrite cand_with_tracer_eq by done. unfold async_rpc_future.
    set (w2 := with_self _ _). rewrite (lift_bind _ _ _ _ _ (start_future_eq _ _ _ _ w2
      (wf_after_call _ _ _ _ _ _ Hwf))).
    unfold future_get. rewrite !P_bind_then, !prog_then_assoc. unfold block_until, future_ready.
    cbn [during_call with_queue queue promises]. rewrite lookup_insert_eq.
    rewrite bool_decide_false by (intros [? ?]; done). done.
  - destruct (adopt_node_malformed t (at_revision (tx_revision t) w1) Hf) as [msg ->].
    by exists msg.
Qed.

(** A node left from an earlier life with another value: the candidate takes over its creation
    revision and publishes its own value under the condition that this revision is still the
    node's; when etcd refuses, the node is deleted in the same transaction and [create_node]
    throws. *)
Theorem create_node_takes_over w ok resp ok' resp' t kv :
  wf (queue w) -> in_shutdown (ops_ (self w)) = false ->
  create_answer ok resp = Ok t -> tx_succeeded t = false -> found_node t = Some kv ->
  kv_value kv <> candidate_value_ (self w) ->
  let n := next_op (queue w) in
  let w1 := at_revision (kv_create_revision kv) (after_create w ok resp) in
  let value := candidate_value_ (self w) in
  let on_failure := request_delete_range (candidate_key_ (self w)) in
  let w2 := after_publish w1 value on_failure ok' resp' in
  let s := sched [ev_completion n ok resp; ev_wake; ev_completion (n + 1) ok' resp'; ev_wake]
             (create_node w) in
  match publish_answer ok' resp' with
  | Ok t' => if tx_succeeded t' then s = running (Finished w2 (Ok tt))
             else exists msg, s = running (Finished w2 (Throw (runtime_error msg)))
  | Throw e => s = running (Finished w2 (Throw e))
  | UB _ => False
  end.
Proof.
  intros Hwf Hs Ht Hns Hf Hv n w1 value on_failure w2 s. unfold s.
  rewrite <- (prog_then_ret (create_node w)). unfold n. rewrite sched_create_node by done.
  rewrite Ht. cbv zeta. rewrite Hns, (adopt_node_eq _ kv) by done.
  rewrite bool_decide_false by done. rewrite P_bind_then, prog_then_assoc.
  change (at_revision (kv_create_revision kv) (at_revision (tx_revision t) (after_create w ok resp)))
    with w1.
  change (next_op (queue w) + 1) with (next_op (queue w1)).
  rewrite sched_publish by (by apply wf_after_call || done).
  pose proof (txn_answer_not_ub "election_candidate/publish_value" ok' resp') as Hub.
  destruct (publish_answer ok' resp') as [t'|e|x]; [|done|by destruct (Hub x)].
  destruct (tx_succeeded t'); [done|]. by eexists.
Qed.

(** A campaign whose stream and node are created returns with its future retrieved and a query for the
    predecessor in the queue, as one more counted operation: the newest node of the
    election created before the candidate's own. *)
Theorem campaign_starts_query w ok resp ok' resp' t :
  wf (queue w) -> in_shutdown (ops_ (self w)) = false -> retrieved (promise_ (self w)) = false ->
  ok = true -> create_answer ok' resp' = Ok t -> tx_succeeded t = true ->
  let n := next_op (queue w) in
  let s := self w in
  exists w', sched [ev_completion n ok resp; ev_wake; ev_completion (n + 1) ok' resp'; ev_wake]
    (campaign w) = running (Finished w' (Ok tt)) /\
    self w' = set_ops (Counter (pending (ops_ s) + 1) false)
      (set_creation_revision (tx_revision t) (set_watcher_stream true
        (set_promise (Promise true (result (promise_ s))) s))) /\
    wf (queue w') /\ next_op (queue w') = n + 3 /\ now (queue w') = now (queue w) /\
    pending_ops (queue w') = <[n + 2 := AsyncOp "election_candidate/query_predecessor"
      (functor cb_range_request)
      (rq_range {| rr_key := election_prefix_ s;
                   rr_range_end := prefix_end (election_prefix_ s);
                   rr_max_create_revision := tx_revision t - 1;
                   rr_sort_order := DESCEND; rr_sort_target := CREATE; rr_limit := 1 |})]>
      (pending_ops (queue w)).
Proof.
  intros Hwf Hs Hret -> Ht Hsucc n s. unfold n.
  rewrite <- (prog_then_ret (campaign w)). unfold campaign. rewrite P_bind_then.
  cbn [lift gets_self gets prog_then]. rewrite Hs.
  rewrite (lift_bind _ _ _ (with_self (fun s => set_promise (Promise true (result (promise_ s))) s) w) tt).
  2:{ unfold zoom, promise_get_future. by rewrite Hret. }
  set (w0 := with_self _ w). unfold campaign_impl. rewrite P_bind_then, prog_then_assoc.
  unfold create_watch_stream. rewrite cand_with_tracer_eq by done. set (w1 := with_self _ w0).
  change (next_op (queue w)) with (next_op (queue w1)). unfold async_create_rdwr_stream_future.
  rewrite (sched_await (S:=candidate) (K:=cb)) by done.
  cbn [adapt negb prog_then lift modify_self modify]. set (w2 := with_self _ (with_self _ _)).
  assert (Hw2 : in_shutdown (ops_ (self w2)) = false) by done.
  assert (wf (queue w2)) as Hwf2 by (by apply wf_after_call).
  rewrite P_bind_then, prog_then_assoc.
  change (next_op (queue w1) + 1) with (next_op (queue w2)).
  rewrite sched_create_node by done.
  replace (create_answer ok' resp') with (@Ok TxnResponse t) by (by rewrite Ht). cbv zeta. rewrite Hsucc.
  set (w3 := at_revision (tx_revision t) _). unfold lift.
  assert (wf (queue w3)) as Hwf3 by (by apply wf_after_call).
  rewrite query_predecessor_eq by done. cbn [prog_then].
  eexists. split; [done|]. split_and!; [|by apply with_op_le|cbn; lia|done|].
  - cbn. unfold s. destruct (self w). cbn. unfold set_ops. cbn. do 2 f_equal. lia.
  - cbn. replace (next_op (queue w) + 2) with (next_op (queue w) + 1 + 1) by lia. done.
Qed.

End campaign.

(** ** The theorems applied *)

#[local] Existing Instance empty_text_format.

Definition txn_response (revision : Z) (succeeded : bool) (responses : list ResponseOp) : response :=
  Response status_OK (msg_txn {| tx_revision := revision; tx_succeeded := succeeded;
                                 tx_responses := responses |}).
Definition found (value : string) (revision : Z) : list ResponseOp :=
  [response_range_op {| rg_revision := 9; rg_kvs := [KV "e/a1" value revision] |}].

(** The creation revision when the member has returned. *)
Definition node_revision (s : @system candidate cb unit) : option Z :=
  match s with
  | running (Finished w (Ok _)) => Some (creation_revision_ (self w))
  | _ => None
  end.

Lemma create_node_outcome_witness :
  node_revision (sched [ev_completion 1 true (txn_response 9 false (found "value" 3)); ev_wake]
    (create_node sample_candidate)) = Some 3.
Proof.
  pose proof (create_node_outcome sample_candidate true (txn_response 9 false (found "value" 3))
    new_queue_wf eq_refl) as Hs.
  cbv zeta in Hs. change (next_op (queue sample_candidate)) with 1 in Hs.
  match type of Hs with match ?x with _ => _ end =>
    change x with (@Ok TxnResponse {| tx_revision := 9; tx_succeeded := false;
                                      tx_responses := found "value" 3 |}) in Hs
  end.
  cbv beta iota in Hs.
  match type of Hs with match ?x with _ => _ end => change x with (node_adopted 3) in Hs end.
  cbv iota in Hs. rewrite Hs. reflexivity.
Defined.

Lemma create_node_takes_over_witness :
  node_revision (sched [ev_completion 1 true (txn_response 9 false (found "old" 3)); ev_wake;
    ev_completion 2 true (txn_response 10 true []); ev_wake] (create_node sample_candidate)) = Some 3.
Proof.
  pose proof (create_node_takes_over sample_candidate true (txn_response 9 false (found "old" 3))
    true (txn_response 10 true []) _ (KV "e/a1" "old" 3) new_queue_wf eq_refl eq_refl eq_refl eq_refl
    ltac:(done)) as Hs.
  cbv zeta in Hs. change (next_op (queue sample_candidate)) with 1 in Hs. change (1 + 1) with 2 in Hs.
  match type of Hs with match ?x with _ => _ end =>
    change x with (@Ok TxnResponse {| tx_revision := 10; tx_succeeded := true; tx_responses := [] |}) in Hs
  end. cbn [tx_succeeded] in Hs. rewrite Hs. reflexivity.
Defined.

Lemma campaign_starts_query_witness :
  exists w', sched [ev_completion 1 true (Response status_OK msg_none); ev_wake;
                    ev_completion 2 true (txn_response 9 true []); ev_wake]
    (campaign sample_candidate) = running (Finished w' (Ok tt)) /\
    creation_revision_ (self w') = 9.
Proof.
  destruct (campaign_starts_query sample_candidate true (Response status_OK msg_none) true
    (txn_response 9 true []) _ new_queue_wf eq_refl eq_refl eq_refl eq_refl eq_refl)
    as (w' & Hs & Hself & _).
  exists w'. split; [exact Hs|by rewrite Hself].
Defined.
