(* ===== verification/Leadership.v ===== *)
(** * How a candidate follows its predecessor, and how it ends

    The keys of an election, the watch on the predecessor, the destructor, and the two ways in which
    a candidate gets stuck: a cancelled query blocks the destructor, and a compaction at the
    wrong moment keeps it from ever being elected. *)

From S2P Require Import Prelude Runtime PrefixEnd OpCounter Etcd CompletionQueue Threads Balance.
From S2P Require Import Safety Candidate CandidateFacts.
Open Scope Z_scope.
Open Scope gh_scope.
Import OpCounter Candidate.

Section leadership.
Context `{TextFormat}.
#[local] Abbreviation W := (world candidate cb).
Implicit Types w : W.

(** ** Keys *)

Lemma candidate_key_inj name l l' : candidate_key name l = candidate_key name l' -> l = l'.
Proof.
  unfold candidate_key. intros E%(f_equal list_ascii_of_string). rewrite !bytes_app in E.
  apply app_inv_head in E. by apply to_hex_inj, bytes_inj.
Qed.

(** The query of a candidate looks at exactly the keys with the prefix of the election; the keys of
    all candidates of the election, whatever their leases, are among them, and two
    leases have two keys. *)
Theorem query_covers_election s name lease_id lease_id' key :
  election_prefix_ s = election_prefix name ->
  let req := predecessor_request s in
  (in_range (rr_key req) (rr_range_end req) key = true <-> has_prefix (election_prefix name) key) /\
  in_range (rr_key req) (rr_range_end req) (candidate_key name lease_id) = true /\
  (candidate_key name lease_id = candidate_key name lease_id' -> lease_id = lease_id').
Proof.
  intros Hp req. unfold req, predecessor_request. cbn. rewrite Hp.
  assert (Hr : forall k, in_range (election_prefix name) (prefix_end (election_prefix name)) k = true <->
    has_prefix (election_prefix name) k) by (intros k; by apply in_range_prefix_end_1).
  split_and!; [apply Hr| |apply candidate_key_inj].
  apply Hr. apply has_prefix_bytes. exists (bytes (to_hex lease_id)). apply bytes_app.
Qed.

(** ** The watch *)

(** The keys still waited for after a list of events: those that no event deletes. *)
Lemma elem_of_erase_deleted events keys k :
  k ∈ erase_deleted events keys <->
  k ∈ keys /\ ~ exists ev, ev ∈ events /\ ev_type ev = DELETE /\ kv_key (ev_prev_kv ev) = k.
Proof.
  unfold erase_deleted. revert keys. induction events as [|ev events IH]; intros keys; cbn [foldl].
  - split; [|by intros []]. intros Hk. split; [done|]. intros (ev & []%not_elem_of_nil & _).
  - rewrite IH. clear IH. case_bool_decide as Hd; set_solver.
Qed.

(** The state after a read, and whether it asks for a new query. *)
Definition read_state (r : WatchResponse) (s : candidate) : candidate :=
  let id := to_uint64 (wr_watch_id r) in
  let known := if wr_created r then {[id]} ∪ current_watches_ s else current_watches_ s in
  let lost := wr_canceled r || negb (wr_compact_revision r =? 0) in
  set_current_watches (if lost then known ∖ {[id]} else known)
    (set_watched_keys (erase_deleted (wr_events r) (watched_keys_ s)) s).
Definition read_asks_query (r : WatchResponse) (s : candidate) : bool :=
  wr_canceled r || negb (wr_compact_revision r =? 0) ||
  bool_decide (erase_deleted (wr_events r) (watched_keys_ s) = ∅).

Definition read_op (wkey : string) (wrevision : Z) (q : completion_queue cb) : completion_queue cb :=
  with_op "election_candidate/on_watch_read/read" (functor (cb_watch_read wkey wrevision)) rq_read q.

(** What a read that brings a response does to the world. *)
Definition read_result (r : WatchResponse) (wkey : string) (wrevision : Z) w : W :=
  let s := set_reads (async_op_done (reads_ (self w))) (read_state r (self w)) in
  if read_asks_query r (self w) then after_query (World s (queue w))
  else if in_shutdown (reads_ s) then World s (queue w)
  else World (set_reads (Counter (pending (reads_ s) + 1) false) s)
         (read_op wkey wrevision (queue w)).

Lemma on_watch_read_eq w op wkey wrevision :
  wf (queue w) -> mu_ (self w) = false -> watcher_stream_ (self w) = true ->
  in_shutdown (ops_ (self w)) = false ->
  on_watch_read op true wkey wrevision w =
  (read_result (as_watch (r_message op)) wkey wrevision w, Ok tt).
Proof.
  destruct w as [[mu lease st name pre val key rev cur wat el pr [no fo] [nr fr] can] q].
  unfold in_shutdown. cbn [queue self mu_ watcher_stream_ ops_ reads_ shutdown_flag].
  intros Hwf -> -> ->. set (r := as_watch (r_message op)).
  unfold on_watch_read, reads_done, zoom, OpCounter.done, lock, unlock, gets_self, modify_self.
  munfold. fold r. unfold read_result, read_asks_query, read_state. cbn.
  destruct (wr_canceled r || negb (wr_compact_revision r =? 0)) eqn:Hlost; munfold.
  - destruct (wr_created r); munfold; by rewrite query_predecessor_eq.
  - destruct (wr_created r); munfold; (case_bool_decide as Hd; munfold;
      [by rewrite query_predecessor_eq
      |unfold reads_start, deref_stream, gets_self, zoom, OpCounter.start, async_op_start, add_op;
       destruct fr; munfold; [done|rewrite async_read_eq; [done|exact Hwf]]]).
Qed.

(** A read on the stream that brings a response: a new watch is noted and a lost one forgotten, and
    exactly the keys that no event deletes are still waited for. Then at most one operation
    goes into the queue: a new query when the watch was lost or no key is waited for any
    more, the next read otherwise. *)
Theorem on_watch_read_effect w op wkey wrevision :
  wf (queue w) -> mu_ (self w) = false -> watcher_stream_ (self w) = true ->
  in_shutdown (ops_ (self w)) = false ->
  let r := as_watch (r_message op) in
  on_watch_read op true wkey wrevision w = (read_result r wkey wrevision w, Ok tt) /\
  forall k, k ∈ watched_keys_ (self (read_result r wkey wrevision w)) <->
    k ∈ watched_keys_ (self w) /\
    ~ exists ev, ev ∈ wr_events r /\ ev_type ev = DELETE /\ kv_key (ev_prev_kv ev) = k.
Proof.
  intros Hwf Hmu Hst Hs r. split; [by apply on_watch_read_eq|]. intros k.
  rewrite <- elem_of_erase_deleted. unfold read_result.
  destruct (read_asks_query r (self w)); [|destruct (in_shutdown (reads_ (set_reads _ _)))]; done.
Qed.

(** ** The destructor *)

Section drains.
Context (proj : candidate -> async_op_counter).
Hypothesis ops_start_proj : ops_start ⊨ on_self (K:=cb) (drains proj).
Hypothesis ops_done_proj : ops_done ⊨ on_self (K:=cb) (drains proj).
Hypothesis reads_start_proj : reads_start ⊨ on_self (K:=cb) (drains proj).
Hypothesis reads_done_proj : reads_done ⊨ on_self (K:=cb) (drains proj).
(** The other members of the object are not the counter. *)
Hypothesis set_mu_proj : forall x s, proj (set_mu x s) = proj s.
Hypothesis set_current_watches_proj : forall x s, proj (set_current_watches x s) = proj s.
Hypothesis set_watched_keys_proj : forall x s, proj (set_watched_keys x s) = proj s.
Hypothesis set_elected_proj : forall x s, proj (set_elected x s) = proj s.
Hypothesis set_promise_proj : forall x s, proj (set_promise x s) = proj s.
Hypothesis set_cancels_proj : forall x s, proj (set_cancels x s) = proj s.

#[local] Hint Resolve ops_start_proj ops_done_proj reads_start_proj reads_done_proj : gh.
#[local] Hint Extern 2 (drains proj _ _) => (apply drains_eq; auto) : gh.

Lemma election_result_drains b : election_result b ⊨ on_self (K:=cb) (drains proj).
Proof.
  intros w. rewrite election_result_eq. apply drains_eq. cbn. by rewrite set_promise_proj.
Qed.
#[local] Hint Resolve election_result_drains : gh.
Ltac drain := unfold lock, unlock, deref_stream, check_grpc_status; cbv zeta; respects_solve.
Lemma query_predecessor_drains : query_predecessor ⊨ on_self (K:=cb) (drains proj).
Proof. unfold query_predecessor. drain. Qed.
Lemma watch_keys_drains r kvs : watch_keys r kvs ⊨ on_self (K:=cb) (drains proj).
Proof. induction kvs; cbn [watch_keys]; drain. Qed.
#[local] Hint Resolve query_predecessor_drains watch_keys_drains : gh.
Lemma check_election_over_maybe_drains :
  check_election_over_maybe ⊨ on_self (K:=cb) (drains proj).
Proof. unfold check_election_over_maybe. drain. Qed.
#[local] Hint Resolve check_election_over_maybe_drains : gh.

Lemma event_drains tag ok resp : on_event tag ok resp ⊨ on_self (K:=cb) (drains proj).
Proof.
  unfold on_event. destruct (tag =? 0); [drain|]. unfold unregister_op. drain.
  unfold run_callback. destruct (op_callback a) as [k|p x]; [|drain].
  destruct k; cbn [invoke candidate_client invoke_cb];
    unfold on_range_request, on_watch_create, on_watch_cancel, on_watch_read; drain.
Qed.
End drains.

Lemma cand_event_drains_ops tag ok resp : on_event tag ok resp ⊨ on_self (K:=cb) (drains ops_).
Proof.
  apply event_drains; try done; [by apply start_drains|by apply done_drains|..];
    unfold reads_start, reads_done; respects_solve.
Qed.
Lemma cand_event_drains_reads tag ok resp : on_event tag ok resp ⊨ on_self (K:=cb) (drains reads_).
Proof.
  apply event_drains; try done; [..|by apply start_drains|by apply done_drains];
    unfold ops_start, ops_done; respects_solve.
Qed.

#[local] Abbreviation bal_ops := (balance (K:=cb) ops_ ops_kind).
#[local] Abbreviation bal_reads := (balance (K:=cb) reads_ reads_kind).

(** The counters are not behind the queue. *)
Definition counted w : Prop := wf (queue w) /\ 0 <= bal_ops w /\ 0 <= bal_reads w.
Lemma cand_counted_stable {Rely : rely} : stable counted.
Proof.
  split_and!; [|by intros w t _ [(? & ? & ?) ?]|].
  2:{ intros w w' Hi (Hwf & H1 & H2). unfold counted. rewrite !(balance_interferes _ _ w w') by done.
      by split; [eapply wf_interferes|]. }
  intros w w' tag ok resp _ (Hwf & H1 & H2) E.
  destruct (pending_ops (queue w) !! tag) as [op|] eqn:Hop.
  - destruct (cand_event_counts w w' tag op ok resp (Ok tt) Hwf Hop E) as (Hwf' & Ho & Hr); [done|].
    destruct (query_failed _ _); cbn in Ho; split_and!; [done|lia|lia|done|lia|lia].
  - rewrite on_event_unknown in E by done. by injection E as <-.
Qed.
Lemma closed_ops_stable {Rely : rely} : stable (closed ops_).
Proof. apply closed_stable, cand_event_drains_ops. Qed.
Lemma quiet_ops_stable {Rely : rely} : stable (quiet ops_).
Proof. apply quiet_stable, cand_event_drains_ops. Qed.
Lemma closed_reads_stable {Rely : rely} : stable (closed reads_).
Proof. apply closed_stable, cand_event_drains_reads. Qed.
Lemma quiet_reads_stable {Rely : rely} : stable (quiet reads_).
Proof. apply quiet_stable, cand_event_drains_reads. Qed.

Lemma cleanup_quiet {Rely : rely} w :
  counted w -> in_shutdown (ops_ (self w)) = false ->
  psafe (fun _ => True) (fun (_ : unit) w => (counted w /\ quiet ops_ w) /\ quiet reads_ w)
    (fun _ _ => False) (cleanup w).
Proof.
  intros Hw Hs. unfold cleanup. rewrite P_bind_then. cbn [lift gets_self gets prog_then]. rewrite Hs.
  rewrite P_bind_then. cbn [lift gets_self gets prog_then].
  revert w Hw Hs. enough (forall stream, ptriple (fun _ => True) counted
    (lift (when stream try_cancel_on);; block_on ops_ set_ops;; block_on reads_ set_reads)
    (fun (_ : unit) w => (counted w /\ quiet ops_ w) /\ quiet reads_ w) (fun _ _ => False)) as Hp.
  { intros w Hw _. by apply Hp. }
  intros stream. apply (ptriple_bind _ _ (fun _ => counted)).
  { apply ptriple_lift. intros w (Hwf & H1 & H2). by destruct stream. }
  intros _. eapply ptriple_bind.
  { apply block_on_quiet; [apply cand_counted_stable|apply closed_ops_stable|done|].
    intros t w (Hwf & H1 & H2) <-. by split_and!. }
  intros ?. apply block_on_quiet; [|apply closed_reads_stable|done|].
  - apply stable_and; [apply cand_counted_stable|apply quiet_ops_stable].
  - intros t w [(Hwf & H1 & H2) ?] <-. by split_and!.
Qed.

(** C16. The destructor is a barrier: when the counters of a candidate that is not shut down are in step with
    the queue, and [cleanup] returns, next to whatever events, then no query, watch request
    or read of the candidate is in the queue any more, and its counters accept no other. *)
Theorem cleanup_barrier w es w' r :
  counted w -> in_shutdown (ops_ (self w)) = false ->
  sched es (cleanup w) = running (Finished w' r) ->
  r = Ok tt /\ in_shutdown (ops_ (self w')) = true /\ in_shutdown (reads_ (self w')) = true /\
  count_ops ops_kind (queue w') = 0 /\ count_ops reads_kind (queue w') = 0.
Proof.
  intros Hw Hs Hrun.
  pose proof (cleanup_quiet w Hw Hs) as Hp. eapply sched_psafe in Hp; [|..|apply any_admissible|exact Hrun].
  - destruct r as [[]|e|x]; cbn in Hp; [|done..].
    destruct Hp as (((_ & H1 & H2) & [Hc1 Hp1]) & [Hc2 Hp2]).
    pose proof (count_ops_nonneg ops_kind (queue w')). pose proof (count_ops_nonneg reads_kind (queue w')).
    unfold balance in H1, H2. split_and!; [done..|lia|lia].
  - intros _. apply stable_and; [|apply quiet_reads_stable].
    apply stable_and; [apply cand_counted_stable|apply quiet_ops_stable].
  - done.
Qed.

(** More operations are counted than there are. *)
Definition leaked w : Prop := wf (queue w) /\ 1 <= bal_ops w.

Lemma leaked_stable {Rely : rely} : stable leaked.
Proof.
  split_and!; [|by intros w t _ [(? & ? & ?) ?]|].
  2:{ intros w w' Hi (Hwf & H1). unfold leaked. rewrite (balance_interferes _ _ w w') by done.
      by split; [eapply wf_interferes|]. }
  intros w w' tag ok resp _ (Hwf & H1) E.
  destruct (pending_ops (queue w) !! tag) as [op|] eqn:Hop.
  - destruct (cand_event_counts w w' tag op ok resp (Ok tt) Hwf Hop E) as (Hwf' & Ho & _); [done|].
    destruct (query_failed _ _); cbn in Ho; split; [done|lia|done|lia].
  - rewrite on_event_unknown in E by done. by injection E as <-.
Qed.

Lemma leaked_not_done w : leaked w -> all_done (ops_ (self w)) = false.
Proof.
  intros [_ Hb]. pose proof (count_ops_nonneg ops_kind (queue w)). unfold balance in Hb.
  apply Z.eqb_neq. lia.
Qed.

Lemma leaked_cleanup_blocks w es p :
  leaked w -> in_shutdown (ops_ (self w)) = false ->
  sched es (cleanup w) = running p -> prog_outcome p = None.
Proof.
  intros Hl Hs. unfold cleanup. rewrite P_bind_then. cbn [lift gets_self gets prog_then]. rewrite Hs.
  rewrite P_bind_then. cbn [lift gets_self gets prog_then].
  set (w1 := with_queue (fun q => if watcher_stream_ (self w) then
    Queue (pending_ops q) (next_op q) (promises q) (next_promise q)
      (context_try_cancel :: trace q) (shutdown_ q) (now q) else q) w).
  rewrite (lift_bind _ _ _ w1 tt) by (unfold w1; destruct w; by destruct (watcher_stream_ _)).
  set (w2 := with_self (fun s => set_ops (OpCounter.shutdown (ops_ s)) s) w1).
  assert (leaked w2) as Hl2 by (unfold w2, w1; by destruct (watcher_stream_ _)).
  rewrite P_bind_then. unfold block_on at 1.
  rewrite (lift_bind _ _ _ w2 tt) by done.
  unfold block_until at 1. rewrite leaked_not_done by done. cbn [prog_then].
  apply (sched_blocked leaked); [apply leaked_stable|apply leaked_not_done|done|apply any_admissible].
Qed.

(** C23. A query for the predecessor that completes with [ok] false, as it does when it is cancelled, is never
    counted down: [elected()] is false and the future of the campaign has its result, but from
    then on the destructor blocks, whatever events arrive. *)
Theorem cancelled_query_blocks_cleanup w tag op resp es p :
  counted w -> in_shutdown (ops_ (self w)) = false ->
  pending_ops (queue w) !! tag = Some op -> op_callback op = functor cb_range_request ->
  let '(w1, r) := on_event tag false resp w in
  r = Ok tt /\ elected_ (self w1) = false /\ is_Some (result (promise_ (self w1))) /\
  (sched es (cleanup w1) = running p -> prog_outcome p = None).
Proof.
  intros (Hwf & H1 & _) Hs Hop Hcb. pose proof Hwf as (_ & Hpos & _). specialize (Hpos _ _ Hop).
  pose proof (cand_event_counts w (on_event tag false resp w).1 tag op false resp
    (on_event tag false resp w).2 Hwf Hop) as Hc.
  rewrite (on_event_pending _ _ _ _ op) in * by (done || lia).
  unfold run_callback in *. rewrite Hcb in *. cbn [invoke candidate_client invoke_cb] in *.
  unfold on_range_request in *. cbn [negb] in *. rewrite election_result_eq in *.
  set (w1 := with_self _ _) in *. cbn [fst snd] in Hc.
  destruct Hc as (Hwf' & Hb & _); [done..|].
  split_and!; [done|done| |].
  { unfold w1. cbn. destruct (result (promise_ (self w))) eqn:Er; [rewrite Er|]; by eexists. }
  apply leaked_cleanup_blocks; [|done]. split; [done|]. cbn in Hb |- *. lia.
Qed.

(** ** A compaction at the wrong moment *)

Definition lost_watch (watch_id compact_revision : Z) : response :=
  Response status_OK (msg_watch {| wr_watch_id := watch_id; wr_created := false; wr_canceled := true;
    wr_compact_revision := compact_revision; wr_events := [] |}).
Definition no_predecessor (revision : Z) : response :=
  Response status_OK (msg_range {| rg_revision := revision; rg_kvs := [] |}).

Lemma empty_answer_while_waiting w revision :
  mu_ (self w) = false -> watched_keys_ (self w) <> ∅ ->
  on_range_request (no_predecessor revision) true w =
  (with_self (fun s => set_mu false (set_ops (async_op_done (ops_ s)) s)) w, Ok tt).
Proof.
  destruct w as [[mu lease st name pre val key rev cur wat el pr [no fo] [nr fr] can] q].
  cbn [self mu_ watched_keys_]. intros -> Hk. unfold on_range_request, check_election_over_maybe.
  unfold ops_done, zoom, OpCounter.done, lock, unlock, gets_self, modify_self, check_grpc_status. munfold.
  by rewrite bool_decide_false.
Qed.

(** C22. A candidate waits for one predecessor; the predecessor's key is deleted, and etcd cancels the
    watch because of a compaction before it has reported that. The candidate queries again, and the
    answer is that there is no predecessor any more. But the key is still in
    [watched_keys_]: the candidate is not elected, its future stays without a result, and
    nothing is in the queue that could ever change that. *)
Theorem compaction_stalls_election w tag op key wkey wrevision id compact revision :
  wf (queue w) -> mu_ (self w) = false -> watcher_stream_ (self w) = true ->
  in_shutdown (ops_ (self w)) = false -> elected_ (self w) = false ->
  watched_keys_ (self w) = {[key]} ->
  op_callback op = functor (cb_watch_read wkey wrevision) ->
  pending_ops (queue w) = {[tag := op]} ->
  let w1 := (on_event tag true (lost_watch id compact) w).1 in
  let w2 := (on_event (next_op (queue w)) true (no_predecessor revision) w1).1 in
  pending_ops (queue w1) = {[next_op (queue w) := AsyncOp "election_candidate/query_predecessor"
    (functor cb_range_request) (rq_range (predecessor_request (self w)))]} /\
  elected_ (self w2) = false /\ result (promise_ (self w2)) = result (promise_ (self w)) /\
  pending_ops (queue w2) = ∅ /\
  forall tag' ok' resp', on_event tag' ok' resp' w2 = (w2, Ok tt).
Proof.
  intros Hwf Hmu Hst Hs He Hk Hcb Hp w1 w2.
  assert (tag <> 0) as Ht.
  { destruct Hwf as (_ & Hpos & _). assert (pending_ops (queue w) !! tag = Some op) as Hop
      by (rewrite Hp; apply lookup_singleton_eq). apply Hpos in Hop. lia. }
  set (q0 := set_pending_ops ∅ (queue w)).
  assert (wf q0) as Hwf0.
  { destruct Hwf as (? & ? & ?). split_and!; [done| |done]. intros t o Ho. cbn in Ho.
    by rewrite lookup_empty in Ho. }
  assert (E1 : w1 = after_query (World (set_reads (async_op_done (reads_ (self w)))
    (read_state (as_watch (r_message (lost_watch id compact))) (self w))) q0)).
  { unfold w1. rewrite (on_event_pending _ _ _ _ op) by (done || rewrite Hp; apply lookup_singleton_eq).
    unfold run_callback. rewrite Hcb. cbn [invoke candidate_client invoke_cb].
    assert (Hq : set_pending_ops (delete tag (pending_ops (queue w))) (queue w) = q0)
      by (rewrite Hp; unfold q0; by rewrite delete_singleton_eq).
    unfold with_queue. rewrite Hq. rewrite on_watch_read_eq by done. done. }
  assert (E2 : w2 = with_self (fun s => set_mu false (set_ops (async_op_done (ops_ s)) s))
    (with_queue (set_pending_ops ∅) w1)).
  { unfold w2. rewrite E1. erewrite on_event_pending; [| |apply lookup_insert_eq].
    2:{ destruct Hwf as [? _]. cbn. lia. }
    unfold run_callback, with_queue. cbn [op_callback invoke candidate_client invoke_cb].
    rewrite empty_answer_while_waiting; [|done|].
    - f_equal. unfold with_self, with_queue. cbn. by rewrite delete_insert_id.
    - cbn. rewrite Hk. unfold erase_deleted. cbn. set_solver. }
  assert (Hempty : pending_ops (queue w2) = ∅) by (by rewrite E2).
  rewrite E2 at 1 2. rewrite E1. split_and!; try done.
  intros tag' ok' resp'. apply on_event_unknown. by rewrite Hempty, lookup_empty.
Qed.

End leadership.

(** ** The theorems applied, in the course of a campaign *)

#[local] Existing Instance empty_text_format.

Lemma query_covers_election_witness :
  let req := predecessor_request (self sample_candidate) in
  in_range (rr_key req) (rr_range_end req) (candidate_key "e" 7) = true.
Proof. cbv zeta. by apply (query_covers_election (self sample_candidate) "e" 7 8 "e/7"). Defined.

(** The predecessor's key is deleted: the next operation is a query. *)
Lemma on_watch_read_effect_witness :
  let deleted := Response status_OK (msg_watch {| wr_watch_id := 0; wr_created := false;
    wr_canceled := false; wr_compact_revision := 0;
    wr_events := [{| ev_type := DELETE; ev_kv := KV "e/1" "" 0; ev_prev_kv := KV "e/1" "v" 3 |}] |}) in
  watched_keys_ (self (campaign_world 7)) = {["e/1"%string]} /\
  "e/1"%string ∉ watched_keys_ (self (on_watch_read deleted true "e/1" 8 (campaign_world 7)).1).
Proof.
  cbv zeta. split; [by vm_compute|].
  match goal with |- context [on_watch_read ?d _ _ _ _] =>
    destruct (on_watch_read_effect (campaign_world 7) d "e/1" 8) as [E Hk]
  end; [apply campaign_world_wf; lia|by vm_compute..|].
  rewrite E. cbn [fst]. rewrite Hk. intros [_ Hno]. apply Hno.
  exists {| ev_type := DELETE; ev_kv := KV "e/1" "" 0; ev_prev_kv := KV "e/1" "v" 3 |}.
  split; [left|split; reflexivity].
Defined.

Lemma campaign_world_counted n : (n < 10)%nat -> counted (campaign_world n).
Proof.
  intros Hn. split; [by apply campaign_world_wf|].
  do 10 (destruct n as [|n]; [by split; apply Z.leb_le; vm_compute|]). lia.
Qed.

(** The destructor during the watch: the read has to complete. *)
Lemma cleanup_barrier_witness :
  exists w', sched [ev_completion 6 false (Response status_OK msg_none); ev_wake]
    (cleanup (campaign_world 7)) = running (Finished w' (Ok tt)) /\
    count_ops reads_kind (queue w') = 0.
Proof.
  destruct (sched [ev_completion 6 false (Response status_OK msg_none); ev_wake]
    (cleanup (campaign_world 7))) as [[w' r|w' u k]|e|x] eqn:E;
    [|vm_compute in E; discriminate E..].
  destruct (cleanup_barrier (campaign_world 7) _ w' r (campaign_world_counted 7 ltac:(lia))
    ltac:(by vm_compute) E) as (-> & _ & _ & _ & Hr).
  exists w'. split; [reflexivity|exact Hr].
Defined.

Lemma cancelled_query_blocks_cleanup_witness :
  exists p, sched [ev_completion 3 true (Response status_OK msg_none); ev_wake]
    (cleanup (on_event 3 false (Response status_OK msg_none) (campaign_world 4)).1) = running p /\
    prog_outcome p = None.
Proof.
  destruct (sched [ev_completion 3 true (Response status_OK msg_none); ev_wake]
    (cleanup (on_event 3 false (Response status_OK msg_none) (campaign_world 4)).1)) as [p|e|x] eqn:E;
    [|vm_compute in E; discriminate E..].
  pose proof (cancelled_query_blocks_cleanup (campaign_world 4) 3
    (default (AsyncOp "" (functor (cb_watch_cancel 0 0)) rq_read)
       (pending_ops (queue (campaign_world 4)) !! 3)) (Response status_OK msg_none)
    [ev_completion 3 true (Response status_OK msg_none); ev_wake] p
    (campaign_world_counted 4 ltac:(lia)) ltac:(by vm_compute) ltac:(by vm_compute)
    ltac:(by vm_compute)) as Hs.
  exists p. split; [reflexivity|]. revert E.
  destruct (on_event 3 false _ (campaign_world 4)) as [w1 r]. apply Hs.
Defined.

Lemma compaction_stalls_election_witness :
  let w := campaign_world 7 in
  let w1 := (on_event 6 true (lost_watch 0 20) w).1 in
  let w2 := (on_event 7 true (no_predecessor 21) w1).1 in
  elected_ (self w2) = false /\ result (promise_ (self w2)) = None /\ pending_ops (queue w2) = ∅.
Proof.
  cbv zeta.
  destruct (compaction_stalls_election (campaign_world 7) 6
    (AsyncOp "election_candidate/on_watch_read/read" (functor (cb_watch_read "e/1" 8)) rq_read)
    "e/1" "e/1" 8 0 20 21) as (_ & H1 & H2 & H3 & _);
    [apply campaign_world_wf; lia|by vm_compute..|].
  assert (next_op (queue (campaign_world 7)) = 7) as En by (by vm_compute).
  rewrite En in H1, H2, H3.
  split_and!; [exact H1|rewrite H2; by vm_compute|exact H3].
Defined.
