(* ===== verification/Resign.v ===== *)
(** * What [proclaim] and [resign] do

    The value a candidate publishes while it runs, and how it cancels its watches when it resigns: the
    identifiers etcd gave to the watches, kept as unsigned numbers, come back to etcd as they were. *)

From S2P Require Import Prelude Runtime PrefixEnd OpCounter Etcd CompletionQueue Threads Balance.
From S2P Require Import Safety Candidate CandidateFacts Campaign Leadership.
From stdpp Require Import sorting.
Open Scope Z_scope.
Open Scope gh_scope.
Import OpCounter Candidate.

Section resign.
Context `{TextFormat}.
#[local] Abbreviation W := (world candidate cb).
Implicit Types w : W.

(** ** [proclaim] *)

#[local] Abbreviation after_publish w value op ok resp :=
  (after_call "election_candidate/publish_value" (adapt_rpc "election_candidate/publish_value")
     (rq_txn (publish_request value op (self w))) ok resp w).
#[local] Abbreviation publish_answer ok resp := (txn_answer "election_candidate/publish_value" ok resp).

(** Every answer to [proclaim]: the value of the candidate changes when etcd accepted the new one under
    the candidate's own creation revision, and only then; a refusal and an error throw and leave it. The
    transaction is the only request made, and nothing else changes. *)
Theorem proclaim_outcome w value ok resp :
  wf (queue w) -> in_shutdown (ops_ (self w)) = false ->
  let s := sched [ev_completion (next_op (queue w)) ok resp; ev_wake] (proclaim value w) in
  let w1 := after_publish w value REQUEST_NOT_SET ok resp in
  match publish_answer ok resp with
  | Ok t => if tx_succeeded t then s = running (Finished (with_self (set_candidate_value value) w1) (Ok tt))
            else exists msg, s = running (Finished w1 (Throw (runtime_error msg)))
  | Throw e => s = running (Finished w1 (Throw e))
  | UB _ => False
  end.
Proof.
  intros Hwf Hs s w1. unfold s. rewrite <- (prog_then_ret (proclaim value w)). unfold proclaim.
  rewrite P_bind_then. cbn [lift gets_self gets prog_then]. rewrite Hs.
  rewrite P_bind_then, prog_then_assoc, sched_publish by done. fold w1.
  pose proof (txn_answer_not_ub "election_candidate/publish_value" ok resp) as Hub.
  destruct (publish_answer ok resp) as [t|e|x]; [|done|by destruct (Hub x)].
  destruct (tx_succeeded t); [done|]. by eexists.
Qed.

(** ** The cancellation of the watches *)

Definition cancel_op (c x : Z) : async_op cb :=
  AsyncOp "election_candidate/cancel_watcher" (functor (cb_watch_cancel x c))
    (rq_write_watch (cancel_request (to_int64 x))).

(** The queue after the cancellations of a list of watches were started. *)
Definition cancels_started (c : Z) (l : list Z) w w' : Prop :=
  wf (queue w') /\ watcher_stream_ (self w') = watcher_stream_ (self w) /\
  (exists counter counter', cancels (self w) !! c = Some counter /\ cancels (self w') !! c = Some counter' /\
     in_shutdown counter' = in_shutdown counter /\ pending counter' = pending counter + Z.of_nat (length l)) /\
  current_watches_ (self w') = current_watches_ (self w) /\ mu_ (self w') = mu_ (self w) /\
  forall op, (exists tag, pending_ops (queue w') !! tag = Some op) <->
    (exists tag, pending_ops (queue w) !! tag = Some op) \/ exists x, x ∈ l /\ op = cancel_op c x.

Lemma on_cancels_start c counter w :
  cancels (self w) !! c = Some counter -> in_shutdown counter = false ->
  on_cancels c OpCounter.start w =
  (with_self (fun s => set_cancels (<[c := Counter (pending counter + 1) false]> (cancels s)) s) w, Ok true).
Proof.
  intros Hc Hs. unfold on_cancels. rewrite Hc. unfold OpCounter.start, async_op_start, add_op.
  unfold in_shutdown in Hs. by rewrite Hs.
Qed.

Lemma elem_with_op name k r (q : completion_queue cb) op :
  wf q -> (exists tag, pending_ops (with_op name k r q) !! tag = Some op) <->
    (exists tag, pending_ops q !! tag = Some op) \/ op = AsyncOp name k r.
Proof.
  intros Hwf. unfold with_op. cbn. setoid_rewrite lookup_insert_Some. split.
  - intros (tag & [[_ <-]|[_ Ht]]); [by right|]. left. by exists tag.
  - intros [[tag Ht]| ->]; [|exists (next_op q); by left]. exists tag. right. split; [|done].
    intros <-. by rewrite (wf_fresh q Hwf) in Ht.
Qed.

Lemma cancel_watches_eq c l w counter :
  wf (queue w) -> watcher_stream_ (self w) = true ->
  cancels (self w) !! c = Some counter -> in_shutdown counter = false ->
  exists w', cancel_watches c l w = (w', Ok true) /\ cancels_started c l w w'.
Proof.
  revert w counter. induction l as [|x l IH]; intros w counter Hwf Hst Hc Hs; cbn [cancel_watches].
  - exists w. split; [done|]. split_and!; [done..| |done|done|].
    + exists counter, counter. split_and!; [done..|]. cbn. lia.
    + intros op. split; [by left|]. intros [?|(x & Hx & _)]; [done|by apply not_elem_of_nil in Hx].
  - rewrite (bind_ok _ _ _ _ _ (on_cancels_start c counter w Hc Hs)). cbn [negb].
    set (w1 := with_self _ w).
    assert (Hd : deref_stream w1 = (w1, Ok tt)) by (unfold deref_stream, gets_self; munfold; by rewrite Hst).
    rewrite (bind_ok _ _ _ _ _ Hd). rewrite (bind_ok _ _ _ _ _ (async_write_eq _ _ _ w1 Hwf)).
    set (w2 := with_queue _ w1).
    destruct (IH w2 (Counter (pending counter + 1) false)) as (w' & -> & Hw' & Hst' & Hcs & Hcur & Hmu & Ho);
      [by apply with_op_le|done|by cbn; rewrite lookup_insert_eq|done|].
    exists w'. split; [done|]. split_and!; [done|by rewrite Hst'| |by rewrite Hcur|by rewrite Hmu|].
    + destruct Hcs as (c1 & c2 & H1 & H2 & H3 & H4). cbn in H1. rewrite lookup_insert_eq in H1.
      injection H1 as <-. exists counter, c2. split_and!; [done..|by rewrite H3|]. cbn in *. lia.
    + intros op. rewrite Ho. unfold w2. cbn [with_queue queue]. rewrite elem_with_op by done.
      setoid_rewrite elem_of_cons. unfold cancel_op. split.
      * intros [[?| ->]|(y & Hy & ->)]; [by left|right; exists x; auto|right; exists y; auto].
      * intros [?|(y & [->|Hy] & ->)]; [by do 2 left|left; by right|right; exists y; auto].
Qed.

(** The ids come back: as unsigned numbers they are what [on_watch_read] recorded. *)
Definition is_int64 (z : Z) : Prop := - 2 ^ 63 <= z < 2 ^ 63.

Lemma elem_of_in_order (m : gset Z) x : x ∈ in_order m <-> x ∈ m.
Proof. unfold in_order. by rewrite merge_sort_Permutation, elem_of_elements. Qed.

Lemma cancel_ops_ids c (m : gset Z) ids op :
  Forall is_int64 ids -> m = list_to_set (to_uint64 <$> ids) ->
  (exists x, x ∈ in_order m /\ op = cancel_op c x) <->
  exists id, id ∈ ids /\ op = AsyncOp "election_candidate/cancel_watcher"
    (functor (cb_watch_cancel (to_uint64 id) c)) (rq_write_watch (cancel_request id)).
Proof.
  intros Hids ->. setoid_rewrite elem_of_in_order. setoid_rewrite elem_of_list_to_set.
  rewrite Forall_forall in Hids. split.
  - intros (x & (id & -> & Hid)%list_elem_of_fmap & ->). exists id. split; [done|].
    unfold cancel_op. by rewrite to_int64_to_uint64 by (by apply Hids).
  - intros (id & Hid & ->). exists (to_uint64 id). split; [apply list_elem_of_fmap; by exists id|].
    unfold cancel_op. by rewrite to_int64_to_uint64 by (by apply Hids).
Qed.

(** [resign], once the watches are taken out of the state. *)
Definition cancel_and_close (c : Z) (l : list Z) : P W unit :=
  with_destructor (
    completed ← lift (cancel_watches c l);
    if negb completed then mret tt
    else
      lift (on_cancels c OpCounter.enter_block);;
      block_until (fun w => match cancels (self w) !! c with
                            | Some counter => all_done counter
                            | None => true
                            end);;
      close_stream) (destroy_cancels c).
Definition resigning w : W :=
  with_self (fun s => set_cancels (<[fresh (dom (cancels s)) := new_counter]> (cancels s))
    (set_mu false (set_current_watches ∅ s))) w.

Lemma resign_eq w :
  in_shutdown (ops_ (self w)) = false -> mu_ (self w) = false -> watcher_stream_ (self w) = true ->
  resign w = cancel_and_close (fresh (dom (cancels (self w)))) (in_order (current_watches_ (self w))) (resigning w).
Proof.
  intros Hs Hmu Hst. unfold resign, lock, unlock, make_cancels, cancel_and_close. munfold. rewrite Hs. munfold.
  rewrite Hmu. munfold. rewrite Hst. munfold. reflexivity.
Qed.

Lemma cancel_and_close_blocks c l w counter :
  wf (queue w) -> watcher_stream_ (self w) = true -> cancels (self w) !! c = Some counter ->
  in_shutdown counter = false -> pending counter = 0 -> l <> [] ->
  exists w1, cancels_started c l w w1 /\ prog_outcome (cancel_and_close c l w) = None /\
    prog_world (cancel_and_close c l w) = fst (on_cancels c OpCounter.enter_block w1) /\
    exists counter', cancels (self w1) !! c = Some counter' /\ pending counter' = Z.of_nat (length l).
Proof.
  intros Hwf Hst Hc Hs Hp Hl. destruct (cancel_watches_eq c l w counter Hwf Hst Hc Hs) as (w1 & Hw1 & Hcs).
  exists w1. split; [done|]. pose proof Hcs as (_ & _ & (c0 & c1 & H0 & H1 & _ & H3) & _).
  rewrite Hc in H0. injection H0 as <-. unfold cancel_and_close, with_destructor.
  rewrite P_bind_then. unfold lift at 1 3. rewrite Hw1. cbn [prog_then negb].
  rewrite P_bind_then. unfold lift, on_cancels. rewrite H1. cbn [enter_block prog_then].
  rewrite P_bind_then. unfold block_until. cbn [with_self self cancels set_cancels].
  rewrite lookup_insert_eq. unfold all_done, block_enter, OpCounter.shutdown. cbn [pending].
  assert ((pending c1 =? 0) = false) as -> by (destruct l; [done|]; cbn in H3; lia).
  split_and!; [done..|]. exists c1. split; [done|lia].
Qed.

End resign.

Lemma proclaim_outcome_witness :
  @sched _ _ (@candidate_client empty_text_format _) _
    [ev_completion 1 true (Response status_OK (msg_txn
       {| tx_revision := 8; tx_succeeded := true; tx_responses := [] |})); ev_wake]
    (@proclaim empty_text_format _ "new" sample_candidate) =
  running (Finished (with_self (set_candidate_value "new") (after_call "election_candidate/publish_value"
    (adapt_rpc "election_candidate/publish_value")
    (rq_txn (publish_request "new" REQUEST_NOT_SET (self sample_candidate))) true
    (Response status_OK (msg_txn {| tx_revision := 8; tx_succeeded := true; tx_responses := [] |}))
    sample_candidate)) (Ok tt)).
Proof.
  exact (@proclaim_outcome empty_text_format sample_candidate "new" true
    (Response status_OK (msg_txn {| tx_revision := 8; tx_succeeded := true; tx_responses := [] |}))
    new_queue_wf eq_refl).
Defined.

(** A candidate with two watches, one of them with a negative id. *)
Definition watching : world candidate cb :=
  with_self (fun s => set_current_watches (list_to_set (to_uint64 <$> [0; -3])) (set_watcher_stream true s))
    sample_candidate.

