(* ===== verification/Progress.v ===== *)
(** * A campaign that goes well ends with the candidate elected

    The progress of a candidate, from the start of its campaign to its election: the stages
    it goes through for each predecessor, what etcd has to answer for it to get on, and the
    theorem that it does get on, however many predecessors it has to wait for. *)

From S2P Require Import Prelude Runtime PrefixEnd OpCounter Etcd CompletionQueue.
From S2P Require Import Candidate CandidateFacts Leadership Campaign.
Open Scope Z_scope.
Open Scope gh_scope.
Import OpCounter Candidate.

(** ** The stages

    A candidate that is getting on has exactly one operation under way for its election: the query, the
    request for a watch on the predecessor that the query found, or a read on that watch. *)

Inductive stage :=
  | asking
  | creating (key : string) (revision : Z)
  | waiting (key : string) (revision : Z).

Definition stage_callback (st : stage) : cb :=
  match st with
  | asking => cb_range_request
  | creating key revision => cb_watch_create key revision
  | waiting key revision => cb_watch_read key revision
  end.

(** The predecessor whose end the candidate waits for. *)
Definition stage_keys (st : stage) : gset string :=
  match st with asking => ∅ | creating key _ | waiting key _ => {[key]} end.

(** An answer to a read that keeps the watch, and whether it says that the key is deleted. *)
Definition keeps_watch (r : WatchResponse) : Prop :=
  wr_canceled r = false /\ wr_compact_revision r = 0.
Definition deletes (key : string) (r : WatchResponse) : Prop :=
  Exists (fun ev => ev_type ev = DELETE /\ kv_key (ev_prev_kv ev) = key) (wr_events r).
#[export] Instance deletes_dec key r : Decision (deletes key r).
Proof. unfold deletes. apply _. Defined.

(** What etcd answers, and the stage that follows. A watch that etcd gives up is not an answer
    to go on with: [Leadership.compaction_stalls_election]. *)
Inductive gets_on : stage -> response -> stage -> Prop :=
  | found_predecessor resp kv :
      status_ok (r_status resp) = true -> rg_kvs (as_range (r_message resp)) = [kv] ->
      gets_on asking resp (creating (kv_key kv) (rg_revision (as_range (r_message resp))))
  | watch_requested key revision resp :
      gets_on (creating key revision) resp (waiting key revision)
  | other_events key revision resp :
      keeps_watch (as_watch (r_message resp)) -> ~ deletes key (as_watch (r_message resp)) ->
      gets_on (waiting key revision) resp (waiting key revision)
  | predecessor_gone key revision resp :
      keeps_watch (as_watch (r_message resp)) -> deletes key (as_watch (r_message resp)) ->
      gets_on (waiting key revision) resp asking.

(** The events of a loop, from the stage on, whose operation has the address [tag], to the election, when
    [next] is the next address: time passes, etcd answers, and at the end a query finds
    no predecessor. *)
Inductive path : stage -> Z -> Z -> list sched_event -> Prop :=
  | path_elected tag next resp :
      status_ok (r_status resp) = true -> rg_kvs (as_range (r_message resp)) = [] ->
      path asking tag next [ev_completion tag true resp]
  | path_answer st tag next resp st' es :
      gets_on st resp st' -> path st' next (next + 1) es ->
      path st tag next (ev_completion tag true resp :: es)
  | path_clock st tag next t es :
      path st tag next es -> path st tag next (ev_clock t :: es).

Section progress.
Context `{TextFormat}.
#[local] Abbreviation W := (world candidate cb).
Implicit Types w : W.

(** The object between two callbacks of the stage. *)
Record ready (st : stage) w : Prop := {
  ready_wf : wf (queue w);
  ready_mu : mu_ (self w) = false;
  ready_stream : watcher_stream_ (self w) = true;
  ready_ops : in_shutdown (ops_ (self w)) = false;
  ready_reads : in_shutdown (reads_ (self w)) = false;
  ready_keys : watched_keys_ (self w) = stage_keys st;
  ready_result : result (promise_ (self w)) = None
}.
Definition at_stage (st : stage) (tag : Z) w : Prop :=
  ready st w /\ exists op, pending_ops (queue w) !! tag = Some op /\
    op_callback op = functor (stage_callback st).

(** The only operation that a member started on [w] to get to [w'] is the one of the stage. *)
Definition moves_on (st : stage) w w' : Prop :=
  ready st w' /\ next_op (queue w') = next_op (queue w) + 1 /\ now (queue w') = now (queue w) /\
  exists op, pending_ops (queue w') !! next_op (queue w) = Some op /\
    op_callback op = functor (stage_callback st).

(** ** Each callback moves on *)

Lemma ready_with_op st name k r w :
  ready st w -> stage_callback st = k -> moves_on st w (with_queue (with_op name (functor k) r) w).
Proof.
  intros Hr <-. pose proof Hr as [Hwf ??????]. split_and!; [by split; try apply with_op_le|done|done|].
  eexists. split; [apply lookup_insert_eq|done].
Qed.

(** The state is ready for another stage, as far as the keys are the stage's. *)
Lemma ready_self st st' s w :
  ready st w -> mu_ s = false -> watcher_stream_ s = watcher_stream_ (self w) ->
  in_shutdown (ops_ s) = in_shutdown (ops_ (self w)) ->
  in_shutdown (reads_ s) = in_shutdown (reads_ (self w)) -> watched_keys_ s = stage_keys st' ->
  promise_ s = promise_ (self w) ->
  ready st' (World s (queue w)).
Proof. intros [] Hm Hst Ho Hr Hk Hp. split; cbn; congruence. Qed.

Lemma erased_keys key r :
  erase_deleted (wr_events r) {[key]} = if bool_decide (deletes key r) then ∅ else {[key]}.
Proof.
  apply set_eq. intros k. rewrite elem_of_erase_deleted. unfold deletes.
  case_bool_decide as Hd; rewrite Exists_exists in Hd; set_solver.
Qed.

(** The mutual exclusion of the callbacks is not at stake: one runs at a time. *)
Lemma on_range_request_moves resp kv w :
  ready asking w -> status_ok (r_status resp) = true ->
  rg_kvs (as_range (r_message resp)) = [kv] ->
  exists w', on_range_request resp true w = (w', Ok tt) /\
    moves_on (creating (kv_key kv) (rg_revision (as_range (r_message resp)))) w w'.
Proof.
  destruct w as [[mu lease st name pre val key rev cur wat el pr [no fo] [nr fr] can] q].
  intros [Hwf Hmu Hst Ho Hr Hk Hres] Hok Hkvs. unfold in_shutdown in Ho, Hr. cbn in *. subst.
  unfold on_range_request, check_election_over_maybe, check_grpc_status, ops_done, zoom,
    OpCounter.done, lock, unlock, gets_self, modify_self. munfold. rewrite Hok, Hkvs.
  cbn [watch_keys]. munfold. unfold ops_start, zoom, OpCounter.start, async_op_start, add_op,
    deref_stream, gets_self, modify_self. munfold.
  rewrite async_write_eq by done. munfold.
  rewrite bool_decide_false by set_solver. munfold.
  eexists. split; [done|]. split_and!; [|done|done|].
  - split; cbn; try done; [by apply with_op_le|set_solver].
  - eexists. split; [apply lookup_insert_eq|done].
Qed.

Lemma on_watch_create_moves resp key revision w :
  ready (creating key revision) w ->
  exists w', on_watch_create resp true key revision w = (w', Ok tt) /\
    moves_on (waiting key revision) w w'.
Proof.
  destruct w as [[mu lease st name pre val k rev cur wat el pr [no fo] [nr fr] can] q].
  intros [Hwf Hmu Hst Ho Hr Hk Hres]. unfold in_shutdown in Ho, Hr. cbn in *. subst.
  unfold on_watch_create, ops_done, reads_start, deref_stream, zoom, OpCounter.done,
    OpCounter.start, async_op_start, add_op, gets_self. munfold.
  rewrite async_read_eq by done. eexists. split; [done|]. split_and!; [|done|done|].
  - split; cbn; try done. by apply with_op_le.
  - eexists. split; [apply lookup_insert_eq|done].
Qed.

Lemma on_watch_read_moves resp key revision w :
  ready (waiting key revision) w -> keeps_watch (as_watch (r_message resp)) ->
  exists w', on_watch_read resp true key revision w = (w', Ok tt) /\
    moves_on (if bool_decide (deletes key (as_watch (r_message resp))) then asking
              else waiting key revision) w w'.
Proof.
  intros Hw [Hc Hr]. pose proof Hw as [Hwf Hmu Hst Ho Hrd Hk Hres].
  rewrite on_watch_read_eq by done. eexists. split; [done|].
  unfold read_result, read_asks_query. rewrite Hc, Hr, Hk. cbn [stage_keys]. rewrite erased_keys.
  cbn [orb negb Z.eqb]. case_bool_decide as Hd.
  - rewrite bool_decide_true by done. unfold after_query.
    split_and!; [|done|done|by eexists; split; [apply lookup_insert_eq|]].
    split; cbn; try done; [by apply with_op_le|cbn in Hk; by rewrite Hk, erased_keys, bool_decide_true].
  - rewrite bool_decide_false by set_solver.
    assert (Hs : in_shutdown (reads_ (set_reads (async_op_done (reads_ (self w)))
      (read_state (as_watch (r_message resp)) (self w)))) = false) by done.
    rewrite Hs. split_and!; [|done|done|by eexists; split; [apply lookup_insert_eq|]].
    split; cbn; try done; [by apply with_op_le|cbn in Hk; by rewrite Hk, erased_keys, bool_decide_false].
Qed.

(** ** The events *)

Lemma at_stage_event st tag w ok resp :
  at_stage st tag w -> exists w0, ready st w0 /\ next_op (queue w0) = next_op (queue w) /\ now (queue w0) = now (queue w) /\
    on_event tag ok resp w = invoke_cb (stage_callback st) resp ok w0.
Proof.
  intros [Hr (op & Hop & Hcb)]. pose proof (ready_wf _ _ Hr) as Hwf.
  pose proof Hwf as (_ & Hpos & _). specialize (Hpos _ _ Hop).
  rewrite (on_event_pending _ _ _ _ op) by (done || lia). unfold run_callback. rewrite Hcb.
  eexists. split; [|split; [|split; [|reflexivity]]]; [|done..].
  destruct Hr. split; try done. by apply queue_le_unregister.
Qed.

Lemma gets_on_event st resp st' tag w :
  gets_on st resp st' -> at_stage st tag w ->
  exists w', on_event tag true resp w = (w', Ok tt) /\ at_stage st' (next_op (queue w)) w' /\
    next_op (queue w') = next_op (queue w) + 1 /\ now (queue w') = now (queue w).
Proof.
  intros Hg Hw. destruct (at_stage_event st tag w true resp Hw) as (w0 & Hr & <- & <- & ->).
  enough (exists w', invoke_cb (stage_callback st) resp true w0 = (w', Ok tt) /\ moves_on st' w0 w')
    as (w' & E & ? & ? & ? & ?) by (by exists w').
  destruct Hg as [resp kv Hok Hkvs|key revision resp|key revision resp Hk Hd|key revision resp Hk Hd];
    cbn [invoke_cb stage_callback].
  - by apply on_range_request_moves.
  - by apply on_watch_create_moves.
  - destruct (on_watch_read_moves resp key revision w0 Hr Hk) as (w' & ? & Hm).
    rewrite bool_decide_false in Hm by done. by exists w'.
  - destruct (on_watch_read_moves resp key revision w0 Hr Hk) as (w' & ? & Hm).
    rewrite bool_decide_true in Hm by done. by exists w'.
Qed.

(** A candidate that won: [elected()], and the future of the campaign holds [true]. *)
Definition won w : Prop :=
  elected_ (self w) = true /\ result (promise_ (self w)) = Some (Ok true).

Lemma no_predecessor_elects tag w resp :
  at_stage asking tag w -> status_ok (r_status resp) = true ->
  rg_kvs (as_range (r_message resp)) = [] ->
  exists w', on_event tag true resp w = (w', Ok tt) /\ won w'.
Proof.
  intros Hw Hok Hkvs. destruct (at_stage_event asking tag w true resp Hw) as (w0 & Hr & _ & _ & ->).
  cbn [invoke_cb stage_callback]. clear Hw w.
  destruct w0 as [[mu lease st name pre val key rev cur wat el pr [no fo] [nr fr] can] q].
  destruct Hr as [Hwf Hmu Hst Ho Hr Hk Hres]. unfold in_shutdown in Ho, Hr. cbn in *. subst.
  unfold on_range_request, check_election_over_maybe, check_grpc_status, ops_done, zoom,
    OpCounter.done, lock, unlock, gets_self, modify_self. munfold. rewrite Hok, Hkvs.
  cbn [watch_keys]. munfold. rewrite bool_decide_true by done. munfold.
  rewrite election_result_eq. eexists. split; [done|]. split; [done|].
  cbn. by rewrite Hres.
Qed.

Lemma path_wins {A} st tag next es w (r : outcome A) :
  path st tag next es -> at_stage st tag w -> next_op (queue w) = next ->
  exists w', sched es (Finished w r) = running (Finished w' r) /\ won w'.
Proof.
  intros Hp. revert w. induction Hp as [tag next resp Hok Hkvs|st tag next resp st' es Hg _ IH
    |st tag next t es _ IH]; intros w Hw Hn; cbn [sched sched_step prog_world].
  - destruct (no_predecessor_elects tag w resp Hw Hok Hkvs) as (w' & -> & Hwon).
    by exists w'.
  - destruct (gets_on_event st resp st' tag w Hg Hw) as (w' & -> & Hw' & Hn' & _).
    rewrite Hn in *. by apply IH.
  - apply IH; [|done]. destruct Hw as [[] Hop]. by split.
Qed.

(** The start: the stream and the node are created, and the first query is under way. *)
Lemma campaign_asks w resp resp' t :
  wf (queue w) -> mu_ (self w) = false -> watched_keys_ (self w) = ∅ ->
  promise_ (self w) = new_promise ->
  in_shutdown (ops_ (self w)) = false -> in_shutdown (reads_ (self w)) = false ->
  txn_answer "election_candidate/create_node" true resp' = Ok t -> tx_succeeded t = true ->
  let n := next_op (queue w) in
  exists w', sched [ev_completion n true resp; ev_wake; ev_completion (n + 1) true resp'; ev_wake] (campaign w) =
      running (Finished w' (Ok tt)) /\
    at_stage asking (n + 2) w' /\ next_op (queue w') = n + 3 /\ now (queue w') = now (queue w).
Proof.
  intros Hwf Hmu Hk Hp Ho Hr Ht Hs n.
  destruct (campaign_starts_query w true resp true resp' t) as (w1 & Hrun & Hself & Hwf1 & Hn & Hnow & Hops);
    [by rewrite ?Hp..|].
  exists w1. split_and!; [done| |done..]. split; [|rewrite Hops; eexists; split; [apply lookup_insert_eq|done]].
  split; rewrite ?Hself; cbn; rewrite ?Hp; done.
Qed.

(** A campaign on a candidate that is not used yet, on whatever queue: the stream and the node are
    created, and from then on etcd answers each query with the closest predecessor, grants the
    watch on it, and reports in the end that it is gone, until a query finds none. However many
    predecessors there are, and whatever else the watches report, [campaign] returns, no
    callback throws, and at the end [elected()] is true and the future of the campaign
    holds [true]. *)
Theorem campaign_gets_elected w resp resp' t es :
  wf (queue w) -> mu_ (self w) = false -> watched_keys_ (self w) = ∅ ->
  promise_ (self w) = new_promise ->
  in_shutdown (ops_ (self w)) = false -> in_shutdown (reads_ (self w)) = false ->
  txn_answer "election_candidate/create_node" true resp' = Ok t -> tx_succeeded t = true ->
  let n := next_op (queue w) in
  path asking (n + 2) (n + 3) es ->
  exists w', sched (ev_completion n true resp :: ev_wake :: ev_completion (n + 1) true resp' ::
      ev_wake :: es) (campaign w) = running (Finished w' (Ok tt)) /\ won w'.
Proof.
  intros Hwf Hmu Hk Hp Ho Hr Ht Hs n Hpath.
  destruct (campaign_asks w resp resp' t) as (w1 & Hrun & Hw1 & Hn & _); [done..|].
  change (ev_completion n true resp :: ev_wake :: ev_completion (n + 1) true resp' :: ev_wake :: es)
    with ([ev_completion n true resp; ev_wake; ev_completion (n + 1) true resp'; ev_wake] ++ es).
  rewrite sched_app. fold n in Hrun. rewrite Hrun. by eapply path_wins.
Qed.

End progress.

(** ** The theorem applied: the campaign of the tests, with one predecessor *)

#[local] Existing Instance empty_text_format.

Lemma campaign_gets_elected_witness :
  path asking 3 4 (drop 4 campaign_events) /\
  exists w', sched campaign_events (campaign sample_candidate) = running (Finished w' (Ok tt)) /\
    won w'.
Proof.
  assert (path asking 3 4 (drop 4 campaign_events)) as Hpath.
  { apply (path_answer asking 3 4 _ (creating "e/1" 8)).
    { exact (found_predecessor (Response status_OK (msg_range
        {| rg_revision := 8; rg_kvs := [KV "e/1" "v" 3] |})) (KV "e/1" "v" 3) eq_refl eq_refl). }
    apply (path_answer _ 4 5 _ (waiting "e/1" 8)); [apply watch_requested|].
    apply (path_answer _ 5 6 _ (waiting "e/1" 8)).
    { apply other_events; [split; reflexivity|]. apply (bool_decide_unpack _). reflexivity. }
    apply (path_answer _ 6 7 _ asking).
    { apply predecessor_gone; [split; reflexivity|]. apply (bool_decide_unpack _). reflexivity. }
    apply path_elected; reflexivity. }
  split; [exact Hpath|].
  set (t := {| tx_revision := 7; tx_succeeded := true; tx_responses := [] |}).
  exact (campaign_gets_elected sample_candidate (Response status_OK msg_none)
    (Response status_OK (msg_txn t)) t _ new_queue_wf eq_refl eq_refl eq_refl eq_refl
    eq_refl eq_refl eq_refl Hpath).
Defined.
