(* ===== verification/Server.v ===== *)
(** * An etcd server

    The server is not part of the sources: a class states the laws of its documentation that an
    election rests on. The keys have the revision of the store in which they were created, the
    revision grows, a transaction is atomic, a range request finds what it asks for. An instance
    in memory shows that the laws can hold. *)

From stdpp Require Import sorting.
From S2P Require Import Prelude Runtime PrefixEnd OpCounter Etcd.
Open Scope Z_scope.
Open Scope gh_scope.

(** ** The server *)

Definition is_put (op : RequestOp) : bool := match op with request_put _ _ _ => true | _ => false end.
Definition at_most_one_put (r : TxnRequest) : Prop :=
  (length (List.filter is_put (tq_success r)) <= 1)%nat /\ (length (List.filter is_put (tq_failure r)) <= 1)%nat.

(** A key is among those a range request asks for. *)
Definition selected (r : RangeRequest) (key : string) (kv : KeyValue) : Prop :=
  in_range (rr_key r) (rr_range_end r) key = true /\
  (rr_max_create_revision r = 0 \/ kv_create_revision kv <= rr_max_create_revision r).

(** The revisions of a transaction's answer. *)
Definition answer_bounded (revision : Z) (t : TxnResponse) : Prop :=
  tx_revision t <= revision /\
  forall r kv, r ∈ tx_responses t -> kv ∈ rg_kvs (response_range r) -> kv_create_revision kv <= revision.

(** [store] has the keys that exist; [changes] is what any client can do, or time. The creation revision of a
    key is the revision of the store in which the key was created. *)
Class EtcdServer (E : Type) := {
  revision : E -> Z;
  store : E -> gmap string KeyValue;
  changes : E -> E -> Prop;
  serve_range : E -> RangeRequest -> RangeResponse;
  serve_txn : E -> TxnRequest -> E * TxnResponse;
  revision_nonneg e : 0 <= revision e;
  revision_grows e e' : changes e e' -> revision e <= revision e';
  created_since e e' key kv : changes e e' -> store e' !! key = Some kv ->
    (exists kv0, store e !! key = Some kv0 /\ kv_create_revision kv0 = kv_create_revision kv) \/
    revision e < kv_create_revision kv;
  range_finds e r key kv : store e !! key = Some kv -> selected r key kv -> 0 <= rr_limit r ->
    rg_kvs (serve_range e r) <> [];
  txn_changes e r : changes e (serve_txn e r).1;
  txn_creates_one e r : at_most_one_put r -> forall key kv key' kv',
    store (serve_txn e r).1 !! key = Some kv -> store (serve_txn e r).1 !! key' = Some kv' ->
    revision e < kv_create_revision kv -> kv_create_revision kv = kv_create_revision kv' -> key = key';
  txn_answer_bounded e r : answer_bounded (revision (serve_txn e r).1) (serve_txn e r).2
}.

(** ** A server in memory *)

Module Memory.

Record memory := Mem { latest : N; table : gmap string KeyValue }.

Definition revision_of (m : memory) : Z := Z.of_N (latest m).
(** The keys whose creation revision is one of the store's. *)
Definition keys (m : memory) : gmap string KeyValue :=
  filter (fun p => 0 < kv_create_revision p.2 <= revision_of m) (table m).

(** The keys a request selects, by their revision when it asks for an order, up to its limit. *)
Definition selects (r : RangeRequest) (p : string * KeyValue) : bool :=
  in_range (rr_key r) (rr_range_end r) p.1 &&
  ((rr_max_create_revision r =? 0) || (kv_create_revision p.2 <=? rr_max_create_revision r)).
Definition newer (a b : KeyValue) : Prop := kv_create_revision b <= kv_create_revision a.
Definition older (a b : KeyValue) : Prop := kv_create_revision a <= kv_create_revision b.
#[export] Instance newer_dec : RelDecision newer.
Proof. intros a b. unfold newer. apply _. Defined.
#[export] Instance older_dec : RelDecision older.
Proof. intros a b. unfold older. apply _. Defined.
Definition ordered (r : RangeRequest) (l : list KeyValue) : list KeyValue :=
  match rr_sort_order r with
  | NONE => l
  | ASCEND => merge_sort older l
  | DESCEND => merge_sort newer l
  end.
Definition limited (r : RangeRequest) (l : list KeyValue) : list KeyValue :=
  if rr_limit r =? 0 then l else take (Z.to_nat (rr_limit r)) l.
Definition range (m : memory) (r : RangeRequest) : RangeResponse := {|
  rg_revision := revision_of m;
  rg_kvs := limited r (ordered r (snd <$> List.filter (selects r) (map_to_list (keys m))))
|}.

(** A transaction: its comparisons, and the operations of one of its branches, in one revision. *)
Definition holds (m : memory) (c : Compare) : bool :=
  cmp_create_revision c =? kv_create_revision (default KeyValue_default (keys m !! cmp_key c)).
Definition writes (op : RequestOp) : bool :=
  match op with request_put _ _ _ | request_delete_range _ => true | _ => false end.
Definition created_at (revision : Z) (old : option KeyValue) : Z :=
  match old with Some kv => kv_create_revision kv | None => revision end.
Definition apply_op (revision : Z) (op : RequestOp) (t : gmap string KeyValue) :
    gmap string KeyValue * ResponseOp :=
  match op with
  | request_put key value _ => (<[key := KV key value (created_at revision (t !! key))]> t, response_other)
  | request_delete_range key => (delete key t, response_other)
  | request_range key => (t, response_range_op {| rg_revision := revision; rg_kvs := option_list (t !! key) |})
  | REQUEST_NOT_SET => (t, response_other)
  end.
Fixpoint apply_ops (revision : Z) (ops : list RequestOp) (t : gmap string KeyValue) :
    gmap string KeyValue * list ResponseOp :=
  match ops with
  | [] => (t, [])
  | op :: ops' =>
      let '(t1, r) := apply_op revision op t in
      let '(t2, rs) := apply_ops revision ops' t1 in (t2, r :: rs)
  end.
Definition branch (m : memory) (r : TxnRequest) : list RequestOp :=
  if forallb (holds m) (tq_compare r) then tq_success r else tq_failure r.
Definition next_revision (m : memory) (ops : list RequestOp) : N :=
  (latest m + if existsb writes ops then 1 else 0)%N.
Definition txn (m : memory) (r : TxnRequest) : memory * TxnResponse :=
  let ops := branch m r in
  let next := next_revision m ops in
  let '(t, rs) := apply_ops (Z.of_N next) ops (keys m) in
  (Mem next t, {| tx_revision := Z.of_N next; tx_succeeded := forallb (holds m) (tq_compare r);
                  tx_responses := rs |}).

(** What may become of the store: keys stay, with their creation revisions, go, or are created later. *)
Definition evolves (m m' : memory) : Prop :=
  revision_of m <= revision_of m' /\
  forall key kv, keys m' !! key = Some kv ->
    (exists kv0, keys m !! key = Some kv0 /\ kv_create_revision kv0 = kv_create_revision kv) \/
    revision_of m < kv_create_revision kv.

(** The lease of a key expires. *)
Definition expire (key : string) (m : memory) : memory := Mem (latest m) (delete key (table m)).

Lemma keys_bounded m key kv : keys m !! key = Some kv -> 0 < kv_create_revision kv <= revision_of m.
Proof. unfold keys. by intros [_ ?]%map_lookup_filter_Some. Qed.

Lemma range_nonempty m r key kv :
  keys m !! key = Some kv -> selected r key kv -> 0 <= rr_limit r -> rg_kvs (range m r) <> [].
Proof.
  intros Hk [Hr Hm] Hl. set (l := snd <$> List.filter (selects r) (map_to_list (keys m))).
  assert (Hin : kv ∈ l).
  { apply list_elem_of_fmap. exists (key, kv). split; [done|]. apply list_elem_of_In, filter_In.
    split; [by apply list_elem_of_In, elem_of_map_to_list|]. unfold selects. cbn. rewrite Hr. cbn.
    apply orb_true_iff. rewrite Z.eqb_eq, Z.leb_le. done. }
  assert (Hlen : (0 < length (ordered r l))%nat).
  { assert (ordered r l ≡ₚ l) as ->
      by (unfold ordered; destruct (rr_sort_order r); [done|apply merge_sort_Permutation..]).
    destruct l; [by apply not_elem_of_nil in Hin|cbn; lia]. }
  cbn. fold l. unfold limited. destruct (rr_limit r =? 0) eqn:E0;
    intros E; apply (f_equal length) in E; rewrite ?length_take in E; cbn in E; lia.
Qed.

(** What the operations of a transaction leave in the table. *)
Definition from (revision : Z) (ops : list RequestOp) (t : gmap string KeyValue) (key : string) (kv : KeyValue) :
    Prop :=
  (exists kv0, t !! key = Some kv0 /\ kv_create_revision kv0 = kv_create_revision kv) \/
  (kv_create_revision kv = revision /\ exists value lease, request_put key value lease ∈ ops).

Lemma apply_op_from revision op t key kv :
  (apply_op revision op t).1 !! key = Some kv -> from revision [op] t key kv.
Proof.
  destruct op as [k value lease|k|k|]; cbn; [|intros ?; left; by eexists| |intros ?; left; by eexists].
  - rewrite lookup_insert_Some. intros [[<- <-]|[_ Hk]]; [|left; by eexists]. cbn.
    destruct (t !! k) as [kv0|] eqn:E; [left; by eexists|]. right. split; [done|]. eexists _, _. by left.
  - intros [_ Hk]%lookup_delete_Some. left. by eexists.
Qed.

Lemma apply_ops_from revision ops t key kv :
  (apply_ops revision ops t).1 !! key = Some kv -> from revision ops t key kv.
Proof.
  revert t. induction ops as [|op ops IH]; intros t; cbn; [intros ?; left; by eexists|].
  pose proof (apply_op_from revision op t key) as Hop.
  destruct (apply_op revision op t) as [t1 r]. specialize (IH t1). cbn in Hop.
  destruct (apply_ops revision ops t1) as [t2 rs]. cbn in *. intros Hk.
  destruct (IH Hk) as [(kv0 & Hk0 & E0)|(E & value & lease & Hin)];
    [|right; split; [done|]; exists value, lease; by right].
  destruct (Hop kv0 Hk0) as [(kv1 & Hk1 & E1)|(E & value & lease & Hin)].
  - left. exists kv1. split; [done|congruence].
  - right. split; [congruence|]. exists value, lease. apply list_elem_of_singleton in Hin as ->. by left.
Qed.

Lemma apply_ops_answers revision bound ops t :
  revision <= bound -> (forall key kv, t !! key = Some kv -> kv_create_revision kv <= bound) ->
  forall r kv, r ∈ (apply_ops revision ops t).2 -> kv ∈ rg_kvs (response_range r) ->
    kv_create_revision kv <= bound.
Proof.
  intros Hb. revert t. induction ops as [|op ops IH]; intros t Ht r kv; cbn; [by intros []%not_elem_of_nil|].
  pose proof (apply_op_from revision op t) as Hop.
  assert (Hr : forall kv, kv ∈ rg_kvs (response_range (apply_op revision op t).2) -> kv_create_revision kv <= bound).
  { intros kv'. destruct op as [k value lease|k|k|]; cbn; try by intros []%not_elem_of_nil.
    destruct (t !! k) as [kv0|] eqn:E; cbn; [|by intros []%not_elem_of_nil].
    intros ->%list_elem_of_singleton. by eapply Ht. }
  destruct (apply_op revision op t) as [t1 r1]. specialize (IH t1). cbn in *.
  destruct (apply_ops revision ops t1) as [t2 rs]. cbn in *.
  rewrite elem_of_cons. intros [->|Hin]; [apply Hr|]. apply IH; [|done].
  intros key kv' Hk. destruct (Hop key kv' Hk) as [(kv0 & Hk0 & E0)|(-> & _)]; [|done].
  rewrite <- E0. by eapply Ht.
Qed.

Lemma txn_eq m r :
  let next := next_revision m (branch m r) in
  txn m r = (Mem next (apply_ops (Z.of_N next) (branch m r) (keys m)).1,
    {| tx_revision := Z.of_N next; tx_succeeded := forallb (holds m) (tq_compare r);
       tx_responses := (apply_ops (Z.of_N next) (branch m r) (keys m)).2 |}).
Proof. cbv zeta. unfold txn. by destruct (apply_ops _ _ _). Qed.

(** A key of the store after a transaction is an old one, or one the transaction put. *)
Lemma txn_keys m r key kv :
  keys (txn m r).1 !! key = Some kv ->
  (exists kv0, keys m !! key = Some kv0 /\ kv_create_revision kv0 = kv_create_revision kv) \/
  (revision_of m < kv_create_revision kv /\ exists value lease, request_put key value lease ∈ branch m r).
Proof.
  rewrite txn_eq. unfold keys at 1. cbn. intros [Hk _]%map_lookup_filter_Some.
  destruct (apply_ops_from _ _ _ _ _ Hk) as [?|(-> & value & lease & Hin)]; [by left|]. right.
  split; [|by eexists _, _]. unfold next_revision, revision_of.
  assert (existsb writes (branch m r) = true) as ->; [|lia].
  apply existsb_exists. eexists. by split; [apply list_elem_of_In|].
Qed.

Lemma one_put ops :
  (length (List.filter is_put ops) <= 1)%nat -> forall k v l k' v' l',
  request_put k v l ∈ ops -> request_put k' v' l' ∈ ops -> k = k'.
Proof.
  intros Hl k v l k' v' l' Hi Hi'. rewrite list_elem_of_In in *.
  assert (In (request_put k v l) (List.filter is_put ops)) as H1 by (by apply filter_In).
  assert (In (request_put k' v' l') (List.filter is_put ops)) as H2 by (by apply filter_In).
  destruct (List.filter is_put ops) as [|op [|]]; cbn in *; [done| |lia].
  destruct H1 as [->|[]], H2 as [[= -> _ _]|[]]. done.
Qed.

Lemma txn_evolves m r : evolves m (txn m r).1.
Proof.
  split.
  - rewrite txn_eq. unfold revision_of, next_revision. cbn. lia.
  - intros key kv Hk. destruct (txn_keys m r key kv Hk) as [?|[? _]]; auto.
Qed.

#[export] Program Instance memory_server : EtcdServer memory := {|
  revision := revision_of;
  store := keys;
  changes := evolves;
  serve_range := range;
  serve_txn := txn
|}.
Next Obligation. intros m. unfold revision_of. lia. Qed.
Next Obligation. by intros m m' []. Qed.
Next Obligation. intros m m' key kv [_ Hk]. exact (Hk key kv). Qed.
Next Obligation. exact range_nonempty. Qed.
Next Obligation. exact txn_evolves. Qed.
Next Obligation.
  intros m r [Hs Hf] k kv k' kv' Hk Hk' Hnew Heq.
  destruct (txn_keys m r k kv Hk) as [(kv0 & Hk0 & E0)|(_ & v & l & Hp)];
    [apply keys_bounded in Hk0; lia|].
  destruct (txn_keys m r k' kv' Hk') as [(kv0 & Hk0 & E0)|(_ & v' & l' & Hp')];
    [apply keys_bounded in Hk0; lia|].
  assert (length (List.filter is_put (branch m r)) <= 1)%nat as H1 by (unfold branch; by destruct (forallb _ _)).
  by eapply one_put.
Qed.
Next Obligation.
  intros m r. split; [by rewrite txn_eq|]. rewrite txn_eq. cbn. apply apply_ops_answers; [done|].
  intros key kv Hk%keys_bounded. revert Hk. unfold revision_of, next_revision. cbn. lia.
Qed.

Lemma expire_keys key m key' kv : keys (expire key m) !! key' = Some kv -> keys m !! key' = Some kv.
Proof. unfold keys. cbn. rewrite !map_lookup_filter_Some, lookup_delete_Some. tauto. Qed.
Lemma expire_evolves key m : evolves m (expire key m).
Proof. split; [done|]. intros k kv Hk%expire_keys. left. by eexists. Qed.

End Memory.
