(* ===== verification/Election.v ===== *)
(** * A candidate's view of an election

    A candidate next to a server that answers its requests: a request is answered at some moment
    between its start and its completion; the completion may be an error instead, or
    come late; the stream of a watch may report anything; the server changes at any time.
    Whatever happens, a candidate that takes itself for the leader has no node older than
    its own in the election. *)

From S2P Require Import Prelude Runtime PrefixEnd OpCounter Etcd CompletionQueue Threads Balance.
From S2P Require Import Safety Candidate CandidateFacts Leadership Server.
Open Scope Z_scope.
Open Scope gh_scope.
Import OpCounter Candidate.

Section election.
Context `{TextFormat} {E : Type} `{EtcdServer E}.
#[local] Abbreviation W := (world candidate cb).

(** The answer of the server to a request it computes; streams are not modelled on its side. *)
Definition serve (e : E) (rq : request) : option (E * message) :=
  match rq with
  | rq_range r => Some (e, msg_range (serve_range e r))
  | rq_txn r => Some ((serve_txn e r).1, msg_txn (serve_txn e r).2)
  | _ => None
  end.
Definition is_served (rq : request) : bool :=
  match rq with rq_range _ | rq_txn _ => true | _ => false end.

(** ** A candidate's view

    The server, the answers on their way to the candidate, by operation, and the candidate's world. *)
Record view := View { server : E; answers : gmap Z message; local : W }.

Definition serve_op (tag : Z) (v : view) : option view :=
  op ← pending_ops (queue (local v)) !! tag;
  match answers v !! tag with
  | Some _ => None
  | None => '(e, m) ← serve (server v) (op_request op); Some (View e (<[tag := m]> (answers v)) (local v))
  end.

(** A completion with the server's answer, or with an error and any message. *)
Definition deliver_op (tag : Z) (ok : bool) (st : status) (m : message) (v : view) : option view :=
  op ← pending_ops (queue (local v)) !! tag;
  m ← (if ok && status_ok st && is_served (op_request op) then answers v !! tag else Some m);
  match on_event tag ok (Response st m) (local v) with
  | (w, Ok _) => Some (View (server v) (answers v) w)
  | _ => None
  end.

Inductive view_step (v : view) : view -> Prop :=
  | vs_changes e' : changes (server v) e' -> view_step v (View e' (answers v) (local v))
  | vs_serve tag v' : serve_op tag v = Some v' -> view_step v v'
  | vs_deliver tag ok st m v' : deliver_op tag ok st m v = Some v' -> view_step v v'
  | vs_clock t : view_step v (View (server v) (answers v) (with_queue (set_now t) (local v))).

(** ** What holds of a candidate *)

(** No node of the election is older than the candidate's. *)
Definition no_older (e : E) (s : candidate) : Prop :=
  forall key kv, store e !! key = Some kv -> has_prefix (election_prefix_ s) key ->
    creation_revision_ s <= kv_create_revision kv.

Definition good_op (s : candidate) (op : async_op cb) : Prop :=
  (op_callback op = functor cb_range_request -> op_request op = rq_range (predecessor_request s)) /\
  (forall r, op_request op = rq_txn r -> at_most_one_put r).

Definition inv (v : view) : Prop :=
  let s := self (local v) in
  wf (queue (local v)) /\
  (forall tag m, answers v !! tag = Some m -> tag < next_op (queue (local v))) /\
  (exists name, election_prefix_ s = election_prefix name /\ candidate_key_ s = candidate_key name (lease_id_ s)) /\
  creation_revision_ s <= revision (server v) /\
  (elected_ s = true -> no_older (server v) s) /\
  (forall tag op, pending_ops (queue (local v)) !! tag = Some op ->
     good_op s op /\
     (op_callback op = functor cb_range_request -> forall m, answers v !! tag = Some m ->
        rg_kvs (as_range m) = [] -> no_older (server v) s)).

(** ** How a candidate's code changes its view *)

Definition same_node (s s' : candidate) : Prop :=
  creation_revision_ s' = creation_revision_ s /\ election_prefix_ s' = election_prefix_ s /\
  candidate_key_ s' = candidate_key_ s /\ lease_id_ s' = lease_id_ s.

(** The node stays, operations started are good ones, and with [calm] the candidate is not elected. *)
Definition steady (calm : bool) (w w' : W) : Prop :=
  wf (queue w) ->
  wf (queue w') /\ next_op (queue w) <= next_op (queue w') /\ same_node (self w) (self w') /\
  (calm = true -> elected_ (self w') = true -> elected_ (self w) = true) /\
  (forall tag op, pending_ops (queue w') !! tag = Some op ->
     pending_ops (queue w) !! tag = Some op \/ next_op (queue w) <= tag /\ good_op (self w) op).

Lemma good_op_same s s' op : same_node s s' -> good_op s' op -> good_op s op.
Proof.
  intros (Hr & Hp & _) [H1 H2]. split; [|done]. intros Hc. rewrite (H1 Hc).
  unfold predecessor_request. by rewrite Hr, Hp.
Qed.

#[export] Instance steady_preorder calm : PreOrder (steady calm).
Proof.
  split.
  - intros w Hwf. split_and!; [done|lia|done|done|]. by left.
  - intros w1 w2 w3 H12 H23 Hwf. destruct (H12 Hwf) as (Hwf2 & Hn & Hs & He & Ho).
    destruct (H23 Hwf2) as (Hwf3 & Hn' & Hs' & He' & Ho'). split_and!; [done|lia|..].
    + unfold same_node in *. intuition congruence.
    + auto.
    + intros tag op [Hop|[Ht Hg]]%Ho'; [by apply Ho|]. right. split; [lia|]. by eapply good_op_same.
Qed.

Lemma steady_self calm f :
  (forall s, same_node s (f s) /\ (calm = true -> elected_ (f s) = true -> elected_ s = true)) ->
  modify_self f ⊨ steady calm.
Proof. intros Hf w Hwf. cbn. destruct (Hf (self w)). split_and!; [done|lia|done..|by left]. Qed.
Lemma steady_zoom {T A} calm (proj : candidate -> T) upd (m : M T A) :
  (forall t s, same_node s (upd t s) /\ elected_ (upd t s) = elected_ s) -> zoom proj upd m ⊨ steady calm.
Proof.
  intros Hu w Hwf. unfold zoom. destruct (m _) as [t r]. destruct (Hu t (self w)) as [Hs He].
  cbn. rewrite He. split_and!; [done|lia|done..|by left].
Qed.
Lemma steady_gets {A} calm (f : candidate -> A) : gets_self f ⊨ steady calm.
Proof. intros w. change (steady calm w w). reflexivity. Qed.
(** A change of the queue that starts nothing. *)
Lemma steady_queue {A} calm (m : M W A) :
  m ⊨ evolves -> m ⊨ on_self eq ->
  (forall w tag op, pending_ops (queue (m w).1) !! tag = Some op -> pending_ops (queue w) !! tag = Some op) ->
  m ⊨ steady calm.
Proof.
  intros He Hs Ho w Hwf. destruct (He w Hwf) as (Hwf' & Hn & _). rewrite <- (Hs w).
  split_and!; [done..|]. intros tag op Hop. left. by apply Ho.
Qed.
Lemma steady_call_grpc calm l : call_grpc l ⊨ steady calm.
Proof. apply steady_queue; [eauto with gh..|done]. Qed.
Lemma steady_make_promise calm : make_promise ⊨ steady calm.
Proof. apply steady_queue; [eauto with gh| |done]. intros w. done. Qed.
Lemma steady_on_promise {A} calm p (m : M (promise response) A) :
  m ⊨ promise_le -> on_promise p m ⊨ steady calm.
Proof.
  intros Hm. apply steady_queue; [eauto with gh..|]. intros w tag op. unfold on_promise.
  destruct (promises (queue w) !! p) as [c|]; [|done]. by destruct (m c).
Qed.
Lemma steady_unregister calm tag : unregister_op tag ⊨ steady calm.
Proof.
  assert (Hq : forall w : W, queue (unregister_op tag w).1 = queue w \/
    queue (unregister_op tag w).1 = set_pending_ops (delete tag (pending_ops (queue w))) (queue w)).
  { intros w. unfold unregister_op, gets_queue, modify_queue. munfold.
    destruct (pending_ops (queue w) !! tag); [by right|by left]. }
  apply steady_queue; [eauto with gh| |].
  - intros w. unfold on_self, unregister_op, gets_queue, modify_queue. munfold.
    by destruct (pending_ops (queue w) !! tag).
  - intros w t op. destruct (Hq w) as [->| ->]; [done|]. cbn. by intros [_ ?]%lookup_delete_Some.
Qed.
Lemma steady_start_op calm l name c r :
  (forall s, good_op s (AsyncOp name c r)) -> start_op l name c r ⊨ steady calm.
Proof.
  intros Hg w Hwf. rewrite start_op_eq by done. destruct (with_op_le name c r _ Hwf) as (Hwf' & Hn & _).
  split_and!; [done..|]. intros tag op Hop. cbn in Hop.
  destruct (decide (tag = next_op (queue w))) as [->|Hne].
  - rewrite lookup_insert_eq in Hop. injection Hop as <-. right. by split.
  - rewrite lookup_insert_ne in Hop by done. by left.
Qed.

(** *** The operations and the handlers *)

Lemma steady_any_rpc calm r name (k : cb) :
  k <> cb_range_request -> (forall t, r <> rq_txn t) -> async_rpc r name k ⊨ steady calm.
Proof.
  intros Hk Hr. unfold async_rpc. refine (respects_bind _ _ _ _ _); [|intros ?; refine (respects_ret _ _)].
  apply steady_start_op. intros s. split; cbn; [congruence|]. intros t ->. by destruct (Hr t).
Qed.
Lemma steady_write calm r name (k : cb) :
  k <> cb_range_request -> (forall t, r <> rq_txn t) -> async_write r name k ⊨ steady calm.
Proof. apply steady_any_rpc. Qed.
Lemma steady_read calm name (k : cb) : k <> cb_range_request -> async_read name k ⊨ steady calm.
Proof. intros Hk. by apply (steady_any_rpc calm rq_read). Qed.

Lemma steady_election_result calm b : (calm = true -> b = false) -> election_result b ⊨ steady calm.
Proof.
  intros Hb w Hwf. rewrite election_result_eq. cbn. split_and!; [done|lia|done| |by left].
  intros Hc. by rewrite Hb.
Qed.

Lemma steady_query_predecessor calm : query_predecessor ⊨ steady calm.
Proof.
  intros w Hwf. destruct (in_shutdown (ops_ (self w))) eqn:Hs.
  - rewrite query_predecessor_shutdown by done. by apply steady_election_result.
  - rewrite query_predecessor_eq by done. destruct (with_op_le
      "election_candidate/query_predecessor" (functor cb_range_request)
      (rq_range (predecessor_request (self w))) _ Hwf) as (Hwf' & Hn & _).
    split_and!; [done..|]. intros tag op Hop. cbn in Hop.
    destruct (decide (tag = next_op (queue w))) as [->|Hne].
    + rewrite lookup_insert_eq in Hop. injection Hop as <-. right. split; [lia|]. by split.
    + rewrite lookup_insert_ne in Hop by done. by left.
Qed.

#[local] Hint Extern 1 (same_node _ _ /\ _) => (split; [by split_and!|done]) : gh.
#[local] Hint Extern 1 (_ <> _) => (congruence || (intros ?; congruence)) : gh.
#[local] Hint Extern 2 (forall t, _ <> _) => (intros ?; congruence) : gh.
#[local] Hint Resolve steady_self steady_zoom steady_gets steady_call_grpc steady_make_promise
  steady_on_promise steady_unregister steady_write steady_read steady_query_predecessor : gh.

Ltac steady_solve := unfold ops_start, ops_done, reads_start, reads_done, lock, unlock, deref_stream,
  check_grpc_status; cbv zeta; respects_solve.

Lemma steady_check_election : check_election_over_maybe ⊨ steady false.
Proof. pose proof (steady_election_result false true). unfold check_election_over_maybe. steady_solve. Qed.
Lemma steady_watch_keys calm r kvs : watch_keys r kvs ⊨ steady calm.
Proof. induction kvs; cbn [watch_keys]; steady_solve. Qed.
#[local] Hint Resolve steady_check_election steady_watch_keys : gh.

Lemma steady_invoke k op ok : invoke_cb k op ok ⊨ steady false.
Proof.
  pose proof (steady_election_result false false). destruct k; cbn [invoke_cb];
    unfold on_range_request, on_watch_create, on_watch_cancel, on_watch_read; steady_solve.
Qed.

Lemma steady_event tag ok resp : on_event tag ok resp ⊨ steady false.
Proof.
  unfold on_event. destruct (tag =? 0); [steady_solve|].
  refine (respects_bind _ _ _ _ _); [apply steady_unregister|]. intros [op|]; [|steady_solve].
  unfold run_callback. destruct (op_callback op); [apply steady_invoke|]. eauto with gh.
Qed.

(** *** What elects *)

Lemma range_request_victory op (w w' : W) r :
  on_range_request op true w = (w', r) -> elected_ (self w') = true -> elected_ (self w) = false ->
  status_ok (r_status op) = true /\ rg_kvs (as_range (r_message op)) = [].
Proof.
  intros Er H1 H0'. unfold on_range_request in Er. cbn [negb] in Er.
  unfold ops_done, zoom, OpCounter.done, gets_self, check_grpc_status in Er. munfold.
  destruct (status_ok _); munfold; [split; [done|]|injection Er as <- <-; cbn in H1; congruence].
  set (w1 := with_self _ w) in Er. destruct (rg_kvs _) as [|kv kvs]; [done|exfalso].
  pose proof (watch_keys_no_victory (rg_revision (as_range (r_message op))) (kv :: kvs) w1) as Hn.
  destruct (watch_keys _ _ w1) as [w2 r2] eqn:Ew.
  assert (elected_ (self w2) <> true) as Hn2 by (intros H2%Hn; cbn in H2; congruence). clear Hn.
  destruct r2 as [[]|e|x]; cbn in Er; [|by injection Er as <- <-..].
  apply watch_keys_cons in Ew. unfold check_election_over_maybe, lock, unlock, gets_self, modify_self in Er.
  munfold. destruct (mu_ (self w2)); munfold; [by injection Er as <- <-|].
  rewrite bool_decide_false in Er by set_solver. by injection Er as <- <-.
Qed.

Lemma event_elects tag ok resp (w w' : W) r :
  on_event tag ok resp w = (w', r) -> elected_ (self w') = true -> elected_ (self w) = false ->
  exists op, pending_ops (queue w) !! tag = Some op /\ op_callback op = functor cb_range_request /\
    ok = true /\ status_ok (r_status resp) = true /\ rg_kvs (as_range (r_message resp)) = [].
Proof.
  intros Ee H1 H0'. destruct (pending_ops (queue w) !! tag) as [op|] eqn:Hop;
    [|rewrite on_event_unknown in Ee by done; injection Ee as <- <-; congruence].
  destruct (decide (tag = 0)) as [->|Ht]; [injection Ee as <- <-; congruence|].
  rewrite (on_event_pending _ _ _ _ op) in Ee by done. exists op. split; [done|].
  set (w1 := with_queue _ w) in Ee. assert (Hw1 : elected_ (self w1) = false) by done.
  unfold run_callback in Ee. destruct (op_callback op) as [k|p a] eqn:Ec.
  - destruct (decide (k = cb_range_request /\ ok = true)) as [[-> ->]|Hn].
    + split_and!; [done..| |]; by eapply range_request_victory in Ee as [? ?].
    + assert (k = cb_range_request -> ok = false) as Hk by (intros ->; destruct ok; tauto).
      pose proof (other_callbacks_no_victory k resp ok Hk w1) as Hno.
      change (invoke_cb k resp ok w1 = (w', r)) in Ee. rewrite Ee in Hno. apply Hno in H1. congruence.
  - pose proof (on_promise_on_self eq p (promise_set (adapt a resp ok)) w1) as Hs. unfold on_self in Hs.
    rewrite Ee in Hs. cbn in Hs. congruence.
Qed.

(** *** The invariant holds whatever happens around the candidate *)

Lemma no_older_changes e e' s :
  changes e e' -> creation_revision_ s <= revision e -> no_older e s -> no_older e' s.
Proof.
  intros Hc Hr Hno key kv Hk Hp. destruct (created_since e e' key kv Hc Hk) as [(kv0 & Hk0 & <-)|]; [|lia].
  by eapply Hno.
Qed.

(** An empty answer to the candidate's query. *)
Lemma no_older_query e s name :
  election_prefix_ s = election_prefix name ->
  rg_kvs (serve_range e (predecessor_request s)) = [] -> no_older e s.
Proof.
  intros Hn Hq key kv Hk Hp. destruct (Z.le_gt_cases (creation_revision_ s) (kv_create_revision kv)) as [|Hlt]; [done|].
  exfalso. apply (range_finds e (predecessor_request s) key kv Hk); [|done|done].
  split; cbn; [|right; lia]. rewrite Hn in *. by apply in_range_prefix_end_1.
Qed.

Lemma no_older_same e s s' : same_node s s' -> no_older e s -> no_older e s'.
Proof. unfold no_older. intros (-> & -> & _). done. Qed.

(** The candidate's own code. *)
Lemma inv_steady calm e a (w w' : W) :
  inv (View e a w) -> steady calm w w' ->
  (elected_ (self w') = true -> elected_ (self w) = false -> no_older e (self w)) -> inv (View e a w').
Proof.
  intros (Hwf & Ha & (name & Hn & Hkey) & Hr & He & Ho) Hst Hel. cbn in *.
  destruct (Hst Hwf) as (Hwf' & Hn' & Hs & _ & Ho'). pose proof Hs as (Hr' & Hp' & Hk' & Hl').
  split_and!; cbn; [done| | | | |].
  - intros tag m Hm%Ha. lia.
  - exists name. split; congruence.
  - lia.
  - intros H1. apply (no_older_same _ (self w)); [done|]. destruct (elected_ (self w)) eqn:Hold; auto.
  - intros tag op Hop. destruct (Ho' tag op Hop) as [Hold|[Ht Hg]].
    + destruct (Ho tag op Hold) as [Hg Hans]. split.
      * apply (good_op_same _ (self w)); [|done]. unfold same_node in *. intuition congruence.
      * intros Hc m Hm Hk. apply (no_older_same _ (self w)); [done|]. by eapply Hans.
    + split; [apply (good_op_same _ (self w)); [unfold same_node in *; intuition congruence|done]|].
      intros _ m Hm. apply Ha in Hm. lia.
Qed.

Lemma inv_changes e e' a w : changes e e' -> inv (View e a w) -> inv (View e' a w).
Proof.
  intros Hc (Hwf & Ha & Hn & Hr & He & Ho). pose proof (revision_grows _ _ Hc) as Hgrow. cbn in *.
  split_and!; cbn; [done..|lia| |].
  - intros H1. eapply no_older_changes; [done|lia|auto].
  - intros tag op Hop. destruct (Ho tag op Hop) as [Hg Hans]. split; [done|].
    intros Hc' m Hm Hk. eapply no_older_changes; [done|lia|by eapply Hans].
Qed.

Lemma inv_serve tag v v' : inv v -> serve_op tag v = Some v' -> inv v'.
Proof.
  destruct v as [e a w]. intros Hi Hs. unfold serve_op in Hs. cbn in Hs.
  destruct (pending_ops (queue w) !! tag) as [op|] eqn:Hop; [|done]. cbn in Hs.
  destruct (a !! tag) eqn:Hat; [done|]. destruct (serve e (op_request op)) as [[e' m]|] eqn:Hse; [|done].
  cbn in Hs. injection Hs as <-.
  assert (Hc : e' = e \/ changes e e').
  { unfold serve in Hse. destruct (op_request op); simplify_eq; [by left|]. right. apply txn_changes. }
  assert (Hi' : inv (View e' a w)) by (destruct Hc as [->|]; [done|by eapply inv_changes]).
  clear Hi. destruct Hi' as (Hwf & Ha & (name & Hn & Hkey) & Hr & He & Ho). cbn in *.
  split_and!; cbn; [done| |by exists name|done..|].
  - intros t x. destruct (decide (t = tag)) as [->|]; [|rewrite lookup_insert_ne by done; apply Ha].
    intros _. destruct Hwf as (_ & Hp & _). apply Hp in Hop. lia.
  - intros t o Hto. destruct (Ho t o Hto) as [Hg Hans]. split; [done|]. intros Hcb x.
    destruct (decide (t = tag)) as [->|]; [|rewrite lookup_insert_ne by done; by apply Hans].
    rewrite lookup_insert_eq. intros [= <-] Hk. assert (o = op) as -> by congruence.
    destruct Hg as [Hq _]. rewrite (Hq Hcb) in Hse. cbn in Hse. injection Hse as <- <-.
    by eapply no_older_query.
Qed.

Lemma inv_deliver tag ok st m v v' : inv v -> deliver_op tag ok st m v = Some v' -> inv v'.
Proof.
  destruct v as [e a w]. intros Hi Hs. unfold deliver_op in Hs. cbn in Hs.
  destruct (pending_ops (queue w) !! tag) as [op|] eqn:Hop; [|done]. cbn in Hs.
  destruct (if ok && status_ok st && is_served (op_request op) then a !! tag else Some m) as [m'|] eqn:Hm; [|done].
  cbn in Hs. destruct (on_event tag ok (Response st m') w) as [w' [[]|x|x]] eqn:Ee; [|done..].
  injection Hs as <-. pose proof (steady_event tag ok (Response st m') w) as Hst. rewrite Ee in Hst.
  eapply inv_steady; [done|exact Hst|]. cbn. intros H1 H0'.
  destruct (event_elects _ _ _ _ _ _ Ee H1 H0') as (op' & Hop' & Hcb & -> & Hok & Hk).
  assert (op' = op) as -> by congruence. destruct Hi as (_ & _ & _ & _ & _ & Ho). cbn in Ho.
  destruct (Ho tag op Hop) as [[Hq _] Hans]. cbn in Hok, Hk. rewrite Hok, (Hq Hcb) in Hm. cbn in Hm. by eapply Hans.
Qed.

Definition vstable (I : view -> Prop) : Prop := forall v v', I v -> view_step v v' -> I v'.

Lemma inv_vstable : vstable inv.
Proof.
  intros v v' Hi Hstep. destruct Hstep as [e' Hc|tag v' Hs|tag ok st m v' Hs|t].
  - destruct v. by eapply inv_changes.
  - by eapply inv_serve.
  - by eapply inv_deliver.
  - by destruct v.
Qed.

(** ** Threads

    A thread is safe when, wherever it waits, the invariant holds and keeps holding, and what it goes
    on with is safe; [Q] holds when it returns, [X] when it ends in another way. *)

Fixpoint vsafe {A} (Q : A -> view -> Prop) (X : view -> Prop) (e : E) (a : gmap Z message) (p : prog W A) :
    Prop :=
  match p with
  | Finished w (Ok x) => Q x (View e a w)
  | Finished w _ => X (View e a w)
  | Blocked w until k =>
      exists I, vstable I /\ (forall v, I v -> inv v) /\ I (View e a w) /\
        forall v, I v -> until (local v) = true -> vsafe Q X (server v) (answers v) (k (local v))
  end.
Definition vtriple {A} (P : view -> Prop) (m : Prelude.P W A) (Q : A -> view -> Prop) (X : view -> Prop) :
    Prop := forall e a w, P (View e a w) -> vsafe Q X e a (m w).

Lemma vsafe_then {A C} (Q : A -> view -> Prop) X (Q' : C -> view -> Prop) X' e a p f :
  vsafe Q X e a p ->
  (forall x e a w, Q x (View e a w) -> vsafe Q' X' e a (f w (Ok x))) ->
  (forall r e a w, (forall x, r <> Ok x) -> X (View e a w) -> vsafe Q' X' e a (f w r)) ->
  vsafe Q' X' e a (prog_then p f).
Proof.
  intros Hp HQ HX. revert e a Hp. induction p as [w [x|x|x]|w until k IH]; intros e a Hp; cbn in *.
  - by apply HQ.
  - by apply HX.
  - by apply HX.
  - destruct Hp as (I & H1' & H2' & H3' & H4'). exists I. split_and!; auto.
Qed.

Lemma vtriple_bind {A C} P (R : A -> view -> Prop) (m : Prelude.P W A) (k : A -> Prelude.P W C) Q X :
  vtriple P m R X -> (forall x, vtriple (R x) (k x) Q X) -> vtriple P (m ≫= k) Q X.
Proof.
  intros Hm Hk e a w Hw. eapply vsafe_then; [by apply Hm|by intros; apply Hk|].
  intros [x|x|x] e' a' w' Hr Hx; [by destruct (Hr x)|done..].
Qed.
Lemma vtriple_ret {A} (P : view -> Prop) (x : A) (Q : A -> view -> Prop) X :
  (forall v, P v -> Q x v) -> vtriple P (mret x) Q X.
Proof. intros Hq e a w Hw. by apply Hq. Qed.
Lemma vtriple_throw {A} (P : view -> Prop) ex (Q : A -> view -> Prop) (X : view -> Prop) :
  (forall v, P v -> X v) -> vtriple P (P_throw ex) Q X.
Proof. intros Hx e a w Hw. by apply Hx. Qed.
Lemma vtriple_conseq {A} (P P' : view -> Prop) (m : Prelude.P W A) Q X :
  (forall v, P v -> P' v) -> vtriple P' m Q X -> vtriple P m Q X.
Proof. intros Hp Hm e a w Hw. by apply Hm, Hp. Qed.
Lemma vtriple_weaken {A} P (m : Prelude.P W A) (Q Q' : A -> view -> Prop) (X X' : view -> Prop) :
  vtriple P m Q X -> (forall x v, Q x v -> Q' x v) -> (forall v, X v -> X' v) -> vtriple P m Q' X'.
Proof.
  intros Hm HQ HX e a w Hw. specialize (Hm e a w Hw). clear Hw. revert e a Hm.
  induction (m w) as [w' [x|x|x]|w' until k IH]; intros e a Hm; cbn in *; [by apply HQ|by apply HX..|].
  destruct Hm as (I & H1' & H2' & H3' & H4'). exists I. split_and!; auto.
Qed.
Lemma vtriple_lift {A} (P : view -> Prop) (m : M W A) Q (X : view -> Prop) :
  (forall e a w, P (View e a w) ->
     match m w with (w', Ok x) => Q x (View e a w') | (w', _) => X (View e a w') end) ->
  vtriple P (lift m) Q X.
Proof. intros Hm e a w Hw. specialize (Hm e a w Hw). unfold lift. by destruct (m w) as [w' [x|x|x]]. Qed.
Lemma vtriple_block (I : view -> Prop) until X :
  vstable I -> (forall v, I v -> inv v) ->
  vtriple I (block_until until) (fun _ v => I v /\ until (local v) = true) X.
Proof.
  intros Hs Hi e a w Hw. unfold block_until. destruct (until w) eqn:Hu; cbn; [done|].
  exists I. split_and!; [done..|]. by intros [] ? ?.
Qed.
Lemma vtriple_destructor {A} P (m : Prelude.P W A) (d : M W unit) Q X :
  vtriple P m Q X ->
  (forall x e a w, Q x (View e a w) -> exists w', d w = (w', Ok tt) /\ Q x (View e a w')) ->
  (forall e a w, X (View e a w) -> exists w', d w = (w', Ok tt) /\ X (View e a w')) ->
  vtriple P (with_destructor m d) Q X.
Proof.
  intros Hm HQ HX e a w Hw. eapply vsafe_then; [by apply Hm|..]; cbn.
  - intros x e' a' w' Hq. destruct (HQ _ _ _ _ Hq) as (w2 & -> & Hq2). done.
  - intros r e' a' w' Hr Hx. destruct (HX _ _ _ Hx) as (w2 & Hd & Hx2).
    destruct r as [x|x|x]; [by destruct (Hr x)|by rewrite Hd|done].
Qed.

(** A thread whose sections neither move the node nor elect. *)
Lemma vsafe_steady {A} e a (p : prog W A) :
  inv (View e a (prog_world p)) -> prog_respects (steady true) p -> vsafe (fun _ => inv) inv e a p.
Proof.
  revert e a. induction p as [w [x|x|x]|w until k IH]; intros e a Hi Hp; cbn in *; [done..|].
  exists inv. split_and!; [apply inv_vstable|done|done|]. intros [e' a' w'] Hi' Hu. cbn in *.
  destruct (Hp w' Hu) as [Hst Hp']. apply IH; [|done]. eapply inv_steady; [done|exact Hst|].
  intros H1 H0'. destruct Hi' as [Hwf _]. destruct (Hst Hwf) as (_ & _ & _ & He & _).
  rewrite He in H0'; done.
Qed.
Lemma vtriple_steady {A} (m : Prelude.P W A) :
  P_respects (steady true) m -> vtriple inv m (fun _ => inv) inv.
Proof.
  intros Hm e a w Hi. destruct (Hm w) as [Hst Hp]. apply vsafe_steady; [|done].
  eapply inv_steady; [done|exact Hst|]. intros H1 H0'. destruct Hi as [Hwf _].
  destruct (Hst Hwf) as (_ & _ & _ & He & _). rewrite He in H0'; done.
Qed.

(** The environment of a thread takes a step; the thread takes a step. *)
Lemma vsafe_view_step {A} (Q : A -> view -> Prop) X e a p e' a' w' :
  (forall x, vstable (Q x)) -> vstable X ->
  vsafe Q X e a p -> view_step (View e a (prog_world p)) (View e' a' w') ->
  vsafe Q X e' a' (prog_set_world (fun _ => w') p).
Proof.
  intros HQ HX Hp Hs. destruct p as [w [x|x|x]|w until k]; cbn in *; [by eapply HQ|by eapply HX..|].
  destruct Hp as (I & H1' & H2' & H3' & H4'). exists I. split_and!; [done..|by eapply H1'|done].
Qed.
Lemma vsafe_wake {A} (Q : A -> view -> Prop) X e a p : vsafe Q X e a p -> vsafe Q X e a (wake p).
Proof.
  destruct p as [w r|w until k]; [done|]. cbn [wake]. destruct (until w) eqn:Hu; [|done].
  intros (I & _ & _ & H3' & H4'). by apply (H4' _ H3').
Qed.
Lemma vsafe_inv {A} e a (p : prog W A) : vsafe (fun _ => inv) inv e a p -> inv (View e a (prog_world p)).
Proof. destruct p as [w [x|x|x]|w until k]; [done..|]. intros (I & _ & H2' & H3' & _). by apply H2'. Qed.

(** ** A campaign *)

(** A candidate that waits for nothing and has not asked for its predecessor. *)
Definition unstarted (v : view) : Prop :=
  inv v /\ elected_ (self (local v)) = false /\ pending_ops (queue (local v)) = ∅.

(** It waits for the operation [op] and its promise [p]; [G] is what a genuine answer satisfies. *)
Definition awaiting (tag p : Z) (op : async_op cb) (G : E -> message -> Prop) (v : view) : Prop :=
  inv v /\ elected_ (self (local v)) = false /\
  exists c, promises (queue (local v)) !! p = Some c /\
    ((pending_ops (queue (local v)) = {[tag := op]} /\ result c = None /\
      forall m, answers v !! tag = Some m -> G (server v) m) \/
     (pending_ops (queue (local v)) = ∅ /\
      exists r, result c = Some r /\ (forall s, r <> UB s) /\
        forall x, r = Ok x -> G (server v) (r_message x))).

(** What a call relies on: its answer, if the server computes one, satisfies [G], and [G] lasts. *)
Record genuine (a : adapter) (rq : request) (G : E -> message -> Prop) : Prop := {
  genuine_changes e e' m : changes e e' -> G e m -> G e' m;
  genuine_serve e e' m : serve e rq = Some (e', m) -> G e' m;
  genuine_deliver : (exists loc, a = adapt_rpc loc) /\ is_served rq = true \/ forall e m, G e m;
  genuine_puts r : rq = rq_txn r -> at_most_one_put r
}.

Lemma adapt_not_ub a resp ok s : adapt a resp ok <> UB s.
Proof. destruct a; cbn; destruct ok; cbn; try done. by destruct (status_ok _). Qed.

Lemma awaiting_deliver tag p name a rq G e ans w t ok st m v' :
  genuine a rq G -> awaiting tag p (AsyncOp name (set_future p a) rq) G (View e ans w) ->
  deliver_op t ok st m (View e ans w) = Some v' ->
  awaiting tag p (AsyncOp name (set_future p a) rq) G v'.
Proof.
  intros HG (Hi & He & c & Hc & Hcase) Hs. pose proof (inv_deliver _ _ _ _ _ _ Hi Hs) as Hi'.
  unfold deliver_op in Hs. cbn in *. destruct Hcase as [(Hp & Hr & Hm)|[Hp _]]; rewrite Hp in Hs; [|done].
  destruct (decide (t = tag)) as [->|]; [|by rewrite lookup_singleton_ne in Hs].
  rewrite lookup_singleton_eq in Hs. cbn in Hs.
  assert (Htag : tag <> 0).
  { destruct Hi as ((_ & Ht & _) & _). specialize (Ht tag). cbn in Ht. rewrite Hp, lookup_singleton_eq in Ht.
    specialize (Ht _ eq_refl). lia. }
  destruct (if ok && status_ok st && is_served rq then ans !! tag else Some m) as [m'|] eqn:Hm'; [|done]. cbn in Hs.
  rewrite (on_event_pending _ _ _ _ (AsyncOp name (set_future p a) rq)) in Hs
    by (done || by rewrite Hp, lookup_singleton_eq).
  unfold run_callback, on_promise in Hs. cbn in Hs. rewrite Hc in Hs. unfold promise_set in Hs.
  rewrite Hr in Hs. cbn in Hs. injection Hs as <-. split_and!; [done..|].
  eexists. cbn. split; [apply lookup_insert_eq|]. right.
  split; [rewrite Hp; apply delete_singleton_eq|]. eexists. split; [done|].
  split; [intros s; apply adapt_not_ub|]. intros x Hx.
  destruct (genuine_deliver _ _ _ HG) as [[[loc ->] Hserved]|Hany]; [|done]. cbn in Hx.
  destruct ok; [|done]. cbn in Hx. destruct (status_ok st) eqn:Hst; [|done].
  injection Hx as <-. cbn. rewrite Hserved in Hm'. cbn in Hm'. by apply Hm.
Qed.

Lemma awaiting_vstable tag p name a rq G :
  genuine a rq G -> vstable (awaiting tag p (AsyncOp name (set_future p a) rq) G).
Proof.
  intros HG [e ans w] v' Haw Hstep. pose proof Haw as (Hi & He & c & Hc & Hcase).
  pose proof (inv_vstable _ _ Hi Hstep) as Hi'. destruct Hstep as [e' Hch|t v' Hs|t ok st m v' Hs|t].
  - split_and!; [done..|]. exists c. split; [done|]. cbn in *.
    destruct Hcase as [(Hp & Hr & Hm)|(Hp & r & Hr & Hub & Hx)]; [left|right].
    + split_and!; [done..|]. intros m Hl. eapply genuine_changes; eauto.
    + split; [done|]. exists r. split_and!; [done..|]. intros x ->. eapply genuine_changes; eauto.
  - unfold serve_op in Hs. cbn in *. destruct Hcase as [(Hp & Hr & Hm)|[Hp _]]; rewrite Hp in Hs; [|done].
    destruct (decide (t = tag)) as [->|]; [|by rewrite lookup_singleton_ne in Hs].
    rewrite lookup_singleton_eq in Hs. cbn in Hs. destruct (ans !! tag); [done|].
    destruct (serve e rq) as [[e' m]|] eqn:Hse; [|done]. injection Hs as <-.
    split_and!; [done..|]. exists c. split; [done|]. left. split_and!; [done..|]. cbn.
    intros m'. rewrite lookup_insert_eq. intros [= <-]. by eapply genuine_serve.
  - by eapply awaiting_deliver.
  - split_and!; [done..|]. exists c. by split.
Qed.

(** A call with [use_future]: its start, and its result. *)
Lemma vtriple_start loc name a rq G X :
  genuine a rq G ->
  vtriple unstarted (lift (start_future loc name a rq))
    (fun fut v => exists tag, awaiting tag fut (AsyncOp name (set_future fut a) rq) G v) X.
Proof.
  intros HG. apply vtriple_lift. intros e ans w (Hi & He & Hp). cbn in He, Hp.
  pose proof Hi as [Hwf [Ha _]]. cbn in Hwf, Ha. rewrite start_future_eq by done.
  exists (next_op (queue w)). split; [|split; [done|]].
  - eapply (inv_steady true); [done| |by cbn; congruence].
    intros _. pose proof (start_future_evolves (S:=candidate) (K:=cb) loc name a rq w Hwf) as Hev.
    rewrite start_future_eq in Hev by done. destruct Hev as (Hwf' & Hn & _). split_and!; [done..|].
    intros tag o Ho. cbn in Ho. rewrite Hp in Ho.
    destruct (decide (tag = next_op (queue w))) as [->|Hne]; [|by rewrite lookup_insert_ne in Ho].
    rewrite lookup_insert_eq in Ho. injection Ho as <-. right. split; [lia|]. split; [done|].
    apply (genuine_puts _ _ _ HG).
  - eexists. split; [apply lookup_insert_eq|]. left. cbn. rewrite Hp.
    split_and!; [done..|]. intros m Hm%Ha. lia.
Qed.

Lemma vtriple_future_get fut name a rq G X :
  genuine a rq G -> (forall v, unstarted v -> X v) ->
  vtriple (fun v => exists tag, awaiting tag fut (AsyncOp name (set_future fut a) rq) G v) (future_get fut)
    (fun x v => unstarted v /\ G (server v) (r_message x)) X.
Proof.
  intros HG HX e ans w [tag Haw]. revert e ans w Haw.
  change (vtriple (awaiting tag fut (AsyncOp name (set_future fut a) rq) G) (future_get fut)
    (fun x v => unstarted v /\ G (server v) (r_message x)) X).
  eapply vtriple_bind; [apply vtriple_block; [by apply awaiting_vstable|by intros v []]|].
  intros []. apply vtriple_lift. intros e ans w [(Hi & He & c & Hc & Hcase) Hready]. cbn in *.
  unfold future_ready in Hready. rewrite Hc in *. apply bool_decide_eq_true in Hready as [r Hr].
  destruct Hcase as [(_ & Hn & _)|(Hp & r' & Hr' & Hub & Hx)]; [congruence|].
  rewrite Hr'. destruct r' as [x|x|x]; [|by apply HX|by destruct (Hub x)].
  split; [done|]. by apply Hx.
Qed.

(** Code that does not touch the queue, the node or the result. *)
Definition aside {A} (m : M W A) : Prop :=
  forall w, queue (m w).1 = queue w /\ same_node (self w) (self (m w).1) /\
    elected_ (self (m w).1) = elected_ (self w).

Lemma unstarted_aside {A} (m : M W A) e a w :
  aside m -> unstarted (View e a w) -> unstarted (View e a (m w).1).
Proof.
  intros Hm (Hi & He & Hp). cbn in *. destruct (Hm w) as (Hq & Hs & He').
  split; [|split; cbn; congruence].
  eapply (inv_steady true); [done| |by cbn; congruence].
  intros Hwf. rewrite Hq, He'. split_and!; [done|lia|done..|by left].
Qed.

Lemma aside_self f :
  (forall s, same_node s (f s) /\ elected_ (f s) = elected_ s) -> aside (modify_self f).
Proof. intros Hf w. cbn. by destruct (Hf (self w)). Qed.
Lemma aside_zoom {T A} (proj : candidate -> T) upd (m : M T A) :
  (forall t s, same_node s (upd t s) /\ elected_ (upd t s) = elected_ s) -> aside (zoom proj upd m).
Proof. intros Hu w. unfold zoom. destruct (m _) as [t r]. by destruct (Hu t (self w)). Qed.
Lemma aside_gets {A} (f : candidate -> A) : aside (gets_self f).
Proof. intros w. by split_and!. Qed.
Lemma aside_assert b what fn file line : aside (GH_ASSERT_THROW b what fn file line).
Proof. intros w. destruct b; by split_and!. Qed.

(** A fact about the server that its changes keep. *)
Definition lasting (F : E -> Prop) : Prop := forall e e', changes e e' -> F e -> F e'.

Lemma vtriple_aside {A} (F : E -> Prop) (m : M W A) X :
  aside m -> (forall v, unstarted v -> X v) ->
  vtriple (fun v => unstarted v /\ F (server v)) (lift m) (fun _ v => unstarted v /\ F (server v)) X.
Proof.
  intros Hm HX. apply vtriple_lift. intros e a w [Hu HF]. pose proof (unstarted_aside m e a w Hm Hu) as Hu'.
  destruct (m w) as [w' [x|x|x]]; cbn in *; [done|by apply HX..].
Qed.

Lemma vtriple_tracer {A} (F : E -> Prop) (m : Prelude.P W A) (Q : A -> E -> Prop) :
  vtriple (fun v => unstarted v /\ F (server v)) m (fun x v => unstarted v /\ Q x (server v)) unstarted ->
  vtriple (fun v => unstarted v /\ F (server v)) (with_tracer m)
    (fun x v => unstarted v /\ Q x (server v)) unstarted.
Proof.
  intros Hm. assert (Hdone : aside ops_done) by (apply aside_zoom; by intros).
  eapply vtriple_bind; [apply (vtriple_aside F); [apply aside_zoom; by intros|done]|]. intros started.
  apply vtriple_destructor; [exact Hm|..].
  - intros x e a w [Hu Hq]. pose proof (unstarted_aside ops_done e a w Hdone Hu) as Hu'.
    eexists. split; [reflexivity|]. by split.
  - intros e a w Hu. pose proof (unstarted_aside ops_done e a w Hdone Hu) as Hu'.
    eexists. split; [reflexivity|]. done.
Qed.

Definition bounded_by (t : TxnResponse) (e : E) : Prop := answer_bounded (revision e) t.
Lemma bounded_lasting t : lasting (bounded_by t).
Proof.
  intros e e' Hc [H1' H2']. pose proof (revision_grows _ _ Hc) as Hg. split; [lia|].
  intros r kv Hr Hkv. specialize (H2' r kv Hr Hkv). lia.
Qed.

Lemma genuine_txn name r :
  at_most_one_put r ->
  genuine (adapt_rpc name) (rq_txn r) (fun e m => bounded_by (as_txn m) e).
Proof.
  intros Hr. split.
  - intros e e' m Hc. by apply bounded_lasting.
  - intros e e' m [= <- <-]. apply txn_answer_bounded.
  - left. split; [by eexists|done].
  - by intros r' [= <-].
Qed.
Lemma genuine_any a rq :
  (forall r, rq <> rq_txn r) -> genuine a rq (fun _ _ => True).
Proof. intros Hr. split; [done..|by right|]. intros r E'. by destruct (Hr r). Qed.

Lemma vtriple_commit (F : E -> Prop) r name :
  at_most_one_put r ->
  vtriple (fun v => unstarted v /\ F (server v)) (commit r name)
    (fun t v => unstarted v /\ bounded_by t (server v)) unstarted.
Proof.
  intros Hr. apply (vtriple_tracer F _ (fun t e => bounded_by t e)).
  eapply vtriple_conseq; [intros v [Hu _]; exact Hu|].
  eapply vtriple_bind; [by apply vtriple_start, genuine_txn|]. intros fut.
  eapply vtriple_bind; [by apply vtriple_future_get; [apply genuine_txn|]|]. intros x.
  apply vtriple_ret. by intros v [].
Qed.

Lemma vtriple_gets {A C} P (f : candidate -> A) (k : A -> Prelude.P W C) Q X :
  (forall s, vtriple P (k (f s)) Q X) -> vtriple P (lift (gets_self f) ≫= k) Q X.
Proof. intros Hk e a w Hw. exact (Hk (self w) e a w Hw). Qed.

Lemma publish_one_put value op s :
  (forall k v l, op <> request_put k v l) -> at_most_one_put (publish_request value op s).
Proof. intros Hop. unfold publish_request. split; [cbn; lia|]. destruct op; cbn; [by edestruct Hop|lia..]. Qed.

Lemma vtriple_publish (F : E -> Prop) value op :
  (forall k v l, op <> request_put k v l) ->
  vtriple (fun v => unstarted v /\ F (server v)) (publish_value value op)
    (fun t v => unstarted v /\ bounded_by t (server v)) unstarted.
Proof. intros Hop. apply vtriple_gets. intros s. by apply vtriple_commit, publish_one_put. Qed.

(** The creation revision is a revision of the server. *)
Lemma vtriple_set_revision (F : E -> Prop) r X :
  (forall e, F e -> r <= revision e) ->
  vtriple (fun v => unstarted v /\ F (server v)) (lift (modify_self (set_creation_revision r)))
    (fun _ v => unstarted v /\ F (server v)) X.
Proof.
  intros Hr. apply vtriple_lift. cbn. intros e a w [((Hwf & Ha & Hn & _) & He & Hp) HF]. cbn in *.
  split; [|done]. split; [|done]. split_and!; cbn; [done..|by apply Hr|congruence|].
  intros tag op Hop. by rewrite Hp in Hop.
Qed.

Lemma vtriple_adopt t :
  vtriple (fun v => unstarted v /\ bounded_by t (server v)) (adopt_node t)
    (fun _ v => unstarted v /\ True) unstarted.
Proof.
  set (kvs := rg_kvs (response_range (default response_other (head (tx_responses t))))).
  destruct (decide (length (tx_responses t) = 1%nat /\ length kvs = 1%nat)) as [[H1' H2']|Hn].
  - assert (Hkv : forall e, bounded_by t e -> kv_create_revision (default KeyValue_default (head kvs)) <= revision e).
    { intros e [_ Hb]. unfold kvs in *. destruct (tx_responses t) as [|r [|]]; [done| |done]. cbn in *.
      destruct (rg_kvs (response_range r)) as [|kv [|]] eqn:Hk; [done| |done].
      apply (Hb r kv); [by left|]. rewrite Hk. by left. }
    unfold adopt_node. cbv zeta. fold kvs. rewrite H1', H2'.
    eapply vtriple_bind; [apply (vtriple_aside (bounded_by t)); [apply aside_assert|done]|]. intros [].
    eapply vtriple_bind; [apply (vtriple_aside (bounded_by t)); [apply aside_assert|done]|]. intros [].
    eapply vtriple_bind; [by apply (vtriple_set_revision (bounded_by t))|]. intros [].
    apply vtriple_gets. intros s. destruct (bool_decide _); [by apply vtriple_ret; intros v []|].
    eapply vtriple_bind; [by apply vtriple_publish|]. intros published.
    destruct (tx_succeeded published); [by apply vtriple_ret; intros v []|].
    apply vtriple_throw. by intros v [].
  - intros e a w [Hu _]. unfold adopt_node. cbv zeta. fold kvs.
    destruct (decide (length (tx_responses t) = 1%nat)) as [H1'|H1']; [|].
    + rewrite H1'. rewrite (proj2 (Nat.eqb_neq (length kvs) 1)) by tauto. done.
    + by rewrite (proj2 (Nat.eqb_neq (length (tx_responses t)) 1)).
Qed.

Lemma vtriple_create_node :
  vtriple (fun v => unstarted v /\ True) create_node (fun _ v => unstarted v /\ True) unstarted.
Proof.
  apply vtriple_gets. intros s. destruct (in_shutdown (ops_ s)).
  - apply vtriple_throw. by intros v [].
  - apply vtriple_gets. intros s'.
    eapply vtriple_bind; [apply (vtriple_commit (fun _ => True)); split; cbn; lia|]. intros t.
    eapply vtriple_bind; [apply (vtriple_set_revision (bounded_by t)); by intros e []|]. intros [].
    destruct (tx_succeeded t); [by apply vtriple_ret; intros v []|]. apply vtriple_adopt.
Qed.

Lemma vtriple_create_watch_stream :
  vtriple (fun v => unstarted v /\ True) create_watch_stream (fun _ v => unstarted v /\ True) unstarted.
Proof.
  apply (vtriple_tracer (fun _ => True) _ (fun _ _ => True)).
  eapply vtriple_conseq; [intros v [Hu _]; exact Hu|].
  eapply vtriple_bind; [by apply vtriple_start, genuine_any|]. intros fut.
  eapply vtriple_bind; [by apply vtriple_future_get; [apply genuine_any|]|]. intros x.
  apply (vtriple_aside (fun _ => True)); [apply aside_self; by intros|done].
Qed.

(** The only question a campaign asks is whether a predecessor exists. *)
Lemma vtriple_campaign : vtriple unstarted campaign (fun _ => inv) inv.
Proof.
  eapply vtriple_conseq; [by intros v Hu; exact (conj Hu I)|].
  apply vtriple_gets. intros s. destruct (in_shutdown (ops_ s)).
  - apply vtriple_throw. by intros v [[]].
  - eapply vtriple_bind; [apply (vtriple_aside (fun _ => True)); [apply aside_zoom; by intros|by intros v []]|].
    intros []. unfold campaign_impl.
    eapply vtriple_bind; [eapply vtriple_weaken; [apply vtriple_create_watch_stream|done|by intros v []]|]. intros [].
    eapply vtriple_bind; [eapply vtriple_weaken; [apply vtriple_create_node|done|by intros v []]|]. intros [].
    eapply vtriple_conseq; [intros v [[Hi _] _]; exact Hi|].
    apply vtriple_steady, P_respects_lift, steady_query_predecessor.
Qed.

(** ** The other members *)

Lemma steady_on_cancels {A} calm c (m : M _ A) : on_cancels c m ⊨ steady calm.
Proof.
  intros w Hwf. unfold on_cancels. destruct (cancels (self w) !! c); [|cbn; split_and!; [done|lia|done..|by left]].
  destruct (m _). cbn. split_and!; [done|lia|done..|by left].
Qed.
#[local] Hint Resolve steady_on_cancels : gh.
Lemma steady_cancel_watches calm c l : cancel_watches c l ⊨ steady calm.
Proof. induction l; cbn [cancel_watches]; steady_solve. Qed.
Lemma steady_false_result calm : election_result false ⊨ steady calm.
Proof. by apply steady_election_result. Qed.
#[local] Hint Resolve steady_cancel_watches steady_false_result : gh.

Lemma steady_start_future calm loc name a rq :
  (forall t, rq = rq_txn t -> at_most_one_put t) -> start_future loc name a rq ⊨ steady calm.
Proof.
  intros Hp. unfold start_future. pose proof (steady_make_promise calm).
  assert (forall p, on_promise p promise_get_future ⊨ steady calm)
    by (intros p; apply steady_on_promise; eauto with gh).
  assert (forall p, start_op loc name (set_future p a) rq ⊨ steady calm)
    by (intros p; apply steady_start_op; intros s; split; [done|exact Hp]).
  steady_solve.
Qed.

#[local] Abbreviation calm_thread m := (P_respects (steady true) m).
Lemma calm_gets {A B} (f : candidate -> A) (k : A -> Prelude.P W B) :
  (forall s, calm_thread (k (f s))) -> calm_thread (lift (gets_self f) ≫= k).
Proof. intros Hk w. exact (Hk (self w) w). Qed.
Lemma calm_future_get fut : calm_thread (future_get fut).
Proof.
  refine (P_respects_bind _ _ _ _ _); [refine (P_respects_block _ _)|]. intros [].
  apply P_respects_lift. intros w. destruct (promises (queue w) !! fut) as [c|]; cbn;
    [destruct (result c)|]; cbn; reflexivity.
Qed.
Lemma calm_tracer {A} (m : Prelude.P W A) : calm_thread m -> calm_thread (with_tracer m).
Proof.
  intros Hm. refine (P_respects_bind _ _ _ _ _); [apply P_respects_lift; steady_solve|]. intros started.
  refine (P_respects_destructor _ _ _ _ _); [done|]. steady_solve.
Qed.
Lemma calm_commit r name : at_most_one_put r -> calm_thread (commit r name).
Proof.
  intros Hr. apply calm_tracer. refine (P_respects_bind _ _ _ _ _).
  - apply P_respects_lift, steady_start_future. by intros t [= <-].
  - intros fut. refine (P_respects_bind _ _ _ _ _); [apply calm_future_get|]. intros resp.
    refine (P_respects_ret _ _).
Qed.

Ltac calm_step :=
  match goal with
  | |- P_respects _ (mret _) => refine (P_respects_ret _ _)
  | |- P_respects _ (P_throw _) => refine (P_respects_throw _ _)
  | |- P_respects _ (lift (gets_self _) ≫= _) => apply calm_gets; intros ?
  | |- P_respects _ (mbind _ _) => refine (P_respects_bind _ _ _ _ _); [| intros ?]
  | |- P_respects _ (future_get _) => apply calm_future_get
  | |- P_respects _ (with_tracer _) => apply calm_tracer
  | |- P_respects _ (block_until _) => refine (P_respects_block _ _)
  | |- P_respects _ (with_destructor _ _) => refine (P_respects_destructor _ _ _ _ _)
  | |- P_respects _ (lift (start_future _ _ _ _)) => apply P_respects_lift, steady_start_future; intros ? ?; congruence
  | |- P_respects _ (lift _) => apply P_respects_lift; steady_solve
  | |- P_respects _ (if _ then _ else _) => apply P_respects_if
  end.
Ltac calm_solve := repeat calm_step.

Lemma calm_proclaim value : calm_thread (proclaim value).
Proof.
  unfold proclaim. apply calm_gets. intros s. apply P_respects_if; [calm_solve|].
  refine (P_respects_bind _ _ _ _ _).
  - apply calm_gets. intros s'. by apply calm_commit, publish_one_put.
  - intros t. unfold key. calm_solve.
Qed.
Lemma steady_destroy_cancels calm c : destroy_cancels c ⊨ steady calm.
Proof. apply steady_self. by intros. Qed.
Lemma calm_resign : calm_thread resign.
Proof.
  unfold resign, make_cancels, close_stream, try_cancel_on, block_on. calm_solve.
  all: apply steady_destroy_cancels || by apply steady_start_future.
Qed.
Lemma calm_cleanup : calm_thread cleanup.
Proof. unfold cleanup, try_cancel_on, block_on. calm_solve. Qed.

End election.
