(* ===== verification/MutualExclusion.v ===== *)
(** * Mutual exclusion

    Any number of candidates around an etcd server, each a thread that campaigns next to an event
    loop, other clients, expiring leases and crashes: at most one candidate of an election is the
    leader while the nodes of the candidates exist. *)

From S2P Require Import Prelude Runtime PrefixEnd OpCounter Etcd CompletionQueue Threads Balance.
From S2P Require Import Safety Candidate CandidateFacts Leadership Server Election.
Open Scope Z_scope.
Open Scope gh_scope.
Import OpCounter Candidate.

Section election.
Context `{TextFormat} {E : Type} `{EtcdServer E}.
#[local] Abbreviation W := (world candidate cb).

(** ** Many candidates around a server *)

(** What an application does with a candidate once it campaigned; a failure ends it. *)
Inductive member := call_proclaim (new_value : string) | call_resign | call_cleanup.
Definition call (m : member) : Prelude.P W unit :=
  match m with
  | call_proclaim new_value => proclaim new_value
  | call_resign => resign
  | call_cleanup => cleanup
  end.
Definition application (ms : list member) : Prelude.P W unit := campaign;; P_for_each ms call.

Record agent := Agent { inbox : gmap Z message; thread : prog W unit }.
Record cluster := Cluster { etcd : E; agents : gmap Z agent }.

Definition state (a : agent) : candidate := self (prog_world (thread a)).
Definition agent_view (e : E) (a : agent) : view := View e (inbox a) (prog_world (thread a)).
Definition update (i : Z) (a : agent) (v : view) (c : cluster) : cluster :=
  Cluster (server v) (<[i := Agent (answers v) (prog_set_world (fun _ => local v) (thread a))]> (agents c)).

Inductive action :=
  | join (i : Z) (lease_id : N) (election_name value : string) (ms : list member)
  | answer (i tag : Z)
  | deliver (i tag : Z) (ok : bool) (st : status) (m : message)
  | run (i : Z)
  | clock (i t : Z)
  | crash (i : Z).

Definition exec (act : action) (c : cluster) : option cluster :=
  match act with
  | join i lease_id election_name value ms =>
      match agents c !! i with
      | Some _ => None
      | None => Some (Cluster (etcd c) (<[i := Agent ∅ (application ms
          (World (election_candidate_impl lease_id election_name value) new_queue))]> (agents c)))
      end
  | answer i tag =>
      a ← agents c !! i; v ← serve_op tag (agent_view (etcd c) a); Some (update i a v c)
  | deliver i tag ok st m =>
      a ← agents c !! i; v ← deliver_op tag ok st m (agent_view (etcd c) a); Some (update i a v c)
  | run i => a ← agents c !! i; Some (Cluster (etcd c) (<[i := Agent (inbox a) (wake (thread a))]> (agents c)))
  | clock i t =>
      a ← agents c !! i;
      Some (update i a (View (etcd c) (inbox a) (with_queue (set_now t) (prog_world (thread a)))) c)
  | crash i => Some (Cluster (etcd c) (delete i (agents c)))
  end.

(** A change creates at most one key. *)
Definition creates_one (e e' : E) : Prop := forall key kv key' kv',
  store e' !! key = Some kv -> store e' !! key' = Some kv' ->
  revision e < kv_create_revision kv -> kv_create_revision kv = kv_create_revision kv' -> key = key'.
(** No two keys were created in the same revision. *)
Definition unique (e : E) : Prop := forall key kv key' kv',
  store e !! key = Some kv -> store e !! key' = Some kv' ->
  kv_create_revision kv = kv_create_revision kv' -> key = key'.

(** The clusters that grow around a server; [r_other] is any other client, and time. *)
Inductive reachable : cluster -> Prop :=
  | r_start e : unique e -> reachable (Cluster e ∅)
  | r_exec c act c' : reachable c -> exec act c = Some c' -> reachable c'
  | r_other c e' : reachable c -> changes (etcd c) e' -> creates_one (etcd c) e' ->
      reachable (Cluster e' (agents c)).

Lemma unique_changes e e' : unique e -> changes e e' -> creates_one e e' -> unique e'.
Proof.
  intros Hu Hc H1' k kv k' kv' Hk Hk' Heq.
  destruct (created_since e e' k kv Hc Hk) as [(kv0 & Hk0 & E0)|Hnew]; [|by eapply H1'].
  destruct (created_since e e' k' kv' Hc Hk') as [(kv1 & Hk1 & E1)|Hnew];
    [|symmetry; by eapply (H1' k' kv' k kv)].
  apply (Hu k kv0 k' kv1); [done..|congruence].
Qed.

(** What holds of every cluster that can arise. *)
Definition safe (e : E) (a : agent) : Prop := vsafe (fun _ => inv) inv e (inbox a) (thread a).
Definition sound (c : cluster) : Prop :=
  unique (etcd c) /\ forall i a, agents c !! i = Some a -> safe (etcd c) a.

Lemma vtriple_application ms : vtriple unstarted (application ms) (fun _ => inv) inv.
Proof.
  eapply vtriple_bind; [apply vtriple_campaign|]. intros []. apply vtriple_steady.
  refine (P_respects_for_each _ _ _ _). intros []; [apply calm_proclaim|apply calm_resign|apply calm_cleanup].
Qed.

Lemma unstarted_new e lease_id name value :
  unstarted (View e ∅ (World (election_candidate_impl lease_id name value) new_queue)).
Proof.
  split; [|done]. split_and!; cbn; [apply new_queue_wf|done|by exists name|apply revision_nonneg|done|done].
Qed.

Lemma safe_step e a v :
  safe e a -> view_step (agent_view e a) v ->
  safe (server v) (Agent (answers v) (prog_set_world (fun _ => local v) (thread a))).
Proof. intros Ha Hv. destruct v. eapply vsafe_view_step; eauto using inv_vstable. Qed.
Lemma safe_changes e e' a : safe e a -> changes e e' -> safe e' a.
Proof.
  intros Ha Hc. pose proof (safe_step e a _ Ha (vs_changes (agent_view e a) _ Hc)) as Hs. cbn in Hs.
  destruct a as [ans [w r|w until k]]; exact Hs.
Qed.

(** How a step of an agent moves the server. *)
Definition moved (e e' : E) : Prop := e' = e \/ changes e e' /\ creates_one e e'.
Lemma serve_moves tag v v' : inv v -> serve_op tag v = Some v' -> moved (server v) (server v').
Proof.
  intros (_ & _ & _ & _ & _ & Ho) Hs. unfold serve_op in Hs.
  destruct (pending_ops _ !! tag) as [op|] eqn:Hop; [|done]. cbn in Hs. destruct (answers v !! tag); [done|].
  destruct (Ho tag op Hop) as [[_ Hput] _].
  destruct (op_request op) as [|r|r|lease ttl|lease|url|svc|wr|ka| | |] eqn:Er; try done; injection Hs as <-; [by left|right].
  split; [apply txn_changes|]. intros k kv k' kv'. by apply txn_creates_one, Hput.
Qed.
Lemma deliver_keeps tag ok st m (v v' : @view E) : deliver_op tag ok st m v = Some v' -> server v' = server v.
Proof.
  unfold deliver_op. destruct (pending_ops _ !! tag); [|done]. cbn.
  match goal with |- context [mbind _ ?x] => destruct x; [|done] end. cbn. destruct (on_event _ _ _ _) as [w [[]|x|x]]; [|done..]. by intros [= <-].
Qed.

Lemma sound_agents c e' i a' :
  sound c -> moved (etcd c) e' -> safe e' a' -> sound (Cluster e' (<[i := a']> (agents c))).
Proof.
  intros [Hu Ha] Hm Hs. split.
  - destruct Hm as [->|[? ?]]; [done|by eapply unique_changes].
  - intros j b. cbn. rewrite lookup_insert_Some. intros [[_ <-]|[_ Hj%Ha]]; [done|].
    destruct Hm as [->|[? ?]]; [done|by eapply safe_changes].
Qed.

Lemma exec_sound c act c' : sound c -> exec act c = Some c' -> sound c'.
Proof.
  intros Hc. pose proof Hc as [Hu Ha].
  destruct act as [i lease_id name value ms|i tag|i tag ok st m|i|i t|i]; cbn;
    [|destruct (agents c !! i) as [a|] eqn:Hi; [|done]; cbn; pose proof (Ha i a Hi) as Hsafe..|].
  - destruct (agents c !! i); [done|]. intros [= <-]. apply sound_agents; [done|by left|].
    apply vtriple_application, unstarted_new.
  - destruct (serve_op tag _) as [v|] eqn:Hv; [|done]. intros [= <-]. apply sound_agents; [done|..].
    + eapply serve_moves in Hv; [done|by apply vsafe_inv].
    + eapply safe_step; [done|by eapply vs_serve].
  - destruct (deliver_op tag ok st m _) as [v|] eqn:Hv; [|done]. intros [= <-]. apply sound_agents; [done|..].
    + left. by apply deliver_keeps in Hv.
    + eapply safe_step; [done|by eapply vs_deliver].
  - intros [= <-]. apply sound_agents; [done|by left|]. by apply vsafe_wake.
  - intros [= <-]. apply sound_agents; [done|by left|]. eapply safe_step; [done|apply vs_clock].
  - intros [= <-]. split; [done|]. cbn. intros j b [_ Hj]%lookup_delete_Some. by eapply Ha.
Qed.

Lemma reachable_sound c : reachable c -> sound c.
Proof.
  induction 1 as [e Hu|c act c' _ IH Hx|c e' _ [Hu Ha] Hc H1'].
  - split; [done|]. intros i a. cbn. by rewrite lookup_empty.
  - by eapply exec_sound.
  - split; [by eapply unique_changes|]. intros i a Hi. cbn in *. eapply safe_changes; eauto.
Qed.

Lemma agent_inv c i a : reachable c -> agents c !! i = Some a -> inv (agent_view (etcd c) a).
Proof. intros Hc Hi. destruct (reachable_sound c Hc) as [_ Ha]. by apply vsafe_inv, (Ha i). Qed.

(** ** Mutual exclusion *)

(** The node of a candidate is there: the one whose creation the candidate knows of. *)
Definition owns_node (e : E) (s : candidate) : Prop :=
  exists kv, store e !! candidate_key_ s = Some kv /\ kv_create_revision kv = creation_revision_ s.

Lemma owns_node_older e s s' :
  has_prefix (election_prefix_ s) (candidate_key_ s') -> no_older e s -> owns_node e s' ->
  creation_revision_ s <= creation_revision_ s'.
Proof. intros Hp Hn (kv & Hk & <-). by eapply Hn. Qed.



End election.

(** ** Elections around the server in memory *)

#[local] Instance text : TextFormat := empty_text_format.
Import Memory.
#[local] Abbreviation C := (@cluster memory).

Fixpoint exec_all (acts : list action) (c : C) : option C :=
  match acts with
  | [] => Some c
  | act :: acts' => c' ← exec act c; exec_all acts' c'
  end.
(** A new store is at revision 1. *)
Definition empty_cluster : C := Cluster (Mem 1 ∅) ∅.
(** The cluster after the actions, from an empty store. *)
Definition play (acts : list action) : C := default empty_cluster (exec_all acts empty_cluster).
Definition agent_at (i : Z) (c : C) : agent :=
  default (Agent ∅ (Finished (World (election_candidate_impl 0 "" "") new_queue) (Ok tt))) (agents c !! i).

Lemma exec_all_reachable acts c c' : reachable c -> exec_all acts c = Some c' -> reachable c'.
Proof.
  revert c. induction acts as [|act acts IH]; intros c Hc; cbn; [by intros [= <-]|].
  destruct (exec act c) as [c1|] eqn:E; [|done]. apply IH. by eapply r_exec.
Qed.
Lemma play_reachable acts : bool_decide (is_Some (exec_all acts empty_cluster)) = true -> reachable (play acts).
Proof.
  intros [c Hc]%bool_decide_eq_true. unfold play. rewrite Hc. cbn. eapply exec_all_reachable; [|done].
  constructor. by intros k kv k' kv' Hk%keys_bounded.
Qed.
Lemma agent_at_lookup i (c : C) : bool_decide (is_Some (agents c !! i)) = true -> agents c !! i = Some (agent_at i c).
Proof. intros [a Ha]%bool_decide_eq_true. unfold agent_at. by rewrite Ha. Qed.

(** A candidate joins and its operations are answered and complete, up to its first query. *)
Definition campaigns (i : Z) (lease_id : N) (value : string) : list action :=
  [join i lease_id "e" value [];
   deliver i 1 true status_OK msg_none; run i;
   answer i 2; deliver i 2 true status_OK msg_none; run i;
   answer i 3; deliver i 3 true status_OK msg_none].

(** Two candidates with leases of their own: the first is elected, the second watches it. *)
Definition contest : C := play (campaigns 1 161 "a" ++ campaigns 2 162 "b").
(** Two candidates with the same lease share a node. *)
Definition shared : C := play (campaigns 1 161 "a" ++ campaigns 2 161 "a").
(** The lease of the first candidate expires; the second hears of it and asks again. *)
Definition bereft : C := Cluster (expire "e/a1" (etcd contest)) (agents contest).
Definition takeover : list action :=
  [deliver 2 4 true status_OK msg_none;
   deliver 2 5 true status_OK (msg_watch {| wr_watch_id := 0; wr_created := false; wr_canceled := false;
     wr_compact_revision := 0; wr_events :=
       [{| ev_type := DELETE; ev_kv := KV "e/a1" "" 0; ev_prev_kv := KV "e/a1" "a" 2 |}] |});
   answer 2 6; deliver 2 6 true status_OK msg_none].
Definition handover : C := default bereft (exec_all takeover bereft).

Example contest_leader : elected_ (state (agent_at 1 contest)) = true /\ elected_ (state (agent_at 2 contest)) = false.
Proof. split; vm_compute; reflexivity. Qed.
(** The leader whose node is gone does not know: that both nodes exist is needed above. *)
Example handover_leaders :
  elected_ (state (agent_at 1 handover)) = true /\ elected_ (state (agent_at 2 handover)) = true.
Proof. split; vm_compute; reflexivity. Qed.

Lemma contest_reachable : reachable contest.
Proof. apply play_reachable. vm_compute. reflexivity. Qed.
Lemma shared_reachable : reachable shared.
Proof. apply play_reachable. vm_compute. reflexivity. Qed.
Lemma handover_reachable : reachable handover.
Proof.
  assert (Hb : reachable bereft).
  { apply r_other; [apply contest_reachable|apply expire_evolves|].
    intros k kv k' kv' Hk%expire_keys%keys_bounded _ Hn. cbn in *. lia. }
  unfold handover. destruct (exec_all takeover bereft) as [c|] eqn:E; [|done]. cbn. by eapply exec_all_reachable.
Qed.


