(* ===== verification/LeaderLock.v ===== *)
(** * The election as a lock

    What an election promises, without candidates, queues and messages: a queue of members in the order in which
    they joined, and holders, each of which held no place behind another member of its group when it
    became one, and never does. Every cluster of candidates refines it. *)

From S2P Require Import Prelude Runtime PrefixEnd OpCounter Etcd CompletionQueue Threads Balance.
From S2P Require Import Safety Candidate CandidateFacts Leadership Server Election MutualExclusion.
Open Scope Z_scope.
Open Scope gh_scope.

(** ** The specification *)

Module Lock.

(** The members by key, with the time at which each one joined; the time; the holders: the group and the time
    at which the holder joined. *)
Record lock := State {
  members : gmap string Z;
  time : Z;
  holders : gmap Z (string * Z)
}.

(** Nobody in the group joined before. *)
Definition oldest (m : gmap string Z) (group : string) (joined : Z) : Prop :=
  forall key t, m !! key = Some t -> has_prefix group key -> joined <= t.

Inductive step (s : lock) : lock -> Prop :=
  (** Members leave and join. *)
  | s_members m' t' :
      time s <= t' ->
      (forall key t, m' !! key = Some t -> members s !! key = Some t \/ time s < t) ->
      step s (State m' t' (holders s))
  (** The lock is taken. *)
  | s_hold i group joined :
      joined <= time s -> oldest (members s) group joined ->
      step s (State (members s) (time s) (<[i := (group, joined)]> (holders s)))
  | s_release i : step s (State (members s) (time s) (delete i (holders s))).

Definition fair (s : lock) : Prop :=
  forall i group joined, holders s !! i = Some (group, joined) ->
    joined <= time s /\ oldest (members s) group joined.

Lemma step_fair s s' : fair s -> step s s' -> fair s'.
Proof.
  intros Hf [m' t' Ht Hm|i group joined Hj Ho|i] j g x; cbn.
  - intros [Hx Hg]%Hf. split; [lia|]. intros key t Hk Hp.
    destruct (Hm key t Hk) as [Hold|Hnew]; [by eapply Hg|lia].
  - rewrite lookup_insert_Some. intros [[<- [= <- <-]]|[_ Hx]]; [done|by eapply Hf].
  - intros [_ Hx]%lookup_delete_Some. by eapply Hf.
Qed.

Lemma steps_fair s s' : fair s -> rtc step s s' -> fair s'.
Proof. intros Hf Hs. induction Hs; [done|]. eauto using step_fair. Qed.

(** Two holders that are both members of the group joined at the same time. *)
Lemma fair_exclusive s i j group x y kx ky :
  fair s -> holders s !! i = Some (group, x) -> holders s !! j = Some (group, y) ->
  members s !! kx = Some x -> members s !! ky = Some y -> has_prefix group kx -> has_prefix group ky -> x = y.
Proof.
  intros Hf Hi Hj Hx Hy Px Py. destruct (Hf i group x Hi) as [_ Ho], (Hf j group y Hj) as [_ Ho'].
  pose proof (Ho ky y Hy Py). pose proof (Ho' kx x Hx Px). lia.
Qed.

End Lock.

(** ** The refinement *)

Section refinement.
Context `{TextFormat} {E : Type} `{EtcdServer E}.
#[local] Abbreviation C := (@cluster E).
Import Candidate.

(** A leader, as a holder. *)
Definition holding (a : agent) : option (string * Z) :=
  if elected_ (state a) then Some (election_prefix_ (state a), creation_revision_ (state a)) else None.
Definition as_lock (c : C) : Lock.lock :=
  Lock.State (kv_create_revision <$> store (etcd c)) (revision (etcd c)) (omap holding (agents c)).

Lemma oldest_no_older (e : E) s :
  no_older e s -> Lock.oldest (kv_create_revision <$> store e) (election_prefix_ s) (creation_revision_ s).
Proof.
  intros Hn key t. rewrite lookup_fmap_Some. intros (kv & <- & Hk) Hp. by eapply Hn.
Qed.

(** The server moves. *)
Lemma changes_refines (c : C) e' :
  changes (etcd c) e' -> Lock.step (as_lock c) (as_lock (Cluster e' (agents c))).
Proof.
  intros Hc. apply Lock.s_members; [by apply revision_grows|]. intros key t. cbn.
  rewrite !lookup_fmap_Some. intros (kv & <- & Hk).
  destruct (created_since _ _ _ _ Hc Hk) as [(kv0 & Hk0 & E0)|]; [left|by right]. by exists kv0.
Qed.
Lemma moved_refines (c : C) e' :
  moved (etcd c) e' -> rtc Lock.step (as_lock c) (as_lock (Cluster e' (agents c))).
Proof. intros [->|[Hc _]]; [by destruct c|]. by apply rtc_once, changes_refines. Qed.

(** An agent moves. *)
Lemma agent_refines (c : C) i a' :
  inv (agent_view (etcd c) a') -> Lock.step (as_lock c) (as_lock (Cluster (etcd c) (<[i := a']> (agents c)))).
Proof.
  intros (_ & _ & _ & Hr & He & _). unfold as_lock at 2. cbn. rewrite omap_insert. unfold holding at 1.
  change (self (local _)) with (state a') in Hr, He. destruct (elected_ (state a')).
  - apply Lock.s_hold; [exact Hr|]. apply oldest_no_older. by apply He.
  - apply Lock.s_release.
Qed.

(** A step of a cluster: an action, or a change some other client or time makes. *)
Inductive cluster_step (c : C) : C -> Prop :=
  | cs_exec act c' : exec act c = Some c' -> cluster_step c c'
  | cs_other e' : changes (etcd c) e' -> creates_one (etcd c) e' -> cluster_step c (Cluster e' (agents c)).

Lemma exec_refines (c : C) act c' :
  reachable c -> exec act c = Some c' -> rtc Lock.step (as_lock c) (as_lock c').
Proof.
  intros Hc Hx. pose proof (reachable_sound c' (r_exec c act c' Hc Hx)) as [_ Ha].
  pose proof (reachable_sound c Hc) as Hsound.
  assert (Hi : forall i a, agents c' !! i = Some a -> inv (agent_view (etcd c') a)).
  { intros i a Hi. by apply vsafe_inv, (Ha i). }
  assert (Hstep : forall i a' e', c' = Cluster e' (<[i := a']> (agents c)) -> moved (etcd c) e' ->
    rtc Lock.step (as_lock c) (as_lock c')).
  { intros i a' e' -> Hm. etrans; [by apply moved_refines|]. apply rtc_once.
    apply (agent_refines (Cluster e' (agents c))), (Hi i). cbn. apply lookup_insert_eq. }
  destruct act as [i lease_id name value ms|i tag|i tag ok st m|i|i t|i]; cbn in Hx;
    [|destruct (agents c !! i) as [a|] eqn:Hl; [|done]; cbn in Hx..|].
  - destruct (agents c !! i); [done|]. injection Hx as <-. by eapply Hstep; [|left].
  - destruct (serve_op tag _) as [v|] eqn:Hv; [|done]. injection Hx as <-. eapply Hstep; [done|].
    eapply serve_moves in Hv; [done|]. by eapply agent_inv.
  - destruct (deliver_op tag ok st m _) as [v|] eqn:Hv; [|done]. injection Hx as <-. eapply Hstep; [done|].
    left. by apply deliver_keeps in Hv.
  - injection Hx as <-. by eapply Hstep; [|left].
  - injection Hx as <-. by eapply Hstep; [|left].
  - injection Hx as <-. apply rtc_once. unfold as_lock at 2. cbn. rewrite omap_delete. apply Lock.s_release.
Qed.


End refinement.

Import Memory.

