(* ===== verification/Observer.v ===== *)
(** * [election_observer_impl] (gh/detail/election_observer_impl.hpp)

    An observer follows an election: it asks etcd for the node with the lowest creation revision,
    watches the keys of the election from there, keeps the nodes it learns of by creation
    revision, and tells its subscribers when the first one, the leader, changes.

    The subscribers are functors of the application, outside the sources: what a call of one
    does to the observer is a parameter, [reactions]. The list [reports] of the state is a record
    of the calls made. The loggers are left out. *)

From stdpp Require Import sorting.
From S2P Require Import Prelude Runtime PrefixEnd OpCounter Etcd CompletionQueue.
Open Scope Z_scope.
Open Scope gh_scope.
Import OpCounter.

Module Observer.

(** ** Subscribers *)

(** What a subscriber does in a call: it may unsubscribe tokens, and then throw. And the order in
    which an [std::unordered_map] is iterated, which the language does not specify. *)
Class Application (sub : Type) := {
  reactions (s : sub) (key value : string) : list Z * option exn;
  iteration (m : gmap Z sub) : list Z;
  iteration_ok m : iteration m ≡ₚ elements (dom m)
}.

(** ** State *)

Record observer (sub : Type) := Obs {
  mu_ : bool;
  election_name_ : string;
  election_prefix_ : string;
  subscriptions_ : gmap Z sub;
  token_gen_ : Z;
  watcher_stream_ : bool;
  watch_id_ : Z;
  participants_ : gmap Z KeyValue;
  ops_ : async_op_counter;
  reports : list (sub * string * string)
}.
Arguments Obs {sub} _ _ _ _ _ _ _ _ _ _.
Arguments mu_ {sub} _.
Arguments election_name_ {sub} _.
Arguments election_prefix_ {sub} _.
Arguments subscriptions_ {sub} _.
Arguments token_gen_ {sub} _.
Arguments watcher_stream_ {sub} _.
Arguments watch_id_ {sub} _.
Arguments participants_ {sub} _.
Arguments ops_ {sub} _.
Arguments reports {sub} _.

Inductive cb :=
  | cb_range_request
  | cb_watch_create
  | cb_watch_cancel
  | cb_watch_read.

Section setters.
Context {sub : Type}.
Definition set_mu b (s : observer sub) := Obs b (election_name_ s) (election_prefix_ s)
  (subscriptions_ s) (token_gen_ s) (watcher_stream_ s) (watch_id_ s) (participants_ s) (ops_ s)
  (reports s).
Definition set_subscriptions m (s : observer sub) := Obs (mu_ s) (election_name_ s)
  (election_prefix_ s) m (token_gen_ s) (watcher_stream_ s) (watch_id_ s) (participants_ s) (ops_ s)
  (reports s).
Definition set_token_gen t (s : observer sub) := Obs (mu_ s) (election_name_ s)
  (election_prefix_ s) (subscriptions_ s) t (watcher_stream_ s) (watch_id_ s) (participants_ s)
  (ops_ s) (reports s).
Definition set_watcher_stream b (s : observer sub) := Obs (mu_ s) (election_name_ s)
  (election_prefix_ s) (subscriptions_ s) (token_gen_ s) b (watch_id_ s) (participants_ s) (ops_ s)
  (reports s).
Definition set_watch_id i (s : observer sub) := Obs (mu_ s) (election_name_ s)
  (election_prefix_ s) (subscriptions_ s) (token_gen_ s) (watcher_stream_ s) i (participants_ s)
  (ops_ s) (reports s).
Definition set_participants m (s : observer sub) := Obs (mu_ s) (election_name_ s)
  (election_prefix_ s) (subscriptions_ s) (token_gen_ s) (watcher_stream_ s) (watch_id_ s) m (ops_ s)
  (reports s).
Definition set_ops c (s : observer sub) := Obs (mu_ s) (election_name_ s) (election_prefix_ s)
  (subscriptions_ s) (token_gen_ s) (watcher_stream_ s) (watch_id_ s) (participants_ s) c (reports s).
Definition set_reports l (s : observer sub) := Obs (mu_ s) (election_name_ s) (election_prefix_ s)
  (subscriptions_ s) (token_gen_ s) (watcher_stream_ s) (watch_id_ s) (participants_ s) (ops_ s) l.

(** The constructor. *)
Definition election_observer_impl (election_name : string) : observer sub :=
  Obs false election_name (election_name +:+ "/") ∅ 0 false 0 ∅ new_counter [].
End setters.

(** ** Participants *)

(** [participants_.begin()]: the least key. *)
Definition begin (m : gmap Z KeyValue) : option Z :=
  match elements (dom m) with
  | [] => None
  | k :: ks => Some (foldr Z.min k ks)
  end.
Definition first (m : gmap Z KeyValue) : option KeyValue :=
  begin m ≫= fun k => m !! k.

(** [handle_node_put] and [handle_node_delete], on the map: the new one, and the result. *)
Definition handle_node_put (kv : KeyValue) (m : gmap Z KeyValue) : gmap Z KeyValue * bool :=
  let k := to_uint64 (kv_create_revision kv) in
  let changed_value := match m !! k with
                       | Some old => negb (bool_decide (kv_value kv = kv_value old))
                       | None => true
                       end in
  let m' := <[k := kv]> m in
  (m', bool_decide (begin m' = Some k) && changed_value).

Definition handle_node_delete (kv : KeyValue) (m : gmap Z KeyValue) : gmap Z KeyValue * bool :=
  let k := to_uint64 (kv_create_revision kv) in
  match m !! k with
  | None => (m, false)
  | Some _ => (delete k m, bool_decide (begin m = Some k))
  end.

Definition handle_event (ev : Event) (m : gmap Z KeyValue) : gmap Z KeyValue * bool :=
  match ev_type ev with
  | PUT => handle_node_put (ev_kv ev) m
  | DELETE => handle_node_delete (ev_prev_kv ev) m
  end.

(** The loop over the events: [leader_changed] is set once it is. *)
Fixpoint handle_events (evs : list Event) (m : gmap Z KeyValue) (leader_changed : bool) :
    gmap Z KeyValue * bool :=
  match evs with
  | [] => (m, leader_changed)
  | ev :: evs' => let '(m', c) := handle_event ev m in handle_events evs' m' (c || leader_changed)
  end.

Section observer.
Context {sub : Type} `{Application sub} {I : Interceptor}.
#[local] Abbreviation W := (world (observer sub) cb).

Definition lock : M W unit :=
  b ← gets_self mu_;
  if (b : bool) then undefined "mutex locked twice by a thread" else modify_self (set_mu true).
Definition unlock : M W unit := modify_self (set_mu false).
(** [std::lock_guard] *)
Definition with_lock {A} (m : M W A) : M W A :=
  lock;;
  a ← try_catch m (fun e => unlock;; throw e);
  unlock;;
  mret a.

Definition deref_stream : M W unit :=
  b ← gets_self watcher_stream_;
  if (b : bool) then mret tt else undefined "null watcher_stream_".

Definition ops_start : M W bool := zoom ops_ set_ops OpCounter.start.
Definition ops_done : M W unit := zoom ops_ set_ops OpCounter.done.

Definition block_on_ops : P W unit :=
  lift (zoom ops_ set_ops OpCounter.enter_block);;
  block_until (fun w => all_done (ops_ (self w))).

(** ** The interface of an observer *)

Definition has_leader : M W bool :=
  with_lock (gets_self (fun s => bool_decide (participants_ s <> ∅))).
Definition election_name : M W string := gets_self election_name_.

(** [current_key] and [current_value]. *)
Definition current {A} (name : string) (field : KeyValue -> A) : M W A :=
  with_lock (
    m ← gets_self participants_;
    match first m with
    | None => throw (runtime_error ("election_observer_impl::" +:+ name +:+ " called on empty election"))
    | Some kv => mret (field kv)
    end).
Definition current_key : M W string := current "current_key" kv_key.
Definition current_value : M W string := current "current_value" kv_value.

Definition unsubscribe (token : Z) : M W unit :=
  with_lock (modify_self (fun s => set_subscriptions (delete token (subscriptions_ s)) s)).

(** A call of a subscriber by the observer. *)
Definition call_subscriber (f : sub) (key value : string) : M W unit :=
  modify_self (fun s => set_reports ((f, key, value) :: reports s) s);;
  let '(tokens, e) := reactions f key value in
  for_each tokens unsubscribe;;
  match e with Some e => throw e | None => mret tt end.

Definition subscribe (f : sub) : M W Z :=
  lock;;
  m ← gets_self participants_;
  match first m with
  | Some kv => unlock;; call_subscriber f (kv_key kv) (kv_value kv);; lock
  | None => mret tt
  end;;
  t ← gets_self token_gen_;
  if t =? 2 ^ 63 - 1 then undefined "signed overflow of token_gen_"
  else
    modify_self (set_token_gen (t + 1));;
    modify_self (fun s => set_subscriptions
      (match subscriptions_ s !! (t + 1) with
       | Some _ => subscriptions_ s
       | None => <[t + 1 := f]> (subscriptions_ s)
       end) s);;
    unlock;;
    mret (t + 1).

(** [call_subscribers], which is called with the mutex held and releases it. The loop runs over the
    live map: an element erased before its turn is not called, and to erase the element in
    turn leaves the iterator dangling when the loop moves on. *)
Fixpoint call_each (key value : string) (tokens : list Z) : M W unit :=
  match tokens with
  | [] => mret tt
  | t :: tokens' =>
      m ← gets_self subscriptions_;
      match m !! t with
      | None => call_each key value tokens'
      | Some f =>
          try_catch (call_subscriber f key value) (fun _ => mret tt);;
          m' ← gets_self subscriptions_;
          match m' !! t with
          | None => undefined "increment of an iterator to an erased element"
          | Some _ => call_each key value tokens'
          end
      end
  end.

Definition call_subscribers : M W unit :=
  m ← gets_self participants_;
  let kv := default KeyValue_default (first m) in
  unlock;;
  subs ← gets_self subscriptions_;
  call_each (kv_key kv) (kv_value kv) (iteration subs).

Definition report_election_leader (kv : KeyValue) : M W unit :=
  lock;;
  m ← gets_self participants_;
  let '(m', changed) := handle_node_put kv m in
  modify_self (set_participants m');;
  if (changed : bool) then call_subscribers else unlock.

(** ** Operations *)

Definition watcher_request (start_revision : Z) (s : observer sub) : WatchRequest :=
  create_request (election_prefix_ s) (prefix_end (election_prefix_ s)) start_revision true true.

Definition create_watcher (start_revision : Z) : M W unit :=
  started ← ops_start;
  if negb started then mret tt
  else
    req ← gets_self (watcher_request start_revision);
    deref_stream;;
    async_write (rq_write_watch req) "election_observer/create_watcher" cb_watch_create.

Definition cancel_watcher : M W unit :=
  started ← ops_start;
  if negb started then mret tt
  else
    id ← gets_self watch_id_;
    deref_stream;;
    async_write (rq_write_watch (cancel_request id)) "election_observer/cancel_watcher"
      cb_watch_cancel.

Definition lowest_request (s : observer sub) : RangeRequest := {|
  rr_key := election_prefix_ s;
  rr_range_end := prefix_end (election_prefix_ s);
  rr_max_create_revision := 0;
  rr_sort_order := ASCEND;
  rr_sort_target := CREATE;
  rr_limit := 1
|}.

Definition discover_node_with_lowest_creation_revision : M W unit :=
  req ← gets_self lowest_request;
  started ← ops_start;
  if negb started then mret tt
  else
    async_rpc (rq_range req) "election_observer/discover_node_with_lowest_creation_revision"
      cb_range_request.

Definition on_range_request (op : response) (ok : bool) : M W unit :=
  ops_done;;
  if negb ok then mret tt
  else
    let resp := as_range (r_message op) in
    match rg_kvs resp with
    | kv :: _ =>
        create_watcher (kv_create_revision kv);;
        GH_ASSERT_THROW (Nat.eqb (length (rg_kvs resp)) 1) "op.response.kvs().size() == 1UL"
          "on_range_request" "gh/detail/election_observer_impl.hpp" 212;;
        report_election_leader kv
    | [] => create_watcher (rg_revision resp)
    end.

Definition on_watch_create (op : response) (ok : bool) : M W unit :=
  ops_done;;
  if negb ok then mret tt
  else
    started ← ops_start;
    if negb started then mret tt
    else
      deref_stream;;
      async_read "election_observer/on_watch_create/watch_read" cb_watch_read.

Definition on_watch_cancel (op : response) (ok : bool) : M W unit := ops_done.

Definition on_watch_read (op : response) (ok : bool) : M W unit :=
  ops_done;;
  if negb ok then mret tt
  else
    let resp := as_watch (r_message op) in
    if wr_canceled resp || negb (wr_compact_revision resp =? 0) then mret tt
    else
      lock;;
      modify_self (set_watch_id (wr_watch_id resp));;
      m ← gets_self participants_;
      let '(m', leader_changed) := handle_events (wr_events resp) m false in
      modify_self (set_participants m');;
      when leader_changed call_subscribers;;
      started ← ops_start;
      when started
        (deref_stream;;
         async_read "election_observer/on_watch_read/watch_read" cb_watch_read);;
      when (negb leader_changed) unlock.

(** ** Members that block *)

(** The tracer is tested, but its destructor counts down either way. *)
Definition create_watcher_stream : P W unit :=
  started ← lift ops_start;
  with_destructor (
    if negb started then mret tt
    else
      fut ← lift (async_create_rdwr_stream_future Watch "election_observer/create_watcher_stream");
      future_get fut;;
      lift (with_lock (modify_self (set_watcher_stream true)))) ops_done.

Definition startup : P W unit :=
  create_watcher_stream;;
  lift discover_node_with_lowest_creation_revision.

Definition shutdown : M W unit :=
  lock;;
  stream ← gets_self watcher_stream_;
  unlock;;
  if negb stream then throw (runtime_error "leader_election::shutdown() called before startup")
  else cancel_watcher.

(** The destructor. *)
Definition cleanup : P W unit :=
  lift (deref_stream;; try_cancel_on);;
  lift (modify_self (fun s => set_ops (OpCounter.shutdown (ops_ s)) s));;
  block_on_ops.

(** ** The client of the queue *)

Definition invoke_cb (k : cb) (op : response) (ok : bool) : M W unit :=
  match k with
  | cb_range_request => on_range_request op ok
  | cb_watch_create => on_watch_create op ok
  | cb_watch_cancel => on_watch_cancel op ok
  | cb_watch_read => on_watch_read op ok
  end.

(** Every member keeps to the operations of the queue. *)
Section evolves.
#[local] Abbreviation ok m := (m ⊨ (@evolves (observer sub) cb)).
Ltac evolve := cbv zeta; respects_solve.

Lemma obs_lock_evolves : ok lock.
Proof. unfold lock. evolve. Qed.
Lemma obs_unlock_evolves : ok unlock.
Proof. unfold unlock. evolve. Qed.
#[local] Hint Resolve obs_lock_evolves obs_unlock_evolves : gh.
Lemma with_lock_evolves {A} (m : M W A) : ok m -> ok (with_lock m).
Proof. intros Hm. unfold with_lock. evolve. Qed.
Lemma obs_deref_stream_evolves : ok deref_stream.
Proof. unfold deref_stream. evolve. Qed.
Lemma obs_ops_start_evolves : ok ops_start.
Proof. unfold ops_start. evolve. Qed.
Lemma obs_ops_done_evolves : ok ops_done.
Proof. unfold ops_done. evolve. Qed.
#[local] Hint Resolve with_lock_evolves obs_deref_stream_evolves obs_ops_start_evolves obs_ops_done_evolves : gh.
Lemma unsubscribe_evolves t : ok (unsubscribe t).
Proof. unfold unsubscribe. evolve. Qed.
#[local] Hint Resolve unsubscribe_evolves : gh.
Lemma call_subscriber_evolves f k v : ok (call_subscriber f k v).
Proof. unfold call_subscriber. evolve. Qed.
#[local] Hint Resolve call_subscriber_evolves : gh.
Lemma call_each_evolves k v ts : ok (call_each k v ts).
Proof. induction ts; cbn [call_each]; evolve. Qed.
#[local] Hint Resolve call_each_evolves : gh.
Lemma call_subscribers_evolves : ok call_subscribers.
Proof. unfold call_subscribers. evolve. Qed.
#[local] Hint Resolve call_subscribers_evolves : gh.
Lemma report_election_leader_evolves kv : ok (report_election_leader kv).
Proof. unfold report_election_leader. evolve. Qed.
Lemma create_watcher_evolves r : ok (create_watcher r).
Proof. unfold create_watcher. evolve. Qed.
#[local] Hint Resolve report_election_leader_evolves create_watcher_evolves : gh.

Lemma obs_invoke_cb_evolves k op b : ok (invoke_cb k op b).
Proof.
  destruct k; cbn [invoke_cb];
    unfold on_range_request, on_watch_create, on_watch_cancel, on_watch_read, GH_ASSERT_THROW,
      assert_throw_impl; evolve.
Qed.
End evolves.

#[export] Instance observer_client : Client (observer sub) cb := {|
  invoke := invoke_cb;
  invoke_evolves := obs_invoke_cb_evolves
|}.

End observer.

End Observer.
