(* ===== verification/ObserverFacts.v ===== *)
(** * What the election observer guarantees

    The leader is the node with the lowest creation revision, a change of the leader is never missed,
    every subscriber is called once per report, the counter stays in step with the queue. *)

From S2P Require Import Prelude Runtime PrefixEnd OpCounter Etcd CompletionQueue Balance Safety.
From S2P Require Import Observer.
Open Scope Z_scope.
Open Scope gh_scope.
Import OpCounter Observer.

(** ** The first participant *)

Lemma foldr_min_in (k : Z) ks : foldr Z.min k ks ∈ k :: ks.
Proof.
  induction ks as [|x ks IH]; cbn; [left|]. destruct (Z.min_spec x (foldr Z.min k ks)) as [[_ ->]|[_ ->]].
  - right. left.
  - apply elem_of_cons in IH as [->|?]; [left|right; by right].
Qed.
Lemma foldr_min_le (k : Z) ks x : x ∈ k :: ks -> foldr Z.min k ks <= x.
Proof.
  intros Hx. induction ks as [|y ks IH]; cbn; [apply list_elem_of_singleton in Hx; lia|].
  apply elem_of_cons in Hx as [->|[->|Hx]%elem_of_cons]; [|lia|].
  - specialize (IH ltac:(left)). lia.
  - specialize (IH ltac:(by right)). lia.
Qed.

Lemma begin_spec m k :
  begin m = Some k <-> is_Some (m !! k) /\ forall k', is_Some (m !! k') -> k <= k'.
Proof.
  unfold begin. setoid_rewrite <- elem_of_dom. setoid_rewrite <- elem_of_elements.
  destruct (elements (dom m)) as [|x xs].
  - split; [done|]. intros [[]%not_elem_of_nil _].
  - split.
    + intros [= <-]. split; [apply foldr_min_in|]. intros k' Hk'. by apply foldr_min_le.
    + intros [Hk Hle]. f_equal. pose proof (foldr_min_le x xs k Hk).
      specialize (Hle _ (foldr_min_in x xs)). lia.
Qed.

Lemma begin_none m : begin m = None <-> m = ∅.
Proof.
  unfold begin. split; [|intros ->; by rewrite dom_empty_L, elements_empty].
  destruct (elements (dom m)) eqn:E; [|done]. intros _. apply dom_empty_inv_L.
  by apply leibniz_equiv, elements_empty_inv.
Qed.

Lemma first_none m : first m = None <-> m = ∅.
Proof.
  unfold first. rewrite <- begin_none. destruct (begin m) as [k|] eqn:E; cbn; [|done].
  apply begin_spec in E as [[kv ->] _]. done.
Qed.

Lemma first_spec m kv :
  first m = Some kv <->
  exists k, m !! k = Some kv /\ forall k' kv', m !! k' = Some kv' -> k <= k'.
Proof.
  unfold first. split.
  - destruct (begin m) as [k|] eqn:E; cbn; [|done]. intros Hk. apply begin_spec in E as [_ Hle].
    exists k. split; [done|]. intros k' kv' Hk'. apply Hle. by eexists.
  - intros (k & Hk & Hle). assert (begin m = Some k) as ->; [|done]. apply begin_spec.
    split; [by eexists|]. intros k' [kv' Hk']. by eapply Hle.
Qed.

Lemma omap_ext_in {A B} (f g : A -> option B) (l : list A) :
  (forall x, x ∈ l -> f x = g x) -> omap f l = omap g l.
Proof.
  induction l as [|x l IH]; intros Hfg; [done|]. cbn. rewrite (Hfg x) by left.
  rewrite IH; [done|]. intros y Hy. apply Hfg. by right.
Qed.

Lemma omap_lookup_dom {A} (m : gmap Z A) :
  omap (fun t => m !! t) (elements (dom m)) ≡ₚ (map_to_list m).*2.
Proof.
  induction m as [|i x m Hi IH] using map_ind.
  - by rewrite dom_empty_L, elements_empty, map_to_list_empty.
  - rewrite dom_insert_L, elements_union_singleton by (by apply not_elem_of_dom).
    cbn. rewrite lookup_insert_eq, map_to_list_insert by done. cbn. constructor. rewrite <- IH.
    erewrite omap_ext_in; [done|]. intros t Ht. cbn. rewrite lookup_insert_ne; [done|].
    intros ->. apply elem_of_elements, elem_of_dom in Ht as [? ?]. congruence.
Qed.

(** ** Changes of the leader *)

(** What a subscriber can see of the leader: its revision and its value. *)
Definition leader_view (m : gmap Z KeyValue) : option (Z * string) :=
  k ← begin m; kv ← m !! k; Some (k, kv_value kv).

Lemma leader_view_begin m k kv :
  begin m = Some k -> m !! k = Some kv -> leader_view m = Some (k, kv_value kv).
Proof. unfold leader_view. by intros -> Hk; cbn; rewrite Hk. Qed.

Lemma begin_insert m k kv :
  begin (<[k := kv]> m) = Some (match begin m with Some k' => Z.min k k' | None => k end).
Proof.
  apply begin_spec. destruct (begin m) as [b|] eqn:E.
  - apply begin_spec in E as [Hb Hle]. split.
    + destruct (Z.min_spec k b) as [[_ ->]|[_ ->]]; [by rewrite lookup_insert_eq|].
      rewrite lookup_insert_is_Some'. by right.
    + intros k'. rewrite lookup_insert_is_Some'. intros [->|Hk']; [lia|]. specialize (Hle k' Hk'). lia.
  - apply begin_none in E as ->. rewrite lookup_insert_eq. split; [done|].
    intros k'. rewrite lookup_insert_is_Some'. intros [->|[x Hx]]; [lia|].
    by rewrite lookup_empty in Hx.
Qed.

(** A PUT is reported exactly when it changes what is seen of the leader. *)
Lemma handle_node_put_changed kv m :
  let '(m', changed) := handle_node_put kv m in
  changed = true <-> leader_view m' <> leader_view m.
Proof.
  unfold handle_node_put. generalize (to_uint64 (kv_create_revision kv)) as k. intros k.
  rewrite begin_insert.
  assert (Hnew : forall b, begin m = b ->
    leader_view (<[k := kv]> m) =
    Some (match b with Some k' => Z.min k k' | None => k end,
          kv_value (match b with Some k' => if bool_decide (k <= k') then kv
                                            else default kv (m !! k')
                                | None => kv end))).
  { intros b Hb. unfold leader_view. rewrite begin_insert, Hb. cbn.
    destruct b as [k'|]; cbn; [|by rewrite lookup_insert_eq].
    case_bool_decide as Hle.
    - rewrite Z.min_l by done. by rewrite lookup_insert_eq.
    - rewrite Z.min_r by lia. rewrite lookup_insert_ne by lia.
      apply begin_spec in Hb as [[x Hx] _]. by rewrite Hx. }
  rewrite (Hnew _ eq_refl). destruct (begin m) as [b|] eqn:Hb.
  - pose proof Hb as Hb'. apply begin_spec in Hb' as [[old Hold] Hle].
    rewrite (leader_view_begin _ _ old Hb Hold).
    destruct (m !! k) as [prev|] eqn:Hk.
    + specialize (Hle k ltac:(by eexists)). destruct (decide (k = b)) as [->|Hne].
      * rewrite Z.min_id, (bool_decide_true (Some b = Some b)), (bool_decide_true (b <= b)) by done.
        cbn [andb].
        assert (prev = old) as -> by congruence.
        rewrite negb_true_iff, bool_decide_eq_false. split; [congruence|].
        intros Hv Heq. apply Hv. by rewrite Heq.
      * rewrite Z.min_r by lia. rewrite (bool_decide_false (Some b = Some k)) by congruence.
        rewrite (bool_decide_false (k <= b)) by lia. rewrite Hold. cbn. split; [done|]. by intros [].
    + destruct (decide (k = b)) as [->|Hne]; [congruence|]. rewrite andb_true_r, bool_decide_eq_true.
      destruct (decide (k <= b)) as [Hkb|Hkb].
      * rewrite Z.min_l by done. split; [|done]. intros _. congruence.
      * rewrite Z.min_r by lia. rewrite (bool_decide_false (k <= b)) by done. rewrite Hold. cbn.
        split; [congruence|]. by intros [].
  - apply begin_none in Hb as ->. rewrite lookup_empty, bool_decide_true by done. cbn. done.
Qed.

(** A DELETE is reported exactly when it removes the leader. *)
Lemma handle_node_delete_changed kv m :
  let '(m', changed) := handle_node_delete kv m in
  changed = true <-> leader_view m' <> leader_view m.
Proof.
  unfold handle_node_delete. generalize (to_uint64 (kv_create_revision kv)) as k. intros k.
  destruct (m !! k) as [old|] eqn:Hk; [|done].
  rewrite bool_decide_eq_true. destruct (decide (begin m = Some k)) as [Hb|Hb].
  - split; [|done]. intros _. rewrite (leader_view_begin _ _ old Hb Hk).
    unfold leader_view. destruct (begin (delete k m)) as [b|] eqn:Hb'; cbn; [|done].
    apply begin_spec in Hb' as [[x Hx] _]. rewrite Hx. cbn.
    apply lookup_delete_Some in Hx as [Hne _]. congruence.
  - split; [done|]. intros Hv. exfalso. apply Hv. unfold leader_view.
    destruct (begin m) as [b|] eqn:Hbm.
    + assert (b <> k) as Hne by congruence. pose proof Hbm as [[x Hx] Hle]%begin_spec.
      assert (begin (delete k m) = Some b) as ->; cbn; [|by rewrite lookup_delete_ne].
      apply begin_spec. rewrite lookup_delete_ne by done. split; [by eexists|].
      intros k' [y [_ Hy]%lookup_delete_Some]. apply Hle. by eexists.
    + apply begin_none in Hbm as ->. by rewrite lookup_empty in Hk.
Qed.

Lemma handle_event_changed ev m :
  let '(m', changed) := handle_event ev m in
  changed = true <-> leader_view m' <> leader_view m.
Proof.
  unfold handle_event. destruct (ev_type ev); [apply handle_node_put_changed|].
  apply handle_node_delete_changed.
Qed.

(** The participants after each event of a batch. *)
Fixpoint states_of (evs : list Event) (m : gmap Z KeyValue) : list (gmap Z KeyValue) :=
  m :: match evs with [] => [] | ev :: evs' => states_of evs' (handle_event ev m).1 end.

Lemma handle_events_flag evs m :
  (handle_events evs m true).2 = true.
Proof.
  revert m. induction evs as [|ev evs IH]; intros m; [done|]. cbn. destruct (handle_event ev m) as [m' c].
  rewrite orb_true_r. apply IH.
Qed.

(** C20. A batch of events asks for a report exactly when the leader, by its revision and its value, was at
    some moment of the batch another one than before it: no change is missed, and
    events that do not concern the leader are not reported. *)
Theorem handle_events_reports evs m :
  (handle_events evs m false).2 = true <->
  exists m', m' ∈ states_of evs m /\ leader_view m' <> leader_view m.
Proof.
  revert m. induction evs as [|ev evs IH]; intros m; cbn [handle_events states_of].
  - split; [done|]. intros (m' & ->%list_elem_of_singleton & []). done.
  - pose proof (handle_event_changed ev m) as Hc. destruct (handle_event ev m) as [m1 c] eqn:E.
    cbn [fst]. destruct c; cbn [orb].
    + rewrite handle_events_flag. split; [|done]. intros _. exists m1. split; [|by apply Hc].
      right. destruct evs; left.
    + rewrite IH. assert (leader_view m1 = leader_view m) as Hv.
      { destruct (decide (leader_view m1 = leader_view m)) as [|Hn]; [done|]. by apply Hc in Hn. }
      rewrite Hv. split; intros (m' & Hin & Hne); exists m'; (split; [|done]).
      * by right.
      * apply elem_of_cons in Hin as [->|Hin]; [done|done].
Qed.

Section facts.
Context {sub : Type} `{Application sub}.
#[local] Abbreviation W := (world (observer sub) cb).
Implicit Types w : W.

(** ** Queries *)

(** [current_key], [current_value] and [has_leader] answer for the node with the lowest creation revision,
    throw or say no when there is none, and leave everything as it is, the mutex released. *)
Theorem current_leader w :
  mu_ (self w) = false ->
  has_leader w = (w, Ok (bool_decide (participants_ (self w) <> ∅))) /\
  match first (participants_ (self w)) with
  | Some kv =>
      current_key w = (w, Ok (kv_key kv)) /\ current_value w = (w, Ok (kv_value kv)) /\
      exists k, participants_ (self w) !! k = Some kv /\
        forall k' kv', participants_ (self w) !! k' = Some kv' -> k <= k'
  | None =>
      participants_ (self w) = ∅ /\
      (exists what, current_key w = (w, Throw (runtime_error what))) /\
      (exists what, current_value w = (w, Throw (runtime_error what)))
  end.
Proof.
  destruct w as [[mu name pre subs tok st id ps ops rep] q]. cbn. intros ->.
  unfold has_leader, current_key, current_value, current, with_lock, lock, unlock, gets_self,
    modify_self, try_catch. munfold. split; [done|].
  destruct (first ps) as [kv|] eqn:E.
  - split_and!; [done..|]. by apply first_spec.
  - apply first_none in E. split_and!; [done|by eexists..].
Qed.

(** ** Balance *)

(** Every operation of an observer is counted. *)
Definition counted_kind (c : callback cb) : bool :=
  match c with functor _ => true | set_future _ _ => false end.
Abbreviation balance_ops := (balance (S:=observer sub) ops_ counted_kind).

Lemma ops_start_shifts : shifts balance_ops by_start ops_start.
Proof. by apply start_shifts. Qed.
Lemma ops_done_shifts : shifts balance_ops (by_ (-1)) ops_done.
Proof. by apply done_shifts. Qed.
#[local] Hint Resolve ops_start_shifts ops_done_shifts : shifts.

Section same.
#[local] Abbreviation same m := (m ⊨ same_balance (K:=cb) (S:=observer sub) ops_).
Lemma lock_same : same lock.
Proof. unfold lock. respects_solve. Qed.
Lemma unlock_same : same unlock.
Proof. unfold unlock. respects_solve. Qed.
#[local] Hint Resolve lock_same unlock_same : gh.
Lemma deref_stream_same : same deref_stream.
Proof. unfold deref_stream. respects_solve. Qed.
Lemma unsubscribe_same t : same (unsubscribe t).
Proof. unfold unsubscribe, with_lock. respects_solve. Qed.
#[local] Hint Resolve unsubscribe_same : gh.
Lemma call_subscriber_same f k v : same (call_subscriber f k v).
Proof. unfold call_subscriber. cbv zeta. respects_solve. Qed.
#[local] Hint Resolve call_subscriber_same : gh.
Lemma call_each_same k v ts : same (call_each k v ts).
Proof. induction ts; cbn [call_each]; respects_solve. Qed.
#[local] Hint Resolve call_each_same : gh.
Lemma call_subscribers_same : same call_subscribers.
Proof. unfold call_subscribers. cbv zeta. respects_solve. Qed.
#[local] Hint Resolve call_subscribers_same : gh.
Lemma report_election_leader_same kv : same (report_election_leader kv).
Proof. unfold report_election_leader. cbv zeta. respects_solve. Qed.
End same.
#[local] Hint Resolve lock_same unlock_same deref_stream_same call_subscribers_same
  report_election_leader_same : gh.

Ltac nothrow := unfold ops_start, ops_done, lock, unlock, deref_stream; nothrow_solve.
Lemma obs_ops_start_nothrow : never_throws (S:=observer sub) (K:=cb) ops_start.
Proof. nothrow. Qed.
Lemma obs_ops_done_nothrow : never_throws (S:=observer sub) (K:=cb) ops_done.
Proof. nothrow. Qed.
Lemma obs_lock_nothrow : never_throws (S:=observer sub) (K:=cb) lock.
Proof. nothrow. Qed.
Lemma obs_unlock_nothrow : never_throws (S:=observer sub) (K:=cb) unlock.
Proof. nothrow. Qed.
Lemma obs_deref_stream_nothrow : never_throws (S:=observer sub) (K:=cb) deref_stream.
Proof. nothrow. Qed.
Lemma call_each_nothrow k v ts : never_throws (S:=observer sub) (K:=cb) (call_each k v ts).
Proof.
  induction ts as [|t ts IH]; cbn [call_each]; intros w e Hwf; [done|].
  unfold gets_self. munfold. destruct (subscriptions_ (self w) !! t) as [f|]; [|by apply IH].
  pose proof (call_subscriber_evolves f k v w Hwf) as [Hwf' _].
  unfold try_catch. destruct (call_subscriber f k v w) as [w1 [[]|e1|x]]; cbn in *; [| |done];
    (destruct (subscriptions_ (self w1) !! t); [by apply IH|done]).
Qed.
#[local] Hint Resolve obs_ops_start_nothrow obs_ops_done_nothrow obs_lock_nothrow obs_unlock_nothrow
  obs_deref_stream_nothrow call_each_nothrow : nothrow.
Lemma call_subscribers_nothrow : never_throws (S:=observer sub) (K:=cb) call_subscribers.
Proof. unfold call_subscribers. cbv zeta. nothrow_solve. Qed.
#[local] Hint Resolve call_subscribers_nothrow : nothrow.

Lemma create_watcher_shifts r : shifts balance_ops (by_ 0) (create_watcher r).
Proof. unfold create_watcher. repeat shifts_step. Qed.
#[local] Hint Resolve create_watcher_shifts : shifts.

Lemma invoke_cb_shifts k resp ok : shifts balance_ops (by_ (-1)) (invoke_cb k resp ok).
Proof.
  destruct k; cbn [invoke_cb];
    unfold on_range_request, on_watch_create, on_watch_cancel, on_watch_read, GH_ASSERT_THROW,
      assert_throw_impl; cbv zeta; repeat shifts_step.
Qed.

Lemma obs_event_counts w w' tag op ok resp r :
  wf (queue w) -> pending_ops (queue w) !! tag = Some op ->
  on_event tag ok resp w = (w', r) -> (forall s, r <> UB s) ->
  wf (queue w') /\ balance_ops w' = balance_ops w.
Proof.
  intros Hwf Hop E Hub. pose proof Hwf as (_ & Hpos & _). specialize (Hpos _ _ Hop).
  assert (tag <> 0) as Ht by lia.
  destruct (on_event_shift ops_ counted_kind tag ok resp w w' op r 0) as [H1 H2]; try done.
  - unfold run_callback. destruct (op_callback op) as [k|p a].
    + eapply shifts_conseq; [apply (invoke_cb_shifts k resp ok)|]. done.
    + apply on_promise_shifts.
  - split; [done|lia].
Qed.

(** The counter of an observer is always in step with the queue: an event, whatever the operation, its
    [ok] flag and its response, leaves the difference between the count and the number of
    operations in the queue as it was, also when the handler throws. *)
Theorem observer_counts_operations w w' tag op ok resp r :
  wf (queue w) -> pending_ops (queue w) !! tag = Some op ->
  on_event tag ok resp w = (w', r) -> (forall s, r <> UB s) ->
  wf (queue w') /\ balance_ops w' = balance_ops w.
Proof. apply obs_event_counts. Qed.

(** ** Reports *)

(** A subscriber that does not unsubscribe anyone; it may throw. *)
Definition calm (key value : string) (m : gmap Z sub) : Prop :=
  forall t f, m !! t = Some f -> (reactions f key value).1 = [].

Lemma call_each_calm key value ts w :
  (forall t, t ∈ ts -> is_Some (subscriptions_ (self w) !! t)) ->
  calm key value (subscriptions_ (self w)) ->
  exists fs, Forall2 (fun t f => subscriptions_ (self w) !! t = Some f) ts fs /\
    call_each key value ts w =
    (with_self (fun s => set_reports (reverse ((fun f => (f, key, value)) <$> fs) ++ reports s) s) w,
     Ok tt).
Proof.
  revert w. induction ts as [|t ts IH]; intros w Hin Hcalm.
  - exists []. split; [constructor|]. cbn. by destruct w as [[] ?].
  - destruct (Hin t) as [f Hf]; [left|].
    set (w1 := with_self (fun s => set_reports ((f, key, value) :: reports s) s) w).
    destruct (IH w1) as (fs & Hfs & E); [intros t' Ht'; apply Hin; by right|done|].
    exists (f :: fs). split; [by constructor|].
    assert (Hcall : try_catch (call_subscriber f key value) (fun _ => mret tt) w = (w1, Ok tt)).
    { unfold try_catch, call_subscriber, modify_self. specialize (Hcalm t f Hf).
      destruct (reactions f key value) as [l e]. cbn in Hcalm. subst l. munfold.
      by destruct e. }
    cbn [call_each]. unfold gets_self. munfold. rewrite Hf. munfold. rewrite Hcall. munfold. rewrite Hf.
    rewrite E. f_equal. unfold w1, with_self. cbn. f_equal. unfold set_reports. cbn.
    match goal with |- context [rev_append ?l [?x]] =>
      change (rev_append l [x]) with (reverse (x :: l)) end.
    by rewrite reverse_cons, <- app_assoc.
Qed.


(** A subscriber that unsubscribes itself when it is told of a leader runs into undefined behaviour:
    the loop of [call_subscribers] goes over the live table, not over the copy it has made, and
    its iterator is left on an element that was erased. One subscriber is enough. *)
Theorem unsubscribe_in_callback_undefined w t f :
  let kv := default KeyValue_default (first (participants_ (self w))) in
  subscriptions_ (self w) = {[t := f]} -> (reactions f (kv_key kv) (kv_value kv)).1 = [t] ->
  exists what, (call_subscribers w).2 = UB what.
Proof.
  intros kv Hs Hr. unfold call_subscribers, unlock, modify_self, gets_self. munfold. fold kv.
  assert (Hit : iteration (subscriptions_ (self w)) = [t]).
  { apply Permutation_singleton_r. by rewrite iteration_ok, Hs, dom_singleton_L, elements_singleton. }
  rewrite Hit. cbn [call_each]. unfold gets_self. munfold. rewrite Hs, lookup_singleton_eq. munfold.
  unfold try_catch, call_subscriber, modify_self.
  destruct (reactions f (kv_key kv) (kv_value kv)) as [l e]. cbn in Hr. subst l. munfold.
  unfold unsubscribe, with_lock, lock, unlock, try_catch, gets_self, modify_self. munfold.
  destruct e as [e|]; munfold; rewrite Hs, delete_singleton_eq, lookup_empty; by eexists.
Qed.

(** [subscribe]: a new subscriber of an election with a leader is called at once, with the leader, and when it
    throws it is not subscribed; otherwise it is entered under a token that was not used before. *)
Theorem subscribe_effect w f :
  mu_ (self w) = false -> token_gen_ (self w) < 2 ^ 63 - 1 ->
  (forall t, is_Some (subscriptions_ (self w) !! t) -> t <= token_gen_ (self w)) ->
  match first (participants_ (self w)) with
  | None =>
      exists w', subscribe f w = (w', Ok (token_gen_ (self w) + 1)) /\
        subscriptions_ (self w') = <[token_gen_ (self w) + 1 := f]> (subscriptions_ (self w)) /\
        reports (self w') = reports (self w)
  | Some kv =>
      (reactions f (kv_key kv) (kv_value kv)).1 = [] ->
      match (reactions f (kv_key kv) (kv_value kv)).2 with
      | Some e => exists w', subscribe f w = (w', Throw e) /\
          subscriptions_ (self w') = subscriptions_ (self w)
      | None => exists w', subscribe f w = (w', Ok (token_gen_ (self w) + 1)) /\
          subscriptions_ (self w') = <[token_gen_ (self w) + 1 := f]> (subscriptions_ (self w)) /\
          reports (self w') = (f, kv_key kv, kv_value kv) :: reports (self w)
      end
  end.
Proof.
  destruct w as [[mu name pre subs tok st id ps ops rep] q]. cbn. intros -> Ht Hfresh.
  assert (Hnew : subs !! (tok + 1) = None).
  { destruct (subs !! (tok + 1)) eqn:E; [|done]. specialize (Hfresh (tok + 1) ltac:(by eexists)). lia. }
  assert (Hov : (tok =? 2 ^ 63 - 1) = false) by lia.
  unfold subscribe, lock, unlock, gets_self, modify_self. munfold.
  destruct (first ps) as [kv|] eqn:Ef; munfold.
  - intros Hr. unfold call_subscriber, modify_self.
    destruct (reactions f (kv_key kv) (kv_value kv)) as [l e]. cbn in Hr |- *. subst l. munfold.
    destruct e as [e|]; munfold; [by eexists|]. rewrite Hov. munfold.
    eexists. split; [reflexivity|]. cbn. by rewrite Hnew.
  - rewrite Hov. munfold. eexists. split; [reflexivity|]. cbn. by rewrite Hnew.
Qed.

(** ** Start and end *)

(** The destructor of an observer that was never started dereferences a null stream: before
    [startup] nothing but undefined behaviour is left for the object. *)
Theorem destructor_before_startup_undefined name (q : completion_queue cb) :
  exists what, cleanup (World (election_observer_impl (sub:=sub) name) q) =
    Finished (World (election_observer_impl name) q) (UB what).
Proof. by eexists. Qed.

(** The counter in step with the queue. *)
Definition in_step w : Prop := wf (queue w) /\ balance_ops w = 0.

Lemma in_step_stable {Rely : rely} : stable in_step.
Proof.
  split_and!; [|by intros w t _ [(? & ? & ?) ?]|].
  2:{ intros w w' Hi (Hwf & H1). unfold in_step. rewrite (balance_interferes _ _ w w') by done.
      by split; [eapply wf_interferes|]. }
  intros w w' tag ok resp _ (Hwf & H1) E.
  destruct (pending_ops (queue w) !! tag) as [op|] eqn:Hop.
  - destruct (obs_event_counts w w' tag op ok resp (Ok tt) Hwf Hop E) as (Hwf' & Ho); [done|].
    split; [done|lia].
  - rewrite on_event_unknown in E by done. by injection E as <-.
Qed.

(** No operation with a callback of the observer is in the queue. *)
Definition no_callbacks w : Prop :=
  forall tag op k, pending_ops (queue w) !! tag = Some op -> op_callback op <> functor k.

Lemma in_step_zero w : in_step w -> pending (ops_ (self w)) = 0 -> no_callbacks w.
Proof.
  intros [_ Hb] Hz tag op k Hop Hcb. unfold balance in Hb.
  enough (0 < count_ops counted_kind (queue w)) by lia.
  eapply count_ops_pos; [done|]. by rewrite Hcb.
Qed.

Lemma no_callbacks_stable {Rely : rely} : stable no_callbacks.
Proof.
  split_and!; [|done|].
  2:{ intros w w' [_ _ _ Hq] Hn tag op k Hop Hcb. eapply Hn; [|exact Hcb].
      by apply (same_callbacks_op _ _ tag op k Hq Hcb). }
  intros w w' tag ok resp _ Hn E.
  destruct (pending_ops (queue w) !! tag) as [op|] eqn:Hop;
    [|rewrite on_event_unknown in E by done; by injection E as <-].
  destruct (decide (tag = 0)) as [->|Ht]; [by injection E as <-|].
  rewrite (on_event_pending _ _ _ _ op) in E by done. unfold run_callback in E.
  destruct (op_callback op) as [k|p a] eqn:Hcb; [by destruct (Hn tag op k)|].
  unfold on_promise in E. cbn in E. destruct (promises (queue w) !! p); [|done].
  destruct (promise_set _ _) as [c' x]. injection E as <- _.
  intros t o k Ho. cbn in Ho. apply lookup_delete_Some in Ho as [_ Ho]. by eapply Hn.
Qed.

Lemma cleanup_no_callbacks w :
  in_step w -> watcher_stream_ (self w) = true ->
  psafe (fun _ => True) (fun _ : unit => no_callbacks) (fun _ _ => False) (cleanup w).
Proof.
  intros Hw Hst. revert w Hw Hst.
  enough (ptriple (fun _ => True) (fun w => in_step w /\ watcher_stream_ (self w) = true) cleanup
    (fun _ : unit => no_callbacks) (fun _ _ => False)) as Hp.
  { intros w Hw Hst. by apply Hp. }
  apply (ptriple_bind _ _ (fun _ => in_step)).
  { apply ptriple_lift. intros w [[Hwf Hb] Hst]. unfold deref_stream, gets_self. munfold. by rewrite Hst. }
  intros _. apply (ptriple_bind _ _ (fun _ => in_step)); [by apply ptriple_lift; intros w []|].
  intros _. apply (ptriple_bind _ _ (fun _ => in_step)); [by apply ptriple_lift; intros w []|].
  intros _. apply ptriple_block; [apply in_step_stable|done|].
  intros w Hw Hd. apply in_step_zero; [done|]. by apply Z.eqb_eq.
Qed.

(** The destructor of a started observer is a barrier: when the counter is in step with the queue and the
    destructor ends, next to whatever events, it has not thrown and no operation of the
    observer is in the queue. *)
Theorem observer_cleanup_barrier w es w' r :
  in_step w -> watcher_stream_ (self w) = true ->
  sched es (cleanup w) = running (Finished w' r) ->
  r = Ok tt /\ forall tag op k, pending_ops (queue w') !! tag = Some op -> op_callback op <> functor k.
Proof.
  intros Hw Hst Hrun. pose proof (cleanup_no_callbacks w Hw Hst) as Hp.
  eapply sched_psafe in Hp; [|intros ?; apply no_callbacks_stable|done|apply any_admissible|exact Hrun].
  by destruct r as [[]|e|x]; cbn in Hp.
Qed.

(** ** No undefined behaviour *)

(** A subscriber does not unsubscribe the token it has. *)
Definition polite (s : observer sub) : Prop :=
  forall t f, subscriptions_ s !! t = Some f -> forall k v, t ∉ (reactions f k v).1.
Definition needs_stream (s : observer sub) (k : cb) : Prop := watcher_stream_ s = true.
Definition holds (b st : bool) (s : observer sub) : Prop :=
  mu_ s = b /\ (st = true -> watcher_stream_ s = true) /\ polite s.
Abbreviation oinv b st := (inv needs_stream (holds b st)).

Lemma modify_keeps b b' st g :
  (forall s, holds b st s -> holds b' st (g s)) ->
  (forall s, watcher_stream_ (g s) = watcher_stream_ s) ->
  triple (oinv b st) (modify_self g) (fun _ => oinv b' st) (fun _ _ => False).
Proof.
  intros Hh Hs. apply modify_self_triple; [done|]. intros s k _. unfold needs_stream. by rewrite Hs.
Qed.
Lemma obs_lock_holds st : triple (oinv false st) lock (fun _ => oinv true st) (fun _ _ => False).
Proof.
  intros w Hw. pose proof Hw as (_ & _ & Hmu & _). unfold lock, gets_self. munfold. rewrite Hmu.
  apply (modify_keeps false true st (set_mu true)); [by intros s (_ & ? & ?)|done|done].
Qed.
Lemma obs_unlock_holds st : triple (oinv true st) unlock (fun _ => oinv false st) (fun _ _ => False).
Proof. apply modify_keeps; [by intros s (_ & ? & ?)|done]. Qed.
Lemma obs_deref_stream_keeps b : keeps (oinv b true) deref_stream.
Proof.
  intros w Hw. pose proof Hw as (_ & _ & _ & Hst & _). unfold deref_stream, gets_self. munfold.
  by rewrite Hst.
Qed.
Lemma obs_ops_start_keeps b st : keeps (oinv b st) ops_start.
Proof. apply zoom_keeps; [by intros s t (? & ? & ?); split_and!|done|by intros [? []]]. Qed.
Lemma obs_ops_done_keeps b st : keeps (oinv b st) ops_done.
Proof. apply zoom_keeps; [by intros s t (? & ? & ?); split_and!|done|done]. Qed.
Lemma set_participants_keeps b st m : keeps (oinv b st) (modify_self (set_participants m)).
Proof. apply modify_keeps; [by intros s (? & ? & ?); split_and!|done]. Qed.
Lemma set_watch_id_keeps b st i : keeps (oinv b st) (modify_self (set_watch_id i)).
Proof. apply modify_keeps; [by intros s (? & ? & ?); split_and!|done]. Qed.
#[local] Hint Resolve obs_lock_holds obs_unlock_holds obs_deref_stream_keeps obs_ops_start_keeps obs_ops_done_keeps
  set_participants_keeps set_watch_id_keeps : safe.
#[local] Hint Extern 2 (forall s : observer sub, holds _ _ s -> needs_stream s _) =>
  (intros ? (? & ? & ?); unfold needs_stream; auto) : safe.

(** While a subscriber is called its own entry stays. *)
Definition calling st t (f : sub) w : Prop :=
  inv needs_stream (fun s => holds false st s /\ subscriptions_ s !! t = Some f) w.

Lemma unsubscribe_calling st t f t' : t <> t' -> keeps (calling st t f) (unsubscribe t').
Proof.
  intros Hne w (Hs & Hr & (Hmu & Hst & Hpol) & Hf).
  unfold unsubscribe, with_lock, lock, unlock, try_catch, gets_self, modify_self. munfold.
  rewrite Hmu. munfold. split_and!; [done|done| |cbn; by rewrite lookup_delete_ne].
  split_and!; [done..|]. intros t0 f0. cbn. intros [_ H0]%lookup_delete_Some. by apply (Hpol t0 f0).
Qed.

Lemma unsubscribe_all_calling st t f ts : t ∉ ts -> keeps (calling st t f) (for_each ts unsubscribe).
Proof.
  induction ts as [|t' ts IH]; cbn [for_each]; [by intros _; apply triple_ret|].
  intros [Hne Hin]%not_elem_of_cons. eapply triple_bind_nothrow; [by apply unsubscribe_calling|].
  intros ?. by apply IH.
Qed.

Lemma call_subscriber_calling st t f k v :
  triple (calling st t f) (call_subscriber f k v) (fun _ => calling st t f) (fun _ => calling st t f).
Proof.
  unfold call_subscriber. eapply (triple_bind_nothrow _ (fun _ => calling st t f)).
  { apply modify_self_triple; [|done]. intros s ((? & ? & ?) & ?). by split. }
  intros _ w Hw. pose proof Hw as (_ & _ & (_ & _ & Hpol) & Hf). specialize (Hpol t f Hf k v).
  destruct (reactions f k v) as [ts e]. cbn in Hpol. clear Hf. revert w Hw.
  eapply (triple_bind_nothrow _ (fun _ => calling st t f)); [by apply unsubscribe_all_calling|].
  intros _. destruct e; [by apply triple_throw|by apply triple_ret].
Qed.

Lemma call_each_keeps st k v ts : keeps (oinv false st) (call_each k v ts).
Proof.
  induction ts as [|t ts IH]; cbn [call_each]; [by apply triple_ret|].
  intros w Hw. unfold gets_self at 1. munfold.
  destruct (subscriptions_ (self w) !! t) as [f|] eqn:Hf; [|by apply IH].
  assert (calling st t f w) as Hcall by (destruct Hw as (? & ? & ?); by split_and!).
  pose proof (call_subscriber_calling st t f k v w Hcall) as Hc. unfold try_catch.
  destruct (call_subscriber f k v w) as [w1 [[]|e|x]]; [| |done].
  all: pose proof Hc as (Hs1 & Hr1 & Hi1 & Hf1); unfold gets_self; munfold; rewrite Hf1; by apply IH.
Qed.
#[local] Hint Resolve call_each_keeps : safe.

Lemma call_subscribers_releases st :
  triple (oinv true st) call_subscribers (fun _ => oinv false st) (fun _ _ => False).
Proof. unfold call_subscribers. cbv zeta. repeat safe_step. Qed.
#[local] Hint Resolve call_subscribers_releases : safe.

Lemma report_election_leader_keeps st kv : keeps (oinv false st) (report_election_leader kv).
Proof.
  unfold report_election_leader. do 2 safe_step. destruct (handle_node_put kv _) as [m' c].
  safe_step. repeat safe_step.
Qed.
Lemma create_watcher_keeps r : keeps (oinv false true) (create_watcher r).
Proof. unfold create_watcher. repeat safe_step. Qed.
#[local] Hint Resolve report_election_leader_keeps create_watcher_keeps : safe.

(** The only exception of a handler: a range response with more keys than were asked for. *)
Definition too_many_keys (k : cb) (resp : response) (ok : bool) (e : exn) : Prop :=
  k = cb_range_request /\ ok = true /\ (1 < length (rg_kvs (as_range (r_message resp))))%nat /\
  exists what, e = runtime_error what.

Lemma on_watch_read_keeps resp ok : keeps (oinv false true) (on_watch_read resp ok).
Proof.
  unfold on_watch_read. safe_step. destruct ok; cbn [negb]; [|by apply triple_ret].
  cbv zeta. destruct (wr_canceled _ || _); [by apply triple_ret|]. do 3 safe_step.
  destruct (handle_events _ _ false) as [m' changed]. safe_step.
  destruct changed; cbn [negb]; rewrite ?when_true, ?when_false; repeat safe_step.
Qed.

Lemma obs_invoke_cb_safe st k resp ok :
  triple (inv needs_stream (fun s => holds false st s /\ needs_stream s k))
    (invoke_cb k resp ok) (fun _ => oinv false st)
    (fun e w => oinv false st w /\ too_many_keys k resp ok e).
Proof.
  assert (Hpre : forall w, inv needs_stream (fun s => holds false st s /\ needs_stream s k) w ->
    oinv false true w).
  { intros w. apply inv_weaken. by intros s [(? & ? & ?) Hn]; split_and!. }
  assert (Hpost : forall w, oinv false true w -> oinv false st w).
  { intros w. apply inv_weaken. intros s (? & ? & ?). split_and!; auto. }
  eapply (triple_conseq _ (oinv false true) _ _ (fun _ => oinv false true) _
    (fun e w => oinv false true w /\ too_many_keys k resp ok e)); [|done|auto|].
  2:{ intros e w []. auto. }
  destruct k; cbn [invoke_cb].
  - unfold on_range_request. safe_step. destruct ok; cbn [negb]; [|by apply triple_ret].
    cbv zeta. destruct (rg_kvs (as_range (r_message resp))) as [|kv kvs] eqn:E; [safe_step|].
    safe_step. destruct kvs as [|kv' kvs]; cbn [length Nat.eqb GH_ASSERT_THROW]; [repeat safe_step|].
    apply (triple_bind _ (fun _ => oinv false true)); [|intros ?; safe_step].
    apply triple_throw. intros w Hw. split; [done|]. split_and!; [done..| |by eexists].
    rewrite E. cbn. lia.
  - unfold on_watch_create. repeat safe_step.
  - unfold on_watch_cancel. safe_step.
  - apply triple_any_throw, on_watch_read_keeps.
Qed.

(** C24. If no subscriber unsubscribes itself from within a call, then no event leads to undefined behaviour,
    whatever gRPC and the subscribers do: no null stream, no mutex locked twice, no dangling iterator.
    The invariant is kept, and the only exception that can leave a handler is the
    assertion on a response with more keys than the limit of the request. *)
Theorem observer_events_safe w tag ok resp :
  oinv false false w ->
  let '(w', r) := on_event tag ok resp w in
  oinv false false w' /\
  (r = Ok tt \/ exists op k e, pending_ops (queue w) !! tag = Some op /\
     op_callback op = functor k /\ r = Throw e /\ too_many_keys k resp ok e).
Proof. apply on_event_safe. intros k. apply obs_invoke_cb_safe. Qed.

End facts.

(** ** The theorems applied *)

(** Subscribers that listen, throw, or unsubscribe a token. *)
Inductive sample_sub := listens | throws | leaves (token : Z).
#[local] Instance sample_application : Application sample_sub := {|
  reactions f _ _ := match f with
                     | listens => ([], None)
                     | throws => ([], Some (app_exception 1))
                     | leaves t => ([t], None)
                     end;
  iteration m := elements (dom m);
  iteration_ok m := reflexivity _
|}.

(** An observer of the election "e" with subscribers, two participants and a read in the queue. *)
Definition sample_observer (subs : gmap Z sample_sub) : observer sample_sub :=
  Obs false "e" "e/" subs 9 true 0 (<[5 := KV "e/a" "x" 5]> {[3 := KV "e/b" "y" 3]}) (Counter 1 false) [].
Definition sample_world (subs : gmap Z sample_sub) : world (observer sample_sub) cb :=
  World (sample_observer subs) (with_op "read" (functor cb_watch_read) rq_read new_queue).

Lemma sample_world_wf subs : wf (queue (sample_world subs)).
Proof. by apply wf_b_true. Qed.

Lemma current_leader_witness :
  current_key (sample_world ∅) = (sample_world ∅, Ok "e/b"%string) /\
  current_value (sample_world ∅) = (sample_world ∅, Ok "y"%string).
Proof.
  destruct (current_leader (sample_world ∅) eq_refl) as [_ Hs].
  change (first (participants_ (self (sample_world ∅)))) with (Some (KV "e/b" "y" 3)) in Hs.
  cbv beta iota in Hs. destruct Hs as (H1 & H2 & _). split; [exact H1|exact H2].
Defined.

Definition leader_gone : response := Response status_OK (msg_watch {| wr_watch_id := 4;
  wr_created := false; wr_canceled := false; wr_compact_revision := 0;
  wr_events := [{| ev_type := DELETE; ev_kv := KV "e/b" "" 0; ev_prev_kv := KV "e/b" "y" 3 |}] |}).

Lemma observer_counts_operations_witness :
  let w' := (on_event 1 true leader_gone (sample_world {[1 := listens]})).1 in
  balance ops_ counted_kind w' = balance ops_ counted_kind (sample_world {[1 := listens]}).
Proof.
  cbv zeta.
  destruct (observer_counts_operations (sample_world {[1 := listens]})
    (on_event 1 true leader_gone (sample_world {[1 := listens]})).1 1
    (AsyncOp "read" (functor cb_watch_read) rq_read) true leader_gone (Ok tt)) as [_ Hb];
    [apply sample_world_wf|by vm_compute|by vm_compute|done|exact Hb].
Defined.


Lemma unsubscribe_in_callback_undefined_witness :
  exists what, (call_subscribers (sample_world {[1 := leaves 1]})).2 = UB what.
Proof.
  exact (unsubscribe_in_callback_undefined (sample_world {[1 := leaves 1]}) 1 (leaves 1) eq_refl eq_refl).
Defined.

Lemma subscribe_effect_witness :
  exists w', subscribe listens (sample_world ∅) = (w', Ok 10) /\
    reports (self w') = [(listens, "e/b"%string, "y"%string)].
Proof.
  pose proof (subscribe_effect (sample_world ∅) listens eq_refl eq_refl) as Hs.
  destruct Hs as (w' & E & _ & Hr); [|done|].
  - intros t [x Hx]. change ((∅ : gmap Z sample_sub) !! t = Some x) in Hx. by rewrite lookup_empty in Hx.
  - exists w'. split; [exact E|exact Hr].
Defined.

Lemma observer_cleanup_barrier_witness :
  exists w', sched [ev_completion 1 false (Response status_OK msg_none); ev_wake]
    (cleanup (sample_world ∅)) = running (Finished w' (Ok tt)).
Proof.
  destruct (sched [ev_completion 1 false (Response status_OK msg_none); ev_wake]
    (cleanup (sample_world ∅))) as [[w' r|w' u k]|e|x] eqn:E; [|vm_compute in E; discriminate E..].
  assert (in_step (sample_world ∅)) as Hstep by (split; [apply sample_world_wf|by vm_compute]).
  pose proof (observer_cleanup_barrier (sample_world ∅)
    [ev_completion 1 false (Response status_OK msg_none); ev_wake] w' r Hstep eq_refl E) as [Hr _].
  rewrite Hr in E |- *.
  exists w'. reflexivity.
Defined.

Lemma observer_events_safe_witness :
  let w := sample_world {[1 := listens]} in
  inv needs_stream (holds false false) w /\
  inv needs_stream (holds false false) (on_event 1 true leader_gone w).1.
Proof.
  cbv zeta. assert (inv needs_stream (holds false false) (sample_world {[1 := listens]})) as Hw.
  { split_and!.
    - apply (sound_with_op "read" cb_watch_read rq_read new_queue sound_new).
    - done.
    - split_and!; [done..|]. intros t f Hf k v.
      change (({[1 := listens]} : gmap Z sample_sub) !! t = Some f) in Hf.
      apply lookup_singleton_Some in Hf as [_ <-]. apply not_elem_of_nil. }
  split; [exact Hw|].
  pose proof (observer_events_safe (sample_world {[1 := listens]}) 1 true leader_gone Hw) as Hs.
  destruct (on_event 1 true leader_gone (sample_world {[1 := listens]})) as [w' r]. apply Hs.
Defined.
