(* ===== verification/Following.v ===== *)
(** * An observer follows an election

    What an observer (gh/detail/election_observer_impl.hpp) knows, against what is in the store of etcd. The history of an
    election is the sequence of the changes to the keys with its prefix; the observer asks for the oldest of
    them, and for a watch on all from the revision in which that one was created. When it has read the history up to
    some revision, in whatever portions, its participants are exactly the keys of the store at that
    revision: the refinement of the specification "the leader is the oldest key" by the handlers. *)

From S2P Require Import Prelude Runtime PrefixEnd OpCounter Etcd CompletionQueue Balance Safety.
From S2P Require Import Observer ObserverFacts.
Open Scope Z_scope.
Open Scope gh_scope.
Import OpCounter Observer.

(** ** The history of an election *)

(** A change to the keys of the election at a revision: a key is created, with that revision, or gets another value and
    keeps the revision of its creation, or is deleted; the event of a deletion has what was there. *)
Inductive changes (rev rev' : Z) (s : gmap string KeyValue) (ev : Event) : gmap string KeyValue -> Prop :=
  | key_created :
      ev_type ev = PUT -> rev < rev' < 2 ^ 63 -> kv_create_revision (ev_kv ev) = rev' ->
      s !! kv_key (ev_kv ev) = None ->
      changes rev rev' s ev (<[kv_key (ev_kv ev) := ev_kv ev]> s)
  | key_updated old :
      ev_type ev = PUT -> rev <= rev' < 2 ^ 63 -> s !! kv_key (ev_kv ev) = Some old ->
      kv_create_revision (ev_kv ev) = kv_create_revision old ->
      changes rev rev' s ev (<[kv_key (ev_kv ev) := ev_kv ev]> s)
  | key_deleted :
      ev_type ev = DELETE -> rev <= rev' < 2 ^ 63 -> s !! kv_key (ev_prev_kv ev) = Some (ev_prev_kv ev) ->
      changes rev rev' s ev (delete (kv_key (ev_prev_kv ev)) s).

(** The events that lead from the keys [s] at one revision to [s'] at another. *)
Inductive history : Z -> gmap string KeyValue -> list Event -> Z -> gmap string KeyValue -> Prop :=
  | history_nil rev s : history rev s [] rev s
  | history_cons rev s ev rev1 s1 es rev' s' :
      changes rev rev1 s ev s1 -> history rev1 s1 es rev' s' -> history rev s (ev :: es) rev' s'.

(** The keys at a revision: they are under their names, created in different revisions before. *)
Record keys_at (rev : Z) (s : gmap string KeyValue) : Prop := {
  keys_rev : 0 <= rev < 2 ^ 63;
  keys_named key kv : s !! key = Some kv -> kv_key kv = key;
  keys_created key kv : s !! key = Some kv -> 0 < kv_create_revision kv <= rev;
  keys_apart key kv key' kv' : s !! key = Some kv -> s !! key' = Some kv' ->
    kv_create_revision kv = kv_create_revision kv' -> key = key'
}.

(** The leader: the oldest key. *)
Definition oldest (s : gmap string KeyValue) (kv : KeyValue) : Prop :=
  s !! kv_key kv = Some kv /\ forall key kv', s !! key = Some kv' -> kv_create_revision kv <= kv_create_revision kv'.

Lemma changes_rev rev rev' s ev s' : changes rev rev' s ev s' -> rev <= rev' < 2 ^ 63.
Proof. intros []; lia. Qed.

Lemma changes_keys rev rev' s ev s' : changes rev rev' s ev s' -> keys_at rev s -> keys_at rev' s'.
Proof.
  intros Hc [Hrev Hn Hcr Ha]. pose proof (changes_rev _ _ _ _ _ Hc).
  destruct Hc as [_ Hr He Hnone|old _ Hr Hold He|_ Hr Hold]; (split; [lia|..]).
  - intros key kv. rewrite lookup_insert_Some. intros [[<- <-]|[_ Hk]]; eauto.
  - intros key kv. rewrite lookup_insert_Some. intros [[_ <-]|[_ Hk%Hcr]]; lia.
  - intros key kv key' kv'. rewrite !lookup_insert_Some.
    intros [[<- <-]|[_ Hk]] [[<- <-]|[_ Hk']] E; [done| | |by eapply Ha]; [apply Hcr in Hk'|apply Hcr in Hk]; lia.
  - intros key kv. rewrite lookup_insert_Some. intros [[<- <-]|[_ Hk]]; eauto.
  - intros key kv. rewrite lookup_insert_Some. intros [[_ <-]|[_ Hk%Hcr]]; [apply Hcr in Hold|]; lia.
  - intros key kv key' kv'. rewrite !lookup_insert_Some.
    intros [[<- <-]|[_ Hk]] [[<- <-]|[_ Hk']] E; [done| | |by eapply Ha];
      [eapply Ha; [exact Hold|exact Hk'|congruence]|eapply Ha; [exact Hk|exact Hold|congruence]].
  - intros key kv [_ Hk]%lookup_delete_Some. eauto.
  - intros key kv [_ Hk%Hcr]%lookup_delete_Some. lia.
  - intros key kv key' kv' [_ Hk]%lookup_delete_Some [_ Hk']%lookup_delete_Some. by apply Ha.
Qed.

(** A key that is not new was there before. *)
Lemma changes_old rev rev' s ev s' key kv :
  changes rev rev' s ev s' -> s' !! key = Some kv -> kv_create_revision kv <= rev ->
  exists kv0, s !! key = Some kv0 /\ kv_create_revision kv0 = kv_create_revision kv.
Proof.
  intros [_ Hr He Hnone|old _ Hr Hold He|_ Hr Hold].
  - rewrite lookup_insert_Some. intros [[_ <-]|[_ Hk]]; [lia|by eauto].
  - rewrite lookup_insert_Some. intros [[<- <-]|[_ Hk]]; [exists old; by rewrite He|by eauto].
  - intros [_ Hk]%lookup_delete_Some. eauto.
Qed.

Lemma history_keys rev s es rev' s' : history rev s es rev' s' -> keys_at rev s -> keys_at rev' s'.
Proof. induction 1 as [|? ? ? ? ? ? ? ? Hc _ IH]; [done|]. intros Hs. by apply IH, (changes_keys _ _ _ _ _ Hc). Qed.
Lemma history_rev rev s es rev' s' : history rev s es rev' s' -> rev <= rev'.
Proof. induction 1 as [|? ? ? ? ? ? ? ? Hc%changes_rev _ IH]; lia. Qed.
Lemma history_old rev s es rev' s' key kv :
  history rev s es rev' s' -> s' !! key = Some kv -> kv_create_revision kv <= rev ->
  exists kv0, s !! key = Some kv0 /\ kv_create_revision kv0 = kv_create_revision kv.
Proof.
  induction 1 as [|? ? ? ? ? ? ? ? Hc _ IH]; [by eauto|]. intros Hk Hle. pose proof (changes_rev _ _ _ _ _ Hc).
  destruct (IH Hk) as (kv1 & Hk1 & E1); [lia|].
  destruct (changes_old _ _ _ _ _ _ _ Hc Hk1) as (kv0 & Hk0 & E0); [lia|]. exists kv0. split; [done|congruence].
Qed.

(** ** The participants and the keys *)

(** Exactly the keys, by the revision of their creation. *)
Definition indexed (s : gmap string KeyValue) (o : gmap Z KeyValue) : Prop :=
  forall k kv, o !! k = Some kv <-> s !! kv_key kv = Some kv /\ kv_create_revision kv = k.

(** While the history is read again from revision [c] on: the participants are keys, all those that were created since are
    among them, and the one created at [c] can be there ahead of its time, if it is one that will be there ([known]). *)
Definition catching_up (c : Z) (known : Prop) (rev : Z) (s : gmap string KeyValue) (o : gmap Z KeyValue) : Prop :=
  (forall k kv, o !! k = Some kv ->
     (s !! kv_key kv = Some kv /\ kv_create_revision kv = k) \/ (known /\ rev < c /\ k = c)) /\
  (forall key kv, s !! key = Some kv -> c <= kv_create_revision kv -> o !! kv_create_revision kv = Some kv).

Definition replay (es : list Event) (o : gmap Z KeyValue) : gmap Z KeyValue :=
  foldl (fun o ev => (handle_event ev o).1) o es.
Lemma handle_events_replay es o b : (handle_events es o b).1 = replay es o.
Proof.
  revert o b. induction es as [|ev es IH]; intros o b; [done|]. cbn. destruct (handle_event ev o) as [o' c]. apply IH.
Qed.

Lemma to_uint64_revision r : 0 < r < 2 ^ 63 -> to_uint64 r = r.
Proof. intros Hr. apply Z.mod_small. lia. Qed.

(** What an event does to the participants, when its revisions are not negative. *)
Lemma handle_put ev o :
  ev_type ev = PUT -> 0 < kv_create_revision (ev_kv ev) < 2 ^ 63 ->
  (handle_event ev o).1 = <[kv_create_revision (ev_kv ev) := ev_kv ev]> o.
Proof. intros E Hr. unfold handle_event. rewrite E. unfold handle_node_put. by rewrite to_uint64_revision. Qed.
Lemma handle_delete ev o :
  ev_type ev = DELETE -> 0 < kv_create_revision (ev_prev_kv ev) < 2 ^ 63 ->
  (handle_event ev o).1 = delete (kv_create_revision (ev_prev_kv ev)) o.
Proof.
  intros E Hr. unfold handle_event. rewrite E. unfold handle_node_delete. rewrite to_uint64_revision by done.
  destruct (o !! _) eqn:Ho; [done|]. by rewrite delete_id.
Qed.

Lemma catching_up_step c (known : Prop) rev rev' s ev s' o :
  changes rev rev' s ev s' -> keys_at rev s -> catching_up c known rev s o ->
  (known -> rev < c <= rev' -> exists key kv, s' !! key = Some kv /\ kv_create_revision kv = c) ->
  catching_up c known rev' s' (handle_event ev o).1.
Proof.
  intros Hch Hs [H1 H2] Hfut. pose proof (changes_rev _ _ _ _ _ Hch) as Hrev.
  pose proof Hs as [Hr0 Hn Hcr Ha].
  (* What is ahead of its time stays so, or is there. *)
  assert (Hahead : forall k, known /\ rev < c /\ k = c -> (rev' = c -> ev_type ev = PUT ->
      kv_create_revision (ev_kv ev) <> k) -> known /\ rev' < c /\ k = c).
  { intros k (Hb & Hlt & ->) Hne. split; [done|]. split; [|done]. destruct (decide (rev' < c)); [done|]. exfalso.
    destruct (Hfut Hb) as (key & kv & Hk & Ec); [lia|].
    destruct Hch as [Hty Hr He Hnone|old Hty Hr Hold He|Hty Hr Hold].
    - apply lookup_insert_Some in Hk as [[_ <-]|[_ Hk%Hcr]]; [|lia]. apply Hne; [lia|done|done].
    - apply lookup_insert_Some in Hk as [[_ <-]|[_ Hk%Hcr]]; [apply Hcr in Hold|]; lia.
    - apply lookup_delete_Some in Hk as [_ Hk%Hcr]. lia. }
  destruct Hch as [Hty Hr He Hnone|old Hty Hr Hold He|Hty Hr Hold].
  - rewrite handle_put by (done || lia). split.
    + intros k kv. rewrite lookup_insert_Some. intros [[<- <-]|[Hne Hk]]; [left; by rewrite lookup_insert_eq|].
      destruct (H1 k kv Hk) as [[Hin Hkc]|Hc]; [left|right; by apply Hahead]. split; [|done].
      rewrite lookup_insert_ne; [done|]. intros E. congruence.
    + intros key kv. rewrite lookup_insert_Some. intros [[_ <-]|[_ Hk]] Hle; [by rewrite lookup_insert_eq|].
      rewrite lookup_insert_ne by (apply Hcr in Hk; lia). by eapply H2.
  - pose proof (Hcr _ _ Hold). rewrite handle_put by (done || lia). split.
    + intros k kv. rewrite lookup_insert_Some. intros [[<- <-]|[Hne Hk]]; [left; by rewrite lookup_insert_eq|].
      destruct (H1 k kv Hk) as [[Hin Hkc]|Hc]; [left|right; by apply Hahead]. split; [|done].
      rewrite lookup_insert_ne; [done|]. intros E. rewrite <- E in Hin. congruence.
    + intros key kv. rewrite lookup_insert_Some. intros [[_ <-]|[Hne Hk]] Hle; [by rewrite lookup_insert_eq|].
      rewrite lookup_insert_ne; [by eapply H2|]. intros E. apply Hne. eapply Ha; [exact Hold|exact Hk|congruence].
  - pose proof (Hcr _ _ Hold). rewrite handle_delete by (done || lia). split.
    + intros k kv [Hne Hk]%lookup_delete_Some.
      destruct (H1 k kv Hk) as [[Hin Hkc]|Hc]; [left|right; apply Hahead; [done|congruence]]. split; [|done].
      rewrite lookup_delete_ne; [done|]. intros E. rewrite <- E in Hin. congruence.
    + intros key kv [Hne Hk]%lookup_delete_Some Hle. rewrite lookup_delete_ne; [by eapply H2|].
      intros E. apply Hne. by eapply Ha.
Qed.

Lemma catching_up_history c (known : Prop) rev s es rev' s' o :
  history rev s es rev' s' -> keys_at rev s -> catching_up c known rev s o ->
  (known -> exists key kv, s' !! key = Some kv /\ kv_create_revision kv = c) ->
  catching_up c known rev' s' (replay es o).
Proof.
  intros Hh. revert o. induction Hh as [|rev s ev rev1 s1 es rev' s' Hc Hh IH]; intros o Hs Ho Hfut; [done|].
  cbn. apply IH; [by eapply changes_keys| |done].
  apply (catching_up_step _ _ _ _ _ _ _ _ Hc Hs Ho). intros Hb Hr. destruct (Hfut Hb) as (key & kv & Hk & E).
  destruct (history_old _ _ _ _ _ _ _ Hh Hk) as (kv1 & Hk1 & E1); [lia|]. exists key, kv1. split; [done|congruence].
Qed.

(** Once all keys are at least as new as [c] the participants are the keys. *)
Lemma caught_up c known rev s o :
  keys_at rev s -> catching_up c known rev s o -> c <= rev ->
  (forall key kv, s !! key = Some kv -> c <= kv_create_revision kv) -> indexed s o.
Proof.
  intros Hs [H1 H2] Hc Hnew k kv. split.
  - intros Hk. destruct (H1 k kv Hk) as [|(_ & ? & _)]; [done|lia].
  - intros [Hk <-]. eapply H2; [exact Hk|by eapply Hnew].
Qed.

(** The answer to the query for the oldest key, and the revision the observer asks the watch for. *)
Definition answers_oldest (rev : Z) (s : gmap string KeyValue) (r : RangeResponse) : Prop :=
  match rg_kvs r with
  | [] => s = ∅ /\ rg_revision r = rev /\ 0 < rev
  | [kv] => oldest s kv
  | _ => False
  end.
Definition watch_from (r : RangeResponse) : Z :=
  match rg_kvs r with kv :: _ => kv_create_revision kv | [] => rg_revision r end.
Definition known_participants (r : RangeResponse) : gmap Z KeyValue :=
  match rg_kvs r with kv :: _ => {[kv_create_revision kv := kv]} | [] => ∅ end.

(** All keys at the revision of the answer, and those that come later, are at least as new as the watch. *)
Lemma watch_from_oldest rev s r : keys_at rev s -> answers_oldest rev s r ->
  0 < watch_from r <= rev /\ forall key kv, s !! key = Some kv -> watch_from r <= kv_create_revision kv.
Proof.
  intros Hs. unfold answers_oldest, watch_from. destruct (rg_kvs r) as [|kv [|]]; [| |done].
  - intros (-> & -> & Hr). split; [lia|]. intros key kv. by rewrite lookup_empty.
  - intros [Hk Hold]. split; [by apply (keys_created _ _ Hs) in Hk|done].
Qed.

Lemma replay_follows r rev0 s0 es rev1 s1 es' rev2 s2 :
  keys_at rev0 s0 -> rev0 < watch_from r ->
  history rev0 s0 es rev1 s1 -> answers_oldest rev1 s1 r -> history rev1 s1 es' rev2 s2 ->
  indexed s2 (replay (es ++ es') (known_participants r)).
Proof.
  intros Hs0 Hbefore Hh Hr Hh'. pose proof (history_keys _ _ _ _ _ Hh Hs0) as Hs1.
  pose proof (history_keys _ _ _ _ _ Hh' Hs1) as Hs2. pose proof (history_rev _ _ _ _ _ Hh') as Hrev.
  destruct (watch_from_oldest _ _ _ Hs1 Hr) as [Hw Hnew].
  assert (H0 : catching_up (watch_from r) (rg_kvs r <> []) rev0 s0 (known_participants r)).
  { split.
    - intros k kv. unfold known_participants, watch_from in *. destruct (rg_kvs r) as [|kv0 l].
      + by rewrite lookup_empty.
      + intros [<- <-]%lookup_singleton_Some. by right.
    - intros key kv Hk%(keys_created _ _ Hs0). lia. }
  assert (H1 : catching_up (watch_from r) (rg_kvs r <> []) rev1 s1 (replay es (known_participants r))).
  { eapply catching_up_history; [done..|]. unfold answers_oldest, watch_from in *.
    destruct (rg_kvs r) as [|kv [|]]; [done| |done]. intros _. exists (kv_key kv), kv. split; [apply Hr|done]. }
  pose proof (caught_up _ _ _ _ _ Hs1 H1 (proj2 Hw) Hnew) as Hi.
  assert (H2 : catching_up (watch_from r) False rev1 s1 (replay es (known_participants r))).
  { split; [|apply H1]. intros k kv Hk. left. by apply Hi. }
  unfold replay. rewrite foldl_app. fold (replay es (known_participants r)).
  fold (replay es' (replay es (known_participants r))).
  eapply caught_up; [exact Hs2|by eapply catching_up_history|lia|].
  intros key kv Hk. destruct (decide (kv_create_revision kv <= rev1)); [|lia].
  destruct (history_old _ _ _ _ _ _ _ Hh' Hk) as (kv1 & Hk1 & <-); [done|]. by eapply Hnew.
Qed.

(** ** The handlers *)

Section follows.
Context {sub : Type} `{Application sub}.
#[local] Abbreviation W := (world (observer sub) cb).
Implicit Types w : W.

(** Code that calls subscribers leaves what the observer knows of the election, and its operations. *)
Definition frame w w' : Prop :=
  queue w' = queue w /\ participants_ (self w') = participants_ (self w) /\ ops_ (self w') = ops_ (self w) /\
  election_prefix_ (self w') = election_prefix_ (self w).
#[export] Instance frame_preorder : PreOrder frame.
Proof. split; [by intros w|]. intros w1 w2 w3 (? & ? & ? & ?) (? & ? & ? & ?). split_and!; congruence. Qed.

Lemma gets_self_frame {A} (f : observer sub -> A) : gets_self f ⊨ frame.
Proof. by intros w. Qed.
Lemma set_mu_frame b : modify_self (set_mu b) ⊨ frame.
Proof. by intros w. Qed.
Lemma set_reports_frame f : modify_self (fun s => set_reports (f s) s) ⊨ frame.
Proof. by intros w. Qed.
Lemma set_subscriptions_frame f : modify_self (fun s => set_subscriptions (f s) s) ⊨ frame.
Proof. by intros w. Qed.
#[local] Hint Resolve gets_self_frame set_mu_frame set_reports_frame set_subscriptions_frame : gh.
Lemma call_each_frame key value ts : call_each key value ts ⊨ frame.
Proof.
  induction ts; cbn [call_each]; unfold call_subscriber, unsubscribe, with_lock, lock, unlock; respects_solve.
Qed.
#[local] Hint Resolve call_each_frame : gh.
Lemma call_subscribers_frame : call_subscribers ⊨ frame.
Proof. unfold call_subscribers, unlock. cbv zeta. respects_solve. Qed.

(** The observer between two callbacks. *)
Definition obs_ready w : Prop :=
  inv needs_stream (holds false true) w /\ in_shutdown (ops_ (self w)) = false.
(** After a handler the next operation of the observer is under way. *)
Definition goes_on (k : cb) (rq : request) w w' : Prop :=
  next_op (queue w') = next_op (queue w) + 1 /\
  exists name, pending_ops (queue w') !! next_op (queue w) = Some (AsyncOp name (functor k) rq).

Lemma read_again_follows (changed : bool) w w' :
  wf (queue w) -> in_shutdown (ops_ (self w)) = false ->
  (started ← ops_start;
   when started (deref_stream;; async_read "election_observer/on_watch_read/watch_read" cb_watch_read);;
   when (negb changed) unlock) w = (w', Ok tt) ->
  participants_ (self w') = participants_ (self w) /\ in_shutdown (ops_ (self w')) = false /\
  election_prefix_ (self w') = election_prefix_ (self w) /\ goes_on cb_watch_read rq_read w w'.
Proof.
  destruct w as [[mu name pre subs tok st id ps [no fo] rep] q]. unfold in_shutdown. cbn. intros Hwf ->.
  unfold ops_start, zoom, OpCounter.start, async_op_start, add_op, deref_stream, gets_self. munfold.
  destruct st; munfold; [|done]. rewrite async_read_eq by done. munfold.
  destruct changed; munfold; intros [= <-]; (split_and!; [done..|]); (split; [done|]); eexists; apply lookup_insert_eq.
Qed.

Lemma on_watch_read_follows resp w :
  obs_ready w -> wr_canceled (as_watch (r_message resp)) = false -> wr_compact_revision (as_watch (r_message resp)) = 0 ->
  exists w', on_watch_read resp true w = (w', Ok tt) /\ obs_ready w' /\
    participants_ (self w') = replay (wr_events (as_watch (r_message resp))) (participants_ (self w)) /\
    election_prefix_ (self w') = election_prefix_ (self w) /\ goes_on cb_watch_read rq_read w w'.
Proof.
  intros [Hw Ho] Hc Hr. pose proof (on_watch_read_keeps resp true w Hw) as Hk.
  pose proof Hw as ([Hwf _] & _ & Hmu & _).
  destruct (on_watch_read resp true w) as [w' [[]|e|x]] eqn:E; [|done..]. exists w'. split; [done|].
  enough (participants_ (self w') = replay (wr_events (as_watch (r_message resp))) (participants_ (self w)) /\
    in_shutdown (ops_ (self w')) = false /\ election_prefix_ (self w') = election_prefix_ (self w) /\
    goes_on cb_watch_read rq_read w w') as (? & ? & ? & ?) by (by split_and!).
  revert E. unfold on_watch_read. rewrite Hc, Hr. cbn [negb orb Z.eqb].
  rewrite <- (handle_events_replay _ _ false). clear Hk Hw.
  destruct w as [[mu name pre subs tok st id ps [no fo] rep] q]. unfold in_shutdown in Ho. cbn in Hmu, Ho, Hwf. subst.
  unfold ops_done, lock, zoom, OpCounter.done, gets_self at 1. munfold.
  set (w0 := with_self (set_watch_id _) _). destruct (handle_events _ ps false) as [m' changed].
  set (w1 := with_self (set_participants m') w0).
  destruct changed; cbn [negb].
  - pose proof (call_subscribers_frame w1) as Hf.
    destruct (call_subscribers w1) as [w2 [[]|e|x]]; [|done..]. cbn in Hf. destruct Hf as (Hq & Hp & Hops & Hpre).
    intros E. destruct (read_again_follows true w2 w') as (Hp' & Ho' & Hpre' & Hn & nm & Hop);
      [by rewrite Hq|by rewrite Hops|exact E|].
    split_and!; [by rewrite Hp', Hp|done|by rewrite Hpre', Hpre|split; [by rewrite Hn, Hq|exists nm; by rewrite <- Hop, Hq]].
  - intros E. destruct (read_again_follows false w1 w') as (? & ? & ? & ?); [done..|]. by split_and!.
Qed.

Lemma handler_safe k resp w :
  inv needs_stream (holds false true) w ->
  let '(w', r) := invoke_cb k resp true w in
  match r with Ok _ => inv needs_stream (holds false true) w' | Throw _ => True | UB _ => False end.
Proof.
  intros Hw. pose proof (obs_invoke_cb_safe true k resp true w) as Hk.
  destruct (invoke_cb k resp true w) as [w' [[]|e|x]]; [apply Hk|done|apply Hk];
    (eapply inv_weaken; [|exact Hw]); intros s (? & Hst & ?); (split; [by split_and!|by apply Hst]).
Qed.

Lemma on_watch_create_follows resp w :
  obs_ready w ->
  exists w', on_watch_create resp true w = (w', Ok tt) /\ obs_ready w' /\
    participants_ (self w') = participants_ (self w) /\ election_prefix_ (self w') = election_prefix_ (self w) /\
    goes_on cb_watch_read rq_read w w'.
Proof.
  intros [Hw Ho]. pose proof Hw as ([Hwf _] & _ & _ & Hst & _). specialize (Hst eq_refl).
  pose proof (handler_safe cb_watch_create resp w Hw) as Hk. cbn [invoke_cb] in Hk. revert Hk. destruct w as [[mu name pre subs tok st id ps [no fo] rep] q].
  unfold in_shutdown in Ho. cbn in Ho, Hwf, Hst. subst.
  unfold on_watch_create, ops_done, ops_start, zoom, OpCounter.done, OpCounter.start, async_op_start, add_op, deref_stream,
    gets_self. munfold. rewrite async_read_eq by done. intros Hk. eexists. split; [done|]. split_and!; [by split|done|done|].
  split; [done|]. eexists. apply lookup_insert_eq.
Qed.

(** The queue asks for a watch on the keys of the election from a revision on. *)
Definition asks_watch (from : Z) (w : W) : request :=
  rq_write_watch (create_request (election_prefix_ (self w)) (prefix_end (election_prefix_ (self w))) from true true).

Lemma create_watcher_follows from w :
  obs_ready w ->
  exists w', create_watcher from w = (w', Ok tt) /\ obs_ready w' /\
    participants_ (self w') = participants_ (self w) /\ election_prefix_ (self w') = election_prefix_ (self w) /\
    goes_on cb_watch_create (asks_watch from w) w w'.
Proof.
  intros [Hw Ho]. pose proof Hw as ([Hwf _] & _ & _ & Hst & _). specialize (Hst eq_refl).
  pose proof (create_watcher_keeps from w Hw) as Hk. revert Hk.
  destruct w as [[mu name pre subs tok st id ps [no fo] rep] q]. unfold in_shutdown in Ho. cbn in Ho, Hwf, Hst. subst.
  unfold create_watcher, ops_start, zoom, OpCounter.start, async_op_start, add_op, deref_stream, gets_self. munfold.
  rewrite async_write_eq by done. intros Hk. eexists. split; [done|]. split_and!; [by split|done|done|].
  split; [done|]. eexists. apply lookup_insert_eq.
Qed.

Lemma report_election_leader_follows kv w :
  obs_ready w ->
  exists w', report_election_leader kv w = (w', Ok tt) /\ obs_ready w' /\
    participants_ (self w') = (handle_node_put kv (participants_ (self w))).1 /\
    election_prefix_ (self w') = election_prefix_ (self w) /\ queue w' = queue w.
Proof.
  intros [Hw Ho]. pose proof (report_election_leader_keeps true kv w Hw) as Hk. pose proof Hw as (_ & _ & Hmu & _).
  destruct (report_election_leader kv w) as [w' [[]|e|x]] eqn:E; [|done..]. exists w'. split; [done|].
  enough (participants_ (self w') = (handle_node_put kv (participants_ (self w))).1 /\
    in_shutdown (ops_ (self w')) = false /\ election_prefix_ (self w') = election_prefix_ (self w) /\
    queue w' = queue w) as (? & ? & ? & ?) by (by split_and!).
  revert E. unfold report_election_leader. generalize (handle_node_put kv). intros g.
  unfold lock, gets_self. clear Hk Hw.
  destruct w as [[mu name pre subs tok st id ps [no fo] rep] q]. unfold in_shutdown in Ho. cbn in Hmu, Ho. subst.
  munfold. destruct (g ps) as [m' changed]. set (w0 := with_self (set_mu true) _).
  unfold modify_self. munfold. set (w1 := with_self (set_participants m') w0). destruct changed.
  - pose proof (call_subscribers_frame w1) as Hf. destruct (call_subscribers w1) as [w2 [[]|e|x]]; [|done..].
    cbn in Hf. destruct Hf as (Hq & Hp & Hops & Hpre). intros [= <-]. by rewrite Hp, Hops, Hpre, Hq.
  - by intros [= <-].
Qed.

Lemma on_range_request_follows resp w rev s :
  obs_ready w -> participants_ (self w) = ∅ -> keys_at rev s -> answers_oldest rev s (as_range (r_message resp)) ->
  let r := as_range (r_message resp) in
  exists w', on_range_request resp true w = (w', Ok tt) /\ obs_ready w' /\
    participants_ (self w') = known_participants r /\ election_prefix_ (self w') = election_prefix_ (self w) /\
    goes_on cb_watch_create (asks_watch (watch_from r) w) w w'.
Proof.
  intros Hw Hp Hs Hr r. pose proof Hw as [_ Ho].
  assert (Hdone : exists w0, ops_done w = (w0, Ok tt) /\ obs_ready w0 /\ participants_ (self w0) = ∅ /\
      election_prefix_ (self w0) = election_prefix_ (self w) /\ queue w0 = queue w).
  { eexists. split; [done|]. split_and!; [|done..]. split; [|done]. destruct Hw as [(? & ? & ? & ? & ?) _]. by split_and!. }
  destruct Hdone as (w0 & E0 & Hw0 & Hp0 & Hpre0 & Hq0).
  unfold on_range_request. rewrite (bind_ok _ _ _ _ _ E0). cbn [negb]. cbv zeta. fold r.
  unfold answers_oldest in Hr. fold r in Hr. unfold known_participants, watch_from, asks_watch, goes_on.
  rewrite <- Hpre0, <- Hq0. destruct (rg_kvs r) as [|kv [|]]; [| |done].
  - destruct (create_watcher_follows (rg_revision r) w0 Hw0) as (w' & E & Hw' & Hp' & Hpre' & Hgo).
    exists w'. split_and!; [done|done|congruence|done|apply Hgo..].
  - destruct (create_watcher_follows (kv_create_revision kv) w0 Hw0) as (w1 & E1 & Hw1 & Hp1 & Hpre1 & Hn & nm & Hop).
    rewrite (bind_ok _ _ _ _ _ E1). cbn [length Nat.eqb GH_ASSERT_THROW].
    rewrite (bind_ok _ _ w1 w1 tt) by done.
    destruct (report_election_leader_follows kv w1 Hw1) as (w' & E & Hw' & Hp' & Hpre' & Hq').
    exists w'. rewrite Hq'. split_and!; [done|done| |congruence|done|by exists nm].
    rewrite Hp', Hp1, Hp0. unfold handle_node_put. cbn [fst]. destruct Hr as [Hk _]. apply (keys_created _ _ Hs) in Hk.
    pose proof (keys_rev _ _ Hs). by rewrite to_uint64_revision, insert_empty by lia.
Qed.

(** ** Runs *)

Lemma event_starts w tag name k rq resp :
  obs_ready w -> pending_ops (queue w) !! tag = Some (AsyncOp name (functor k) rq) ->
  exists w0, on_event tag true resp w = invoke_cb k resp true w0 /\ obs_ready w0 /\
    participants_ (self w0) = participants_ (self w) /\ election_prefix_ (self w0) = election_prefix_ (self w) /\
    next_op (queue w0) = next_op (queue w).
Proof.
  intros [(Hs & Hr & Hi) Ho] Hop. assert (tag <> 0) as Ht by (apply Hs in Hop; lia).
  rewrite (on_event_pending _ _ _ _ _ Ht Hop). eexists. split; [reflexivity|]. split_and!; [|done..].
  split; [|done]. split_and!; [by apply sound_unregister| |apply Hi..].
  intros t op1 k1 Hop1. cbn in Hop1. apply lookup_delete_Some in Hop1 as [_ ?]. by eapply Hr.
Qed.

(** An answer to a read that keeps the watch. *)
Definition watch_stays (resp : response) : Prop :=
  wr_canceled (as_watch (r_message resp)) = false /\ wr_compact_revision (as_watch (r_message resp)) = 0.
Definition events_of (resp : response) : list Event := wr_events (as_watch (r_message resp)).

(** The reads, one after the other, from the one with the address [tag] on. *)
Fixpoint reads (tag : Z) (resps : list response) : list sched_event :=
  match resps with [] => [] | resp :: resps' => ev_completion tag true resp :: reads (tag + 1) resps' end.

Definition is_reading tag w : Prop :=
  obs_ready w /\ next_op (queue w) = tag + 1 /\
  exists name, pending_ops (queue w) !! tag = Some (AsyncOp name (functor cb_watch_read) rq_read).

Lemma reads_follow {A} resps : forall tag w (r : outcome A),
  is_reading tag w -> Forall watch_stays resps ->
  exists w', sched (reads tag resps) (Finished w r) = running (Finished w' r) /\ obs_ready w' /\
    participants_ (self w') = replay (concat (events_of <$> resps)) (participants_ (self w)).
Proof.
  induction resps as [|resp resps IH]; intros tag w r (Hw & Hn & name & Hop) Hall; [by exists w|].
  apply Forall_cons in Hall as [[Hc Hr] Hall]. cbn [reads sched sched_step prog_world].
  destruct (event_starts w tag name cb_watch_read rq_read resp Hw Hop) as (w0 & -> & Hw0 & Hp0 & _ & Hn0).
  destruct (on_watch_read_follows resp w0 Hw0 Hc Hr) as (w1 & E & Hw1 & Hp1 & _ & Hn1 & Hop1).
  cbn [invoke_cb]. rewrite E. cbn [prog_set_world].
  rewrite Hn0, Hn in Hn1, Hop1. destruct (IH (tag + 1) w1 r) as (w' & -> & Hw' & Hp'); [by split_and!|done|].
  exists w'. split_and!; [done|done|]. rewrite Hp', Hp1, Hp0. cbn [fmap list_fmap concat].
  unfold replay. by rewrite foldl_app.
Qed.

(** The participants answer the queries for the keys. *)
Lemma indexed_oldest s o kv : indexed s o -> (forall key kv, s !! key = Some kv -> kv_key kv = key) ->
  oldest s kv -> first o = Some kv.
Proof.
  intros Hi Hn [Hk Hold]. apply first_spec. exists (kv_create_revision kv). split; [by apply Hi|].
  intros k' kv' [Hk' <-]%Hi. by eapply Hold.
Qed.
Lemma indexed_empty o : indexed ∅ o -> o = ∅.
Proof.
  intros Hi. apply map_eq. intros k. rewrite lookup_empty. apply eq_None_not_Some. intros [kv [Hk _]%Hi].
  by rewrite lookup_empty in Hk.
Qed.

(** C6. An observer follows the election. It has started, and its query is answered with the oldest key of the election at
    some revision, or with none; it asks for a watch on all keys from the creation of that key on, or from the revision
    of the answer. When it has read the changes since then, cut into answers in any way, up to some later
    revision, its participants are exactly the keys of the election at that revision, each under the revision of its
    creation: [current_key] and [current_value] are those of the oldest key, the leader, and [has_leader] says that
    there is none when there is none. Nothing throws meanwhile, whatever the subscribers do, as long as
    none unsubscribes itself from within a call. *)
Theorem observer_follows_election {A} (w : W) tag name rq answer ack resps rev0 s0 es rev1 s1 es' rev2 s2 (r : outcome A) :
  obs_ready w -> participants_ (self w) = ∅ ->
  pending_ops (queue w) !! tag = Some (AsyncOp name (functor cb_range_request) rq) ->
  let ra := as_range (r_message answer) in
  keys_at rev0 s0 -> rev0 < watch_from ra ->
  history rev0 s0 es rev1 s1 -> answers_oldest rev1 s1 ra -> history rev1 s1 es' rev2 s2 ->
  Forall watch_stays resps -> concat (events_of <$> resps) = es ++ es' ->
  let n := next_op (queue w) in
  exists w1,
    sched [ev_completion tag true answer] (Finished w r) = running (Finished w1 r) /\
    (exists name, pending_ops (queue w1) !! n =
       Some (AsyncOp name (functor cb_watch_create) (asks_watch (watch_from ra) w))) /\
    exists w2,
      sched (ev_completion n true ack :: reads (n + 1) resps) (Finished w1 r) = running (Finished w2 r) /\
      indexed s2 (participants_ (self w2)) /\
      (forall kv, oldest s2 kv ->
         current_key w2 = (w2, Ok (kv_key kv)) /\ current_value w2 = (w2, Ok (kv_value kv))) /\
      has_leader w2 = (w2, Ok (bool_decide (s2 <> ∅))).
Proof.
  intros Hw Hp Hop ra Hs0 Hbefore Hh Hans Hh' Hall Hcut n.
  pose proof (history_keys _ _ _ _ _ Hh Hs0) as Hs1. pose proof (history_keys _ _ _ _ _ Hh' Hs1) as Hs2.
  destruct (event_starts w tag name _ rq answer Hw Hop) as (w0 & E0 & Hw0 & Hp0 & Hpre0 & Hn0).
  destruct (on_range_request_follows answer w0 rev1 s1 Hw0) as (w1 & E1 & Hw1 & Hp1 & _ & Hn1 & nm1 & Hop1);
    [by rewrite Hp0|done|done|].
  rewrite Hn0 in Hn1, Hop1. fold n in Hn1, Hop1. fold ra in Hp1, Hop1.
  exists w1. split; [cbn [sched sched_step prog_world]; rewrite E0; cbn [invoke_cb]; by rewrite E1|].
  split; [exists nm1; rewrite Hop1; unfold asks_watch; by rewrite Hpre0|].
  destruct (event_starts w1 n nm1 _ _ ack Hw1 Hop1) as (w1' & E2 & Hw1' & Hp1' & _ & Hn1').
  destruct (on_watch_create_follows ack w1' Hw1') as (w1'' & E3 & Hw1'' & Hp1'' & _ & Hn2 & nm2 & Hop2).
  rewrite Hn1', Hn1 in Hn2, Hop2.
  destruct (reads_follow resps (n + 1) w1'' r) as (w2 & E4 & [Hw2 _] & Hp2); [by split_and!; [..|exists nm2]|done|].
  exists w2. split.
  { cbn [sched sched_step prog_world]. rewrite E2. cbn [invoke_cb]. rewrite E3. exact E4. }
  assert (Hi : indexed s2 (participants_ (self w2))).
  { rewrite Hp2, Hp1'', Hp1', Hp1, Hcut. by apply (replay_follows ra rev0 s0 es rev1 s1 es' rev2 s2). }
  pose proof Hw2 as (_ & _ & Hmu & _). destruct (current_leader w2 Hmu) as [Hl Hc]. split_and!; [done| |].
  - intros kv Hkv. rewrite (indexed_oldest _ _ _ Hi (keys_named _ _ Hs2) Hkv) in Hc. by split; apply Hc.
  - rewrite Hl. do 2 f_equal. apply bool_decide_ext. split; intros Hne E; apply Hne; subst.
    + by apply indexed_empty.
    + apply map_eq. intros key. rewrite lookup_empty. apply eq_None_not_Some. intros [kv Hk].
      pose proof (keys_named _ _ Hs2 _ _ Hk) as Hnm. rewrite E in Hi. destruct (Hi (kv_create_revision kv) kv) as [_ Hx].
      rewrite lookup_empty in Hx. by discriminate Hx; split; [rewrite Hnm|].
Qed.
End follows.

(** ** The theorem applied

    Two participants; the first gets another value before the query of the observer is answered, and leaves later. *)

#[local] Instance listening : Application unit.
Proof. refine {| reactions _ _ _ := ([], None); iteration m := elements (dom m) |}. done. Defined.

Definition started : world (observer unit) cb :=
  World (Obs false "e" "e/" {[1 := tt]} 1 true 0 ∅ (Counter 1 false) [])
    (with_op "query" (functor cb_range_request) rq_read new_queue).
Definition first_old : KeyValue := KV "e/1" "a" 5.
Definition first_new : KeyValue := KV "e/1" "b" 5.
Definition second : KeyValue := KV "e/2" "c" 7.
Definition put_event (kv : KeyValue) : Event := {| ev_type := PUT; ev_kv := kv; ev_prev_kv := KeyValue_default |}.
Definition delete_event (kv : KeyValue) : Event := {| ev_type := DELETE; ev_kv := KV (kv_key kv) "" 0; ev_prev_kv := kv |}.
Definition oldest_answer : response :=
  Response status_OK (msg_range {| rg_revision := 8; rg_kvs := [first_new] |}).
Definition watch_answer (events : list Event) : response := Response status_OK (msg_watch
  {| wr_watch_id := 0; wr_created := false; wr_canceled := false; wr_compact_revision := 0; wr_events := events |}).
Definition read_answers : list response :=
  [watch_answer [put_event first_old; put_event second]; watch_answer [put_event first_new; delete_event first_new]].

Lemma started_ready : obs_ready started.
Proof.
  split; [|done]. split_and!.
  - apply (sound_with_op "query" cb_range_request rq_read new_queue sound_new).
  - done.
  - split_and!; [done..|]. intros t f _ k v. apply not_elem_of_nil.
Qed.

Definition keys_5 : gmap string KeyValue := <["e/1" := first_old]> ∅.
Definition keys_7 : gmap string KeyValue := <["e/2" := second]> keys_5.
Definition keys_8 : gmap string KeyValue := <["e/1" := first_new]> keys_7.
Definition keys_9 : gmap string KeyValue := delete "e/1" keys_8.
Lemma early_history : history 4 ∅ [put_event first_old; put_event second; put_event first_new] 8 keys_8.
Proof.
  apply (history_cons _ _ _ 5 keys_5); [by apply key_created|].
  apply (history_cons _ _ _ 7 keys_7); [by apply key_created|].
  apply (history_cons _ _ _ 8 keys_8); [|apply history_nil].
  exact (key_updated 7 8 keys_7 (put_event first_new) first_old eq_refl ltac:(lia) eq_refl eq_refl).
Qed.
Lemma late_history : history 8 keys_8 [delete_event first_new] 9 keys_9.
Proof. apply (history_cons _ _ _ 9 keys_9); [by apply key_deleted|]. apply history_nil. Qed.
Lemma no_keys : keys_at 4 ∅.
Proof. split; [done|intros *; by rewrite lookup_empty..]. Qed.
Lemma first_is_oldest : oldest keys_8 first_new.
Proof.
  split; [done|]. intros key kv. unfold keys_8, keys_7, keys_5. rewrite !lookup_insert_Some, lookup_empty.
  intros [[_ <-]|[_ [[_ <-]|[_ [[_ <-]|[_ Hk]]]]]]; [cbn; lia..|done].
Qed.
Lemma second_is_oldest : oldest keys_9 second.
Proof.
  split; [done|]. intros key kv. unfold keys_9, keys_8, keys_7, keys_5. rewrite lookup_delete_Some, !lookup_insert_Some, lookup_empty.
  intros [Hne [[<- _]|[_ [[_ <-]|[_ [[Hk _]|[_ Hk]]]]]]]; [done|cbn; lia|congruence|done].
Qed.

Lemma observer_follows_election_witness :
  exists w1 w2,
    sched [ev_completion 1 true oldest_answer] (Finished started (Ok tt)) = running (Finished w1 (Ok tt)) /\
    sched (ev_completion 2 true oldest_answer :: reads 3 read_answers) (Finished w1 (Ok tt)) =
      running (Finished w2 (Ok tt)) /\
    current_key w2 = (w2, Ok "e/2"%string).
Proof.
  destruct (observer_follows_election started 1 "query" rq_read oldest_answer oldest_answer read_answers
    4 ∅ _ 8 keys_8 _ 9 keys_9 (Ok tt) started_ready eq_refl eq_refl no_keys ltac:(reflexivity) early_history first_is_oldest
    late_history ltac:(repeat constructor) eq_refl) as (w1 & E1 & _ & w2 & E2 & _ & Hc & _).
  exists w1, w2. split; [exact E1|]. split; [exact E2|]. exact (proj1 (Hc second second_is_oldest)).
Defined.

(** Until it has caught up an observer goes back in time: the answer to the query has the value of the leader now, the
    watch starts at the creation of its key, and the subscribers are told of its values from then on once
    more. Here the value is "b" when the query is answered, and the next report says "a". *)
Lemma observer_reports_old_values :
  match sched [ev_completion 1 true oldest_answer; ev_completion 2 true oldest_answer;
               ev_completion 3 true (watch_answer [put_event first_old])] (Finished started (Ok tt)) with
  | running p => reports (self (prog_world p)) = [(tt, "e/1"%string, "a"%string); (tt, "e/1"%string, "b"%string)] /\
      (current_value (prog_world p)).2 = Ok "a"%string
  | _ => False
  end.
Proof. by vm_compute. Qed.
