(* ===== verification/Session.v ===== *)
(** * [session_impl] (gh/detail/session_impl.hpp)

    A session holds a lease: it asks etcd for one, and keeps it alive in cycles of a timer, a write on
    the keep-alive stream and a read of the answer, each started when the one before is complete.

    TTLs are counts of milliseconds in [std::int64_t]; arithmetic that leaves the type is
    undefined. The system clock counts nanoseconds. *)

From S2P Require Import Prelude Runtime RpcPolicies OpCounter Etcd CompletionQueue.
Open Scope Z_scope.
Open Scope gh_scope.
Import OpCounter.

Module Session.

(** ** State *)

(** [current_timer_] is the timer operation it points to. *)
Record session := Sess {
  ka_stream_ : bool;
  lease_id_ : Z;
  desired_TTL_ : Z;
  actual_TTL_ : Z;
  current_timer_ : option Z;
  ops_ : async_op_counter;
  reads_ : async_op_counter
}.

Definition set_ka_stream b s :=
  Sess b (lease_id_ s) (desired_TTL_ s) (actual_TTL_ s) (current_timer_ s) (ops_ s) (reads_ s).
Definition set_lease_id i s :=
  Sess (ka_stream_ s) i (desired_TTL_ s) (actual_TTL_ s) (current_timer_ s) (ops_ s) (reads_ s).
Definition set_actual_TTL t s :=
  Sess (ka_stream_ s) (lease_id_ s) (desired_TTL_ s) t (current_timer_ s) (ops_ s) (reads_ s).
Definition set_current_timer t s :=
  Sess (ka_stream_ s) (lease_id_ s) (desired_TTL_ s) (actual_TTL_ s) t (ops_ s) (reads_ s).
Definition set_ops c s :=
  Sess (ka_stream_ s) (lease_id_ s) (desired_TTL_ s) (actual_TTL_ s) (current_timer_ s) c (reads_ s).
Definition set_reads c s :=
  Sess (ka_stream_ s) (lease_id_ s) (desired_TTL_ s) (actual_TTL_ s) (current_timer_ s) (ops_ s) c.

Inductive cb := cb_timeout | cb_write | cb_read.

#[export] Instance cb_eq_dec : EqDecision cb.
Proof. solve_decision. Defined.

Definition keep_alives_per_ttl : Z := 5.

(** [convert_duration] *)
Definition convert_duration (d : duration) : Z := duration_cast_ms d.

(** The members before [preamble], for both constructors (a lease of 0: etcd chooses). *)
Definition initial_session (desired_TTL : duration) (lease_id : Z) : session :=
  Sess false lease_id (convert_duration desired_TTL) (convert_duration desired_TTL) None
    new_counter new_counter.

Section session.
Context `{TextFormat} {I : Interceptor}.
#[local] Abbreviation W := (world session cb).

Definition ops_start : M W bool := zoom ops_ set_ops OpCounter.start.
Definition ops_done : M W unit := zoom ops_ set_ops OpCounter.done.
Definition reads_start : M W bool := zoom reads_ set_reads OpCounter.start.
Definition reads_done : M W unit := zoom reads_ set_reads OpCounter.done.
Definition block_on (proj : session -> async_op_counter)
    (upd : async_op_counter -> session -> session) : P W unit :=
  lift (zoom proj upd OpCounter.enter_block);;
  block_until (fun w => all_done (proj (self w))).
Definition with_tracer {A} (m : P W A) : P W A :=
  lift ops_start;; with_destructor m ops_done.

Definition deref_stream : M W unit :=
  b ← gets_self ka_stream_;
  if (b : bool) then mret tt else undefined "null ka_stream_".

(** ** Accessors *)

Definition lease_id : M W Z := gets_self lease_id_.
Definition actual_TTL : M W Z := gets_self actual_TTL_.
Definition is_active_in (s : session) : bool :=
  bool_decide (is_Some (current_timer_ s)) && negb (in_shutdown (ops_ s)).
Definition is_active : M W bool := gets_self is_active_in.

(** ** The keep-alive cycle *)

(** [std::chrono::milliseconds(std::chrono::seconds(n))] *)
Definition seconds_to_ms (n : Z) : M W Z := int64 (n * 1000).

(** [system_clock::now() + actual_TTL_ / keep_alives_per_ttl] *)
Definition refresh_deadline : M W Z :=
  t ← gets_queue now;
  ttl ← gets_self actual_TTL_;
  interval ← int64 (Z.quot ttl keep_alives_per_ttl * 1000000);
  int64 (t + interval).

Definition set_timer : M W unit :=
  deadline ← refresh_deadline;
  started ← ops_start;
  if negb started then mret tt
  else
    timer ← make_deadline_timer deadline "session/set_timer/ttl_refresh" cb_timeout;
    modify_self (set_current_timer (Some timer)).

Definition on_timeout (op : response) (ok : bool) : M W unit :=
  ops_done;;
  if negb ok then mret tt
  else
    started ← ops_start;
    if negb started then mret tt
    else
      id ← gets_self lease_id_;
      deref_stream;;
      async_write (rq_write_keep_alive (to_int64 id)) "session/on_timeout/write" cb_write.

Definition on_write (op : response) (ok : bool) : M W unit :=
  ops_done;;
  if negb ok then mret tt
  else
    started ← reads_start;
    if negb started then mret tt
    else
      deref_stream;;
      async_read "session/on_write/read" cb_read.

Definition on_read (op : response) (ok : bool) : M W unit :=
  reads_done;;
  if negb ok then mret tt
  else
    ttl ← seconds_to_ms (as_keep_alive_ttl (r_message op));
    modify_self (set_actual_TTL ttl);;
    set_timer.

(** ** Members that block *)

(** [current_timer_->cancel(); current_timer_.reset()], if there is one. *)
Definition cancel_current_timer : M W unit :=
  t ← gets_self current_timer_;
  match t with
  | Some tag => cancel_timer tag;; modify_self (set_current_timer None)
  | None => mret tt
  end.

Definition shutdown : P W unit :=
  c ← lift (gets_self ops_);
  if in_shutdown c then mret tt
  else
    lift cancel_current_timer;;
    stream ← lift (gets_self ka_stream_);
    lift (when stream try_cancel_on);;
    block_on reads_ set_reads;;
    block_on ops_ set_ops.

(** The request for a lease; etcd wants seconds. *)
Definition lease_grant_request (s : session) : request :=
  rq_lease_grant (to_int64 (lease_id_ s)) (Z.quot (desired_TTL_ s) 1000).

(** The end of [preamble], after the answer to the request. *)
Definition accept_lease (resp : LeaseGrantResponse) : M W unit :=
  if negb (bool_decide (lg_error resp = "")) then
    id ← gets_self lease_id_;
    throw (runtime_error ("Lease grant request rejected lease_id=" +:+ pretty id +:+ " response=" +:+
      print_to_stream (msg_lease_grant resp)))
  else
    modify_self (set_lease_id (to_uint64 (lg_id resp)));;
    ttl ← seconds_to_ms (lg_ttl resp);
    modify_self (set_actual_TTL ttl);;
    set_timer.

Definition preamble_body : P W unit :=
  with_tracer (
    fut ← lift (async_create_rdwr_stream_future LeaseKeepAlive "session/ka_stream");
    future_get fut;;
    lift (modify_self (set_ka_stream true));;
    req ← lift (gets_self lease_grant_request);
    with_tracer (
      lfut ← lift (async_rpc_future req "session/preamble/lease_grant");
      resp ← future_get lfut;
      lift (accept_lease (as_lease_grant (r_message resp))))).

(** The function-try-block: the handler runs when the locals, and so the tracers, are gone. *)
Definition preamble : P W unit :=
  P_try_catch preamble_body (fun ex => shutdown;; P_throw ex).

Definition revoke_lease : P W unit :=
  id ← lift (gets_self lease_id_);
  with_tracer (
    lfut ← lift (async_rpc_future (rq_lease_revoke (to_int64 id)) "session/revoke/lease_revoke");
    future_get lfut;;
    mret tt).

Definition close_stream : P W unit :=
  block_on reads_ set_reads;;
  with_tracer (
    lift deref_stream;;
    writes_done_complete ← lift (async_writes_done_future "session/shutdown/writes_done");
    future_get writes_done_complete;;
    with_tracer (
      lift deref_stream;;
      finish_complete ← lift (async_finish_future "session/shutdown/finish");
      resp ← future_get finish_complete;
      lift (check_grpc_status (r_status resp) "session::finish()" []))).

Definition revoke : P W unit :=
  c ← lift (gets_self ops_);
  if in_shutdown c then mret tt
  else
    lift cancel_current_timer;;
    revoke_lease;;
    stream ← lift (gets_self ka_stream_);
    (if (stream : bool) then close_stream else mret tt);;
    block_on ops_ set_ops.

(** ** The client of the queue *)

Definition invoke_cb (k : cb) (op : response) (ok : bool) : M W unit :=
  match k with
  | cb_timeout => on_timeout op ok
  | cb_write => on_write op ok
  | cb_read => on_read op ok
  end.

Lemma int64_evolves z : int64 z ⊨ (@evolves session cb).
Proof. unfold int64. respects_solve. Qed.
#[local] Hint Resolve int64_evolves : gh.

Lemma sess_invoke_cb_evolves k op ok : invoke_cb k op ok ⊨ (@evolves session cb).
Proof.
  destruct k; cbn [invoke_cb]; unfold on_timeout, on_write, on_read, set_timer, refresh_deadline,
    seconds_to_ms, deref_stream, ops_start, ops_done, reads_start, reads_done; cbv zeta; respects_solve.
Qed.

#[export] Instance session_client : Client session cb := {|
  invoke := invoke_cb;
  invoke_evolves := sess_invoke_cb_evolves
|}.

End session.

End Session.
