(* ===== verification/SessionFacts.v ===== *)
(** * What a session guarantees

    One keep-alive message at a time, sent well before the lease expires; counters in step with the
    queue; what is left when a session ends; and how it can end without saying so. *)

From S2P Require Import Prelude Runtime RpcPolicies OpCounter Etcd CompletionQueue Threads.
From S2P Require Import Balance Safety Session.
Open Scope Z_scope.
Open Scope gh_scope.
Import OpCounter Session.

Section facts.
Context `{TextFormat}.
#[local] Abbreviation W := (world session cb).
Implicit Types w : W.

(** ** Balance *)

Definition ops_kind (c : callback cb) : bool :=
  match c with functor cb_timeout | functor cb_write => true | _ => false end.
Definition reads_kind (c : callback cb) : bool :=
  match c with functor cb_read => true | _ => false end.
#[local] Abbreviation bal_ops := (balance ops_ ops_kind).
#[local] Abbreviation bal_reads := (balance reads_ reads_kind).

Ltac same := intros; apply same_balance_shifts; unfold ops_start, ops_done, reads_start, reads_done,
  deref_stream, int64; respects_solve.
Lemma sess_ops_start_ops : shifts bal_ops by_start ops_start.
Proof. by apply start_shifts. Qed.
Lemma sess_ops_done_ops : shifts bal_ops (by_ (-1)) ops_done.
Proof. by apply done_shifts. Qed.
Lemma sess_reads_start_reads : shifts bal_reads by_start reads_start.
Proof. by apply start_shifts. Qed.
Lemma sess_reads_done_reads : shifts bal_reads (by_ (-1)) reads_done.
Proof. by apply done_shifts. Qed.
Lemma sess_ops_start_reads : shifts bal_reads (by_ 0) ops_start.
Proof. same. Qed.
Lemma sess_ops_done_reads : shifts bal_reads (by_ 0) ops_done.
Proof. same. Qed.
Lemma sess_reads_start_ops : shifts bal_ops (by_ 0) reads_start.
Proof. same. Qed.
Lemma sess_reads_done_ops : shifts bal_ops (by_ 0) reads_done.
Proof. same. Qed.
Lemma deref_stream_unmoved proj f : shifts (balance proj f) (by_ 0) deref_stream.
Proof. same. Qed.
Lemma int64_unmoved proj f z : shifts (balance proj f) (by_ 0) (int64 z : M W Z).
Proof. same. Qed.
#[local] Hint Resolve sess_ops_start_ops sess_ops_done_ops sess_reads_start_reads sess_reads_done_reads
  sess_ops_start_reads sess_ops_done_reads sess_reads_start_ops sess_reads_done_ops deref_stream_unmoved
  int64_unmoved : shifts.

Ltac nothrow := unfold ops_start, ops_done, reads_start, reads_done, deref_stream, int64; nothrow_solve.
Lemma sess_ops_start_nothrow : never_throws ops_start.
Proof. nothrow. Qed.
Lemma sess_ops_done_nothrow : never_throws ops_done.
Proof. nothrow. Qed.
Lemma sess_reads_start_nothrow : never_throws reads_start.
Proof. nothrow. Qed.
Lemma sess_reads_done_nothrow : never_throws reads_done.
Proof. nothrow. Qed.
Lemma sess_deref_stream_nothrow : never_throws deref_stream.
Proof. nothrow. Qed.
Lemma int64_nothrow z : never_throws (int64 z : M W Z).
Proof. nothrow. Qed.
#[local] Hint Resolve sess_ops_start_nothrow sess_ops_done_nothrow sess_reads_start_nothrow sess_reads_done_nothrow
  sess_deref_stream_nothrow int64_nothrow : nothrow.

Lemma set_timer_ops : shifts bal_ops (by_ 0) set_timer.
Proof. unfold set_timer, refresh_deadline. repeat shifts_step. Qed.
Lemma set_timer_reads : shifts bal_reads (by_ 0) set_timer.
Proof. unfold set_timer, refresh_deadline. repeat shifts_step. Qed.
#[local] Hint Resolve set_timer_ops set_timer_reads : shifts.

Lemma sess_invoke_cb_ops k resp ok :
  shifts bal_ops (by_ (- Z.b2z (ops_kind (functor k)))) (invoke_cb k resp ok).
Proof.
  destruct k; cbn [invoke_cb ops_kind]; unfold on_timeout, on_write, on_read, seconds_to_ms;
    destruct ok; cbn [negb]; repeat shifts_step.
Qed.
Lemma sess_invoke_cb_reads k resp ok :
  shifts bal_reads (by_ (- Z.b2z (reads_kind (functor k)))) (invoke_cb k resp ok).
Proof.
  destruct k; cbn [invoke_cb reads_kind]; unfold on_timeout, on_write, on_read, seconds_to_ms;
    destruct ok; cbn [negb]; repeat shifts_step.
Qed.

Lemma sess_event_counts w w' tag op ok resp r :
  wf (queue w) -> pending_ops (queue w) !! tag = Some op ->
  on_event tag ok resp w = (w', r) -> (forall s, r <> UB s) ->
  wf (queue w') /\ bal_ops w' = bal_ops w /\ bal_reads w' = bal_reads w.
Proof.
  intros Hwf Hop E Hub. pose proof Hwf as (_ & Hpos & _). specialize (Hpos _ _ Hop).
  assert (tag <> 0) as Ht by lia.
  destruct (on_event_shift ops_ ops_kind tag ok resp w w' op r 0) as [H1 H2]; try done.
  { unfold run_callback. destruct (op_callback op) as [k|p a].
    - eapply shifts_conseq; [apply (sess_invoke_cb_ops k resp ok)|]. intros ?. unfold by_. lia.
    - apply on_promise_shifts. }
  destruct (on_event_shift reads_ reads_kind tag ok resp w w' op r 0) as [H3 H4]; try done.
  { unfold run_callback. destruct (op_callback op) as [k|p a].
    - eapply shifts_conseq; [apply (sess_invoke_cb_reads k resp ok)|]. intros ?. unfold by_. lia.
    - apply on_promise_shifts. }
  split_and!; [done|lia..].
Qed.

(** The counters of a session are in step with the queue: [ops_] with the timer and the write, [reads_]
    with the read, on every event. *)
Theorem session_counts_operations w w' tag op ok resp r :
  wf (queue w) -> pending_ops (queue w) !! tag = Some op ->
  on_event tag ok resp w = (w', r) -> (forall s, r <> UB s) ->
  wf (queue w') /\ bal_ops w' = bal_ops w /\ bal_reads w' = bal_reads w.
Proof. apply sess_event_counts. Qed.

(** ** The keep-alive cycle *)

(** The clock and the TTL are far from the ends of their types. *)
Definition refresh_in_range (t ttl : Z) : Prop := 0 <= t <= 2 ^ 62 /\ 0 <= ttl <= 2 ^ 44.

Definition deadline_after (t ttl : Z) : Z := t + Z.quot ttl keep_alives_per_ttl * 1000000.

Lemma quot_bound ttl : 0 <= ttl <= 2 ^ 44 -> 0 <= Z.quot ttl keep_alives_per_ttl <= 2 ^ 42.
Proof.
  intros Ht. unfold keep_alives_per_ttl. rewrite Z.quot_div_nonneg by lia.
  split; [apply Z.div_pos; lia|]. apply Z.div_le_upper_bound; lia.
Qed.

(** The state and the queue after a timer was set. *)
Definition with_timer (w : W) : W :=
  World (set_current_timer (Some (next_op (queue w)))
           (set_ops (Counter (pending (ops_ (self w)) + 1) false) (self w)))
    (with_op "session/set_timer/ttl_refresh" (functor cb_timeout)
       (rq_timer (deadline_after (now (queue w)) (actual_TTL_ (self w)))) (queue w)).

Lemma refresh_deadline_eq w :
  refresh_in_range (now (queue w)) (actual_TTL_ (self w)) ->
  refresh_deadline w = (w, Ok (deadline_after (now (queue w)) (actual_TTL_ (self w)))).
Proof.
  intros [Hn Ht]. pose proof (quot_bound _ Ht). unfold refresh_deadline, gets_queue, gets_self. munfold.
  unfold deadline_after. rewrite int64_in_range; [|unfold INT64_MIN, INT64_MAX; lia]. munfold.
  rewrite int64_in_range; [done|unfold INT64_MIN, INT64_MAX; lia].
Qed.

Lemma set_timer_eq w :
  wf (queue w) -> in_shutdown (ops_ (self w)) = false ->
  refresh_in_range (now (queue w)) (actual_TTL_ (self w)) ->
  set_timer w = (with_timer w, Ok tt).
Proof.
  intros Hwf Hs Hr. unfold set_timer. rewrite (bind_ok _ _ _ _ _ (refresh_deadline_eq w Hr)).
  unfold ops_start, zoom, OpCounter.start, async_op_start, add_op. unfold in_shutdown in Hs.
  munfold. rewrite Hs. munfold. unfold make_deadline_timer.
  rewrite start_op_eq by done. done.
Qed.

Lemma set_timer_shutdown w :
  in_shutdown (ops_ (self w)) = true -> refresh_in_range (now (queue w)) (actual_TTL_ (self w)) ->
  set_timer w = (w, Ok tt).
Proof.
  intros Hs Hr. unfold set_timer. rewrite (bind_ok _ _ _ _ _ (refresh_deadline_eq w Hr)).
  unfold ops_start, zoom, OpCounter.start, async_op_start, add_op. unfold in_shutdown in Hs.
  munfold. rewrite Hs. munfold. destruct w as [s q]. unfold with_self. cbn.
  by replace (set_ops (ops_ s) s) with s by (by destruct s).
Qed.

Lemma on_timeout_eq w resp :
  wf (queue w) -> in_shutdown (ops_ (self w)) = false -> ka_stream_ (self w) = true ->
  on_timeout resp true w =
  (with_queue (with_op "session/on_timeout/write" (functor cb_write)
     (rq_write_keep_alive (to_int64 (lease_id_ (self w))))) w, Ok tt).
Proof.
  destruct w as [[st id dt at_ ct [no fo] [nr fr]] q]. cbn. unfold in_shutdown. cbn. intros Hwf -> ->.
  unfold on_timeout, ops_done, ops_start, zoom, OpCounter.start, OpCounter.done, async_op_start, add_op,
    deref_stream, gets_self. munfold. rewrite async_write_eq by done.
  unfold with_queue, set_ops. cbn. by rewrite Z.sub_add.
Qed.

Lemma on_write_eq w resp :
  wf (queue w) -> in_shutdown (reads_ (self w)) = false -> ka_stream_ (self w) = true ->
  on_write resp true w =
  (World (set_ops (async_op_done (ops_ (self w)))
            (set_reads (Counter (pending (reads_ (self w)) + 1) false) (self w)))
     (with_op "session/on_write/read" (functor cb_read) rq_read (queue w)), Ok tt).
Proof.
  destruct w as [[st id dt at_ ct [no fo] [nr fr]] q]. cbn. unfold in_shutdown. cbn. intros Hwf -> ->.
  unfold on_write, ops_done, reads_start, zoom, OpCounter.start, OpCounter.done, async_op_start, add_op,
    deref_stream, gets_self. munfold. by rewrite async_read_eq.
Qed.

Lemma on_read_eq w resp :
  let ttl := as_keep_alive_ttl (r_message resp) in
  refresh_in_range (now (queue w)) (ttl * 1000) ->
  on_read resp true w =
  set_timer (with_self (fun s => set_actual_TTL (ttl * 1000) (set_reads (async_op_done (reads_ s)) s)) w).
Proof.
  intros ttl [Hn Ht]. unfold on_read, reads_done, zoom, OpCounter.done. munfold. fold ttl.
  unfold seconds_to_ms. rewrite int64_in_range; [done|unfold INT64_MIN, INT64_MAX; lia].
Qed.

Lemma event_callback w tag k name rq resp ok :
  wf (queue w) -> pending_ops (queue w) !! tag = Some (AsyncOp name (functor k) rq) ->
  on_event tag ok resp w =
  invoke_cb k resp ok (with_queue (set_pending_ops (delete tag (pending_ops (queue w)))) w).
Proof.
  intros Hwf Hop. pose proof Hwf as (_ & Hpos & _). specialize (Hpos _ _ Hop).
  assert (tag <> 0) as Ht by lia. by rewrite (on_event_pending _ _ _ _ _ Ht Hop).
Qed.

Lemma wf_delete w tag :
  wf (queue w) -> wf (queue (with_queue (set_pending_ops (delete tag (pending_ops (queue w)))) w)).
Proof. intros Hwf. by apply queue_le_unregister. Qed.

Lemma session_same_counters s :
  in_shutdown (ops_ s) = false -> in_shutdown (reads_ s) = false ->
  let s2 := set_ops (async_op_done (ops_ s)) (set_reads (Counter (pending (reads_ s) + 1) false) s) in
  let s3 ttl := set_actual_TTL ttl (set_reads (async_op_done (reads_ s2)) s2) in
  forall t ttl, set_current_timer (Some t)
    (set_ops (Counter (pending (ops_ (s3 ttl)) + 1) false) (s3 ttl)) =
    set_current_timer (Some t) (set_actual_TTL ttl s).
Proof.
  destruct s as [st id dt at_ ct [no fo] [nr fr]]. unfold in_shutdown. cbn. intros -> -> t ttl.
  unfold set_current_timer, set_ops, set_reads, set_actual_TTL. cbn.
  by rewrite Z.sub_add, Z.add_simpl_r.
Qed.

(** C19. A cycle of the keep-alive protocol: the timer expires, a message with the lease is written, its
    answer is read, the TTL in the answer is taken over, and the next timer is set. In each state
    exactly one operation has taken the place of the one before, the counters are the same again at
    the end, and the timer will expire within a fifth of the new TTL. *)
Theorem keep_alive_cycle w tag rq r1 r2 r3 :
  wf (queue w) -> in_shutdown (ops_ (self w)) = false -> in_shutdown (reads_ (self w)) = false ->
  ka_stream_ (self w) = true ->
  pending_ops (queue w) !! tag = Some (AsyncOp "session/set_timer/ttl_refresh" (functor cb_timeout) rq) ->
  let ttl := as_keep_alive_ttl (r_message r3) * 1000 in
  refresh_in_range (now (queue w)) ttl ->
  let n := next_op (queue w) in
  let others := delete tag (pending_ops (queue w)) in
  let deadline := deadline_after (now (queue w)) ttl in
  exists w1 w2 w3,
    on_event tag true r1 w = (w1, Ok tt) /\
    pending_ops (queue w1) = <[n := AsyncOp "session/on_timeout/write" (functor cb_write)
      (rq_write_keep_alive (to_int64 (lease_id_ (self w))))]> others /\
    on_event n true r2 w1 = (w2, Ok tt) /\
    pending_ops (queue w2) = <[n + 1 := AsyncOp "session/on_write/read" (functor cb_read) rq_read]> others /\
    on_event (n + 1) true r3 w2 = (w3, Ok tt) /\
    pending_ops (queue w3) = <[n + 2 := AsyncOp "session/set_timer/ttl_refresh" (functor cb_timeout)
      (rq_timer deadline)]> others /\
    self w3 = set_current_timer (Some (n + 2)) (set_actual_TTL ttl (self w)) /\
    0 <= 5 * (deadline - now (queue w)) <= ttl * 1000000.
Proof.
  intros Hwf Hs Hr Hst Hop ttl Hrange n others deadline.
  set (w0 := with_queue (set_pending_ops others) w).
  assert (wf (queue w0)) as Hwf0 by (by apply wf_delete).
  set (w1 := with_queue (with_op "session/on_timeout/write" (functor cb_write)
     (rq_write_keep_alive (to_int64 (lease_id_ (self w))))) w0).
  assert (E1 : on_event tag true r1 w = (w1, Ok tt)).
  { rewrite (event_callback _ _ _ _ _ _ _ Hwf Hop). cbn [invoke_cb]. by rewrite on_timeout_eq. }
  assert (Hn0 : others !! n = None) by apply (wf_fresh _ Hwf0).
  assert (wf (queue w1)) as Hwf1 by (by apply with_op_le).
  set (s2 := set_ops (async_op_done (ops_ (self w)))
    (set_reads (Counter (pending (reads_ (self w)) + 1) false) (self w))).
  set (w1' := with_queue (set_pending_ops (delete n (pending_ops (queue w1)))) w1).
  set (w2 := World s2 (with_op "session/on_write/read" (functor cb_read) rq_read (queue w1'))).
  assert (E2 : on_event n true r2 w1 = (w2, Ok tt)).
  { rewrite (event_callback _ _ _ _ _ _ _ Hwf1 (lookup_insert_eq _ _ _)). cbn [invoke_cb].
    rewrite on_write_eq; [done|by apply wf_delete|done|done]. }
  assert (wf (queue w1')) as Hwf1' by (by apply wf_delete).
  assert (wf (queue w2)) as Hwf2 by (by apply with_op_le).
  set (w2' := with_queue (set_pending_ops (delete (n + 1) (pending_ops (queue w2)))) w2).
  set (w3 := with_timer (with_self (fun s => set_actual_TTL ttl (set_reads (async_op_done (reads_ s)) s)) w2')).
  assert (E3 : on_event (n + 1) true r3 w2 = (w3, Ok tt)).
  { rewrite (event_callback _ _ _ _ _ _ _ Hwf2 (lookup_insert_eq _ _ _)). cbn [invoke_cb].
    rewrite on_read_eq by done. rewrite set_timer_eq; [done|by apply wf_delete|done|done]. }
  assert (P1 : delete n (pending_ops (queue w1)) = others) by (apply delete_insert_id; exact Hn0).
  assert (P2 : delete (n + 1) (pending_ops (queue w2)) = others).
  { rewrite <- P1. apply delete_insert_id. apply (wf_fresh _ Hwf1'). }
  assert (Hd : 0 <= 5 * (deadline - now (queue w)) <= ttl * 1000000).
  { pose proof (quot_bound ttl (proj2 Hrange)). unfold deadline, deadline_after, keep_alives_per_ttl.
    destruct Hrange as [_ Ht]. rewrite Z.quot_div_nonneg by lia.
    pose proof (Z.mul_div_le ttl 5). pose proof (Z.div_pos ttl 5). lia. }
  exists w1, w2, w3. split_and!; try done.
  - unfold w2, w1', with_op. cbn [queue pending_ops]. cbn [with_queue queue set_pending_ops pending_ops].
    by rewrite P1.
  - change (pending_ops (queue w3)) with (<[n + 1 + 1 := AsyncOp "session/set_timer/ttl_refresh"
      (functor cb_timeout) (rq_timer deadline)]> (delete (n + 1) (pending_ops (queue w2)))).
    rewrite P2. by replace (n + 1 + 1) with (n + 2) by lia.
  - replace (n + 2) with (next_op (queue w2')) by (cbn; unfold n; lia).
    by apply session_same_counters.
  - apply Hd.
  - apply Hd.
Qed.

(** ** At most one step of the cycle at a time *)

Definition cycle_kind (c : callback cb) : bool :=
  match c with functor _ => true | set_future _ _ => false end.

(** Code that starts at most one operation of the session. *)
Definition one_op (w w' : W) : Prop :=
  queue w' = queue w \/ exists name k rq, queue w' = with_op name (functor k) rq (queue w).

Lemma set_timer_one_op w : wf (queue w) -> one_op w (set_timer w).1.
Proof.
  intros Hwf. unfold set_timer, refresh_deadline, gets_queue, gets_self, int64. munfold.
  destruct (_ && _); munfold; [|by left]. destruct (_ && _); munfold; [|by left].
  unfold ops_start, zoom, OpCounter.start, async_op_start, add_op. munfold.
  destruct (shutdown_flag (ops_ (self w))); munfold; [by left|].
  unfold make_deadline_timer. rewrite start_op_eq by done. right. by eexists _, _, _.
Qed.

Lemma invoke_cb_one_op k resp ok w : wf (queue w) -> one_op w (invoke_cb k resp ok w).1.
Proof.
  intros Hwf. destruct k; cbn [invoke_cb]; unfold on_timeout, on_write, on_read, ops_done, reads_done,
    ops_start, reads_start, zoom, OpCounter.done, OpCounter.start, async_op_start, add_op, deref_stream,
    gets_self; munfold; destruct ok; munfold; try by left.
  - destruct (shutdown_flag _); munfold; [by left|]. destruct (ka_stream_ _); munfold; [|by left].
    rewrite async_write_eq by done. right. by eexists _, _, _.
  - destruct (shutdown_flag _); munfold; [by left|]. destruct (ka_stream_ _); munfold; [|by left].
    rewrite async_read_eq by done. right. by eexists _, _, _.
  - unfold seconds_to_ms, int64. destruct (_ && _); munfold; [|by left].
    match goal with |- one_op _ (set_timer ?w1).1 => exact (set_timer_one_op w1 Hwf) end.
Qed.

(** At most one step of the keep-alive cycle is in progress: if the queue holds at most one operation of
    the session, as it does when the first timer has been set, then every event
    leaves at most one there. So there is never more than one write on the stream. *)
Theorem one_keep_alive_at_a_time w tag ok resp :
  wf (queue w) -> count_ops cycle_kind (queue w) <= 1 ->
  count_ops cycle_kind (queue (on_event tag ok resp w).1) <= 1.
Proof.
  intros Hwf Hc. destruct (pending_ops (queue w) !! tag) as [op|] eqn:Hop;
    [|by rewrite on_event_unknown].
  assert (tag <> 0) as Ht by (apply Hwf in Hop; lia).
  rewrite (on_event_pending _ _ _ _ op) by done.
  pose proof (count_ops_unregister cycle_kind tag op (queue w) Hop) as Hu.
  set (w1 := with_queue _ w). change (set_pending_ops _ (queue w)) with (queue w1) in Hu.
  unfold run_callback. destruct (op_callback op) as [k|p a].
  - change (Z.b2z (cycle_kind (functor k))) with 1 in Hu.
    assert (wf (queue w1)) as Hwf1 by (by apply wf_delete).
    cbn [invoke session_client].
    destruct (invoke_cb_one_op k resp ok w1 Hwf1) as [->|(name & k' & rq & ->)]; [lia|].
    rewrite count_ops_with_op by done. change (Z.b2z _) with 1. lia.
  - change (Z.b2z (cycle_kind (set_future p a))) with 0 in Hu.
    enough (count_ops cycle_kind (queue (on_promise p (promise_set (adapt a resp ok)) w1).1) =
            count_ops cycle_kind (queue w1)) by lia.
    unfold on_promise. destruct (promises (queue w1) !! p); [|done]. by destruct (promise_set _ _).
Qed.

(** ** The end of a session *)

(** A session dies silently: when the timer, the write or the read of the cycle completes with [ok] false,
    as it does when the connection is lost, nothing takes its place and no event ever
    will, but [is_active()] still says that the session has a valid lease. *)
Theorem lost_session_stays_active w tag op resp k :
  wf (queue w) -> pending_ops (queue w) = {[tag := op]} -> op_callback op = functor k ->
  is_active_in (self w) = true ->
  let w' := (on_event tag false resp w).1 in
  (on_event tag false resp w).2 = Ok tt /\ pending_ops (queue w') = ∅ /\
  is_active_in (self w') = true /\
  forall tag' ok' resp', on_event tag' ok' resp' w' = (w', Ok tt).
Proof.
  intros Hwf Hp Hcb Hact w'.
  assert (pending_ops (queue w) !! tag = Some op) as Hop by (rewrite Hp; apply lookup_singleton_eq).
  assert (tag <> 0) as Ht by (apply Hwf in Hop; lia).
  assert (E : exists s', on_event tag false resp w =
    (World s' (set_pending_ops ∅ (queue w)), Ok tt) /\ is_active_in s' = true).
  { rewrite (on_event_pending _ _ _ _ op) by done. rewrite Hp, delete_singleton_eq.
    unfold run_callback. rewrite Hcb. destruct w as [s q].
    destruct k; eexists; (split; [reflexivity|exact Hact]). }
  destruct E as (s' & E & Hact'). unfold w'. rewrite E. split_and!; [done..|].
  intros tag' ok' resp'. apply on_event_unknown. apply lookup_empty.
Qed.

(** A counter that is shut down does not grow on an event. *)
Lemma sess_event_drains_ops tag ok resp : on_event tag ok resp ⊨ on_self (K:=cb) (drains ops_).
Proof.
  unfold on_event. destruct (tag =? 0); [respects_solve|]. unfold unregister_op. respects_solve.
  unfold run_callback. destruct (op_callback a) as [k|p x]; [|respects_solve].
  destruct k; cbn [invoke session_client invoke_cb]; unfold on_timeout, on_write, on_read, set_timer,
    refresh_deadline, seconds_to_ms, deref_stream, int64, ops_start, ops_done, reads_start, reads_done;
    respects_solve.
Qed.
Lemma sess_event_drains_reads tag ok resp : on_event tag ok resp ⊨ on_self (K:=cb) (drains reads_).
Proof.
  unfold on_event. destruct (tag =? 0); [respects_solve|]. unfold unregister_op. respects_solve.
  unfold run_callback. destruct (op_callback a) as [k|p x]; [|respects_solve].
  destruct k; cbn [invoke session_client invoke_cb]; unfold on_timeout, on_write, on_read, set_timer,
    refresh_deadline, seconds_to_ms, deref_stream, int64, ops_start, ops_done, reads_start, reads_done;
    respects_solve.
Qed.

(** The counters are not behind the queue. *)
Definition counted w : Prop := wf (queue w) /\ 0 <= bal_ops w /\ 0 <= bal_reads w.

Lemma sess_counted_stable {Rely : rely} : stable counted.
Proof.
  split_and!; [|by intros w t _ [(? & ? & ?) ?]|].
  2:{ intros w w' Hi (Hwf & H1 & H2). unfold counted. rewrite !(balance_interferes _ _ w w') by done.
      by split; [eapply wf_interferes|]. }
  intros w w' tag ok resp _ (Hwf & H1 & H2) E.
  destruct (pending_ops (queue w) !! tag) as [op|] eqn:Hop.
  - destruct (sess_event_counts w w' tag op ok resp (Ok tt) Hwf Hop E) as (Hwf' & Ho & Hr); [done|].
    split_and!; [done|lia|lia].
  - rewrite on_event_unknown in E by done. by injection E as <-.
Qed.

Definition all_quiet w : Prop := (counted w /\ quiet reads_ w) /\ quiet ops_ w.

Lemma all_quiet_stable {Rely : rely} : stable all_quiet.
Proof.
  apply stable_and; [apply stable_and|]; [apply sess_counted_stable|..]; apply quiet_stable;
    [apply sess_event_drains_reads|apply sess_event_drains_ops].
Qed.

Lemma shutdown_quiet {Rely : rely} w :
  counted w -> in_shutdown (ops_ (self w)) = false ->
  psafe (fun _ => True) (fun _ : unit => all_quiet) (fun _ _ => False) (Session.shutdown w).
Proof.
  intros Hw Hs. unfold Session.shutdown. rewrite P_bind_then. cbn [lift gets_self gets prog_then].
  rewrite Hs. revert w Hw Hs.
  enough (ptriple (fun _ => True) counted
    (lift cancel_current_timer;; stream ← lift (gets_self ka_stream_);
     lift (when stream try_cancel_on);; block_on reads_ set_reads;; block_on ops_ set_ops)
    (fun _ : unit => all_quiet) (fun _ _ => False)) as Hp.
  { intros w Hw _. by apply Hp. }
  apply (ptriple_bind _ _ (fun _ => counted)).
  { apply ptriple_lift. intros w (Hwf & H1 & H2). unfold cancel_current_timer, gets_self. munfold.
    by destruct (current_timer_ (self w)). }
  intros _. apply (ptriple_bind _ _ (fun _ => counted)); [by apply ptriple_lift; intros w ?|]. intros stream.
  apply (ptriple_bind _ _ (fun _ => counted)).
  { apply ptriple_lift. intros w (Hwf & H1 & H2). by destruct stream. }
  intros _. eapply ptriple_bind.
  { apply block_on_quiet; [apply sess_counted_stable|apply closed_stable, sess_event_drains_reads|done|].
    intros t w (Hwf & H1 & H2) <-. by split_and!. }
  intros ?. apply block_on_quiet; [|apply closed_stable, sess_event_drains_ops|done|].
  - apply stable_and; [apply sess_counted_stable|apply quiet_stable, sess_event_drains_reads].
  - intros t w [(Hwf & H1 & H2) ?] <-. by split_and!.
Qed.

(** Then no operation of the session is left. *)
Lemma all_quiet_none w tag op k : all_quiet w -> pending_ops (queue w) !! tag = Some op -> op_callback op <> functor k.
Proof.
  intros [[(_ & H1 & H2) [_ Hp1]] [_ Hp2]] Hop Hcb. unfold balance in H1, H2.
  assert (Hk : ops_kind (op_callback op) = true \/ reads_kind (op_callback op) = true)
    by (rewrite Hcb; destruct k; auto).
  destruct Hk as [Hk|Hk]; pose proof (count_ops_pos _ _ _ _ Hop Hk); lia.
Qed.

(** The destructor of a session is a barrier: when the counters are in step with the queue and
    it ends, next to whatever events, it has not thrown, and neither timer nor write nor read of the
    session is in the queue. *)
Theorem session_shutdown_barrier w es w' r :
  counted w -> in_shutdown (ops_ (self w)) = false ->
  sched es (Session.shutdown w) = running (Finished w' r) ->
  r = Ok tt /\ forall tag op k, pending_ops (queue w') !! tag = Some op -> op_callback op <> functor k.
Proof.
  intros Hw Hs Hrun. pose proof (shutdown_quiet w Hw Hs) as Hp.
  eapply sched_psafe in Hp; [|intros ?; apply all_quiet_stable|done|apply any_admissible|exact Hrun].
  destruct r as [[]|e|x]; cbn in Hp; [|done..]. split; [done|]. intros tag op k. by apply all_quiet_none.
Qed.

(** ** The beginning of a session *)

Lemma sess_with_tracer_eq {A C} (m : P W A) w (k : W -> outcome A -> prog W C) :
  in_shutdown (ops_ (self w)) = false ->
  prog_then (with_tracer m w) k =
  prog_then (m (with_self (fun s => set_ops (Counter (pending (ops_ s) + 1) false) s) w))
    (fun w' r => match r with
                 | UB x => k w' (UB x)
                 | _ => k (with_self (fun s => set_ops (async_op_done (ops_ s)) s) w') r
                 end).
Proof.
  intros Hs. unfold in_shutdown in Hs. unfold with_tracer.
  rewrite (lift_bind _ _ _ (with_self (fun s => set_ops (Counter (pending (ops_ s) + 1) false) s) w) true).
  - unfold with_destructor. rewrite prog_then_assoc. f_equal.
    apply FunctionalExtensionality.functional_extensionality. intros w'.
    apply FunctionalExtensionality.functional_extensionality. intros r. by destruct r.
  - unfold ops_start, zoom, OpCounter.start, async_op_start, add_op. by rewrite Hs.
Qed.

(** [shutdown] of a session without timer and without operations. *)
Definition after_shutdown w : W :=
  World (set_ops (Counter 0 true) (set_reads (Counter 0 true) (self w)))
    (Queue (pending_ops (queue w)) (next_op (queue w)) (promises (queue w)) (next_promise (queue w))
       (context_try_cancel :: trace (queue w)) (shutdown_ (queue w)) (now (queue w))).

Lemma shutdown_idle w :
  ka_stream_ (self w) = true -> current_timer_ (self w) = None ->
  ops_ (self w) = Counter 0 false -> reads_ (self w) = Counter 0 false ->
  Session.shutdown w = Finished (after_shutdown w) (Ok tt).
Proof.
  destruct w as [[st id dt at_ ct ops reads] q]. cbn. intros -> -> -> ->. reflexivity.
Qed.

(** The grant of a new session as its future reports it. *)
Definition grant_answer (ok : bool) (resp : response) : outcome LeaseGrantResponse :=
  match adapt (adapt_rpc "session/preamble/lease_grant") resp ok with
  | Ok x => Ok (as_lease_grant (r_message x))
  | Throw e => Throw e
  | UB s => UB s
  end.

Lemma accept_lease_granted g w :
  lg_error g = "" -> wf (queue w) -> in_shutdown (ops_ (self w)) = false ->
  refresh_in_range (now (queue w)) (lg_ttl g * 1000) ->
  accept_lease g w =
  (with_timer (with_self (fun s => set_actual_TTL (lg_ttl g * 1000)
                            (set_lease_id (to_uint64 (lg_id g)) s)) w), Ok tt).
Proof.
  intros He Hwf Hs Hr. unfold accept_lease. rewrite bool_decide_true by done. cbn [negb].
  unfold modify_self, seconds_to_ms. munfold. rewrite int64_in_range; [munfold|].
  - by rewrite set_timer_eq.
  - destruct Hr as [_ Ht]. unfold INT64_MIN, INT64_MAX. lia.
Qed.
Lemma accept_lease_refused g w :
  lg_error g <> "" -> exists what, accept_lease g w = (w, Throw (runtime_error what)).
Proof. intros He. unfold accept_lease. rewrite bool_decide_false by done. by eexists. Qed.

(** The runs of the constructor. *)
Lemma preamble_runs (q : completion_queue cb) desired lease_id r1 ok resp :
  wf q -> refresh_in_range (now q) (lg_ttl (as_lease_grant (r_message resp)) * 1000) ->
  let w := World (initial_session desired lease_id) q in
  let n := next_op q in
  let asked := rq_lease_grant (to_int64 lease_id) (Z.quot (convert_duration desired) 1000) in
  exists w' r,
    sched [ev_completion n true r1; ev_wake; ev_completion (n + 1) ok resp; ev_wake] (preamble w) =
      running (Finished w' r) /\
    match grant_answer ok resp with
    | Ok g =>
        if bool_decide (lg_error g = "") then
          r = Ok tt /\ lease_id_ (self w') = to_uint64 (lg_id g) /\
          actual_TTL_ (self w') = lg_ttl g * 1000 /\ is_active_in (self w') = true /\
          pending_ops (queue w') = <[n + 2 := AsyncOp "session/set_timer/ttl_refresh"
            (functor cb_timeout) (rq_timer (deadline_after (now q) (lg_ttl g * 1000)))]> (pending_ops q) /\
          stub_unary asked ∈ trace (queue w') /\ ka_stream_ (self w') = true /\
          in_shutdown (ops_ (self w')) = false /\ in_shutdown (reads_ (self w')) = false /\
          wf (queue w') /\ next_op (queue w') = n + 3 /\ now (queue w') = now q
        else
          (exists what, r = Throw (runtime_error what)) /\ is_active_in (self w') = false /\
          in_shutdown (ops_ (self w')) = true /\ pending_ops (queue w') = pending_ops q
    | Throw e =>
        r = Throw e /\ is_active_in (self w') = false /\
        in_shutdown (ops_ (self w')) = true /\ pending_ops (queue w') = pending_ops q
    | UB _ => False
    end.
Proof.
  intros Hwf Hrange w n asked. unfold preamble, P_try_catch, preamble_body.
  rewrite sess_with_tracer_eq by done. set (w0 := with_self _ w).
  change n with (next_op (queue w0)). unfold async_create_rdwr_stream_future.
  rewrite (sched_await (S:=session) (K:=cb)) by done.
  cbn [adapt negb]. unfold modify_self at 1, modify at 1. set (w1 := after_call _ _ _ _ _ w0).
  assert (wf (queue w1)) as Hwf1 by (by apply wf_after_call).
  rewrite (lift_bind _ _ w1 (with_self (set_ka_stream true) w1) tt) by done.
  rewrite (lift_bind _ _ _ (with_self (set_ka_stream true) w1) asked) by done.
  rewrite sess_with_tracer_eq by done. set (w2 := with_self _ (with_self _ w1)).
  change (next_op (queue w0) + 1) with (next_op (queue w2)). unfold async_rpc_future.
  rewrite (sched_await (S:=session) (K:=cb)) by done. set (w3 := after_call _ _ _ _ _ w2).
  assert (wf (queue w3)) as Hwf3 by (by apply wf_after_call).
  assert (Hfail : forall e, exists w',
    (Session.shutdown;; P_throw e : P W unit)
      (with_self (fun s => set_ops (async_op_done (ops_ s)) s)
         (with_self (fun s => set_ops (async_op_done (ops_ s)) s) w3)) =
      Finished w' (Throw e) /\ is_active_in (self w') = false /\
      in_shutdown (ops_ (self w')) = true /\ pending_ops (queue w') = pending_ops q).
  { intros e. rewrite P_bind_then, shutdown_idle by done. by eexists. }
  unfold grant_answer. cbn [adapt]. destruct ok; cbn [negb]; [|].
  2:{ edestruct Hfail as (w' & E & Hrest). exists w'. eexists. split; [|split; [done|exact Hrest]].
      cbn [sched]. f_equal. exact E. }
  destruct (status_ok (r_status resp)); cbn [negb].
  2:{ edestruct Hfail as (w' & E & Hrest). exists w'. eexists. split; [|split; [done|exact Hrest]].
      cbn [sched]. f_equal. exact E. }
  set (g := as_lease_grant (r_message resp)) in *.
  case_bool_decide as Herr.
  - set (w4 := with_self (fun s => set_ops (async_op_done (ops_ s)) s)
      (with_self (fun s => set_ops (async_op_done (ops_ s)) s)
         (with_timer (with_self (fun s => set_actual_TTL (lg_ttl g * 1000)
                            (set_lease_id (to_uint64 (lg_id g)) s)) w3)))).
    exists w4, (Ok tt). split; [unfold lift; by rewrite accept_lease_granted|].
    split_and!; try done.
    + cbn. by replace (next_op q + 1 + 1) with (n + 2) by (unfold n; lia).
    + cbn. right. right. left.
    + by apply with_op_le.
    + cbn. lia.
  - edestruct (accept_lease_refused g w3 Herr) as [what Ew].
    destruct (Hfail (runtime_error what)) as (w' & E & Hrest). exists w', (Throw (runtime_error what)).
    split; [|split; [by eexists|exact Hrest]]. unfold lift. rewrite Ew. cbn [prog_then sched].
    f_equal. exact E.
Qed.

(** The constructor of a session whose stream was created: it asks for a lease with the TTL in whole
    seconds, rounded down. When the lease is granted the session takes its id and its TTL and has exactly its
    timer in the queue; when the call fails or the lease is refused the constructor throws,
    the session is shut down and has nothing in the queue. *)
Theorem preamble_outcome (q : completion_queue cb) desired lease_id r1 ok resp :
  wf q -> refresh_in_range (now q) (lg_ttl (as_lease_grant (r_message resp)) * 1000) ->
  let w := World (initial_session desired lease_id) q in
  let n := next_op q in
  let asked := rq_lease_grant (to_int64 lease_id) (Z.quot (convert_duration desired) 1000) in
  exists w' r,
    sched [ev_completion n true r1; ev_wake; ev_completion (n + 1) ok resp; ev_wake] (preamble w) =
      running (Finished w' r) /\
    match grant_answer ok resp with
    | Ok g =>
        if bool_decide (lg_error g = "") then
          r = Ok tt /\ lease_id_ (self w') = to_uint64 (lg_id g) /\
          actual_TTL_ (self w') = lg_ttl g * 1000 /\ is_active_in (self w') = true /\
          pending_ops (queue w') = <[n + 2 := AsyncOp "session/set_timer/ttl_refresh"
            (functor cb_timeout) (rq_timer (deadline_after (now q) (lg_ttl g * 1000)))]> (pending_ops q) /\
          stub_unary asked ∈ trace (queue w') /\ ka_stream_ (self w') = true /\
          in_shutdown (ops_ (self w')) = false /\ in_shutdown (reads_ (self w')) = false /\
          wf (queue w') /\ next_op (queue w') = n + 3 /\ now (queue w') = now q
        else
          (exists what, r = Throw (runtime_error what)) /\ is_active_in (self w') = false /\
          in_shutdown (ops_ (self w')) = true /\ pending_ops (queue w') = pending_ops q
    | Throw e =>
        r = Throw e /\ is_active_in (self w') = false /\
        in_shutdown (ops_ (self w')) = true /\ pending_ops (queue w') = pending_ops q
    | UB _ => False
    end.
Proof. apply preamble_runs. Qed.

End facts.

(** ** A session from its start to its revocation *)

#[local] Existing Instance empty_text_format.

Definition grant : response :=
  Response status_OK (msg_lease_grant {| lg_id := 7; lg_ttl := 10; lg_error := "" |}).
Definition nothing : response := Response status_OK msg_none.
Definition keep_alive (ttl : Z) : response := Response status_OK (msg_keep_alive ttl).

(** The stream and the lease; the timer (3), the write (4); the read (5) stays pending. *)
Definition session_events : list sched_event := [
  ev_completion 1 true nothing; ev_wake; ev_completion 2 true grant; ev_wake;
  ev_completion 3 true nothing; ev_completion 4 true nothing ].
(** During [revoke]: the lease is revoked (6); the pending read (5) reports a TTL of 0, and its handler
    sets a timer (7), due at once; the revocation goes on with [WritesDone] (8); the timer fires. *)
Definition revoke_events : list sched_event := [
  ev_completion 6 true nothing; ev_wake; ev_completion 5 true (keep_alive 0); ev_wake;
  ev_completion 7 true nothing ].

Definition new_session : world session cb := World (initial_session (seconds 10) 0) new_queue.
Definition trace_of {A} (s : @system session cb A) : list grpc_call :=
  match s with running p => trace (queue (prog_world p)) | _ => [] end.

(** The world after the first [n] of the first events. *)
Definition session_world (n : nat) : world session cb :=
  match sched (take n session_events) (preamble new_session) with
  | running p => prog_world p
  | _ => new_session
  end.

(** A session that is revoked while the answer to a keep-alive message is outstanding can write on
    the stream after it has told etcd, with [WritesDone], that there are no more writes:
    [revoke] does not keep the handler of the read from setting a new timer. *)
Theorem write_after_writes_done :
  exists earlier, trace_of (sched revoke_events (revoke (session_world 6))) =
    stream_write (rq_write_keep_alive 7) 9 :: stream_writes_done 8 :: earlier.
Proof. eexists. vm_compute. reflexivity. Qed.

(** ** The theorems applied *)

Lemma session_world_wf n : (n < 7)%nat -> wf (queue (session_world n)).
Proof. intros Hn. do 7 (destruct n as [|n]; [apply wf_b_true; by vm_compute|]). lia. Qed.

Definition timer_op (n : nat) : async_op cb :=
  default (AsyncOp "" (functor cb_read) rq_read) (pending_ops (queue (session_world n)) !! 3).

Lemma session_counts_operations_witness :
  let w' := (on_event 3 true nothing (session_world 4)).1 in
  balance ops_ ops_kind w' = balance ops_ ops_kind (session_world 4).
Proof.
  cbv zeta.
  destruct (session_counts_operations (session_world 4) (on_event 3 true nothing (session_world 4)).1
    3 (timer_op 4) true nothing (Ok tt)) as (_ & Hb & _);
    [apply session_world_wf; lia|by vm_compute..|done|exact Hb].
Defined.

Lemma keep_alive_cycle_witness :
  exists w1 w2 w3,
    on_event 3 true nothing (session_world 4) = (w1, Ok tt) /\
    on_event 4 true nothing w1 = (w2, Ok tt) /\
    on_event 5 true (keep_alive 20) w2 = (w3, Ok tt) /\ current_timer_ (self w3) = Some 6.
Proof.
  assert (Hr : refresh_in_range (now (queue (session_world 4))) (20 * 1000))
    by (split; split; apply Z.leb_le; by vm_compute).
  destruct (keep_alive_cycle (session_world 4) 3 (op_request (timer_op 4)) nothing nothing
    (keep_alive 20)) as (w1 & w2 & w3 & H1 & _ & H2 & _ & H3 & _ & Hs & _);
    [apply session_world_wf; lia|by vm_compute..|exact Hr|].
  assert (Hn : next_op (queue (session_world 4)) = 4) by by vm_compute. rewrite Hn in *.
  exists w1, w2, w3. split_and!; [exact H1|exact H2|exact H3|by rewrite Hs].
Defined.

Lemma one_keep_alive_at_a_time_witness :
  count_ops cycle_kind (queue (on_event 3 true nothing (session_world 4)).1) <= 1.
Proof.
  apply (one_keep_alive_at_a_time (session_world 4) 3 true nothing);
    [apply session_world_wf; lia|apply Z.leb_le; by vm_compute].
Defined.

Lemma lost_session_stays_active_witness :
  let w' := (on_event 3 false nothing (session_world 4)).1 in
  pending_ops (queue w') = ∅ /\ is_active_in (self w') = true.
Proof.
  cbv zeta.
  destruct (lost_session_stays_active (session_world 4) 3 (timer_op 4) nothing cb_timeout)
    as (_ & H1 & H2 & _); [apply session_world_wf; lia|by vm_compute..|].
  split; [exact H1|exact H2].
Defined.

Lemma session_world_counted : counted (session_world 4).
Proof. split; [apply session_world_wf; lia|]. split; apply Z.leb_le; by vm_compute. Qed.

Lemma session_shutdown_barrier_witness :
  exists w', sched [ev_completion 3 false nothing; ev_wake; ev_wake]
    (Session.shutdown (session_world 4)) = running (Finished w' (Ok tt)).
Proof.
  destruct (sched [ev_completion 3 false nothing; ev_wake; ev_wake] (Session.shutdown (session_world 4)))
    as [[w' r|w' u k]|e|x] eqn:E; [|vm_compute in E; discriminate E..].
  pose proof (session_shutdown_barrier (session_world 4)
    [ev_completion 3 false nothing; ev_wake; ev_wake] w' r session_world_counted
    ltac:(by vm_compute) E) as [Hr _].
  exists w'. rewrite Hr. reflexivity.
Defined.

Lemma preamble_outcome_witness :
  exists w', sched [ev_completion 1 true nothing; ev_wake; ev_completion 2 true grant; ev_wake]
    (preamble new_session) = running (Finished w' (Ok tt)) /\ lease_id_ (self w') = 7 /\
    actual_TTL_ (self w') = 10000.
Proof.
  assert (Hr : refresh_in_range 0 10000) by (split; split; apply Z.leb_le; by vm_compute).
  destruct (preamble_outcome new_queue (seconds 10) 0 nothing true grant (proj1 sound_new) Hr)
    as (w' & r & E & Hres).
  change (grant_answer true grant) with
    (@Ok LeaseGrantResponse {| lg_id := 7; lg_ttl := 10; lg_error := "" |}) in Hres.
  cbv beta iota in Hres. rewrite bool_decide_true in Hres by reflexivity.
  destruct Hres as (-> & Hid & Httl & _).
  exists w'. split_and!; [exact E|exact Hid|exact Httl].
Defined.
