(* ===== verification/SessionSafety.v ===== *)
(** * A session never runs into undefined behaviour

    The arithmetic on TTLs and times is the one thing in a session that can be undefined. It is not when the
    TTLs are those etcd gives out and the clock is not centuries away: this is the rely condition here. *)

From S2P Require Import Prelude Runtime RpcPolicies OpCounter Etcd CompletionQueue Balance Threads Safety Interleave.
From S2P Require Import Session SessionFacts.
Open Scope Z_scope.
Open Scope gh_scope.
Import OpCounter Session.

(** ** What etcd and the clock do *)

(** [lease.MaxLeaseTTL] of etcd, in seconds. *)
Definition max_lease_ttl : Z := 9000000000.
Definition ttl_ok (ttl : Z) : Prop := 0 <= ttl <= max_lease_ttl.
Definition response_ok (r : response) : Prop :=
  ttl_ok (as_keep_alive_ttl (r_message r)) /\ ttl_ok (lg_ttl (as_lease_grant (r_message r))).
(** Nanoseconds; until the year 2116. *)
Definition clock_ok (t : Z) : Prop := 0 <= t <= 2 ^ 62.
Definition etcd_rely : rely := fun e =>
  match e with
  | ev_completion _ _ resp => response_ok resp
  | ev_wake => True
  | ev_clock t => clock_ok t
  end.

(** What holds of the queue then. *)
Definition results_ok {K} (q : completion_queue K) : Prop :=
  forall p c r, promises q !! p = Some c -> result c = Some (Ok r) -> response_ok r.
Definition calm {K} (q : completion_queue K) : Prop := clock_ok (now q) /\ results_ok q.

Lemma passive_calm {S K} (w w' : world S K) : passive w w' -> calm (queue w) -> calm (queue w').
Proof.
  intros [Hn Hp] [Hc Hr]. split; [by rewrite Hn|]. intros p c r Hpc Hres. destruct (Hp p c _ Hpc Hres) as (c0 & H0 & H1).
  by eapply Hr.
Qed.
Lemma interferes_calm {S K} (w w' : world S K) : interferes w w' -> calm (queue w) -> calm (queue w').
Proof. intros [_ _ _ _ Hp]. by apply passive_calm. Qed.

(** An admissible event: its response goes to a promise, or to a callback of a client that is passive. *)
Lemma calm_event {S K} `{Sound S K} tag ok resp (w : world S K) :
  response_ok resp -> calm (queue w) -> calm (queue (on_event tag ok resp w).1).
Proof.
  intros Hresp Hc. destruct (decide (tag = 0)) as [->|Ht]; [done|].
  destruct (pending_ops (queue w) !! tag) as [op|] eqn:Hop; [|by rewrite on_event_unknown].
  rewrite (on_event_pending _ _ _ _ op) by done. set (w1 := with_queue _ w).
  assert (calm (queue w1)) as Hc1 by done. unfold run_callback. destruct (op_callback op) as [k|p a].
  - eapply passive_calm, Hc1. apply invoke_sound.
  - unfold on_promise. destruct (promises (queue w1) !! p) as [c|] eqn:Hp; [|done].
    destruct Hc1 as [Hclk Hres]. split; [by destruct (promise_set _ c)|].
    intros p0 c0 r. unfold promise_set. destruct (result c) as [x|] eqn:Hx; cbn; rewrite lookup_insert_Some.
    + intros [[<- <-]|[_ Hq]] Hr; [by eapply Hres|by eapply Hres].
    + intros [[<- <-]|[_ Hq]] Hr; [|by eapply Hres]. cbn in Hr. injection Hr as Hr.
      destruct a, ok; cbn in Hr; try destruct (negb _); by simplify_eq.
Qed.

(** ** The callbacks *)

Section safety.
Context `{TextFormat}.
#[local] Abbreviation W := (world session cb).
Implicit Types w : W.

Lemma int64_sound z : int64 z ⊨ (@keeps_sound session cb).
Proof. unfold int64. respects_solve. Qed.
Lemma set_timer_sound : set_timer ⊨ (@keeps_sound session cb).
Proof. pose proof int64_sound. unfold set_timer, refresh_deadline, ops_start. respects_solve. Qed.
#[local] Hint Resolve int64_sound set_timer_sound : gh.
#[export] Instance session_sound : Sound session cb.
Proof.
  intros k resp b. destruct k; cbn [invoke session_client invoke_cb]; unfold on_timeout, on_write, on_read,
    seconds_to_ms, deref_stream, ops_start, ops_done, reads_start, reads_done; cbv zeta; respects_solve.
Qed.

(** Every pending callback finds the stream. *)
Definition callback_needs (s : session) (k : cb) : Prop := ka_stream_ s = true.
Definition streams (st : bool) (s : session) : Prop := st = true -> ka_stream_ s = true.

(** With a fact of the queue that passive code keeps. *)
Definition given (I : session -> Prop) w : Prop := inv callback_needs I w /\ calm (queue w).
Lemma given_triple {A} I (Q : A -> session -> Prop) (m : M W A) :
  triple (inv callback_needs I) m (fun a => inv callback_needs (Q a)) (fun _ _ => False) -> m ⊨ keeps_sound ->
  triple (given I) m (fun a => given (Q a)) (fun _ _ => False).
Proof.
  intros Hm Hs w [Hw Hc]. specialize (Hm w Hw). destruct (Hs w) as [_ Hp]. pose proof (passive_calm _ _ Hp Hc).
  destruct (m w) as [w' [a|e|s]]; [by split|done..].
Qed.

Lemma deref_stream_given I : (forall s, I s -> ka_stream_ s = true) -> keeps (given I) deref_stream.
Proof.
  intros HI w Hw. pose proof Hw as [(_ & _ & Hi) _]. unfold deref_stream, gets_self. munfold. by rewrite (HI _ Hi).
Qed.
Lemma zoom_given {T A} I (proj : session -> T) upd (m : M T A) :
  (forall s t, ka_stream_ (upd t s) = ka_stream_ s) -> (forall s t, I s -> I (upd t s)) -> (forall t, is_ok (m t).2 = true) ->
  keeps (given I) (zoom proj upd m).
Proof.
  intros Hst HI Hm. apply given_triple; [|auto with gh]. apply zoom_keeps; [done| |done].
  intros s t k _. unfold callback_needs. by rewrite Hst.
Qed.

(** What the members of a session do to the counters and the timer. *)
Definition unaffected (I : session -> Prop) : Prop :=
  (forall s c, I s -> I (set_ops c s)) /\ (forall s c, I s -> I (set_reads c s)) /\ (forall s t, I s -> I (set_current_timer t s)).
Lemma ops_start_given I : unaffected I -> keeps (given I) ops_start.
Proof. intros (H1 & H2 & H3). apply zoom_given; [done|auto|by intros [? []]]. Qed.
Lemma ops_done_given I : unaffected I -> keeps (given I) ops_done.
Proof. intros (H1 & H2 & H3). apply zoom_given; [done|auto|done]. Qed.
Lemma reads_start_given I : unaffected I -> keeps (given I) reads_start.
Proof. intros (H1 & H2 & H3). apply zoom_given; [done|auto|by intros [? []]]. Qed.
Lemma reads_done_given I : unaffected I -> keeps (given I) reads_done.
Proof. intros (H1 & H2 & H3). apply zoom_given; [done|auto|done]. Qed.
Lemma write_given I r name k : (forall s, I s -> ka_stream_ s = true) -> keeps (given I) (async_write r name k).
Proof. intros HI. apply given_triple; [by apply async_write_keeps|auto with gh]. Qed.
Lemma read_given I name k : (forall s, I s -> ka_stream_ s = true) -> keeps (given I) (async_read name k).
Proof. intros HI. apply given_triple; [by apply async_read_keeps|auto with gh]. Qed.

Lemma gets_given {A} I (f : session -> A) : keeps (given I) (gets_self f).
Proof. by intros w. Qed.

(** A session with a stream, whose TTL is that of etcd. *)
Definition active_ok (s : session) : Prop := ka_stream_ s = true /\ 0 <= actual_TTL_ s <= 2 ^ 44.
Lemma active_unaffected : unaffected active_ok.
Proof. by split_and!. Qed.
Lemma streams_unaffected st : unaffected (streams st).
Proof. by split_and!. Qed.
#[local] Hint Resolve active_unaffected streams_unaffected ops_start_given ops_done_given reads_start_given reads_done_given
  deref_stream_given write_given read_given gets_given : safe.

Lemma set_timer_given : keeps (given active_ok) set_timer.
Proof.
  unfold set_timer. apply (triple_bind _ (fun _ => given active_ok)).
  { intros w Hw. pose proof Hw as [(_ & _ & Hst & Httl) [Hclk _]]. by rewrite refresh_deadline_eq. }
  intros deadline. safe_step. destruct a; cbn [negb]; [|by apply triple_ret].
  apply (triple_bind_nothrow _ (fun _ => given active_ok)).
  { apply given_triple; [|auto with gh]. apply start_op_keeps. by intros s []. }
  intros timer. apply given_triple; [|auto with gh]. by apply modify_self_triple.
Qed.

Definition streaming (s : session) : Prop := ka_stream_ s = true.
Lemma streaming_unaffected : unaffected streaming.
Proof. by split_and!. Qed.
#[local] Hint Resolve streaming_unaffected set_timer_given : safe.

Lemma set_actual_TTL_given ttl : 0 <= ttl <= 2 ^ 44 ->
  triple (given streaming) (modify_self (set_actual_TTL ttl)) (fun _ => given active_ok) (fun _ _ => False).
Proof. intros Httl. apply given_triple; [|auto with gh]. by apply modify_self_triple. Qed.
Lemma seconds_to_ms_given I ttl : ttl_ok ttl ->
  triple (given I) (seconds_to_ms ttl) (fun ms w => 0 <= ms <= 2 ^ 44 /\ given I w) (fun _ _ => False).
Proof.
  unfold ttl_ok, max_lease_ttl. intros Ht w Hw. unfold seconds_to_ms.
  rewrite int64_in_range; [|unfold INT64_MIN, INT64_MAX; lia]. split; [lia|done].
Qed.
(** The new TTL, and the timer for the next message. *)
Lemma renew_given ttl : ttl_ok ttl ->
  triple (given streaming) (ms ← seconds_to_ms ttl; modify_self (set_actual_TTL ms);; set_timer)
    (fun _ => given active_ok) (fun _ _ => False).
Proof.
  intros Ht. eapply triple_bind; [by apply seconds_to_ms_given|]. intros ms. apply triple_pure. intros Hms.
  eapply triple_bind_nothrow; [by apply set_actual_TTL_given|]. intros []. apply set_timer_given.
Qed.

Lemma sess_invoke_given k resp ok : response_ok resp -> keeps (given streaming) (invoke_cb k resp ok).
Proof.
  intros [Hresp _]. destruct k; cbn [invoke_cb]; unfold on_timeout, on_write, on_read.
  1,2: repeat safe_step.
  safe_step. destruct ok; cbn [negb]; [|by apply triple_ret]. eapply triple_conseq; [by apply renew_given|done| |done].
  intros _ w [Hw Hc]. split; [|done]. by eapply inv_weaken, Hw; intros s [].
Qed.

(** ** Events *)

Definition sess_ok (st : bool) : W -> Prop := given (streams st).
Definition sess_base : W -> Prop := sess_ok false.
Lemma sess_ok_base st w : sess_ok st w -> sess_base w.
Proof. intros [Hw Hc]. split; [|done]. eapply inv_weaken, Hw. by intros s. Qed.

(** No event of a session throws. *)
Lemma sess_ok_event st w tag ok resp :
  response_ok resp -> sess_ok st w ->
  sess_ok st (on_event tag ok resp w).1 /\ (on_event tag ok resp w).2 = Ok tt.
Proof.
  intros Hresp [Hw Hc]. pose proof (calm_event tag ok resp w Hresp Hc) as Hc'.
  assert (Hk : forall k, triple (fun w => inv callback_needs (fun s => streams st s /\ callback_needs s k) w /\ calm (queue w))
    (invoke k resp ok) (fun _ => inv callback_needs (streams st)) (fun e w => inv callback_needs (streams st) w /\ False)).
  { intros k. eapply triple_conseq; [apply (sess_invoke_given k resp ok Hresp)| | |done].
    - intros w0 [H0 H1]. split; [|done]. eapply inv_weaken, H0. by intros s [].
    - intros _ w0 [H0 _]. eapply inv_weaken, H0. by intros s Hs _. }
  pose proof (on_event_safe_given callback_needs calm (streams st) (fun _ _ _ _ => False) w tag ok resp) as He.
  destruct (on_event tag ok resp w) as [w' r]. cbn [fst snd] in *.
  destruct (He ltac:(done) Hk Hw Hc) as [Hw' [->|(_ & k & e & _ & _ & _ & [])]]. split; [by split|done].
Qed.

#[local] Instance rely_on_etcd : rely := etcd_rely.

Lemma sess_ok_stable st : stable (sess_ok st).
Proof.
  split_and!.
  - intros w w' tag ok resp Hresp Hw E. pose proof (sess_ok_event st w tag ok resp Hresp Hw) as [Hw' _].
    by rewrite E in Hw'.
  - intros w t Ht [([(? & ? & ?) ?] & ? & ?) [_ Hr]]. by split_and!.
  - intros w w' Hi [Hw Hc]. split; [by eapply inv_interferes|by eapply interferes_calm].
Qed.

(** ** Threads *)

Abbreviation sess_steps P m Q := (ptriple sess_base P m (fun _ => Q) (fun _ => sess_base)).

Lemma lift_given {A} P (m : M W A) Q :
  triple P m (fun _ => Q) (fun _ _ => False) -> sess_steps P (lift m) Q.
Proof. intros Hm. by apply ptriple_lift, triple_any_throw. Qed.
Lemma sess_bind {A C} P R (m : Prelude.P W A) (k : A -> Prelude.P W C) Q :
  sess_steps P m R -> (forall a, sess_steps R (k a) Q) -> sess_steps P (m ≫= k) Q.
Proof. apply ptriple_bind. Qed.

Lemma sess_tracer_steps {A} st st' (m : Prelude.P W A) :
  sess_steps (sess_ok st) m (sess_ok st') -> sess_steps (sess_ok st) (with_tracer m) (sess_ok st').
Proof.
  intros Hm. eapply sess_bind; [apply lift_given, ops_start_given, streams_unaffected|]. intros _.
  eapply ptriple_destructor; [apply Hm|..]; intros ?; apply triple_any_throw, ops_done_given, streams_unaffected.
Qed.

(** Start an operation, wait for its result and go on; the result is a response of etcd. *)
Lemma sess_await_steps {C} st location name a r (k : response -> Prelude.P W C) Q :
  (forall resp, response_ok resp -> sess_steps (sess_ok st) (k resp) Q) ->
  sess_steps (sess_ok st) (fut ← lift (start_future location name a r); resp ← future_get fut; k resp) Q.
Proof.
  intros Hk. eapply (ptriple_bind _ _ (fun p w => sess_ok st w /\ live p w)).
  { apply ptriple_lift, triple_any_throw. intros w [Hw Hc].
    pose proof (start_future_live callback_needs (streams st) location name a r w Hw) as Hl.
    pose proof (start_future_sound location name a r w) as [_ Hp].
    destruct (start_future location name a r w) as [w' [p|e|s]]; [|done..]. destruct Hl as [Hw' Hl].
    split; [|exact Hl]. split; [done|]. by eapply passive_calm. }
  intros p. eapply ptriple_bind.
  - eapply ptriple_conseq; [apply (future_get_result sess_base (sess_ok st) p (sess_ok_stable st))|done| |].
    + apply sess_ok_base.
    + intros w c x [[[_ (_ & _ & Hub)] _] _] Hc Hr s ->. by eapply Hub.
    + intros resp w Hw. exact Hw.
    + intros e. apply sess_ok_base.
  - intros resp w [Hw (c & Hc & Hr)]. apply Hk; [|done]. destruct Hw as [_ [_ Hok]]. by eapply Hok.
Qed.

Lemma sess_block_steps st proj upd :
  (forall s t, ka_stream_ (upd t s) = ka_stream_ s) -> sess_steps (sess_ok st) (block_on proj upd) (sess_ok st).
Proof.
  intros Hst. eapply sess_bind.
  - apply lift_given, (zoom_given (streams st)); [done| |done]. intros s t. unfold streams. by rewrite Hst.
  - intros _. apply ptriple_block; [apply sess_ok_stable|apply sess_ok_base|done].
Qed.

Lemma sess_gets_steps {A} st (f : session -> A) : sess_steps (sess_ok st) (lift (gets_self f)) (sess_ok st).
Proof. apply lift_given, gets_given. Qed.
Lemma sess_ret_steps {A} st (a : A) : sess_steps (sess_ok st) (mret a : Prelude.P W A) (sess_ok st).
Proof. by apply ptriple_ret. Qed.
Lemma call_grpc_given I l : keeps (given I) (call_grpc l).
Proof. apply given_triple; [apply call_grpc_keeps|auto with gh]. Qed.
Lemma call_grpc_steps st l : sess_steps (sess_ok st) (lift (call_grpc l)) (sess_ok st).
Proof. apply lift_given, call_grpc_given. Qed.
Lemma sess_deref_steps : sess_steps (sess_ok true) (lift deref_stream) (sess_ok true).
Proof. apply lift_given, deref_stream_given. intros s Hs. by apply Hs. Qed.
Lemma cancel_timer_steps st : sess_steps (sess_ok st) (lift cancel_current_timer) (sess_ok st).
Proof.
  apply lift_given. unfold cancel_current_timer. eapply triple_bind_nothrow; [apply gets_given|]. intros [tag|]; [|by apply triple_ret].
  eapply triple_bind_nothrow; [apply call_grpc_given|]. intros ?.
  apply (given_triple _ (fun _ => streams st)); [by apply modify_self_triple|auto with gh].
Qed.
Lemma sess_status_steps st s l a : sess_steps (sess_ok st) (lift (check_grpc_status s l a)) (sess_ok st).
Proof.
  apply ptriple_lift. unfold check_grpc_status. destruct (status_ok s); [by apply triple_ret|apply triple_throw, sess_ok_base].
Qed.

Create HintDb session_steps.
#[local] Hint Resolve sess_gets_steps sess_ret_steps sess_deref_steps cancel_timer_steps sess_status_steps sess_tracer_steps
  sess_await_steps : session_steps.
Ltac sess_step :=
  cbv beta zeta;
  lazymatch goal with
  | |- ptriple _ _ (if ?b then _ else _) _ _ => destruct b
  | |- ptriple _ _ (with_tracer _) _ _ => apply sess_tracer_steps
  | |- ptriple _ _ (mbind _ (lift (async_rpc_future _ _))) _ _ => apply sess_await_steps; intros ? ?
  | |- ptriple _ _ (mbind _ (lift (async_writes_done_future _))) _ _ => apply sess_await_steps; intros ? ?
  | |- ptriple _ _ (mbind _ (lift (async_finish_future _))) _ _ => apply sess_await_steps; intros ? ?
  | |- ptriple _ _ (mbind _ (lift (async_create_rdwr_stream_future _ _))) _ _ => apply sess_await_steps; intros ? ?
  | |- ptriple _ _ (mbind _ (block_on _ _)) _ _ => eapply sess_bind; [by apply sess_block_steps|intros ?]
  | |- ptriple _ _ (block_on _ _) _ _ => by apply sess_block_steps
  | |- ptriple _ _ (mbind _ _) _ _ => eapply sess_bind; [solve [eauto with session_steps] | intros ?]
  | |- _ => solve [eauto with session_steps]
  end.

Lemma shutdown_steps st : sess_steps (sess_ok st) Session.shutdown (sess_ok st).
Proof.
  unfold Session.shutdown. do 2 sess_step; [sess_step|]. do 2 sess_step.
  eapply sess_bind; [destruct a1; [apply call_grpc_steps|by apply ptriple_ret]|]. intros ?. repeat sess_step.
Qed.

Lemma session_close_stream_steps : sess_steps (sess_ok true) close_stream (sess_ok true).
Proof. unfold close_stream. repeat sess_step. Qed.
Lemma revoke_lease_steps st : sess_steps (sess_ok st) revoke_lease (sess_ok st).
Proof. unfold revoke_lease. repeat sess_step. Qed.
#[local] Hint Resolve revoke_lease_steps : session_steps.

Lemma revoke_steps : sess_steps sess_base revoke sess_base.
Proof.
  unfold revoke. do 2 sess_step; [sess_step|]. do 2 sess_step.
  apply (ptriple_bind _ _ (fun b => sess_ok b)).
  { apply ptriple_lift. intros w [(Hs & Hr & Hi) Hc]. split; [split; [exact Hs|split; [exact Hr|by intros ?]]|exact Hc]. }
  intros stream. eapply (sess_bind _ sess_base); [|intros ?; by apply (sess_block_steps false)].
  destruct stream; [|sess_step]. eapply ptriple_conseq; [apply session_close_stream_steps|done|intros ?; apply sess_ok_base|done].
Qed.

Lemma accept_lease_steps r : ttl_ok (lg_ttl r) -> sess_steps (sess_ok true) (lift (accept_lease r)) (sess_ok true).
Proof.
  intros Httl. apply ptriple_lift. unfold accept_lease. destruct (negb _).
  - eapply triple_bind_nothrow; [apply gets_given|]. intros id. apply triple_throw, sess_ok_base.
  - eapply (triple_bind_nothrow _ (fun _ => given streaming)).
    { apply (given_triple (streams true) (fun _ => streaming)); [|auto with gh].
      apply modify_self_triple; [intros s Hs; exact (Hs eq_refl)|done]. }
    intros []. apply triple_any_throw. eapply triple_conseq; [by apply renew_given|done| |done].
    intros _ w [Hw Hc]. split; [|done]. eapply inv_weaken, Hw. by intros s [Hst _] _.
Qed.
Lemma open_stream_steps : sess_steps (sess_ok false) (lift (modify_self (set_ka_stream true))) (sess_ok true).
Proof.
  apply lift_given, (given_triple (streams false) (fun _ => streams true)); [|auto with gh]. by apply modify_self_triple.
Qed.
Lemma preamble_body_steps : sess_steps sess_base preamble_body (sess_ok true).
Proof.
  unfold preamble_body. apply sess_tracer_steps. apply sess_await_steps. intros ? _.
  eapply sess_bind; [apply open_stream_steps|]. intros ?. do 3 sess_step. apply accept_lease_steps. by destruct H0.
Qed.
Lemma preamble_steps : sess_steps sess_base preamble (sess_ok true).
Proof.
  intros w Hw. eapply psafe_then; [by apply preamble_body_steps|done|].
  intros e w' Hw'. eapply (ptriple_bind _ sess_base (fun _ => sess_base)); [apply shutdown_steps| |exact Hw'].
  intros ?. by apply ptriple_throw.
Qed.

(** ** What is guaranteed *)

(** The constructor, the end of the lease, and the destructor. *)
Inductive member := call_preamble | call_revoke | call_shutdown.
Definition call (m : member) : Prelude.P W unit :=
  match m with
  | call_preamble => preamble
  | call_revoke => revoke
  | call_shutdown => Session.shutdown
  end.
Lemma sess_call_steps m : sess_steps sess_base (call m) sess_base.
Proof.
  destruct m; [|apply revoke_steps|apply shutdown_steps].
  eapply ptriple_conseq; [apply preamble_steps|done|intros ?; apply sess_ok_base|done].
Qed.

(** A new session is in the base invariant. *)
Lemma new_session_ok desired lease_id (q : completion_queue cb) :
  sound q -> calm q -> (forall tag name k rq, pending_ops q !! tag <> Some (AsyncOp name (functor k) rq)) ->
  sess_base (World (initial_session desired lease_id) q).
Proof.
  intros Hs Hc Hn. split; [|done]. split_and!; [done| |done]. intros tag [name c rq] k Hop Hcb. cbn in Hcb. subst c.
  by destruct (Hn tag name k rq).
Qed.

(** C13. A session never runs into undefined behaviour: from a new session on, whatever member a thread runs
    and whatever completions the event loop reports, in whatever order, if the TTLs in them are those of etcd and the
    clock is in its range, no null stream is used and no arithmetic leaves its type. Nor does a handler of a
    session ever throw: the event loop goes on. *)
Theorem session_no_undefined_behaviour w m es :
  sess_base w -> Forall etcd_rely es ->
  match sched es (call m w) with
  | running p => sess_base (prog_world p)
  | _ => False
  end.
Proof.
  intros Hw Hes. pose proof (sched_keeps_base sess_base (fun _ => False) es (call m w) (sess_ok_stable false)) as Hs.
  destruct (sched es (call m w)); apply Hs; try done; try by apply sess_call_steps.
  all: intros w0 tag ok resp Hresp H0; destruct (sess_ok_event false w0 tag ok resp Hresp H0) as [_ Hr];
    destruct (on_event tag ok resp w0); cbn in Hr; by subst.
Qed.
End safety.

#[local] Existing Instance empty_text_format.

Lemma new_session_base : sess_base new_session.
Proof.
  apply new_session_ok; [apply sound_new| |intros *; cbn; by rewrite lookup_empty].
  split; [split; apply Z.leb_le; by vm_compute|]. intros p c r. cbn. by rewrite lookup_empty.
Qed.

(** The constructor and the first cycle. *)
Lemma session_no_undefined_behaviour_witness :
  match sched session_events (call call_preamble new_session) with
  | running p => sess_base (prog_world p) /\ actual_TTL_ (self (prog_world p)) = 10000
  | _ => False
  end.
Proof.
  assert (Hes : Forall etcd_rely session_events).
  { repeat (apply List.Forall_cons || apply List.Forall_nil); first [exact I | split; split; apply Z.leb_le; by vm_compute]. }
  pose proof (session_no_undefined_behaviour new_session call_preamble session_events new_session_base Hes) as Hs.
  destruct (sched session_events _) as [p|x|x] eqn:E; [|vm_compute in E; discriminate E..].
  split; [exact Hs|]. vm_compute in E. injection E as <-. reflexivity.
Defined.
