(* ===== verification/Membership.v ===== *)
(** * [cluster_membership_impl] (gh/detail/cluster_membership_impl.hpp)

    Keeps the list of the URLs of an etcd cluster: a timer, then a query of the members to one known
    URL after the other until one answers, then the next timer. The backoff policy is used through
    its interface. *)

From stdpp Require Import sorting.
From S2P Require Import Prelude Runtime PrefixEnd RpcPolicies Etcd CompletionQueue.
Open Scope Z_scope.
Open Scope gh_scope.

Module Membership.

(** ** State *)

(** The interval is in microseconds; [refresh_timer_] is the timer operation it points to. *)
Record membership (T : Type) := Members {
  mu_ : bool;
  backoff_strategy_ : T;
  member_urls_ : gset string;
  refresh_interval_ : Z;
  refresh_timer_ : option Z
}.
Arguments Members {T} _ _ _ _ _.
Arguments mu_ {T} _.
Arguments backoff_strategy_ {T} _.
Arguments member_urls_ {T} _.
Arguments refresh_interval_ {T} _.
Arguments refresh_timer_ {T} _.

(** The lambdas; the second has the URLs of the cycle and the index of the one that was asked. *)
Inductive cb := cb_refresh | cb_member_list (urls : list string) (i : nat).

(** [std::set<std::string>] is iterated in the order of its elements. *)
Definition string_le (a b : string) : Prop := key_ltb b a = false.
#[export] Instance string_le_dec a b : Decision (string_le a b).
Proof. unfold string_le. apply _. Defined.
Definition in_order (s : gset string) : list string := merge_sort string_le (elements s).

Definition min_refresh_interval : Z := 5000.

(** The value of [duration_cast<microseconds>]. *)
Definition duration_cast_us (d : duration) : Z := Z.quot (count d * num d * 1000000) (den d).

Section membership.
Context {T : Type} `{rpc_backoff_policy T} {I : Interceptor}.
#[local] Abbreviation W := (world (membership T) cb).

Definition set_mu b (s : membership T) :=
  Members b (backoff_strategy_ s) (member_urls_ s) (refresh_interval_ s) (refresh_timer_ s).
Definition set_backoff (b : T) (s : membership T) :=
  Members (mu_ s) b (member_urls_ s) (refresh_interval_ s) (refresh_timer_ s).
Definition set_member_urls u (s : membership T) :=
  Members (mu_ s) (backoff_strategy_ s) u (refresh_interval_ s) (refresh_timer_ s).
Definition set_refresh_timer t (s : membership T) :=
  Members (mu_ s) (backoff_strategy_ s) (member_urls_ s) (refresh_interval_ s) t.

Definition validate_arguments (s : membership T) : outcome unit :=
  if refresh_interval_ s <=? min_refresh_interval * 1000 then
    Throw (invalid_argument ("cluster_membership_impl<>() - refresh interval (" +:+
      pretty (Z.quot (refresh_interval_ s) 1000) +:+ "ms) too short, should be >= " +:+
      pretty min_refresh_interval +:+ "ms"))
  else Ok tt.

(** The constructors: the first with one URL, the second with a list. *)
Definition make (backoff : T) (urls : list string) (refresh_interval : duration) :
    outcome (membership T) :=
  let s := Members false backoff (list_to_set urls) (duration_cast_us refresh_interval) None in
  match validate_arguments s with
  | Ok _ => Ok s
  | Throw e => Throw e
  | UB w => UB w
  end.

Definition lock : M W unit :=
  b ← gets_self mu_;
  if (b : bool) then undefined "mutex locked twice by a thread" else modify_self (set_mu true).
Definition unlock : M W unit := modify_self (set_mu false).

Definition current_urls : M W (list string) :=
  lock;;
  urls ← gets_self (fun s => in_order (member_urls_ s));
  unlock;;
  mret urls.

(** The interval in the nanoseconds of the system clock. *)
Definition reset_refresh_timer : M W unit :=
  interval ← gets_self refresh_interval_;
  timer ← make_relative_timer (interval * 1000) "cluster_membership/refresh_timer" cb_refresh;
  modify_self (set_refresh_timer (Some timer)).

(** The delay that [on_failure] returns is not used. *)
Definition try_query_cluster_membership (urls : list string) (i : nat) : M W unit :=
  match urls !! i with
  | None =>
      zoom backoff_strategy_ set_backoff backoff_on_failure;;
      reset_refresh_timer
  | Some url =>
      async_rpc (rq_member_list url) "cluster_membership/member_list" (cb_member_list urls i)
  end.

Definition on_refresh_expired (ok : bool) : M W unit :=
  modify_self (set_refresh_timer None);;
  if negb ok then mret tt
  else
    urls ← current_urls;
    try_query_cluster_membership urls 0.

Definition on_member_list_response (urls : list string) (i : nat) (rop : response) (rok : bool) :
    M W unit :=
  if negb rok || negb (status_ok (r_status rop)) then try_query_cluster_membership urls (S i)
  else
    let new_urls : gset string := list_to_set (concat (as_member_list (r_message rop))) in
    if bool_decide (new_urls = ∅) then try_query_cluster_membership urls (S i)
    else
      lock;;
      modify_self (set_member_urls new_urls);;
      reset_refresh_timer;;
      unlock.

Definition startup : M W unit := reset_refresh_timer.

Definition shutdown : M W unit :=
  t ← gets_self refresh_timer_;
  match t with
  | Some tag => cancel_timer tag
  | None => mret tt
  end.

Definition invoke_cb (k : cb) (op : response) (ok : bool) : M W unit :=
  match k with
  | cb_refresh => on_refresh_expired ok
  | cb_member_list urls i => on_member_list_response urls i op ok
  end.

Lemma memb_invoke_cb_evolves k op ok : invoke_cb k op ok ⊨ (@evolves (membership T) cb).
Proof.
  destruct k; cbn [invoke_cb]; unfold on_refresh_expired, on_member_list_response,
    try_query_cluster_membership, reset_refresh_timer, current_urls, lock, unlock;
    cbv zeta; respects_solve.
Qed.

#[export] Instance membership_client : Client (membership T) cb := {|
  invoke := invoke_cb;
  invoke_evolves := memb_invoke_cb_evolves
|}.

(** ** What is guaranteed, with any interceptor that returns *)

Context `{!Returning I}.
Implicit Types w : W.

Lemma reset_refresh_timer_eq w :
  wf (queue w) ->
  reset_refresh_timer w =
  (World (set_refresh_timer (Some (next_op (queue w))) (self w))
     (with_op "cluster_membership/refresh_timer" (functor cb_refresh)
        (rq_timer (now (queue w) + refresh_interval_ (self w) * 1000)) (queue w)), Ok tt).
Proof.
  intros Hwf. unfold reset_refresh_timer, make_relative_timer, make_deadline_timer, gets_self, gets_queue.
  munfold. by rewrite start_op_eq.
Qed.

(** What follows a query that brought nothing. *)
Definition next_try (urls : list string) (i : nat) (w : W) : async_op cb :=
  match urls !! i with
  | Some url => AsyncOp "cluster_membership/member_list" (functor (cb_member_list urls i)) (rq_member_list url)
  | None => AsyncOp "cluster_membership/refresh_timer" (functor cb_refresh)
              (rq_timer (now (queue w) + refresh_interval_ (self w) * 1000))
  end.

Lemma try_query_effect urls i w :
  wf (queue w) -> backoff_inv (backoff_strategy_ (self w)) ->
  exists w', try_query_cluster_membership urls i w = (w', Ok tt) /\
    pending_ops (queue w') = <[next_op (queue w) := next_try urls i w]> (pending_ops (queue w)) /\
    mu_ (self w') = mu_ (self w) /\ member_urls_ (self w') = member_urls_ (self w) /\
    refresh_interval_ (self w') = refresh_interval_ (self w) /\
    backoff_inv (backoff_strategy_ (self w')).
Proof.
  intros Hwf Hb. unfold try_query_cluster_membership, next_try. destruct (urls !! i) as [url|].
  - rewrite async_rpc_eq by done. by eexists.
  - destruct (backoff_ok _ Hb) as (t' & d & E & Hb' & _). unfold zoom. munfold. rewrite E.
    rewrite reset_refresh_timer_eq by done. by eexists.
Qed.

(** The invariant of a started object. *)
Definition member_inv w : Prop :=
  wf (queue w) /\ mu_ (self w) = false /\ member_urls_ (self w) <> ∅ /\
  backoff_inv (backoff_strategy_ (self w)).

(** C40. A refresh cycle never gets stuck and never forgets the cluster: whatever a query brings, exactly
    one operation takes its place. After a cancelled call, an error or an empty list it is the
    query of the next URL of the cycle or, when there is no other, the next timer, and the
    members are as before; after a list of members it is the next timer, and the members are
    exactly those of the list. The set of URLs is never empty. *)
Theorem membership_query_effect w tag urls i resp ok rq name :
  member_inv w ->
  pending_ops (queue w) !! tag = Some (AsyncOp name (functor (cb_member_list urls i)) rq) ->
  let listed := concat (as_member_list (r_message resp)) in
  let useful := ok && status_ok (r_status resp) && negb (bool_decide (listed = [])) in
  exists w', on_event tag ok resp w = (w', Ok tt) /\ member_inv w' /\
    pending_ops (queue w') =
      <[next_op (queue w) := if useful then next_try [] 0 w else next_try urls (S i) w]>
        (delete tag (pending_ops (queue w))) /\
    member_urls_ (self w') = if useful then list_to_set listed else member_urls_ (self w).
Proof.
  intros (Hwf & Hmu & Hurls & Hb) Hop listed useful.
  assert (tag <> 0) as Ht by (destruct Hwf as (_ & Hp & _); apply Hp in Hop; lia).
  rewrite (on_event_pending _ _ _ _ _ Ht Hop). set (w1 := with_queue _ w).
  assert (wf (queue w1)) as Hwf1 by (by apply queue_le_unregister).
  unfold run_callback. cbn [op_callback invoke membership_client invoke_cb].
  assert (Hretry : exists w', try_query_cluster_membership urls (S i) w1 = (w', Ok tt) /\
    member_inv w' /\ pending_ops (queue w') =
      <[next_op (queue w) := next_try urls (S i) w]> (delete tag (pending_ops (queue w))) /\
    member_urls_ (self w') = member_urls_ (self w)).
  { pose proof (memb_invoke_cb_evolves (cb_member_list urls i) resp false w1 Hwf1) as [Hwf' _].
    destruct (try_query_effect urls (S i) w1 Hwf1 Hb) as (w' & E & Hp & Hm & Hu & _ & Hb').
    cbn [invoke_cb] in Hwf'. unfold on_member_list_response in Hwf'. cbn [negb orb] in Hwf'.
    rewrite E in Hwf'. exists w'. split_and!; [done| |exact Hp|exact Hu].
    split_and!; [done|by rewrite Hm|by rewrite Hu|done]. }
  unfold on_member_list_response. unfold useful. fold listed.
  destruct ok; cbn [negb orb andb]; [|exact Hretry].
  destruct (status_ok (r_status resp)); cbn [negb orb andb]; [|exact Hretry].
  assert (Hempty : (list_to_set listed : gset string) = ∅ <-> listed = []).
  { split; [|by intros ->]. destruct listed as [|u l]; [done|]. cbn. set_solver. }
  rewrite (bool_decide_ext _ _ Hempty). case_bool_decide as Hl; cbn [negb]; [exact Hretry|].
  unfold lock, unlock, gets_self, modify_self. munfold. rewrite Hmu. munfold.
  rewrite reset_refresh_timer_eq by done. munfold. eexists. split; [done|].
  split_and!; [|done|done]. split_and!; [by apply with_op_le|done| |done]. cbn. by rewrite Hempty.
Qed.

(** A shut down while a query is in flight is lost: there is no timer to cancel, and the
    answer to the query sets the next one. *)
Lemma shutdown_during_query_lost w :
  refresh_timer_ (self w) = None -> shutdown w = (w, Ok tt).
Proof. intros Ht. unfold shutdown, gets_self. munfold. by rewrite Ht. Qed.

End membership.

(** Two URLs known, the first being asked. *)
Definition asking : world (membership exponential_backoff.t) cb :=
  World (Members false (exponential_backoff.Backoff 10 50 10) {["a"; "b"]} 6000000 None)
    (with_op "cluster_membership/member_list" (functor (cb_member_list ["a"; "b"] 0))
       (rq_member_list "a") new_queue).

Lemma asking_inv : member_inv asking.
Proof.
  split_and!; [apply with_op_le, new_queue_wf|done| |].
  - cbn. set_solver.
  - unfold asking, backoff_inv, exponential_backoff_policy, exponential_backoff.inv, INT64_MAX.
    cbn. lia.
Qed.

(** The first URL answers with two members; the next timer is set. *)
Lemma membership_query_effect_witness :
  let r := Response status_OK (msg_member_list [["c"]; ["d"; "e"]]) in
  exists w', on_event 1 true r asking = (w', Ok tt) /\ member_inv w' /\
    pending_ops (queue w') = <[2 := next_try [] 0 asking]> (delete 1 (pending_ops (queue asking))) /\
    member_urls_ (self w') = list_to_set ["c"; "d"; "e"].
Proof.
  apply (membership_query_effect asking 1 ["a"; "b"] 0
    (Response status_OK (msg_member_list [["c"]; ["d"; "e"]])) true (rq_member_list "a")
    "cluster_membership/member_list").
  - exact asking_inv.
  - reflexivity.
Defined.

End Membership.
