(* ===== verification/Interceptors.v ===== *)
(** * The interceptor does not matter to the clients

    The queue is a template over the interceptor that stands between it and gRPC; the library uses
    gh/detail/default_grpc_interceptor.hpp and the tests gh/detail/mocked_grpc_interceptor.hpp. Two runs of a client with
    interceptors that return, given the same completions and woken at the same points, differ in
    the calls that were made and in nothing else: what the tests show of a client with the mock holds for it
    with gRPC. [alike] relates worlds that are the same but for the trace; code is related when
    it takes such worlds to such worlds, with the same outcome. *)

From S2P Require Import Prelude Runtime RpcPolicies OpCounter Etcd CompletionQueue Candidate Observer Session Membership.
Open Scope Z_scope.
Open Scope gh_scope.

Create HintDb alike.

(** ** Worlds and code that are alike *)

Section alike.
Context {S K : Type}.
#[local] Abbreviation W := (world S K).

Definition silent (q : completion_queue K) : completion_queue K :=
  Queue (pending_ops q) (next_op q) (promises q) (next_promise q) [] (shutdown_ q) (now q).
Definition alike (w1 w2 : W) : Prop := self w1 = self w2 /\ silent (queue w1) = silent (queue w2).

#[export] Instance alike_equivalence : Equivalence alike.
Proof.
  split; [by intros w|by intros w1 w2 []|].
  intros w1 w2 w3 [H1 H1'] [H2 H2']. by split; etrans.
Qed.

(** Code that does not block. *)
Definition M_alike {A} (m1 m2 : M W A) : Prop :=
  forall w1 w2, alike w1 w2 -> alike (m1 w1).1 (m2 w2).1 /\ (m1 w1).2 = (m2 w2).2.

(** A thread that blocks. *)
Fixpoint prog_alike {A} (p1 p2 : prog W A) : Prop :=
  match p1, p2 with
  | Finished w1 r1, Finished w2 r2 => alike w1 w2 /\ r1 = r2
  | Blocked w1 until1 k1, Blocked w2 until2 k2 =>
      alike w1 w2 /\
      forall w1 w2, alike w1 w2 -> until1 w1 = until2 w2 /\ prog_alike (k1 w1) (k2 w2)
  | _, _ => False
  end.
Definition P_alike {A} (m1 m2 : P W A) : Prop :=
  forall w1 w2, alike w1 w2 -> prog_alike (m1 w1) (m2 w2).

(** *** The monads *)

Lemma M_alike_ret {A} (a : A) : M_alike (mret a) (mret a).
Proof. by intros w1 w2. Qed.
Lemma M_alike_throw {A} e : M_alike (throw e : M W A) (throw e).
Proof. by intros w1 w2. Qed.
Lemma M_alike_undefined {A} s : M_alike (undefined s : M W A) (undefined s).
Proof. by intros w1 w2. Qed.
Lemma M_alike_bind {A B} (m1 m2 : M W A) (f1 f2 : A -> M W B) :
  M_alike m1 m2 -> (forall a, M_alike (f1 a) (f2 a)) -> M_alike (m1 ≫= f1) (m2 ≫= f2).
Proof.
  intros Hm Hf w1 w2 Hw. specialize (Hm w1 w2 Hw) as [Hm Hr]. unfold mbind, M_bind.
  destruct (m1 w1) as [w1' r], (m2 w2) as [w2' r2]. cbn in *. subst r2. destruct r; [by apply Hf|done..].
Qed.
Lemma M_alike_try_catch {A} (m1 m2 : M W A) h1 h2 :
  M_alike m1 m2 -> (forall e, M_alike (h1 e) (h2 e)) -> M_alike (try_catch m1 h1) (try_catch m2 h2).
Proof.
  intros Hm Hf w1 w2 Hw. specialize (Hm w1 w2 Hw) as [Hm Hr]. unfold try_catch.
  destruct (m1 w1) as [w1' r], (m2 w2) as [w2' r2]. cbn in *. subst r2. destruct r; [done|by apply Hf|done].
Qed.
Lemma M_alike_when b (m1 m2 : M W unit) : M_alike m1 m2 -> M_alike (when b m1) (when b m2).
Proof. destruct b; [done|]. intros _. apply M_alike_ret. Qed.
Lemma M_alike_for_each {A} (l : list A) (b1 b2 : A -> M W unit) :
  (forall a, M_alike (b1 a) (b2 a)) -> M_alike (for_each l b1) (for_each l b2).
Proof. intros Hb. induction l; cbn; [apply M_alike_ret|]. by apply M_alike_bind. Qed.

Lemma prog_alike_then {A B} (p1 p2 : prog W A) (f1 f2 : W -> outcome A -> prog W B) :
  prog_alike p1 p2 -> (forall w1 w2 r, alike w1 w2 -> prog_alike (f1 w1 r) (f2 w2 r)) ->
  prog_alike (prog_then p1 f1) (prog_then p2 f2).
Proof.
  intros Hp Hf. revert p2 Hp.
  induction p1 as [w1 r1|w1 until1 k1 IH]; intros [w2 r2|w2 until2 k2] Hp; cbn in *; try done.
  - destruct Hp as [Hw <-]. by apply Hf.
  - destruct Hp as [Hw Hk]. split; [done|]. intros v1 v2 Hv. destruct (Hk v1 v2 Hv) as [Hu Hp]. auto.
Qed.
Lemma P_alike_ret {A} (a : A) : P_alike (mret a) (mret a).
Proof. by intros w1 w2. Qed.
Lemma P_alike_throw {A} e : P_alike (P_throw e : P W A) (P_throw e).
Proof. by intros w1 w2. Qed.
Lemma P_alike_lift {A} (m1 m2 : M W A) : M_alike m1 m2 -> P_alike (lift m1) (lift m2).
Proof.
  intros Hm w1 w2 Hw. specialize (Hm w1 w2 Hw). unfold lift. by destruct (m1 w1), (m2 w2).
Qed.
Lemma P_alike_bind {A B} (m1 m2 : P W A) (f1 f2 : A -> P W B) :
  P_alike m1 m2 -> (forall a, P_alike (f1 a) (f2 a)) -> P_alike (m1 ≫= f1) (m2 ≫= f2).
Proof.
  intros Hm Hf w1 w2 Hw. apply prog_alike_then; [by apply Hm|]. intros v1 v2 [a|e|s] Hv; [by apply Hf|done..].
Qed.
Lemma P_alike_block (until : W -> bool) :
  (forall w1 w2, alike w1 w2 -> until w1 = until w2) -> P_alike (block_until until) (block_until until).
Proof.
  intros Hu w1 w2 Hw. unfold block_until. rewrite (Hu w1 w2 Hw). destruct (until w2); [done|].
  split; [done|]. intros v1 v2 Hv. split; [by apply Hu|done].
Qed.
Lemma P_alike_destructor {A} (m1 m2 : P W A) d1 d2 :
  P_alike m1 m2 -> M_alike d1 d2 -> P_alike (with_destructor m1 d1) (with_destructor m2 d2).
Proof.
  intros Hm Hd w1 w2 Hw. apply prog_alike_then; [by apply Hm|]. intros v1 v2 r Hv.
  specialize (Hd v1 v2 Hv) as [Hd Hr]. destruct (d1 v1) as [u1 r1], (d2 v2) as [u2 r2]. cbn in *. subst r2.
  destruct r; [..|done]; by destruct r1.
Qed.
Lemma P_alike_try_catch {A} (m1 m2 : P W A) h1 h2 :
  P_alike m1 m2 -> (forall e, P_alike (h1 e) (h2 e)) -> P_alike (P_try_catch m1 h1) (P_try_catch m2 h2).
Proof.
  intros Hm Hf w1 w2 Hw. apply prog_alike_then; [by apply Hm|]. intros v1 v2 [a|e|s] Hv; [done|by apply Hf|done].
Qed.

(** *** The operations of the queue *)

Lemma alike_modify (f1 f2 : completion_queue K -> completion_queue K) w1 w2 :
  (forall q1 q2, silent q1 = silent q2 -> silent (f1 q1) = silent (f2 q2)) ->
  alike w1 w2 -> alike (with_queue f1 w1) (with_queue f2 w2).
Proof. intros Hf [Hs Hq]. split; [done|]. by apply Hf. Qed.

Lemma gets_self_alike {A} (f : S -> A) : M_alike (gets_self f) (gets_self f).
Proof. intros w1 w2 Hw. split; [done|]. cbn. by destruct Hw as [-> _]. Qed.
Lemma gets_queue_alike {A} (f : completion_queue K -> A) :
  (forall q, f (silent q) = f q) -> M_alike (gets_queue f) (gets_queue f).
Proof. intros Hf w1 w2 Hw. split; [done|]. cbn. destruct Hw as [_ Hw]. by rewrite <- Hf, Hw, Hf. Qed.
Lemma modify_self_alike (f : S -> S) : M_alike (modify_self f) (modify_self f).
Proof. intros w1 w2 [Hs Hq]. split; [|done]. split; [cbn; by rewrite Hs|done]. Qed.
Lemma modify_queue_alike (f : completion_queue K -> completion_queue K) :
  (forall q, silent (f q) = silent (f (silent q))) -> M_alike (modify_queue f) (modify_queue f).
Proof.
  intros Hf w1 w2 Hw. split; [|done]. apply alike_modify; [|done]. intros q1 q2 Hq. by rewrite Hf, Hq, <- Hf.
Qed.
Lemma zoom_alike {T A} (proj : S -> T) upd (m : M T A) : M_alike (zoom proj upd m) (zoom proj upd m).
Proof.
  intros w1 w2 [Hs Hq]. unfold zoom. rewrite Hs. destruct (m (proj (self w2))). by split; [split; cbn; rewrite ?Hs|].
Qed.
Lemma call_grpc_alike l1 l2 : M_alike (call_grpc l1) (call_grpc l2 : M W unit).
Proof. intros w1 w2 Hw. split; [|done]. by apply alike_modify. Qed.
Lemma on_promise_alike {A} p (m : M (promise response) A) : M_alike (on_promise p m) (on_promise p m : M W A).
Proof.
  intros w1 w2 Hw. unfold on_promise. assert (promises (queue w1) = promises (queue w2)) as ->.
  { destruct Hw as [_ Hq]. by injection Hq. }
  destruct (promises (queue w2) !! p) as [c|]; [|done]. destruct (m c) as [c' r]. split; [|done].
  apply alike_modify; [|done]. intros q1 q2 Hq. injection Hq as E1 E2 E3 E4 E5 E6.
  unfold silent, set_promises. cbn. by rewrite E1, E2, E4, E5, E6.
Qed.
End alike.

#[export] Hint Resolve M_alike_ret M_alike_throw M_alike_undefined gets_self_alike modify_self_alike zoom_alike
  call_grpc_alike on_promise_alike P_alike_ret P_alike_throw : alike.
#[export] Hint Extern 1 (M_alike (gets_queue _) _) => apply gets_queue_alike; reflexivity : alike.
#[export] Hint Extern 1 (M_alike (modify_queue _) _) => apply modify_queue_alike; reflexivity : alike.

Ltac alike_step :=
  match goal with
  | |- M_alike (mbind _ _) _ => refine (M_alike_bind _ _ _ _ _ _); [|intros ?]
  | |- M_alike (try_catch _ _) _ => refine (M_alike_try_catch _ _ _ _ _ _); [|intros ?]
  | |- M_alike (when _ _) _ => refine (M_alike_when _ _ _ _)
  | |- M_alike (for_each _ _) _ => refine (M_alike_for_each _ _ _ _); intros ?
  | |- M_alike (match ?x with _ => _ end) _ => destruct x
  | |- P_alike (mbind _ _) _ => refine (P_alike_bind _ _ _ _ _ _); [|intros ?]
  | |- P_alike (with_destructor _ _) _ => refine (P_alike_destructor _ _ _ _ _ _)
  | |- P_alike (P_try_catch _ _) _ => refine (P_alike_try_catch _ _ _ _ _ _); [|intros ?]
  | |- P_alike (lift _) _ => refine (P_alike_lift _ _ _)
  | |- P_alike (block_until _) _ => refine (P_alike_block _ _)
  | |- P_alike (match ?x with _ => _ end) _ => destruct x
  end.
Ltac alike_solve := cbv zeta; repeat (solve [eauto with alike] || (alike_step; cbv zeta)).

(** ** Two interceptors that return *)

Section queue.
Context {S K : Type} (I1 I2 : Interceptor) `{!Returning I1, !Returning I2}.
#[local] Abbreviation W := (world S K).

Lemma start_op_alike location name (c : callback K) r :
  M_alike (start_op (I:=I1) location name c r) (start_op (I:=I2) location name c r : M W Z).
Proof.
  unfold start_op, create_op, allocate_op, register_op, assert_throw_impl. alike_solve.
  intros w1 w2 Hw. unfold intercepted. cbn. rewrite !intercept_returns. split; [|done]. by apply alike_modify.
Qed.
#[local] Hint Resolve start_op_alike : alike.
Lemma start_future_alike location name a r :
  M_alike (start_future (I:=I1) location name a r) (start_future (I:=I2) location name a r : M W Z).
Proof. unfold start_future, make_promise. alike_solve. Qed.
Lemma future_get_alike p : P_alike (future_get p) (future_get p : P W response).
Proof.
  assert (forall w1 w2 : W, alike w1 w2 -> promises (queue w1) = promises (queue w2)) as Hp.
  { intros w1 w2 [_ Hq]. by injection Hq. }
  unfold future_get. alike_solve.
  - intros w1 w2 Hw. unfold future_ready. by rewrite (Hp w1 w2 Hw).
  - intros w1 w2 Hw. rewrite (Hp w1 w2 Hw). destruct (_ !! p) as [c|]; [|done]. by destruct (result c).
Qed.
End queue.

#[export] Hint Resolve start_op_alike start_future_alike future_get_alike : alike.
(** The calls of the clients. *)
Ltac alike_calls :=
  unfold async_rpc_future, async_create_rdwr_stream_future, async_writes_done_future, async_finish_future, async_rpc,
    async_write, async_read, make_relative_timer, make_deadline_timer, cancel_timer, try_cancel_on, GH_ASSERT_THROW,
    assert_throw_impl, check_grpc_status; alike_solve.

(** ** Runs *)

(** A client whose lambdas are alike with two interceptors. *)
Class Oblivious {S K} (c1 c2 : Client S K) :=
  invoke_alike k resp ok : M_alike (@invoke S K c1 k resp ok) (@invoke S K c2 k resp ok).

Definition system_alike {S K A} (s1 s2 : @system S K A) : Prop :=
  match s1, s2 with
  | running p1, running p2 => prog_alike p1 p2
  | terminated e1, terminated e2 => e1 = e2
  | undefined_behaviour s1, undefined_behaviour s2 => s1 = s2
  | _, _ => False
  end.

Section runs.
Context {S K : Type} (c1 c2 : Client S K) `{!Oblivious c1 c2}.
#[local] Abbreviation W := (world S K).

Lemma on_event_alike tag ok resp :
  M_alike (on_event (H:=c1) tag ok resp) (on_event (H:=c2) tag ok resp).
Proof. pose proof invoke_alike. unfold on_event, unregister_op, run_callback. alike_solve. Qed.

Lemma prog_alike_world {A} (p1 p2 : prog W A) : prog_alike p1 p2 -> alike (prog_world p1) (prog_world p2).
Proof. by destruct p1, p2; cbn; try done; intros []. Qed.
Lemma prog_alike_set_world {A} (p1 p2 : prog W A) (f1 f2 : W -> W) :
  prog_alike p1 p2 -> alike (f1 (prog_world p1)) (f2 (prog_world p2)) ->
  prog_alike (prog_set_world f1 p1) (prog_set_world f2 p2).
Proof. destruct p1, p2; cbn; try done; by intros [] ?. Qed.

Lemma sched_step_alike {A} e (p1 p2 : prog W A) :
  prog_alike p1 p2 -> system_alike (sched_step (H:=c1) e p1) (sched_step (H:=c2) e p2).
Proof.
  intros Hp. pose proof (prog_alike_world _ _ Hp) as Hw. destruct e as [tag ok resp| |t]; cbn [sched_step].
  - destruct (on_event_alike tag ok resp _ _ Hw) as [He Hr].
    destruct (on_event tag ok resp (prog_world p1)) as [w1 r1], (on_event tag ok resp (prog_world p2)) as [w2 r2].
    cbn in *. subst r2. destruct r1; [|done..]. by apply prog_alike_set_world.
  - destruct p1, p2; cbn in Hp |- *; try done. destruct Hp as [Hv Hk]. destruct (Hk _ _ Hv) as [-> Hp].
    destruct (until0 _); [done|]. by split.
  - apply prog_alike_set_world; [done|]. destruct Hw as [Hs Hq]. split; [done|].
    injection Hq as E1 E2 E3 E4 E5. unfold silent, set_now. cbn. by rewrite E1, E2, E3, E4, E5.
Qed.

Lemma sched_alike {A} es (p1 p2 : prog W A) :
  prog_alike p1 p2 -> system_alike (sched (H:=c1) es p1) (sched (H:=c2) es p2).
Proof.
  revert p1 p2. induction es as [|e es IH]; intros p1 p2 Hp; [done|]. cbn [sched].
  pose proof (sched_step_alike e p1 p2 Hp) as Hs.
  destruct (sched_step e p1), (sched_step e p2); cbn in Hs; try done. by apply IH.
Qed.
End runs.

(** ** The clients

    Their members. *)

Definition session_members `{TextFormat} {I : Interceptor} : list (P (world Session.session Session.cb) unit) :=
  [Session.preamble; Session.shutdown; Session.revoke].
Definition candidate_members `{TextFormat} {I : Interceptor} (new_value : string) :
    list (P (world Candidate.candidate Candidate.cb) unit) :=
  [Candidate.campaign; Candidate.proclaim new_value; Candidate.resign; Candidate.cleanup].
Definition observer_members `{Observer.Application sub} {I : Interceptor} (f : sub) (token : Z) :
    list (P (world (Observer.observer sub) Observer.cb) unit) :=
  [Observer.startup; lift (Observer.subscribe f;; mret tt); lift (Observer.unsubscribe token); lift Observer.shutdown;
   Observer.cleanup].
Definition membership_members `{rpc_backoff_policy T} {I : Interceptor} :
    list (P (world (Membership.membership T) Membership.cb) unit) :=
  [lift Membership.startup; lift (Membership.current_urls;; mret tt); lift Membership.shutdown].

Section session.
Context `{TextFormat} (I1 I2 : Interceptor) `{!Returning I1, !Returning I2}.
Import Session.

Lemma set_timer_alike : M_alike (set_timer (I:=I1)) (set_timer (I:=I2)).
Proof. unfold set_timer, refresh_deadline, int64, ops_start. alike_calls. Qed.
#[local] Hint Resolve set_timer_alike : alike.
#[export] Instance session_oblivious : Oblivious (session_client (I:=I1)) (session_client (I:=I2)).
Proof.
  intros k resp ok. destruct k; cbn [invoke session_client invoke_cb];
    unfold on_timeout, on_write, on_read, ops_start, ops_done, reads_start, reads_done, deref_stream, seconds_to_ms, int64; alike_calls.
Qed.

Lemma block_on_alike proj upd : P_alike (block_on proj upd) (block_on proj upd).
Proof. unfold block_on. alike_solve. intros w1 w2 [-> _]. done. Qed.
#[local] Hint Resolve block_on_alike : alike.
Lemma shutdown_alike : P_alike (shutdown (I:=I1)) (shutdown (I:=I2)).
Proof. unfold shutdown, cancel_current_timer. alike_calls. Qed.
#[local] Hint Resolve shutdown_alike : alike.
Lemma session_members_alike : Forall2 P_alike (session_members (I:=I1)) (session_members (I:=I2)).
Proof.
  unfold session_members, preamble, preamble_body, revoke, revoke_lease, close_stream, cancel_current_timer, accept_lease,
    seconds_to_ms, int64, with_tracer, ops_start, ops_done, deref_stream.
  repeat constructor; alike_calls.
Qed.
End session.

Section candidate.
Context `{TextFormat} (I1 I2 : Interceptor) `{!Returning I1, !Returning I2}.
Import Candidate.

Lemma query_predecessor_alike : M_alike (query_predecessor (I:=I1)) (query_predecessor (I:=I2)).
Proof. unfold query_predecessor, election_result, ops_start. alike_calls. Qed.
#[local] Hint Resolve query_predecessor_alike : alike.
Lemma watch_keys_alike r kvs : M_alike (watch_keys (I:=I1) r kvs) (watch_keys (I:=I2) r kvs).
Proof. induction kvs; cbn [watch_keys]; unfold ops_start, deref_stream; alike_calls. Qed.
#[local] Hint Resolve watch_keys_alike : alike.
#[export] Instance candidate_oblivious : Oblivious (candidate_client (I:=I1)) (candidate_client (I:=I2)).
Proof.
  intros k resp ok. destruct k; cbn [invoke candidate_client invoke_cb];
    unfold on_range_request, on_watch_create, on_watch_cancel, on_watch_read, check_election_over_maybe, election_result,
      lock, unlock, ops_start, ops_done, reads_start, reads_done, deref_stream; alike_calls.
Qed.

Lemma cand_block_on_alike proj upd : P_alike (block_on proj upd) (block_on proj upd).
Proof. unfold block_on. alike_solve. intros w1 w2 [-> _]. done. Qed.
Lemma commit_alike r name : P_alike (commit (I:=I1) r name) (commit (I:=I2) r name).
Proof. unfold commit, with_tracer, ops_start, ops_done. alike_calls. Qed.
#[local] Hint Resolve cand_block_on_alike commit_alike : alike.
Lemma on_cancels_alike {A} c (m : M _ A) : M_alike (on_cancels c m) (on_cancels c m).
Proof.
  intros w1 w2 [Hs Hq]. unfold on_cancels. rewrite Hs. destruct (_ !! c) as [n|]; [|done].
  destruct (m n). by split; [split; cbn; rewrite ?Hs|].
Qed.
#[local] Hint Resolve on_cancels_alike : alike.
Lemma cancel_watches_alike c ws : M_alike (cancel_watches (I:=I1) c ws) (cancel_watches (I:=I2) c ws).
Proof. induction ws; cbn [cancel_watches]; unfold deref_stream; alike_calls. Qed.
#[local] Hint Resolve cancel_watches_alike : alike.
Lemma candidate_members_alike v : Forall2 P_alike (candidate_members (I:=I1) v) (candidate_members (I:=I2) v).
Proof.
  unfold candidate_members, campaign, campaign_impl, create_watch_stream, create_node, adopt_node, proclaim, publish_value,
    resign, make_cancels, destroy_cancels, close_stream, cleanup, election_result, with_tracer, lock, unlock, ops_start,
    ops_done, deref_stream, key.
  repeat constructor; alike_calls. intros w1 w2 [-> _]. done.
Qed.
End candidate.

Section observer.
Context {sub : Type} `{Observer.Application sub} (I1 I2 : Interceptor) `{!Returning I1, !Returning I2}.
Import Observer.

Lemma with_lock_alike {A} (m1 m2 : M (world (observer sub) cb) A) : M_alike m1 m2 -> M_alike (with_lock m1) (with_lock m2).
Proof. intros Hm. unfold with_lock, lock, unlock. alike_solve. Qed.
#[local] Hint Resolve with_lock_alike : alike.
Lemma call_subscriber_alike (f : sub) k v : M_alike (call_subscriber f k v) (call_subscriber f k v).
Proof. unfold call_subscriber, unsubscribe. alike_solve. Qed.
#[local] Hint Resolve call_subscriber_alike : alike.
Lemma call_each_alike k v ts : M_alike (call_each (sub:=sub) k v ts) (call_each k v ts).
Proof. induction ts; cbn [call_each]; alike_solve. Qed.
#[local] Hint Resolve call_each_alike : alike.
Lemma create_watcher_alike r : M_alike (create_watcher (sub:=sub) (I:=I1) r) (create_watcher (I:=I2) r).
Proof. unfold create_watcher, ops_start, deref_stream. alike_calls. Qed.
#[local] Hint Resolve create_watcher_alike : alike.
#[export] Instance observer_oblivious : Oblivious (observer_client (I:=I1)) (observer_client (I:=I2)).
Proof.
  intros k resp ok. destruct k; cbn [invoke observer_client invoke_cb];
    unfold on_range_request, on_watch_create, on_watch_cancel, on_watch_read, report_election_leader, call_subscribers,
      lock, unlock, ops_start, ops_done, deref_stream; alike_calls.
Qed.
Lemma observer_members_alike f t : Forall2 P_alike (observer_members (I:=I1) f t) (observer_members (I:=I2) f t).
Proof.
  unfold observer_members, startup, create_watcher_stream, discover_node_with_lowest_creation_revision, subscribe,
    unsubscribe, shutdown, cancel_watcher, cleanup, block_on_ops, lock, unlock, ops_start, ops_done, deref_stream.
  repeat constructor; alike_calls. intros w1 w2 [-> _]. done.
Qed.
End observer.

Section membership.
Context {T : Type} `{rpc_backoff_policy T} (I1 I2 : Interceptor) `{!Returning I1, !Returning I2}.
Import Membership.

Lemma reset_refresh_timer_alike : M_alike (reset_refresh_timer (T:=T) (I:=I1)) (reset_refresh_timer (I:=I2)).
Proof. unfold reset_refresh_timer. alike_calls. Qed.
#[local] Hint Resolve reset_refresh_timer_alike : alike.
Lemma try_query_alike urls i :
  M_alike (try_query_cluster_membership (T:=T) (I:=I1) urls i) (try_query_cluster_membership (I:=I2) urls i).
Proof. unfold try_query_cluster_membership. alike_calls. Qed.
#[local] Hint Resolve try_query_alike : alike.
#[export] Instance membership_oblivious : Oblivious (membership_client (I:=I1)) (membership_client (I:=I2)).
Proof.
  intros k resp ok. destruct k; cbn [invoke membership_client invoke_cb];
    unfold on_refresh_expired, on_member_list_response, current_urls, lock, unlock; alike_calls.
Qed.
Lemma membership_members_alike : Forall2 P_alike (membership_members (T:=T) (I:=I1)) (membership_members (I:=I2)).
Proof.
  unfold membership_members, startup, shutdown, current_urls, lock, unlock. repeat constructor; alike_calls.
Qed.
End membership.

(** ** What is guaranteed *)

(** Two members, run by two clients from worlds that are alike, are at the same point after any events, in worlds that
    are alike again. *)
Definition same_runs {S K A} (c1 c2 : Client S K) (m1 m2 : P (world S K) A) : Prop :=
  forall w1 w2 es, alike w1 w2 -> system_alike (sched (H:=c1) es (m1 w1)) (sched (H:=c2) es (m2 w2)).

Lemma members_same_runs {S K A} (c1 c2 : Client S K) `{!Oblivious c1 c2} (l1 l2 : list (P (world S K) A)) :
  Forall2 P_alike l1 l2 -> Forall2 (same_runs c1 c2) l1 l2.
Proof.
  intros Hl. eapply Forall2_impl; [exact Hl|]. intros m1 m2 Hm w1 w2 es Hw. by apply sched_alike, Hm.
Qed.


(** A subscriber that does nothing. *)
#[local] Instance quiet_subscriber : Observer.Application unit.
Proof.
  refine {| Observer.reactions _ _ _ := ([], None); Observer.iteration m := elements (dom m) |}. done.
Defined.

