(* ===== verification/Typing.v ===== *)
(** * The types of operations

    In the sources an operation is an instance of a class template for its kind of request, and the
    compiler makes sure that the lambda given with it takes an object of that class. Here a callback is a
    value and a request another; this file shows that they always fit: a callback only ever
    receives the completion of the kind of operation it was written for. *)

From S2P Require Import Prelude Runtime Etcd OpCounter CompletionQueue Threads.
From S2P Require Import RpcPolicies Candidate Balance Safety CandidateFacts CandidateSafety Observer Session Membership.
Open Scope Z_scope.
Open Scope gh_scope.

(** ** Kinds of operations *)

(** The class templates of operations. *)
Inductive op_kind :=
  | timer_op
  | rpc_op (s : string)
  | create_stream_op
  | write_op (s : service)
  | read_op
  | writes_done_op
  | finish_op.

#[export] Instance service_eq_dec : EqDecision service.
Proof. solve_decision. Defined.
#[export] Instance op_kind_eq_dec : EqDecision op_kind.
Proof. solve_decision. Defined.

Definition kind_of (r : request) : op_kind :=
  match r with
  | rq_timer _ => timer_op
  | rq_range _ => rpc_op "Range"
  | rq_txn _ => rpc_op "Txn"
  | rq_lease_grant _ _ => rpc_op "LeaseGrant"
  | rq_lease_revoke _ => rpc_op "LeaseRevoke"
  | rq_member_list _ => rpc_op "MemberList"
  | rq_create_stream _ => create_stream_op
  | rq_write_watch _ => write_op Watch
  | rq_write_keep_alive _ => write_op LeaseKeepAlive
  | rq_read => read_op
  | rq_writes_done => writes_done_op
  | rq_finish => finish_op
  end.

(** The operations the lambdas of the [use_future] overloads are for. *)
Definition adapter_fits (a : adapter) (k : op_kind) : bool :=
  match a, k with
  | adapt_rpc _, rpc_op _ | adapt_create_stream _, create_stream_op
  | adapt_writes_done, writes_done_op | adapt_finish, finish_op => true
  | _, _ => false
  end.

Section typed.
Context {S K : Type} (parameter_kind : K -> op_kind).
#[local] Abbreviation W := (world S K).

Definition op_typed (op : async_op K) : bool :=
  match op_callback op with
  | functor k => bool_decide (parameter_kind k = kind_of (op_request op))
  | set_future _ a => adapter_fits a (kind_of (op_request op))
  end.

Definition well_typed (q : completion_queue K) : Prop :=
  forall tag op, pending_ops q !! tag = Some op -> op_typed op = true.

Definition keeps_types (w w' : W) : Prop := well_typed (queue w) -> well_typed (queue w').

#[export] Instance keeps_types_preorder : PreOrder keeps_types.
Proof. split; [intros w Hw; exact Hw|]. intros w1 w2 w3 H12 H23 H1. by apply H23, H12. Qed.

(** Code that starts no operation. *)
Lemma keeps_types_pending {A} (m : M W A) :
  (forall w tag op, pending_ops (queue (m w).1) !! tag = Some op -> pending_ops (queue w) !! tag = Some op) ->
  m ⊨ keeps_types.
Proof. intros Hm w Hw tag op Hop. by eapply Hw, Hm. Qed.

Lemma modify_self_typed f : modify_self f ⊨ keeps_types.
Proof. apply keeps_types_pending. by intros w tag op Hop. Qed.
Lemma gets_self_typed {A} (f : S -> A) : gets_self f ⊨ keeps_types.
Proof. apply keeps_types_pending. by intros w tag op Hop. Qed.
Lemma gets_queue_typed {A} (f : completion_queue K -> A) : gets_queue f ⊨ keeps_types.
Proof. apply keeps_types_pending. by intros w tag op Hop. Qed.
Lemma zoom_typed {T A} (proj : S -> T) upd (m : M T A) : zoom proj upd m ⊨ keeps_types.
Proof. apply keeps_types_pending. intros w. unfold zoom. by destruct (m _). Qed.
Lemma call_grpc_typed l : call_grpc l ⊨ keeps_types.
Proof. apply keeps_types_pending. by intros w tag op Hop. Qed.
Lemma make_promise_typed : make_promise ⊨ keeps_types.
Proof. apply keeps_types_pending. by intros w tag op Hop. Qed.
Lemma on_promise_typed {A} p (m : M (promise response) A) : on_promise p m ⊨ keeps_types.
Proof.
  apply keeps_types_pending. intros w tag op. unfold on_promise.
  destruct (promises (queue w) !! p) as [c|]; [|done]. by destruct (m c).
Qed.
Lemma unregister_typed tag : unregister_op tag ⊨ keeps_types.
Proof.
  apply keeps_types_pending. intros w t op. unfold unregister_op, gets_queue, modify_queue. munfold.
  destruct (pending_ops (queue w) !! tag); [|done]. cbn. by intros [_ ?]%lookup_delete_Some.
Qed.

Lemma start_op_typed location name c r :
  op_typed (AsyncOp name c r) = true -> start_op location name c r ⊨ keeps_types.
Proof.
  intros Ht w Hw. unfold start_op, create_op, allocate_op, register_op, assert_throw_impl, call_grpc,
    gets_queue, modify_queue. munfold.
  destruct (pending_ops (queue w) !! next_op (queue w)) as [o|]; munfold; [done|].
  intros tag op. cbn. rewrite lookup_insert_Some. intros [[<- <-]|[_ Hop]]; [done|by eapply Hw].
Qed.
Lemma start_future_typed location name a r :
  adapter_fits a (kind_of r) = true -> start_future location name a r ⊨ keeps_types.
Proof.
  intros Ha. unfold start_future. pose proof make_promise_typed. pose proof (@on_promise_typed).
  assert (forall p, start_op location name (set_future p a) r ⊨ keeps_types)
    by (intros p; by apply start_op_typed).
  respects_solve.
Qed.

End typed.

#[export] Hint Resolve modify_self_typed gets_self_typed gets_queue_typed zoom_typed call_grpc_typed
  make_promise_typed on_promise_typed unregister_typed : gh.
#[export] Hint Extern 1 (start_op _ _ _ _ ⊨ keeps_types _) => (apply start_op_typed; reflexivity) : gh.

(** ** Threads and the event loop

    [Typed]: the types of the parameters of an object's lambdas, and that its callbacks start
    operations that fit. *)

Class Typed (S K : Type) `{Client S K} := {
  parameter_kind : K -> op_kind;
  invoke_typed k resp ok : invoke k resp ok ⊨ keeps_types parameter_kind
}.
Arguments Typed S K {_}.

Section clients.
Context {S K : Type} `{Typed S K}.
#[local] Abbreviation W := (world S K).
#[local] Abbreviation keeps := (@keeps_types S K parameter_kind).

Lemma on_event_typed tag ok resp : on_event tag ok resp ⊨ keeps.
Proof.
  pose proof invoke_typed. unfold on_event. destruct (tag =? 0); [respects_solve|].
  unfold run_callback. respects_solve.
Qed.

(** A thread that keeps the types, next to the event loop. *)
Lemma sched_typed {A} es (p p' : prog W A) :
  prog_respects keeps p -> well_typed parameter_kind (queue (prog_world p)) ->
  sched es p = running p' -> well_typed parameter_kind (queue (prog_world p')).
Proof.
  revert p. induction es as [|[tag ok resp| |t] es IH]; intros p Hp Hw Hrun; cbn in Hrun.
  - by injection Hrun as <-.
  - pose proof (on_event_typed tag ok resp (prog_world p) Hw) as Hw'.
    destruct (on_event tag ok resp (prog_world p)) as [w [[]|e|s]]; [|done..].
    eapply IH, Hrun; by destruct p.
  - eapply IH, Hrun; destruct p as [w r|w until k]; cbn; [done| |done|];
      destruct (until w) eqn:Hu; try done; destruct (Hp w Hu); auto.
  - eapply IH, Hrun; by destruct p.
Qed.
End clients.

Lemma gets_typed {S K A B} (f : K -> op_kind) (g : S -> A) (k : A -> P (world S K) B) :
  (forall s, P_respects (keeps_types f) (k (g s))) -> P_respects (keeps_types f) (lift (gets_self g) ≫= k).
Proof. intros Hk w. exact (Hk (self w) w). Qed.
Lemma future_get_typed {S K} (f : K -> op_kind) p : P_respects (keeps_types f) (future_get (S:=S) p).
Proof.
  unfold future_get. P_respects_solve. apply keeps_types_pending. intros w tag op.
  destruct (promises (queue w) !! p) as [c|]; [|done]. by destruct (result c).
Qed.
#[export] Hint Resolve future_get_typed : gh.
#[export] Hint Extern 1 (start_future _ _ _ _ ⊨ keeps_types _) => (apply start_future_typed; reflexivity) : gh.
#[export] Hint Extern 1 (async_rpc_future _ _ ⊨ keeps_types _) => (apply start_future_typed; reflexivity) : gh.

Ltac typed_leaves := unfold async_rpc, async_write, async_read, make_relative_timer, make_deadline_timer,
  cancel_timer, try_cancel_on.

(** ** The components *)

Module CandidateTyped.
Import Candidate.

Definition parameter (k : cb) : op_kind :=
  match k with
  | cb_range_request => rpc_op "Range"
  | cb_watch_create _ _ | cb_watch_cancel _ _ => write_op Watch
  | cb_watch_read _ _ => read_op
  end.

Section candidate.
Context `{TextFormat}.
#[local] Abbreviation keeps := (@keeps_types candidate cb parameter).

Ltac typed_solve := unfold ops_start, ops_done, reads_start, reads_done, lock, unlock, deref_stream,
  check_grpc_status; typed_leaves; cbv zeta; respects_solve.

Lemma election_result_typed b : election_result b ⊨ keeps.
Proof. unfold election_result. typed_solve. Qed.
#[local] Hint Resolve election_result_typed : gh.
Lemma query_predecessor_typed : query_predecessor ⊨ keeps.
Proof. unfold query_predecessor. typed_solve. Qed.
Lemma check_election_over_maybe_typed : check_election_over_maybe ⊨ keeps.
Proof. unfold check_election_over_maybe. typed_solve. Qed.
Lemma watch_keys_typed r kvs : watch_keys r kvs ⊨ keeps.
Proof. induction kvs; cbn [watch_keys]; typed_solve. Qed.
#[local] Hint Resolve query_predecessor_typed check_election_over_maybe_typed watch_keys_typed : gh.

Lemma cand_invoke_typed k resp ok : invoke_cb k resp ok ⊨ keeps.
Proof.
  destruct k; cbn [invoke_cb];
    unfold on_range_request, on_watch_create, on_watch_cancel, on_watch_read; typed_solve.
Qed.
#[export] Instance candidate_typed : Typed candidate cb :=
  {| parameter_kind := parameter; invoke_typed := cand_invoke_typed |}.

Lemma on_cancels_typed {A} c (m : M _ A) : on_cancels c m ⊨ keeps.
Proof.
  apply keeps_types_pending. intros w tag op. unfold on_cancels.
  destruct (cancels (self w) !! c); [|done]. by destruct (m _).
Qed.
#[local] Hint Resolve on_cancels_typed : gh.
Lemma cancel_watches_typed c l : cancel_watches c l ⊨ keeps.
Proof. induction l; cbn [cancel_watches]; typed_solve. Qed.
#[local] Hint Resolve cancel_watches_typed : gh.

Ltac typed_thread := unfold with_tracer, block_on, ops_start, ops_done, lock, unlock, deref_stream, key,
  GH_ASSERT_THROW, assert_throw_impl; typed_leaves; P_respects_solve.

Lemma commit_typed r name : P_respects keeps (commit r name).
Proof. unfold commit, async_rpc_future. typed_thread. Qed.
#[local] Hint Resolve commit_typed : gh.
Lemma publish_value_typed value op : P_respects keeps (publish_value value op).
Proof. unfold publish_value. typed_thread. Qed.
#[local] Hint Resolve publish_value_typed : gh.
Lemma campaign_typed : P_respects keeps campaign.
Proof.
  unfold campaign, campaign_impl, create_watch_stream, create_node, adopt_node, async_create_rdwr_stream_future.
  typed_thread.
Qed.
Lemma proclaim_typed value : P_respects keeps (proclaim value).
Proof. unfold proclaim. typed_thread. Qed.
Lemma resign_typed : P_respects keeps resign.
Proof.
  unfold resign, make_cancels, destroy_cancels, close_stream, async_writes_done_future, async_finish_future.
  typed_thread.
Qed.
Lemma cleanup_typed : P_respects keeps cleanup.
Proof. unfold cleanup. typed_thread. Qed.
End candidate.
End CandidateTyped.

Module SessionTyped.
Import Session.

Definition parameter (k : cb) : op_kind :=
  match k with cb_timeout => timer_op | cb_write => write_op LeaseKeepAlive | cb_read => read_op end.

Section session.
Context `{TextFormat}.
#[local] Abbreviation keeps := (@keeps_types session cb parameter).

Ltac typed_solve := unfold accept_lease, set_timer, refresh_deadline, cancel_current_timer, seconds_to_ms, int64,
  ops_start, ops_done, reads_start, reads_done, deref_stream, check_grpc_status, with_tracer, block_on;
  typed_leaves; P_respects_solve.

Lemma sess_invoke_typed k resp ok : invoke_cb k resp ok ⊨ keeps.
Proof. destruct k; cbn [invoke_cb]; unfold on_timeout, on_write, on_read; typed_solve. Qed.
#[export] Instance session_typed : Typed session cb :=
  {| parameter_kind := parameter; invoke_typed := sess_invoke_typed |}.

Lemma shutdown_typed : P_respects keeps shutdown.
Proof. unfold shutdown. typed_solve. Qed.
#[local] Hint Resolve shutdown_typed : gh.
Lemma preamble_typed : P_respects keeps preamble.
Proof.
  assert (forall s name, async_rpc_future (lease_grant_request s) name ⊨ keeps)
    by (intros s name; by apply start_future_typed).
  unfold preamble, preamble_body, async_create_rdwr_stream_future.
  refine (P_respects_try_catch _ _ _ _ _); [|intros ?; typed_solve].
  unfold with_tracer at 1. refine (P_respects_bind _ _ _ _ _); [typed_solve|intros started].
  refine (P_respects_destructor _ _ _ _ _); [|typed_solve].
  refine (P_respects_bind _ _ _ _ _); [typed_solve|intros fut].
  do 2 (refine (P_respects_bind _ _ _ _ _); [typed_solve|intros ?]).
  apply gets_typed. intros s. typed_solve.
Qed.
Lemma revoke_typed : P_respects keeps revoke.
Proof.
  unfold revoke, revoke_lease, close_stream, async_rpc_future, async_writes_done_future, async_finish_future.
  typed_solve.
Qed.
End session.
End SessionTyped.

Module ObserverTyped.
Import Observer.

Definition parameter (k : cb) : op_kind :=
  match k with
  | cb_range_request => rpc_op "Range"
  | cb_watch_create | cb_watch_cancel => write_op Watch
  | cb_watch_read => read_op
  end.

Section observer.
Context {sub : Type} `{Application sub}.
#[local] Abbreviation keeps := (@keeps_types (observer sub) cb parameter).

Ltac typed_solve := unfold create_watcher, cancel_watcher, discover_node_with_lowest_creation_revision,
  report_election_leader, call_subscribers, with_lock, ops_start, ops_done, lock, unlock, deref_stream,
  GH_ASSERT_THROW, assert_throw_impl, block_on_ops; typed_leaves; cbv zeta; P_respects_solve.

Lemma unsubscribe_typed t : unsubscribe t ⊨ keeps.
Proof. unfold unsubscribe. typed_solve. Qed.
#[local] Hint Resolve unsubscribe_typed : gh.
Lemma call_subscriber_typed f k v : call_subscriber f k v ⊨ keeps.
Proof. unfold call_subscriber. typed_solve. Qed.
#[local] Hint Resolve call_subscriber_typed : gh.
Lemma call_each_typed k v ts : call_each k v ts ⊨ keeps.
Proof. induction ts; cbn [call_each]; typed_solve. Qed.
#[local] Hint Resolve call_each_typed : gh.

Lemma obs_invoke_typed k resp ok : invoke_cb k resp ok ⊨ keeps.
Proof.
  destruct k; cbn [invoke_cb]; unfold on_range_request, on_watch_create, on_watch_cancel, on_watch_read;
    typed_solve.
Qed.
#[export] Instance observer_typed : Typed (observer sub) cb :=
  {| parameter_kind := parameter; invoke_typed := obs_invoke_typed |}.

Lemma startup_typed : P_respects keeps startup.
Proof. unfold startup, create_watcher_stream, async_create_rdwr_stream_future. typed_solve. Qed.
Lemma subscribe_typed f : subscribe f ⊨ keeps.
Proof. unfold subscribe. typed_solve. Qed.
Lemma obs_shutdown_typed : shutdown ⊨ keeps.
Proof. unfold shutdown. typed_solve. Qed.
End observer.
End ObserverTyped.

Module MembershipTyped.
Import Membership.

Definition parameter (k : cb) : op_kind :=
  match k with cb_refresh => timer_op | cb_member_list _ _ => rpc_op "MemberList" end.

Section membership.
Context {T : Type} `{rpc_backoff_policy T}.
#[local] Abbreviation keeps := (@keeps_types (membership T) cb parameter).

Lemma memb_invoke_typed k resp ok : invoke_cb k resp ok ⊨ keeps.
Proof.
  destruct k; cbn [invoke_cb]; unfold on_refresh_expired, on_member_list_response,
    try_query_cluster_membership, reset_refresh_timer, current_urls, lock, unlock; typed_leaves; respects_solve.
Qed.
#[export] Instance membership_typed : Typed (membership T) cb :=
  {| parameter_kind := parameter; invoke_typed := memb_invoke_typed |}.
End membership.
End MembershipTyped.

(** ** What the callbacks of a candidate are called with *)

Section claims.
Context `{TextFormat}.
Import Candidate.


Lemma sample_candidate_typed : well_typed CandidateTyped.parameter (queue sample_candidate).
Proof. intros tag op Hop. cbn in Hop. by rewrite lookup_empty in Hop. Qed.
End claims.

