(* ===== verification/Facade.v ===== *)
(** * [leader_election] and [watch_election] (gh/leader_election.hpp and .cpp, gh/watch_election.hpp and .cpp),
      and the interfaces they implement (gh/election_candidate.hpp, gh/election_observer.hpp, gh/session.hpp)

    The classes an application uses. A [leader_election] owns a session and a candidate on one queue; a
    [watch_election] owns an observer. The abstract classes are type classes, with the
    implementations and the facades as instances. *)

From S2P Require Import Prelude Runtime RpcPolicies OpCounter Etcd CompletionQueue Threads Compose.
From S2P Require Import Candidate Observer Session.
Open Scope Z_scope.
Open Scope gh_scope.

#[export] Existing Instances Session.session_client Candidate.candidate_client Observer.observer_client.

(** ** The interfaces

    [W] is the world of a thread that uses the object. The future [campaign] returns is the one of the
    promise of the object. *)

Class election_candidate (W : Type) := {
  elected : M W bool;
  key : M W string;
  value : M W string;
  creation_revision : M W Z;
  candidate_lease_id : M W N;
  proclaim (new_value : string) : P W unit;
  campaign : P W unit;
  resign : P W unit
}.

Class session (W : Type) := {
  lease_id : M W Z;
  actual_TTL : M W Z;
  revoke : P W unit;
  is_active : M W bool
}.

Class election_observer (sub W : Type) := {
  startup : P W unit;
  shutdown : P W unit;
  has_leader : M W bool;
  election_name : M W string;
  current_key : M W string;
  current_value : M W string;
  subscribe (subscriber : sub) : M W Z;
  unsubscribe (token : Z) : M W unit
}.

Section implementations.
Context `{TextFormat}.

#[export] Instance candidate_interface : election_candidate (world Candidate.candidate Candidate.cb) := {|
  elected := Candidate.elected;
  key := Candidate.key;
  value := Candidate.value;
  creation_revision := Candidate.creation_revision;
  candidate_lease_id := Candidate.lease_id;
  proclaim := Candidate.proclaim;
  campaign := Candidate.campaign;
  resign := Candidate.resign
|}.

#[export] Instance session_interface : session (world Session.session Session.cb) := {|
  lease_id := Session.lease_id;
  actual_TTL := Session.actual_TTL;
  revoke := Session.revoke;
  is_active := Session.is_active
|}.

#[export] Instance observer_interface {sub} `{Observer.Application sub} :
    election_observer sub (world (Observer.observer sub) Observer.cb) := {|
  startup := Observer.startup;
  shutdown := lift Observer.shutdown;
  has_leader := Observer.has_leader;
  election_name := Observer.election_name;
  current_key := Observer.current_key;
  current_value := Observer.current_value;
  subscribe := Observer.subscribe;
  unsubscribe := Observer.unsubscribe
|}.
End implementations.

(** ** [leader_election] *)

Module LeaderElection.

(** [session_] and [candidate_]; the queue is the one of the world. *)
Definition leader_election : Type := Session.session * Candidate.candidate.
Definition cb : Type := Session.cb + Candidate.cb.
#[local] Abbreviation W := (world leader_election cb).

Definition session_ {A} (m : M (world Session.session Session.cb) A) : M W A := embed m.
Definition candidate_ {A} (m : M (world Candidate.candidate Candidate.cb) A) : M W A := embed m.
Definition on_session {A} (m : P (world Session.session Session.cb) A) : P W A := embed_P m.
Definition on_candidate {A} (m : P (world Candidate.candidate Candidate.cb) A) : P W A := embed_P m.

Section leader_election.
Context `{TextFormat}.

(** The queue calls the object whose operation completed. *)
Definition invoke_cb (k : cb) (op : response) (ok : bool) : M W unit :=
  match k with
  | inl k => session_ (invoke k op ok)
  | inr k => candidate_ (invoke k op ok)
  end.
Lemma facade_invoke_evolves k op ok : invoke_cb k op ok ⊨ evolves.
Proof. destruct k; apply embed_evolves, invoke_evolves. Qed.
#[export] Instance leader_election_client : Client leader_election cb := {|
  invoke := invoke_cb;
  invoke_evolves := facade_invoke_evolves
|}.
#[export] Instance session_part_client : PartClient Session.session Session.cb leader_election cb.
Proof. done. Qed.
#[export] Instance candidate_part_client : PartClient Candidate.candidate Candidate.cb leader_election cb.
Proof. done. Qed.

(** The constructor, in a world whose memory for the members holds anything: the session first, then the candidate
    with the lease of the session. *)
Definition make (election_name participant_value : string) (desired_TTL : duration) (lease_id : Z) : P W unit :=
  lift (modify_self (fun s => (Session.initial_session desired_TTL lease_id, s.2)));;
  on_session Session.preamble;;
  lease ← lift (session_ Session.lease_id);
  lift (modify_self (fun s =>
    (s.1, Candidate.election_candidate_impl (Z.to_N lease) election_name participant_value))).

(** The public constructor, from any duration: it is cast to milliseconds. *)
Definition make_with_duration (election_name participant_value : string) (d : duration) (lease_id : Z) : P W unit :=
  make election_name participant_value (milliseconds (duration_cast_ms d)) lease_id.

(** The destructor: [candidate_] goes first, then [session_]. *)
Definition destroy : P W unit := on_candidate Candidate.cleanup;; on_session Session.shutdown.

(** The members of the interface: those of the candidate, and the end of the session. *)
Definition elected : M W bool := candidate_ Candidate.elected.
Definition key : M W string := candidate_ Candidate.key.
Definition value : M W string := candidate_ Candidate.value.
Definition creation_revision : M W Z := candidate_ Candidate.creation_revision.
Definition lease_id : M W N := candidate_ Candidate.lease_id.
Definition proclaim (value : string) : P W unit := on_candidate (Candidate.proclaim value).
Definition campaign : P W unit := on_candidate Candidate.campaign.
Definition resign : P W unit := on_candidate Candidate.resign;; on_session Session.revoke.

#[export] Instance leader_election_interface : election_candidate W :=
  Build_election_candidate W elected key value creation_revision lease_id proclaim campaign resign.
End leader_election.

End LeaderElection.

(** ** [watch_election] *)

Module WatchElection.

Record watch_election (sub : Type) := Watch { observer_ : Observer.observer sub }.
Arguments Watch {sub} observer_.
Arguments observer_ {sub} w.

#[export] Instance observer_part sub :
  Part (Observer.observer sub) Observer.cb (watch_election sub) Observer.cb.
Proof.
  refine {| get_part := observer_; put_part o _ := Watch o; inj k := k; sel k := Some k |}; try done.
  - by intros [].
  - by intros k' k [= ->].
Defined.

Section watch_election.
Context {sub : Type} `{Observer.Application sub}.
#[local] Abbreviation W := (world (watch_election sub) Observer.cb).

Definition invoke_cb (k : Observer.cb) (op : response) (ok : bool) : M W unit := embed (invoke k op ok).
Lemma watch_invoke_evolves k op ok : invoke_cb k op ok ⊨ evolves.
Proof. apply embed_evolves, invoke_evolves. Qed.
#[export] Instance watch_election_client : Client (watch_election sub) Observer.cb := {|
  invoke := invoke_cb;
  invoke_evolves := watch_invoke_evolves
|}.
#[export] Instance observer_part_client :
  PartClient (Observer.observer sub) Observer.cb (watch_election sub) Observer.cb.
Proof. done. Qed.

Definition make (election_name : string) : watch_election sub := Watch (Observer.election_observer_impl election_name).

(** The destructor of [observer_]. *)
Definition destroy : P W unit := embed_P Observer.cleanup.

Definition startup : P W unit := embed_P Observer.startup.
Definition shutdown : P W unit := embed_P (lift Observer.shutdown).
Definition has_leader : M W bool := embed Observer.has_leader.
Definition election_name : M W string := embed Observer.election_name.
Definition current_key : M W string := embed Observer.current_key.
Definition current_value : M W string := embed Observer.current_value.
Definition subscribe (subscriber : sub) : M W Z := embed (Observer.subscribe subscriber).
Definition unsubscribe (token : Z) : M W unit := embed (Observer.unsubscribe token).

#[export] Instance watch_election_interface : election_observer sub W :=
  Build_election_observer sub W startup shutdown has_leader election_name current_key current_value
    subscribe unsubscribe.
End watch_election.

End WatchElection.
