(* ===== verification/Constants.v ===== *)
(** * The const members

    A member that the sources declare [const], or that only the constructor sets: no callback of the
    object and no other member changes it. [fixes f] is the relation of worlds between which [f] of
    the object is the same; the client of the queue is an instance of [Fixing] for each such field,
    and then events and threads leave it as it was. *)

From S2P Require Import Prelude Runtime RpcPolicies OpCounter Etcd CompletionQueue Threads Compose Safety.
From S2P Require Import Candidate Session CandidateSafety Facade.
Open Scope Z_scope.
Open Scope gh_scope.

Section fixes.
Context {S K T : Type} (f : S -> T).
#[local] Abbreviation W := (world S K).

Definition fixes (w w' : W) : Prop := f (self w') = f (self w).
#[export] Instance fixes_preorder : PreOrder fixes.
Proof. split; [by intros w|]. intros w1 w2 w3 H12 H23. unfold fixes in *. congruence. Qed.

(** Operations on the queue. *)
Lemma fixes_self {A} (m : M W A) : (forall w, self (m w).1 = self w) -> m ⊨ fixes.
Proof. intros Hm w. specialize (Hm w). destruct (m w). unfold fixes. by rewrite <- Hm. Qed.
Lemma gets_self_fixes {A} (g : S -> A) : gets_self g ⊨ fixes.
Proof. by apply fixes_self. Qed.
Lemma gets_queue_fixes {A} (g : completion_queue K -> A) : gets_queue g ⊨ fixes.
Proof. by apply fixes_self. Qed.
Lemma modify_queue_fixes g : modify_queue g ⊨ fixes.
Proof. by apply fixes_self. Qed.
Lemma on_promise_fixes {A} p (m : M (promise response) A) : on_promise p m ⊨ fixes.
Proof. apply fixes_self. intros w. unfold on_promise. destruct (_ !! p); [by destruct (m _)|done]. Qed.
Lemma future_get_fixes p : P_respects fixes (future_get p).
Proof.
  unfold future_get. P_respects_solve. intros w.
  destruct (promises (queue w) !! p) as [c|]; [destruct (result c)|]; reflexivity.
Qed.

(** Changes of other members. *)
Lemma modify_self_fixes g : (forall s, f (g s) = f s) -> modify_self g ⊨ fixes.
Proof. intros Hg w. apply Hg. Qed.
Lemma zoom_fixes {T' A} (proj : S -> T') upd (m : M T' A) : (forall t s, f (upd t s) = f s) -> zoom proj upd m ⊨ fixes.
Proof. intros Hu w. unfold zoom. destruct (m _). apply Hu. Qed.
End fixes.

#[export] Hint Resolve gets_self_fixes gets_queue_fixes modify_queue_fixes on_promise_fixes future_get_fixes : gh.
#[export] Hint Extern 2 (modify_self _ ⊨ fixes _) => apply modify_self_fixes; reflexivity : gh.
#[export] Hint Extern 2 (zoom _ _ _ ⊨ fixes _) => apply zoom_fixes; reflexivity : gh.

Section operations.
Context {S K T : Type} (f : S -> T).
Lemma call_grpc_fixes l : call_grpc l ⊨ (@fixes S K T f).
Proof. unfold call_grpc. eauto with gh. Qed.
#[local] Hint Resolve call_grpc_fixes : gh.
Lemma intercepted_fixes c : intercepted c ⊨ (@fixes S K T f).
Proof. done. Qed.
#[local] Hint Resolve intercepted_fixes : gh.
Lemma start_op_fixes location name c r : start_op location name c r ⊨ (@fixes S K T f).
Proof. unfold start_op, create_op, allocate_op, register_op, assert_throw_impl. respects_solve. Qed.
#[local] Hint Resolve start_op_fixes : gh.
Lemma start_future_fixes location name a r : start_future location name a r ⊨ (@fixes S K T f).
Proof. unfold start_future, make_promise. respects_solve. Qed.
End operations.
#[export] Hint Resolve call_grpc_fixes start_op_fixes start_future_fixes : gh.

Ltac fixes_calls :=
  unfold async_rpc_future, async_create_rdwr_stream_future, async_writes_done_future, async_finish_future,
    async_rpc, async_write, async_read, make_deadline_timer, cancel_timer, try_cancel_on, GH_ASSERT_THROW,
    assert_throw_impl, check_grpc_status; P_respects_solve.

(** The lambdas of a client keep [f]. *)
Class Fixing {S K T : Type} `{Client S K} (f : S -> T) :=
  invoke_fixes k resp ok : invoke k resp ok ⊨ (@fixes S K T f).

Section fixing.
Context {S K T : Type} `{Fixing S K T f}.

Lemma on_event_fixes tag ok resp : on_event tag ok resp ⊨ (@fixes S K T f).
Proof.
  pose proof invoke_fixes. unfold on_event, unregister_op, run_callback. respects_solve.
Qed.
Lemma sched_fixes {A} es (p p' : prog (world S K) A) :
  prog_respects (fixes f) p -> sched es p = running p' -> f (self (prog_world p')) = f (self (prog_world p)).
Proof.
  revert p. induction es as [|e es IH]; intros p Hp Hrun; [by injection Hrun as <-|].
  cbn [sched] in Hrun. destruct e as [tag ok resp| |t]; cbn [sched_step] in Hrun.
  - pose proof (on_event_fixes tag ok resp (prog_world p)) as He.
    destruct (on_event tag ok resp (prog_world p)) as [w [[]|x|x]]; [|done..].
    apply IH in Hrun; [|by destruct p]. rewrite Hrun. by destruct p.
  - destruct p as [w r|w until k]; [by apply IH in Hrun|]. cbn in *. destruct (until w) eqn:Hu; [|by apply IH in Hrun].
    destruct (Hp w Hu) as [He Hk]. apply IH in Hrun; [|done]. by rewrite Hrun.
  - apply IH in Hrun; by destruct p.
Qed.
Lemma fixing_stable {Rely : rely} (Q : T -> Prop) : stable (fun w : world S K => Q (f (self w))).
Proof.
  split_and!; [|done|by intros w w' [-> _ _ _ _]].
  intros w w' tag ok resp _ HQ E. pose proof (on_event_fixes tag ok resp w) as He. rewrite E in He. unfold fixes in He. cbn in He.
  by rewrite He.
Qed.
End fixing.

(** ** [election_candidate_impl] *)

Section candidate.
Context `{TextFormat}.
Import Candidate.

(** [lease_id_], [election_name_], [election_prefix_] and [candidate_key_]. *)
Definition identity (s : candidate) : N * string * string * string :=
  (lease_id_ s, election_name_ s, election_prefix_ s, candidate_key_ s).
#[local] Abbreviation ok m := (P_respects (@fixes candidate cb _ identity) m).

Lemma cand_ops_fixes : ops_start ⊨ fixes identity (K:=cb) /\ ops_done ⊨ fixes identity (K:=cb).
Proof. split; unfold ops_start, ops_done; eauto with gh. Qed.
Lemma on_cancels_fixes {A} c (m : M _ A) : on_cancels c m ⊨ (@fixes candidate cb _ identity).
Proof. intros w. unfold on_cancels. destruct (cancels (self w) !! c) as [n|]; [destruct (m n)|]; reflexivity. Qed.
#[local] Hint Resolve on_cancels_fixes : gh.
Lemma cand_deref_stream_fixes : deref_stream ⊨ (@fixes candidate cb _ identity).
Proof. unfold deref_stream. respects_solve. Qed.
Lemma election_result_fixes b : election_result b ⊨ (@fixes candidate cb _ identity).
Proof. unfold election_result. respects_solve. Qed.
#[local] Hint Resolve cand_deref_stream_fixes election_result_fixes : gh.
Lemma query_predecessor_fixes : query_predecessor ⊨ (@fixes candidate cb _ identity).
Proof. unfold query_predecessor, ops_start. fixes_calls. Qed.
#[local] Hint Resolve query_predecessor_fixes : gh.
Lemma watch_keys_fixes r kvs : watch_keys r kvs ⊨ (@fixes candidate cb _ identity).
Proof. induction kvs; cbn [watch_keys]; unfold ops_start, lock, unlock; fixes_calls. Qed.
Lemma cancel_watches_fixes c l : cancel_watches c l ⊨ (@fixes candidate cb _ identity).
Proof. induction l; cbn [cancel_watches]; fixes_calls. Qed.
#[local] Hint Resolve watch_keys_fixes cancel_watches_fixes : gh.

#[export] Instance candidate_fixing : Fixing (S:=candidate) (K:=cb) identity.
Proof.
  intros k resp b. destruct k; cbn [invoke candidate_client invoke_cb]; unfold on_range_request, on_watch_create, on_watch_cancel,
    on_watch_read, check_election_over_maybe, ops_start, ops_done, reads_start, reads_done, lock, unlock; fixes_calls.
Qed.

Lemma call_fixes m : ok (call m).
Proof.
  destruct m; cbn [call]; unfold campaign, campaign_impl, create_watch_stream, create_node, adopt_node, publish_value,
    proclaim, publish_value, commit, key, resign, close_stream, make_cancels, destroy_cancels, cleanup, block_on, with_tracer,
    lock, unlock, ops_start, ops_done; fixes_calls.
Qed.
End candidate.

(** ** [session_impl] *)

Section session.
Context `{TextFormat}.
Import OpCounter Session.

Lemma int64_fixes {T} (f : session -> T) z : int64 z ⊨ (@fixes session cb _ f).
Proof. unfold int64. respects_solve. Qed.
#[local] Hint Resolve int64_fixes : gh.
Lemma set_timer_fixes : set_timer ⊨ (@fixes session cb _ lease_id_).
Proof. unfold set_timer, refresh_deadline, ops_start. fixes_calls. Qed.
#[local] Hint Resolve set_timer_fixes : gh.

#[export] Instance session_fixing : Fixing (S:=session) (K:=cb) lease_id_.
Proof.
  intros k resp b. destruct k; cbn [invoke session_client invoke_cb]; unfold on_timeout, on_write, on_read,
    seconds_to_ms, deref_stream, ops_start, ops_done, reads_start, reads_done; fixes_calls.
Qed.

(** Only members shut the counters down, no callback does. *)
Definition shut_down (s : session) : bool * bool := (shutdown_flag (ops_ s), shutdown_flag (reads_ s)).
Lemma add_op_shut c : shutdown_flag (add_op c).1 = shutdown_flag c.
Proof. unfold add_op. by destruct (shutdown_flag c) eqn:E. Qed.
Lemma ops_start_shut : ops_start ⊨ (@fixes session cb _ shut_down).
Proof.
  intros w. unfold ops_start, zoom, start, async_op_start, fixes, shut_down.
  pose proof (add_op_shut (ops_ (self w))) as Hf. destruct (add_op _). cbn in *. by rewrite Hf.
Qed.
Lemma ops_done_shut : ops_done ⊨ (@fixes session cb _ shut_down).
Proof. done. Qed.
Lemma reads_start_shut : reads_start ⊨ (@fixes session cb _ shut_down).
Proof.
  intros w. unfold reads_start, zoom, start, async_op_start, fixes, shut_down.
  pose proof (add_op_shut (reads_ (self w))) as Hf. destruct (add_op _). cbn in *. by rewrite Hf.
Qed.
Lemma reads_done_shut : reads_done ⊨ (@fixes session cb _ shut_down).
Proof. done. Qed.
#[local] Hint Resolve ops_start_shut ops_done_shut reads_start_shut reads_done_shut : gh.
#[export] Instance session_fixing_shut : Fixing (S:=session) (K:=cb) shut_down.
Proof.
  intros k resp b. destruct k; cbn [invoke session_client invoke_cb]; unfold on_timeout, on_write, on_read,
    set_timer, refresh_deadline, seconds_to_ms, deref_stream; fixes_calls.
Qed.

Lemma revoke_fixes : P_respects (@fixes session cb _ lease_id_) revoke.
Proof.
  unfold revoke, revoke_lease, close_stream, cancel_current_timer, block_on, with_tracer, deref_stream, ops_start,
    ops_done. fixes_calls.
Qed.
End session.
