(* ===== verification/FacadeFacts.v ===== *)
(** * What the facades promise

    A member called through a facade does what the member of the object does; the constructor of
    [leader_election] gives the candidate the lease of the session, and it stays so; the
    objects on the queue do not disturb each other. *)

From S2P Require Import Prelude Runtime RpcPolicies OpCounter Etcd CompletionQueue Threads Compose Safety.
From S2P Require Import Candidate Observer Session CandidateSafety SessionFacts Facade Constants.
Open Scope Z_scope.
Open Scope gh_scope.

(** ** Members keep to the queue *)

Lemma future_get_evolves {S K} p : P_respects (@evolves S K) (future_get p).
Proof.
  unfold future_get. P_respects_solve. intros w.
  destruct (promises (queue w) !! p) as [c|]; [destruct (result c)|]; reflexivity.
Qed.
#[export] Hint Resolve future_get_evolves : gh.

Ltac evolve_calls := unfold async_rpc_future, async_create_rdwr_stream_future, async_writes_done_future,
  async_finish_future; P_respects_solve.

Section candidate.
Context `{TextFormat}.
Import Candidate.
#[local] Abbreviation ok m := (P_respects (@evolves candidate cb) m).

Lemma on_cancels_evolves {A} c (m : M _ A) : on_cancels c m ⊨ (@evolves candidate cb).
Proof.
  intros w. unfold on_cancels, evolves. destruct (cancels (self w) !! c) as [n|]; [destruct (m n)|]; reflexivity.
Qed.
#[local] Hint Resolve on_cancels_evolves cand_deref_stream_evolves election_result_evolves
  query_predecessor_evolves : gh.
Lemma cancel_watches_evolves c l : cancel_watches c l ⊨ (@evolves candidate cb).
Proof. induction l; cbn [cancel_watches]; respects_solve. Qed.
#[local] Hint Resolve cancel_watches_evolves : gh.

Lemma commit_evolves r name : ok (commit r name).
Proof. unfold commit, with_tracer, ops_start, ops_done. evolve_calls. Qed.
#[local] Hint Resolve commit_evolves : gh.

Lemma call_evolves m : ok (call m).
Proof.
  destruct m; cbn [call]; unfold campaign, campaign_impl, create_watch_stream, create_node, adopt_node, publish_value,
    proclaim, publish_value, key, resign, close_stream, make_cancels, destroy_cancels, cleanup, block_on, with_tracer,
    lock, unlock, ops_start, ops_done, GH_ASSERT_THROW, assert_throw_impl; evolve_calls.
Qed.
End candidate.

Section session.
Context `{TextFormat}.
Import Session.
#[local] Abbreviation ok m := (P_respects (@evolves session cb) m).

Lemma set_timer_evolves : set_timer ⊨ (@evolves session cb).
Proof.
  pose proof int64_evolves. unfold set_timer, refresh_deadline, ops_start. respects_solve.
Qed.
#[local] Hint Resolve set_timer_evolves int64_evolves : gh.
Lemma session_shutdown_evolves : ok shutdown.
Proof. unfold shutdown, cancel_current_timer, block_on. evolve_calls. Qed.
#[local] Hint Resolve session_shutdown_evolves : gh.
Lemma preamble_evolves : ok preamble.
Proof.
  unfold preamble, preamble_body, with_tracer, accept_lease, seconds_to_ms, ops_start, ops_done. evolve_calls.
Qed.
Lemma revoke_evolves : ok revoke.
Proof.
  unfold revoke, revoke_lease, close_stream, cancel_current_timer, block_on, with_tracer, deref_stream, ops_start,
    ops_done, check_grpc_status. evolve_calls.
Qed.

(** Before its last wake up a constructor waits for the lease. *)
Lemma preamble_waits (q : completion_queue cb) desired lease_id r1 ok resp :
  wf q ->
  exists p, sched [ev_completion (next_op q) true r1; ev_wake; ev_completion (next_op q + 1) ok resp]
    (preamble (World (initial_session desired lease_id) q)) = running p /\ prog_outcome p = None.
Proof.
  intros Hwf. set (w := World _ q). unfold preamble, P_try_catch, preamble_body.
  rewrite sess_with_tracer_eq by done. set (w0 := with_self _ w).
  change (next_op q) with (next_op (queue w0)). unfold async_create_rdwr_stream_future.
  rewrite (sched_await (S:=session) (K:=cb)) by done.
  cbn [adapt negb]. unfold modify_self at 1, modify at 1. set (w1 := after_call _ _ _ _ _ w0).
  assert (wf (queue w1)) as Hwf1 by (by apply wf_after_call).
  rewrite (lift_bind _ _ w1 (with_self (set_ka_stream true) w1) tt) by done.
  rewrite (lift_bind _ _ _ (with_self (set_ka_stream true) w1)
    (lease_grant_request (self (with_self (set_ka_stream true) w1)))) by done.
  rewrite sess_with_tracer_eq by done. set (w2 := with_self _ (with_self _ w1)).
  change (next_op (queue w0) + 1) with (next_op (queue w2)). unfold async_rpc_future.
  by apply (sched_await_blocked (S:=session) (K:=cb)).
Qed.
End session.

(** ** [leader_election] *)

Import LeaderElection.

Section leader_election.
Context `{TextFormat}.
#[local] Abbreviation W := (world leader_election cb).
Implicit Types v : W.

(** The views of the two objects. *)
Definition session_view v : world Session.session Session.cb := view v.
Definition candidate_view v : world Candidate.candidate Candidate.cb := view v.

(** An operation of the session, one of the candidate; the futures of a thread are neither. *)
Definition of_session v (tag : Z) : Prop :=
  exists name k rq, pending_ops (queue v) !! tag = Some (AsyncOp name (functor (inl k)) rq).
Definition of_candidate v (tag : Z) : Prop :=
  exists name k rq, pending_ops (queue v) !! tag = Some (AsyncOp name (functor (inr k)) rq).

#[local] Abbreviation left := (left_part Session.session Session.cb Candidate.candidate Candidate.cb : Part _ _ leader_election cb).
#[local] Abbreviation right := (right_part Session.session Session.cb Candidate.candidate Candidate.cb : Part _ _ leader_election cb).

Lemma others_left v t op :
  others (H:=left) (queue v) !! t = Some op <->
  pending_ops (queue v) !! t = Some op /\ exists k, op_callback op = functor (inr k).
Proof.
  rewrite others_lookup. destruct op as [name [[k|k]|p a] rq]; unfold sel_op; cbn; split; intros [? Hs]; eauto;
    try done; by destruct Hs.
Qed.
Lemma others_right v t op :
  others (H:=right) (queue v) !! t = Some op <->
  pending_ops (queue v) !! t = Some op /\ exists k, op_callback op = functor (inl k).
Proof.
  rewrite others_lookup. destruct op as [name [[k|k]|p a] rq]; unfold sel_op; cbn; split; intros [? Hs]; eauto;
    try done; by destruct Hs.
Qed.

(** The objects of a [leader_election] do not disturb each other: an event for an operation of the session
    does to the session what it does to a session alone, and leaves the candidate and its pending
    operations as they were; and the same with the two exchanged. *)
Theorem events_are_routed v tag ok resp name callback rq :
  wf (queue v) -> pending_ops (queue v) !! tag = Some (AsyncOp name (functor callback) rq) ->
  let '(v', r) := on_event tag ok resp v in
  match callback with
  | inl _ =>
      (session_view v', r) = on_event tag ok resp (session_view v) /\ (self v').2 = (self v).2 /\
      forall t n k q, pending_ops (queue v') !! t = Some (AsyncOp n (functor (inr k)) q) <->
                      pending_ops (queue v) !! t = Some (AsyncOp n (functor (inr k)) q)
  | inr _ =>
      (candidate_view v', r) = on_event tag ok resp (candidate_view v) /\ (self v').1 = (self v).1 /\
      forall t n k q, pending_ops (queue v') !! t = Some (AsyncOp n (functor (inl k)) q) <->
                      pending_ops (queue v) !! t = Some (AsyncOp n (functor (inl k)) q)
  end.
Proof.
  intros Hwf Hop. destruct (on_event tag ok resp v) as [v' r] eqn:E. destruct callback as [k0|k0].
  - assert (Ho : others (H:=left) (queue v) !! tag = None).
    { apply eq_None_not_Some. intros [op [Hop' [k Hk]]%others_left]. rewrite Hop in Hop'. by simplify_eq/=. }
    pose proof (event_through_part (H:=left) tag ok resp v Hwf Ho) as Hev. rewrite E in Hev.
    destruct Hev as (Hview & Hothers & s & Hs). split; [done|]. split; [by rewrite Hs|].
    intros t n k q. pose proof (others_left v' t (AsyncOp n (functor (inr k)) q)) as H1'.
    pose proof (others_left v t (AsyncOp n (functor (inr k)) q)) as H2'. rewrite Hothers in H1'.
    cbn in *. naive_solver.
  - assert (Ho : others (H:=right) (queue v) !! tag = None).
    { apply eq_None_not_Some. intros [op [Hop' [k Hk]]%others_right]. rewrite Hop in Hop'. by simplify_eq/=. }
    pose proof (event_through_part (H:=right) tag ok resp v Hwf Ho) as Hev. rewrite E in Hev.
    destruct Hev as (Hview & Hothers & s & Hs). split; [done|]. split; [by rewrite Hs|].
    intros t n k q. pose proof (others_right v' t (AsyncOp n (functor (inl k)) q)) as H1'.
    pose proof (others_right v t (AsyncOp n (functor (inl k)) q)) as H2'. rewrite Hothers in H1'.
    cbn in *. naive_solver.
Qed.

(** The members of the interface that a thread of the application calls. *)
Inductive interface_call := call_campaign | call_proclaim (value : string) | call_resign.
Definition call_interface {W} `{election_candidate W} (m : interface_call) : P W unit :=
  match m with
  | call_campaign => Facade.campaign
  | call_proclaim value => Facade.proclaim value
  | call_resign => Facade.resign
  end.

(** No event of the list is the session's. *)
Definition session_quiet v (es : list sched_event) : Prop :=
  Forall (fun e => match e with
                   | ev_completion tag _ _ =>
                       forall n k q, pending_ops (queue v) !! tag <> Some (AsyncOp n (functor (inl k)) q)
                   | _ => True
                   end) es.
Lemma session_quiet_embed v es : session_quiet v es -> Forall (not_for_others (H:=right) v) es.
Proof.
  intros Hes. eapply Forall_impl; [exact Hes|]. intros [tag ok resp| |t]; [|done..]. cbn. intros Hn.
  apply eq_None_not_Some. intros [op [Hop [k Hk]]%others_right]. destruct op as [n c q]. cbn in Hk. subst c.
  by apply (Hn n k q).
Qed.


(** *** Resignation *)

(** What follows the call of the candidate. *)
Definition then_revoke v (r : outcome unit) : prog W unit :=
  match r with
  | Ok _ => on_session Session.revoke v
  | Throw e => Finished v (Throw e)
  | UB s => Finished v (UB s)
  end.

(** The lease goes last: [resign] of a [leader_election] is the one of its candidate, and when that returns, at once
    or woken by the completion of its last operation, the revocation of the lease starts in the world it
    left; when it throws the exception is passed on and the lease is not revoked. *)
Theorem facade_resign_sequence v :
  wf (queue v) ->
  (forall w r, Candidate.resign (candidate_view v) = Finished w r ->
     call_interface call_resign v = then_revoke (merge w v) r) /\
  (forall es p w r, session_quiet v es ->
     sched es (Candidate.resign (candidate_view v)) = running p -> prog_outcome p = None -> wake p = Finished w r ->
     sched (es ++ [ev_wake]) (call_interface call_resign v) = running (then_revoke (merge w v) r)).
Proof.
  intros Hwf. change (call_interface call_resign v) with (prog_then (embed_P Candidate.resign v) then_revoke).
  split.
  - intros w r Hr. unfold embed_P. change (view v) with (candidate_view v). by rewrite Hr.
  - intros es p w r Hes Hrun Hp Hwake.
    by refine (proj1 (sched_embed_then es v Candidate.resign _ p w r Hwf (call_evolves CandidateSafety.call_resign)
      (session_quiet_embed v es Hes) Hrun Hp Hwake)).
Qed.

(** *** Construction *)

Lemma others_above v tag : wf (queue v) -> next_op (queue v) <= tag -> others (H:=left) (queue v) !! tag = None.
Proof.
  intros (_ & Ho & _) Ht. apply eq_None_not_Some. intros [op [Hop _]%others_left]. apply Ho in Hop. lia.
Qed.

(** The world when the session was made, and the members. *)
Definition made (election_name value : string) (r : outcome unit) v : W :=
  match r with
  | Ok _ => with_self (fun s : leader_election => (s.1, Candidate.election_candidate_impl
      (Z.to_N (Session.lease_id_ s.1)) election_name value)) v
  | _ => v
  end.

Definition candidate_of_session (election_name value : string) : P W unit :=
  lease ← lift (session_ Session.lease_id);
  lift (modify_self (fun s : leader_election =>
    (s.1, Candidate.election_candidate_impl (Z.to_N lease) election_name value))).
Lemma candidate_of_session_eq election_name value v :
  candidate_of_session election_name value v = Finished (made election_name value (Ok tt) v) (Ok tt).
Proof.
  unfold candidate_of_session, session_. rewrite (lift_bind _ _ v v (Session.lease_id_ (self v).1)); [done|].
  transitivity (merge (H:=left) (view v) v, Ok (Session.lease_id_ (self v).1)); [done|]. by rewrite merge_view.
Qed.

Lemma make_runs election_name value desired lease_id v es p w r :
  wf (queue v) ->
  let v1 : W := with_self (fun s : leader_election => (Session.initial_session desired lease_id, s.2)) v in
  Forall (not_for_others (H:=left) v1) es ->
  sched es (Session.preamble (session_view v1)) = running p -> prog_outcome p = None -> wake p = Finished w r ->
  sched (es ++ [ev_wake]) (make election_name value desired lease_id v) =
    running (Finished (made election_name value r (merge (H:=left) w v1)) r) /\
  forall t op, (exists k, op_callback op = functor (inr k)) ->
    pending_ops (queue (made election_name value r (merge (H:=left) w v1))) !! t = Some op <-> pending_ops (queue v) !! t = Some op.
Proof.
  intros Hwf v1 Hes Hp Hout Hwake.
  destruct (sched_embed_then es v1 Session.preamble
    (fun v' r => match r with
       | Ok _ => candidate_of_session election_name value v'
       | Throw e => Finished v' (Throw e)
       | UB s => Finished v' (UB s)
       end) p w r Hwf preamble_evolves Hes Hp Hout Hwake) as [Hend (_ & _ & Ha)].
  split.
  - etrans; [exact Hend|]. destruct r as [[]|x|x]; [|done..]. by rewrite candidate_of_session_eq.
  - intros t op Hk. pose proof (others_merge w v1 Ha) as Ho.
    transitivity (others (H:=left) (queue v1) !! t = Some op); [|pose proof (others_left v t op); tauto].
    rewrite <- Ho. pose proof (others_left (merge w v1) t op). destruct r; cbn [made queue with_self] in *; tauto.
Qed.

(** C11. The constructor of a [leader_election] whose stream was created: when etcd grants the lease, the candidate is made with
    exactly this lease, and its key is the name of the election with the lease in hexadecimal; when
    the call fails or the lease is refused, the constructor throws and no candidate is made. Operations of other
    objects on the queue stay as they are. *)
Theorem leader_election_constructed v election_name value desired lease_id r1 ok resp :
  wf (queue v) -> refresh_in_range (now (queue v)) (lg_ttl (as_lease_grant (r_message resp)) * 1000) ->
  let n := next_op (queue v) in
  exists v' r,
    sched [ev_completion n true r1; ev_wake; ev_completion (n + 1) ok resp; ev_wake]
      (make election_name value desired lease_id v) = running (Finished v' r) /\
    (forall t op k, op_callback op = functor (inr k) ->
       pending_ops (queue v') !! t = Some op <-> pending_ops (queue v) !! t = Some op) /\
    match grant_answer ok resp with
    | Ok g =>
        if bool_decide (lg_error g = "") then
          let id := to_uint64 (lg_id g) in
          r = Ok tt /\ Session.lease_id_ (self v').1 = id /\ Session.is_active_in (self v').1 = true /\
          (self v').2 = Candidate.election_candidate_impl (Z.to_N id) election_name value /\
          Candidate.candidate_key_ (self v').2 = (election_name +:+ "/") +:+ to_hex (Z.to_N id)
        else (exists what, r = Throw (runtime_error what)) /\ (self v').2 = (self v).2
    | Throw e => r = Throw e /\ (self v').2 = (self v).2
    | UB _ => False
    end.
Proof.
  intros Hwf Hrange n.
  set (v1 := with_self (fun s => (Session.initial_session desired lease_id, s.2)) v).
  set (es := [ev_completion n true r1; ev_wake; ev_completion (n + 1) ok resp]).
  assert (Hwf1 : wf (view_queue (H:=left) (queue v1))) by (by apply (wf_view v1)).
  destruct (preamble_waits (view_queue (queue v1)) desired lease_id r1 ok resp Hwf1) as (p & Hp & Hout).
  destruct (SessionFacts.preamble_runs (view_queue (queue v1)) desired lease_id r1 ok resp Hwf1 Hrange)
    as (w' & r & Hrun & Hres).
  change (World (Session.initial_session desired lease_id) (view_queue (queue v1))) with (session_view v1) in *.
  cbn [view_queue next_op] in Hp, Hrun. change (next_op (queue v1)) with n in Hp, Hrun. fold es in Hp.
  assert (Hwake : wake p = Finished w' r).
  { change [ev_completion n true r1; ev_wake; ev_completion (n + 1) ok resp; ev_wake] with (es ++ [ev_wake]) in Hrun.
    rewrite sched_app, Hp in Hrun. cbn in Hrun. by injection Hrun. }
  destruct (make_runs election_name value desired lease_id v es p w' r Hwf) as [Hmake Hothers]; [|done..|].
  { repeat constructor; cbn; apply others_above; try done; subst n; lia. }
  eexists _, r. split; [exact Hmake|]. split.
  - intros t op k Hk. destruct r as [[]|x|x]; apply Hothers; by exists k.
  - destruct (grant_answer ok resp) as [g|e|x]; [|by destruct Hres as (-> & _)|done].
    case_bool_decide; [|by destruct Hres as ([what ->] & _); split; [exists what|]].
    destruct Hres as (-> & Hid & _ & Hact & _). cbn. by rewrite Hid.
Qed.

(** *** The lease *)

(** What the constructor establishes, of members that do not change. *)
Definition lease_agrees (s : leader_election) : Prop :=
  Candidate.lease_id_ s.2 = Z.to_N (Session.lease_id_ s.1) /\
  Candidate.candidate_key_ s.2 =
    Candidate.candidate_key (Candidate.election_name_ s.2) (Z.to_N (Session.lease_id_ s.1)).
Definition constants (s : leader_election) := (Session.lease_id_ s.1, identity s.2).

#[export] Instance leader_election_fixing : Fixing (S:=leader_election) (K:=cb) constants.
Proof.
  intros [k|k] resp ok v; cbn [invoke leader_election_client invoke_cb]; unfold session_, candidate_, embed.
  - pose proof (invoke_fixes (f:=Session.lease_id_) k resp ok (view v)) as Hk.
    destruct (invoke k resp ok (view v)). unfold fixes, constants in *. cbn in *. by rewrite Hk.
  - pose proof (invoke_fixes (f:=identity) k resp ok (view v)) as Hk.
    destruct (invoke k resp ok (view v)). unfold fixes, constants in *. cbn in *. by rewrite Hk.
Qed.

Lemma on_session_fixes {A} (m : P _ A) : P_respects (fixes Session.lease_id_) m -> P_respects (fixes constants) (on_session m).
Proof.
  intros Hm v. unfold on_session. apply embed_P_respects with (R := fixes Session.lease_id_); [|done].
  intros u w Hw. unfold fixes, constants in *. cbn in *. by rewrite Hw.
Qed.
Lemma on_candidate_fixes {A} (m : P _ A) : P_respects (fixes identity) m -> P_respects (fixes constants) (on_candidate m).
Proof.
  intros Hm v. unfold on_candidate. apply embed_P_respects with (R := fixes identity); [|done].
  intros u w Hw. unfold fixes, constants in *. cbn in *. by rewrite Hw.
Qed.

(** The candidate of a [leader_election] campaigns with the lease of the session, under the key of that lease,
    for as long as the object lives: no member and no completion changes one of them alone. *)
Theorem leader_election_lease m es v p :
  lease_agrees (self v) -> sched es (call_interface m v) = running p -> lease_agrees (self (prog_world p)).
Proof.
  intros Hv Hrun.
  assert (Hm : P_respects (fixes constants) (call_interface (W:=W) m)).
  { destruct m as [|value|]; unfold call_interface, Facade.campaign, Facade.proclaim, Facade.resign, leader_election_interface;
      [apply on_candidate_fixes, (call_fixes CandidateSafety.call_campaign)
      |apply on_candidate_fixes, (call_fixes (CandidateSafety.call_proclaim value))|].
    apply P_respects_bind; [typeclasses eauto|apply on_candidate_fixes, (call_fixes CandidateSafety.call_resign)|].
    intros _. apply on_session_fixes, revoke_fixes. }
  destruct (Hm v) as [Hstart Hsteps]. apply sched_fixes in Hrun; [|done]. unfold fixes, constants in *.
  rewrite Hstart in Hrun. injection Hrun as Hlease Hid Hname _ Hkey. unfold lease_agrees in *.
  by rewrite Hlease, Hid, Hname, Hkey.
Qed.

End leader_election.

(** ** Runs *)

#[local] Existing Instance empty_text_format.

(** A member whose lease is 16, its candidate in the middle of a campaign, with the timer of the session on the queue. *)
Definition session_7 : Session.session := Session.set_lease_id 16 (Session.initial_session (seconds 10) 0).
Definition candidate_7 : Candidate.candidate :=
  Candidate.set_watcher_stream true (Candidate.election_candidate_impl 16 "e" "host:1").
Definition sample : world leader_election cb := World (session_7, candidate_7) new_queue.
Definition with_timer : world leader_election cb :=
  (make_deadline_timer 100 "session/set_timer/ttl_refresh" (inl Session.cb_timeout) sample).1.
Definition answer : response := Response status_OK msg_none.
Definition granted : response :=
  Response status_OK (msg_lease_grant {| lg_id := 16; lg_ttl := 10; lg_error := "" |}).

Lemma with_timer_wf : wf (queue with_timer).
Proof.
  exact (proj1 (with_op_le "session/set_timer/ttl_refresh" (functor (inl Session.cb_timeout)) (rq_timer 100)
    new_queue new_queue_wf)).
Qed.

Lemma events_are_routed_witness :
  let '(v', r) := on_event 1 true answer with_timer in
  (session_view v', r) = on_event 1 true answer (session_view with_timer) /\ (self v').2 = candidate_7 /\
  Session.lease_id_ (self v').1 = 16.
Proof.
  pose proof (events_are_routed with_timer 1 true answer "session/set_timer/ttl_refresh" (inl Session.cb_timeout)
    (rq_timer 100) with_timer_wf eq_refl) as H.
  destruct (on_event 1 true answer with_timer) as [v' r] eqn:E. destruct H as (Hview & Hcand & _).
  split; [exact Hview|]. split; [exact Hcand|]. vm_compute in E. injection E as <- _. reflexivity.
Defined.

Definition proclaim_events : list sched_event := [
  ev_completion 2 true (Response status_OK (msg_txn {| tx_revision := 9; tx_succeeded := true; tx_responses := [] |}));
  ev_wake].


(** Nothing to cancel: the writes are closed (2), the stream is finished (3), then the lease is revoked (4). *)
Lemma facade_resign_sequence_witness :
  exists w,
    sched [ev_completion 2 true answer; ev_wake; ev_completion 3 true answer; ev_wake] (call_interface call_resign with_timer) =
      running (on_session Session.revoke (merge (H:=right_part _ _ _ _) w with_timer)) /\
    stub_unary (rq_lease_revoke 16) ∈
      trace (queue (prog_world (on_session Session.revoke (merge (H:=right_part _ _ _ _) w with_timer)))).
Proof.
  set (es := [ev_completion 2 true answer; ev_wake; ev_completion 3 true answer]).
  destruct (sched es (Candidate.resign (candidate_view with_timer))) as [p|x|x] eqn:E;
    [|vm_compute in E; discriminate E..].
  destruct (wake p) as [w r|] eqn:Ew; vm_compute in E; injection E as <-; vm_compute in Ew; [|discriminate Ew].
  injection Ew as <- <-. eexists. split.
  - refine (proj2 (facade_resign_sequence with_timer with_timer_wf) es _ _ (Ok tt) _ _ _ _).
    + repeat constructor; intros n k q Hop; vm_compute in Hop; discriminate Hop.
    + vm_compute. reflexivity.
    + reflexivity.
    + vm_compute. reflexivity.
  - vm_compute. repeat constructor.
Defined.

Lemma leader_election_constructed_witness :
  exists v', sched [ev_completion 2 true answer; ev_wake; ev_completion 3 true granted; ev_wake]
      (make "e" "host:1" (seconds 10) 0 with_timer) = running (Finished v' (Ok tt)) /\
    Candidate.candidate_key_ (self v').2 = "e/10".
Proof.
  assert (Hr : refresh_in_range 0 10000) by (split; split; apply Z.leb_le; by vm_compute).
  destruct (leader_election_constructed with_timer "e" "host:1" (seconds 10) 0 answer true granted with_timer_wf Hr)
    as (v' & r & E & _ & Hres).
  change (grant_answer true granted) with
    (@Ok LeaseGrantResponse {| lg_id := 16; lg_ttl := 10; lg_error := "" |}) in Hres.
  cbv beta iota in Hres. rewrite bool_decide_true in Hres by reflexivity.
  destruct Hres as (-> & _ & _ & _ & Hkey). exists v'. split; [exact E|]. rewrite Hkey. by vm_compute.
Defined.

Lemma leader_election_lease_witness :
  lease_agrees (session_7, candidate_7) /\
  match sched proclaim_events (call_interface (call_proclaim "host:2") with_timer) with
  | running p => lease_agrees (self (prog_world p))
  | _ => False
  end.
Proof.
  assert (Hv : lease_agrees (session_7, candidate_7)) by (split; by vm_compute). split; [exact Hv|].
  destruct (sched proclaim_events (call_interface (call_proclaim "host:2") with_timer)) as [p|x|x] eqn:E.
  - exact (leader_election_lease (call_proclaim "host:2") proclaim_events with_timer p Hv E).
  - vm_compute in E. discriminate E.
  - vm_compute in E. discriminate E.
Defined.
