(* ===== verification/FacadeSafety.v ===== *)
(** * The objects of a [leader_election], under any interleaving

    The session and the candidate share a queue: the events of the two come in any order, and a thread of the one waits
    while the other runs. What is proved of each alone holds of it in the [leader_election]. *)

From S2P Require Import Prelude Runtime RpcPolicies OpCounter Etcd CompletionQueue Balance Threads Safety Compose Interleave.
From S2P Require Import Candidate CandidateFacts Session SessionFacts SessionSafety CandidateSafety Leadership Facade Constants FacadeFacts.
Open Scope Z_scope.
Open Scope gh_scope.

(** ** The objects keep the futures sound *)

Section candidate.
Context `{TextFormat}.
Import Candidate.
#[local] Abbreviation ok m := (m ⊨ (@keeps_sound candidate cb)).
#[local] Abbreviation thread_ok m := (P_respects (@keeps_sound candidate cb) m).

Lemma on_cancels_sound {A} c (m : M _ A) : ok (on_cancels c m).
Proof.
  apply keeps_sound_queue. intros w. unfold on_cancels. by destruct (cancels (self w) !! c) as [n|]; [destruct (m n)|].
Qed.
Lemma cand_deref_stream_sound : ok deref_stream.
Proof. unfold deref_stream. respects_solve. Qed.
Lemma election_result_sound r : ok (election_result r).
Proof. apply keeps_sound_queue. intros w. by rewrite election_result_eq. Qed.
#[local] Hint Resolve on_cancels_sound cand_deref_stream_sound election_result_sound : gh.
Lemma query_predecessor_sound : ok query_predecessor.
Proof. unfold query_predecessor, ops_start. respects_solve. Qed.
#[local] Hint Resolve query_predecessor_sound : gh.
Lemma watch_keys_sound r kvs : ok (watch_keys r kvs).
Proof. induction kvs; cbn [watch_keys]; unfold ops_start; respects_solve. Qed.
Lemma cancel_watches_sound c l : ok (cancel_watches c l).
Proof. induction l; cbn [cancel_watches]; respects_solve. Qed.
#[local] Hint Resolve watch_keys_sound cancel_watches_sound : gh.

#[export] Instance candidate_sound : Sound candidate cb.
Proof.
  intros k resp b. destruct k; cbn [invoke candidate_client invoke_cb]; unfold on_range_request, on_watch_create,
    on_watch_read, on_watch_cancel, check_election_over_maybe, check_grpc_status, ops_done, reads_start, reads_done,
    lock, unlock; cbv zeta; respects_solve.
Qed.

Lemma commit_sound r name : thread_ok (commit r name).
Proof. unfold commit, with_tracer, ops_start, ops_done. evolve_calls. Qed.
#[local] Hint Resolve commit_sound : gh.
Lemma call_sound m : thread_ok (call m).
Proof.
  destruct m; cbn [call]; unfold campaign, campaign_impl, create_watch_stream, create_node, adopt_node, publish_value,
    proclaim, publish_value, key, resign, close_stream, make_cancels, destroy_cancels, cleanup, block_on, with_tracer,
    lock, unlock, ops_start, ops_done, GH_ASSERT_THROW, assert_throw_impl; evolve_calls.
Qed.
Lemma call_tame m : P_respects tame (call m).
Proof. apply P_respects_and; [apply call_evolves|apply call_sound]. Qed.
End candidate.

Section session.
Context `{TextFormat}.
Import Session.

Lemma session_shutdown_sound : P_respects (@keeps_sound session cb) shutdown.
Proof. unfold shutdown, cancel_current_timer, block_on. evolve_calls. Qed.
Lemma shutdown_tame : P_respects tame shutdown.
Proof. apply P_respects_and; [apply session_shutdown_evolves|apply session_shutdown_sound]. Qed.
#[local] Hint Resolve int64_sound set_timer_sound session_shutdown_sound : gh.
Lemma preamble_tame : P_respects tame preamble.
Proof.
  apply P_respects_and; [apply preamble_evolves|].
  unfold preamble, preamble_body, with_tracer, accept_lease, seconds_to_ms, ops_start, ops_done. evolve_calls.
Qed.
Lemma revoke_tame : P_respects tame revoke.
Proof.
  apply P_respects_and; [apply revoke_evolves|].
  unfold revoke, revoke_lease, close_stream, cancel_current_timer, block_on, with_tracer, deref_stream, ops_start,
    ops_done, check_grpc_status. evolve_calls.
Qed.
End session.

(** ** [leader_election] *)

Section leader_election.
Context `{TextFormat}.
Import OpCounter LeaderElection.
#[local] Abbreviation W := (world leader_election cb).
Implicit Types v : W.
#[local] Abbreviation left := (left_part Session.session Session.cb Candidate.candidate Candidate.cb : Part _ _ leader_election cb).
#[local] Abbreviation right := (right_part Session.session Session.cb Candidate.candidate Candidate.cb : Part _ _ leader_election cb).

(** A statement about the candidate, about the session. *)
Definition of_view_candidate (I : world Candidate.candidate Candidate.cb -> Prop) : W -> Prop := in_part (P2:=right) I.
Definition of_view_session (I : world Session.session Session.cb -> Prop) : W -> Prop := in_part (P2:=left) I.

(** A statement about both. *)
Definition both (I : world Candidate.candidate Candidate.cb -> Prop) (J : world Session.session Session.cb -> Prop) v : Prop :=
  of_view_candidate I v /\ of_view_session J v.

Section frame.
Context {Rely : rely}.

Lemma stable_both I J : stable I -> stable J -> stable (both I J).
Proof. intros HI HJ. apply stable_and; [by apply (stable_in_part (P1:=left))|by apply (stable_in_part (P1:=right))]. Qed.

(** The frame rule for either part. *)
Lemma on_candidate_frame {A} J B P (m : Prelude.P _ A) Q E :
  ptriple B P m Q E -> P_respects tame m -> stable J ->
  ptriple (both B J) (both P J) (on_candidate m) (fun a => both (Q a) J) (fun e => both (E e) J).
Proof. intros Hm Ht HJ. by apply (ptriple_frame (P1:=left) (P2:=right)); [apply framed_other| |]. Qed.
Lemma on_session_frame {A} I B P (m : Prelude.P _ A) Q E :
  ptriple B P m Q E -> P_respects tame m -> stable I ->
  ptriple (both I B) (both I P) (on_session m) (fun a => both I (Q a)) (fun e => both I (E e)).
Proof.
  intros Hm Ht HI.
  pose proof (ptriple_frame (P1:=right) (P2:=left) (of_view_candidate I) B P m Q E (framed_other I HI) Ht Hm) as Hf.
  eapply (ptriple_base _ (both I B)) in Hf; [|by intros v []; split].
  eapply ptriple_conseq; [exact Hf|by intros v []|..]; intros ? v []; by split.
Qed.
End frame.

Lemma stable_base : stable (of_view_candidate base).
Proof. apply (stable_in_part (P1:=left) (P2:=right)), cand_ok_stable. Qed.

Lemma candidate_event_blame v tag ok resp :
  of_view_candidate base v ->
  match (on_event tag ok resp v).2 with
  | Ok _ => True
  | Throw e => of_session v tag \/ exists s location a, status_ok s = false /\ e = make_exception s location a
  | UB _ => of_session v tag
  end.
Proof.
  intros [Hwf Hb]. destruct (others (H:=right) (queue v) !! tag) as [op|] eqn:Ho.
  - apply others_right in Ho as [Hop [k Hk]]. destruct op as [name c rq]. cbn in Hk. subst c.
    assert (of_session v tag) by (by exists name, k, rq). by destruct (on_event tag ok resp v) as [v' [|e|s]]; [|left|].
  - pose proof (event_through_part (H:=right) tag ok resp v Hwf Ho) as Hev.
    destruct (on_event tag ok resp v) as [v' r]. destruct Hev as [Hev _].
    pose proof (cand_ok_event _ _ _ tag ok resp Hb) as He. change (candidate_view v) with (view (H:=right) v) in *.
    rewrite <- Hev in He. cbn [snd]. destruct r as [[]|e|x]; [done| |].
    + destruct He as (_ & [?|(? & ? & ? & _ & _ & ? & (_ & _ & ? & ? & ? & ?))]); [done|]. simplify_eq. right. eauto.
    + by destruct He as (_ & [?|(? & ? & ? & _ & _ & ? & _)]).
Qed.

(** A candidate is as safe in a [leader_election] as it is alone: whatever member of it a thread runs, and whatever
    completions of the candidate and of the session the loop reports, in whatever order, the base invariant of the
    candidate holds at every point where the thread waits or has ended. The loop's thread ends by the exception of
    a query with an error status, or by what a callback of the session did; and only a callback of the session can
    be undefined (the arithmetic on the TTL of etcd, see [Session.int64]). *)
Theorem leader_election_candidate_safe m v es :
  wf (queue v) -> base (candidate_view v) ->
  match sched es (on_candidate (CandidateSafety.call m) v) with
  | running p => base (candidate_view (prog_world p))
  | terminated e => (exists s location a, status_ok s = false /\ e = make_exception s location a) \/
      exists es1 tag ok resp es2 p, es = es1 ++ ev_completion tag ok resp :: es2 /\
        sched es1 (on_candidate (CandidateSafety.call m) v) = running p /\ of_session (prog_world p) tag
  | undefined_behaviour _ =>
      exists es1 tag ok resp es2 p, es = es1 ++ ev_completion tag ok resp :: es2 /\
        sched es1 (on_candidate (CandidateSafety.call m) v) = running p /\ of_session (prog_world p) tag
  end.
Proof.
  intros Hwf Hb.
  assert (Hstart : psafe (of_view_candidate base) (fun _ : unit => of_view_candidate base) (fun _ => of_view_candidate base)
            (on_candidate (CandidateSafety.call m) v)).
  { pose proof (ptriple_frame (P1:=left) (P2:=right) (fun _ => True) base base _ _ _ (framed_true (P2:=right))
      (call_tame m) (call_steps m)) as Hp.
    eapply (ptriple_base _ (of_view_candidate base)) in Hp; [|by intros w []].
    eapply psafe_conseq; [by apply Hp|..]; intros ? ? [Hw _]; exact Hw. }
  assert (Hrun : forall es p, sched es (on_candidate (CandidateSafety.call m) v) = running p ->
            of_view_candidate base (prog_world p)).
  { intros es' p Hrun. pose proof (sched_psafe _ _ _ es' _ p (fun _ => stable_base) (fun _ => stable_base) Hstart
      (any_admissible es') Hrun) as Hp.
    destruct p as [w [[]|e|s]|w until k]; cbn in *; [done..|]. destruct Hp as (I & _ & HI & Hi & _). by apply HI. }
  pose proof (sched_stopped es (on_candidate (CandidateSafety.call m) v)) as Hend.
  destruct (sched es _) as [p|e|s] eqn:E; [by apply (Hrun es)|..];
    destruct Hend as (es1 & tag & ok & resp & es2 & p & -> & Hp & He);
    pose proof (candidate_event_blame _ tag ok resp (Hrun _ _ Hp)) as Hblame; rewrite He in Hblame.
  - destruct Hblame as [Hs|?]; [|by left]. right. by exists es1, tag, ok, resp, es2, p.
  - by exists es1, tag, ok, resp, es2, p.
Qed.

(** *** Destruction *)

(** No operation of the candidate but the acknowledgement of a cancelled watch, whose counter is in [resign]; and
    none of the session. *)
Definition none_pending v : Prop :=
  (forall tag name k rq, pending_ops (queue v) !! tag = Some (AsyncOp name (functor (inr k)) rq) ->
     exists watch c, k = Candidate.cb_watch_cancel watch c) /\
  (forall tag, ~ of_session v tag).

Definition candidate_gone : world Candidate.candidate Candidate.cb -> Prop := fun w =>
  (Leadership.counted w /\ quiet Candidate.ops_ w) /\ quiet Candidate.reads_ w.
Lemma candidate_gone_stable : stable candidate_gone.
Proof.
  apply stable_and; [|apply quiet_reads_stable]. apply stable_and; [apply cand_counted_stable|apply quiet_ops_stable].
Qed.

Lemma candidate_gone_none w tag name k rq :
  candidate_gone w -> pending_ops (queue w) !! tag = Some (AsyncOp name (functor k) rq) ->
  exists watch c, k = Candidate.cb_watch_cancel watch c.
Proof.
  intros [[(_ & H1 & H2) [_ Hp1]] [_ Hp2]] Hop. unfold balance in H1, H2.
  destruct k as [|wkey wrev|watch c|wkey wrev]; [..|by eauto|];
    pose proof (count_ops_pos CandidateFacts.ops_kind _ _ _ Hop) as Ho; pose proof (count_ops_pos CandidateFacts.reads_kind _ _ _ Hop) as Hr;
    cbn in Ho, Hr; lia.
Qed.

(** What the destructor of a candidate needs, and that of a session. *)
Definition cleanable : world Candidate.candidate Candidate.cb -> Prop := fun w =>
  Leadership.counted w /\ in_shutdown (Candidate.ops_ (self w)) = false.
Definition session_open : world Session.session Session.cb -> Prop := fun w =>
  SessionFacts.counted w /\ in_shutdown (Session.ops_ (self w)) = false.
Lemma session_open_stable : stable session_open.
Proof.
  apply stable_and; [apply sess_counted_stable|].
  exact (fixing_stable (f:=shut_down) (fun flags => flags.1 = false)).
Qed.

Lemma destroy_steps :
  ptriple (fun _ => True)
    (both cleanable session_open)
    destroy (fun _ : unit => both candidate_gone all_quiet) (fun _ _ => False).
Proof.
  unfold destroy. eapply (ptriple_bind _ _ (fun _ => both candidate_gone session_open)).
  - assert (Hm : ptriple (fun _ => True) cleanable Candidate.cleanup (fun _ : unit => candidate_gone) (fun _ _ => False))
      by (intros w [Hw Hs]; by apply cleanup_quiet).
    pose proof (on_candidate_frame session_open _ _ _ _ _ Hm (call_tame call_cleanup) session_open_stable) as Hf.
    eapply ptriple_base; [|done]. eapply ptriple_conseq; [exact Hf|done..|]. by intros e v [[_ []] _].
  - intros ?.
    assert (Hm : ptriple (fun _ => True) session_open Session.shutdown (fun _ : unit => all_quiet) (fun _ _ => False))
      by (intros w [Hw Hs]; by apply shutdown_quiet).
    pose proof (on_session_frame candidate_gone _ _ _ _ _ Hm shutdown_tame candidate_gone_stable) as Hf.
    eapply ptriple_base; [|done]. eapply ptriple_conseq; [exact Hf|done..|]. by intros e v [_ [_ []]].
Qed.


(** *** The whole life of a [leader_election] *)

Lemma event_split tag ok resp v :
  wf (queue v) ->
  (candidate_view (on_event tag ok resp v).1, (on_event tag ok resp v).2) = on_event tag ok resp (candidate_view v) \/
  (session_view (on_event tag ok resp v).1, (on_event tag ok resp v).2) = on_event tag ok resp (session_view v).
Proof.
  intros Hwf. destruct (others (H:=right) (queue v) !! tag) as [op|] eqn:Ho.
  - apply (not_both (P1:=left) (P2:=right)) in Ho. pose proof (event_through_part (H:=left) tag ok resp v Hwf Ho) as He.
    destruct (on_event tag ok resp v) as [v' r]. right. apply He.
  - pose proof (event_through_part (H:=right) tag ok resp v Hwf Ho) as He.
    destruct (on_event tag ok resp v) as [v' r]. left. apply He.
Qed.

(** The one exception of the event loop. *)
Definition query_error (e : exn) : Prop := exists s location a, status_ok s = false /\ e = make_exception s location a.

#[local] Instance rely_on_etcd : rely := etcd_rely.

Definition election_base : W -> Prop := both base sess_base.
Lemma election_base_stable : stable election_base.
Proof. apply stable_both; [apply cand_ok_stable|apply sess_ok_stable]. Qed.
Lemma election_base_event v tag ok resp :
  response_ok resp -> election_base v ->
  match on_event tag ok resp v with
  | (_, Ok _) => True | (_, Throw e) => query_error e | (_, UB _) => False
  end.
Proof.
  intros Hresp [[Hwf Hc] [_ Hs]].
  destruct (event_split tag ok resp v Hwf) as [He|He]; destruct (on_event tag ok resp v) as [v' r]; cbn [fst snd] in He.
  - pose proof (cand_event_outcome _ _ _ tag ok resp Hc) as Ho. change (view (H:=right) v) with (candidate_view v) in Ho.
    by rewrite <- He in Ho.
  - destruct (sess_ok_event false _ tag ok resp Hresp Hs) as [_ Ho]. change (view (H:=left) v) with (session_view v) in Ho.
    rewrite <- He in Ho. cbn in Ho. by subst r.
Qed.

Lemma making_event v tag ok resp :
  response_ok resp -> both absent sess_base v ->
  match on_event tag ok resp v with
  | (_, Ok _) => True | (_, Throw e) => query_error e | (_, UB _) => False
  end.
Proof.
  intros Hresp [[Hwf Hc] [_ Hs]].
  destruct (event_split tag ok resp v Hwf) as [He|He]; destruct (on_event tag ok resp v) as [v' r]; cbn [fst snd] in He.
  - destruct (absent_event tag ok resp _ Hc) as [_ Ho]. change (view (H:=right) v) with (candidate_view v) in Ho.
    rewrite <- He in Ho. cbn in Ho. by subst r.
  - destruct (sess_ok_event false _ tag ok resp Hresp Hs) as [_ Ho]. change (view (H:=left) v) with (session_view v) in Ho.
    rewrite <- He in Ho. cbn in Ho. by subst r.
Qed.

(** *** The constructor *)

(** The object is not there yet: its memory holds anything, and nothing in the queue refers to it. *)
Definition vacant v : Prop :=
  sound (queue v) /\ calm (queue v) /\
  forall tag name k rq, pending_ops (queue v) !! tag <> Some (AsyncOp name (functor k) rq).
Definition making : W -> Prop := both absent sess_base.

Lemma vacant_making desired lease_id v :
  vacant v -> making (with_self (fun s : leader_election => (Session.initial_session desired lease_id, s.2)) v).
Proof.
  intros (Hs & Hc & Hn). pose proof Hs as [Hwf Hf].
  assert (Hview : sound (view_queue (H:=right) (queue v)) /\ sound (view_queue (H:=left) (queue v))) by (by split; apply sound_view).
  destruct Hview as [Hr Hl]. split; (split; [exact Hwf|]).
  - split; [exact Hr|]. split; [|done]. intros tag [name c rq] k Hop Hcb. cbn in Hcb. subst c.
    apply (view_functor (P:=right)) in Hop. by destruct (Hn tag name (inr k) rq).
  - apply new_session_ok; [exact Hl|exact Hc|]. intros tag name k rq Hop.
    apply (view_functor (P:=left)) in Hop. by destruct (Hn tag name (inl k) rq).
Qed.

Lemma absent_base lease name value (w : world Candidate.candidate Candidate.cb) :
  absent w -> base (World (Candidate.election_candidate_impl lease name value) (queue w)).
Proof.
  intros (Hs & Hr & _). split; [split_and!; [done| |by split_and!]|].
  - intros tag op k Hop Hcb. destruct (Hr tag op k Hop Hcb).
  - intros c. unfold balance, cancel_counter. cbn. rewrite lookup_empty. cbn.
    enough (count_ops (cancel_kind c) (queue w) = 0) by lia. unfold count_ops.
    rewrite map_empty_filter_2; [by rewrite map_size_empty|].
    intros tag op Hop Hk. destruct op as [n [k|p a] rq]; [|done]. destruct (Hr tag _ k Hop eq_refl).
Qed.

Lemma make_steps name value desired lease_id :
  ptriple making vacant (make name value desired lease_id) (fun _ => election_base) (fun _ => making).
Proof.
  unfold make. eapply (ptriple_bind _ _ (fun _ => making)).
  { apply ptriple_lift. intros v Hv. by apply vacant_making. }
  intros _. eapply (ptriple_bind _ _ (fun _ => both absent (sess_ok true))).
  { eapply ptriple_conseq; [apply (on_session_frame absent sess_base sess_base _ (fun _ => sess_ok true) (fun _ => sess_base));
      [apply preamble_steps|apply preamble_tame|apply absent_stable]|done..]. }
  intros _. eapply (ptriple_bind _ _ (fun _ => both absent (sess_ok true))).
  { apply ptriple_lift. intros v Hv. unfold session_, embed. cbn. by rewrite merge_view. }
  intros lease. apply ptriple_lift. intros v [[Hwf Hc] [_ Hs]]. split; (split; [exact Hwf|]).
  - by apply (absent_base _ _ _ (candidate_view v)).
  - by apply (sess_ok_base true).
Qed.

(** C8. The constructor of a [leader_election] is safe: it starts in memory that holds anything, with a queue in which
    nothing refers to the object; next to an event loop that reports any completions with the TTLs of etcd, it never
    runs into undefined behaviour, and when it returns the object is in the invariant under which all its members
    are safe. *)
Theorem leader_election_made_safe v name value desired lease_id es :
  vacant v -> Forall etcd_rely es ->
  match sched es (make name value desired lease_id v) with
  | running (Finished v' (Ok _)) => election_base v'
  | running _ => True
  | terminated e => query_error e
  | undefined_behaviour _ => False
  end.
Proof.
  intros Hv Hes. set (B v' := making v' \/ election_base v').
  pose proof (sched_safe B (fun _ : unit => election_base) (fun _ => making) query_error es
    (make name value desired lease_id v)) as Hs.
  assert (Hend : match sched es (make name value desired lease_id v) with
    | running p => psafe B (fun _ : unit => election_base) (fun _ => making) p
    | terminated e => query_error e
    | undefined_behaviour _ => False
    end).
  { apply Hs; [|intros _; apply election_base_stable|intros _|by right|by left| |done].
    - intros w tag ok resp Hresp [Hm|Hb]; [|by apply election_base_event].
      by apply making_event.
    - apply stable_both; [apply absent_stable|apply sess_ok_stable].
    - eapply ptriple_base; [apply make_steps|by left|exact Hv]. }
  destruct (sched es _) as [[v' [[]|e|x]|v' u k]|e|x]; done.
Qed.

(** *** The use of the object *)

(** The calls of an application, up to the end of the object. *)
Inductive use := uses (m : interface_call) | destroys.
Definition call_use (u : use) : Prelude.P W unit :=
  match u with uses m => call_interface m | destroys => destroy end.

Abbreviation election_steps m := (ptriple election_base election_base m (fun _ => election_base) (fun _ => election_base)).
Lemma candidate_call_steps m : election_steps (on_candidate (CandidateSafety.call m)).
Proof. apply on_candidate_frame; [apply call_steps|apply call_tame|apply sess_ok_stable]. Qed.
Lemma session_call_steps (m : Prelude.P _ unit) :
  ptriple sess_base sess_base m (fun _ => sess_base) (fun _ => sess_base) -> P_respects tame m -> election_steps (on_session m).
Proof. intros Hm Ht. apply on_session_frame; [done..|apply cand_ok_stable]. Qed.
Lemma use_steps u : election_steps (call_use u).
Proof.
  destruct u as [[|value|]|].
  - apply (candidate_call_steps CandidateSafety.call_campaign).
  - apply (candidate_call_steps (CandidateSafety.call_proclaim value)).
  - eapply ptriple_bind; [apply (candidate_call_steps CandidateSafety.call_resign)|]. intros ?.
    apply session_call_steps; [apply revoke_steps|apply revoke_tame].
  - eapply ptriple_bind; [apply (candidate_call_steps CandidateSafety.call_cleanup)|]. intros ?.
    apply session_call_steps; [apply shutdown_steps|apply shutdown_tame].
Qed.

(** C7. No undefined behaviour, from the constructor to the destructor: whatever member of a [leader_election] a thread
    calls, or its destructor, next to an event loop that reports any completions of its session and of its candidate
    in any order, with the TTLs of etcd and the clock in its range, no mutex is locked twice, no null stream is
    used, no counter that is gone, no promise satisfied twice, no arithmetic leaves its type. The invariant of both
    objects holds wherever the thread waits or has ended. The event loop ends only by the exception of a query
    with an error status. *)
Theorem leader_election_no_undefined_behaviour u v es :
  election_base v -> Forall etcd_rely es ->
  match sched es (call_use u v) with
  | running p => election_base (prog_world p)
  | terminated e => query_error e
  | undefined_behaviour _ => False
  end.
Proof.
  intros Hv Hes. apply sched_keeps_base; [apply election_base_stable| |by apply use_steps|done].
  intros w tag ok resp Hresp. by apply election_base_event.
Qed.
End leader_election.

(** ** Runs *)

#[local] Existing Instance empty_text_format.
Import OpCounter LeaderElection.

Lemma sound_empty {K} (q : completion_queue K) : wf q -> pending_ops q = ∅ -> promises q = ∅ -> sound q.
Proof.
  intros Hwf Hop Hpr. split; [done|]. split_and!; cbn; intros *; rewrite ?Hop, ?Hpr, lookup_empty; discriminate.
Qed.
Lemma base_candidate lease name value (q : completion_queue Candidate.cb) :
  wf q -> pending_ops q = ∅ -> promises q = ∅ -> base (World (Candidate.election_candidate_impl lease name value) q).
Proof.
  intros Hwf Hop Hpr. apply (absent_base lease name value (World (Candidate.election_candidate_impl lease name value) q)).
  split; [by apply sound_empty|]. split; [|done]. intros tag op k. cbn. by rewrite Hop, lookup_empty.
Qed.

(** A session with its timer (1) and a candidate that is new. *)
Definition member : world leader_election cb :=
  (make_deadline_timer 100 "session/set_timer/ttl_refresh" (inl Session.cb_timeout)
    (World (Session.set_ops (Counter 1 false) (Session.set_ka_stream true session_7),
            Candidate.election_candidate_impl 16 "e" "host:1") new_queue)).1.

(** The campaign creates the stream (2) and the node (3) and asks for the predecessor (5); in between the timer of
    the session expires, and it writes (4) and reads (6). The candidate watches its predecessor (7) and reads (8). *)
Definition interleaved : list sched_event := [
  ev_completion 2 true answer; ev_wake; ev_completion 1 true answer;
  ev_completion 3 true (Response status_OK (msg_txn {| tx_revision := 7; tx_succeeded := true; tx_responses := [] |}));
  ev_wake; ev_completion 4 true answer;
  ev_completion 5 true (Response status_OK (msg_range {| rg_revision := 8; rg_kvs := [KV "e/1" "v" 3] |}));
  ev_completion 7 true answer ].
Definition campaigning : world leader_election cb :=
  match sched interleaved (campaign member) with running p => prog_world p | _ => member end.

Lemma leader_election_candidate_safe_witness :
  base (candidate_view member) /\
  match sched interleaved (on_candidate (CandidateSafety.call CandidateSafety.call_campaign) member) with
  | running p => base (candidate_view (prog_world p)) /\ map_to_list (op_name <$> pending_ops (queue (prog_world p))) ≡ₚ
      [(6, "session/on_write/read"); (8, "election_candidate/on_watch_create/read")]
  | _ => False
  end.
Proof.
  assert (Hwf : wf (queue member)) by (by apply wf_b_true; vm_compute).
  assert (Hb : base (candidate_view member)) by (by apply base_candidate; [apply wf_b_true; vm_compute|..]).
  split; [exact Hb|]. pose proof (leader_election_candidate_safe CandidateSafety.call_campaign member interleaved Hwf Hb) as Hs.
  destruct (sched interleaved _) as [p|x|x] eqn:E; [|vm_compute in E; discriminate E..].
  split; [exact Hs|]. vm_compute in E. injection E as <-. vm_compute. reflexivity.
Defined.


(** *** The whole life *)

Ltac etcd_events :=
  repeat (apply List.Forall_cons || apply List.Forall_nil);
  first [exact I | split; split; apply Z.leb_le; vm_compute; reflexivity].

Lemma new_queue_vacant s : vacant (World s new_queue).
Proof.
  split; [apply sound_new|]. split; [|intros *; cbn; by rewrite lookup_empty].
  split; [split; apply Z.leb_le; by vm_compute|]. intros p c r. cbn. by rewrite lookup_empty.
Qed.

(** The stream (1) and the lease (2). *)
Definition make_events : list sched_event := [ev_completion 1 true answer; ev_wake; ev_completion 2 true granted; ev_wake].
Definition anything_at_all : world leader_election cb := World (session_7, candidate_7) new_queue.
Lemma leader_election_made_safe_witness :
  match sched make_events (make "e" "host:1" (seconds 10) 0 anything_at_all) with
  | running (Finished v' (Ok _)) => election_base v' /\ Candidate.candidate_key_ (self v').2 = "e/10"
  | _ => False
  end.
Proof.
  assert (Hes : Forall etcd_rely make_events) by etcd_events.
  pose proof (leader_election_made_safe anything_at_all "e" "host:1" (seconds 10) 0 make_events
    (new_queue_vacant (session_7, candidate_7)) Hes) as Hs.
  destruct (sched make_events _) as [[v' [x|e|x]|v' u k]|e|x] eqn:E; [|vm_compute in E; discriminate E..].
  split; [exact Hs|]. vm_compute in E. injection E as <- _. vm_compute. reflexivity.
Defined.

(** The campaign next to the keep-alive cycle. *)
Lemma leader_election_no_undefined_behaviour_witness :
  election_base member /\
  match sched interleaved (call_use (uses call_campaign) member) with
  | running p => election_base (prog_world p) /\ prog_outcome p = Some (Ok tt)
  | _ => False
  end.
Proof.
  assert (Hv : election_base member).
  { split; (split; [apply wf_b_true; vm_compute; reflexivity|]).
    - apply base_candidate; [apply wf_b_true; vm_compute|..]; reflexivity.
    - split; [split_and!|].
      + apply (sound_view (P:=left_part _ _ _ _)); [apply wf_b_true; vm_compute; reflexivity|].
        exact (proj2 (sound_with_op "session/set_timer/ttl_refresh" (inl Session.cb_timeout) (rq_timer 100) new_queue sound_new)).
      + intros tag op k _ _. reflexivity.
      + intros _. reflexivity.
      + split; [split; apply Z.leb_le; by vm_compute|]. intros p c r Hp.
        change ((∅ : gmap Z (promise response)) !! p = Some c) in Hp. by rewrite lookup_empty in Hp. }
  assert (Hes : Forall etcd_rely interleaved) by etcd_events.
  split; [exact Hv|]. pose proof (leader_election_no_undefined_behaviour (uses call_campaign) member interleaved Hv Hes) as Hs.
  destruct (sched interleaved _) as [p|x|x] eqn:E; [|vm_compute in E; discriminate E..].
  split; [exact Hs|]. vm_compute in E. injection E as <-. reflexivity.
Defined.
