(* ===== verification/Participant.v ===== *)
(** * A participant that joins an election gets elected, and keeps its lease meanwhile

    The progress of a [leader_election] (gh/leader_election.hpp), from its construction to its election: the session asks
    for the lease and keeps it alive, the candidate made with this lease campaigns, and the completions for the two come
    on one queue, in any order. [Progress] has the stages of the candidate; here are those of the keep-alive cycle, and
    the two together. *)

From S2P Require Import Prelude Runtime RpcPolicies OpCounter Etcd CompletionQueue Threads Compose.
From S2P Require Import Candidate Session Leadership Campaign Progress SessionFacts Facade FacadeFacts.
Open Scope Z_scope.
Open Scope gh_scope.

(** ** The stages of a lease that is kept alive *)

Inductive ka_stage := timing | writing | reading.
Definition ka_callback (ks : ka_stage) : Session.cb :=
  match ks with timing => Session.cb_timeout | writing => Session.cb_write | reading => Session.cb_read end.

(** What completes a stage at time [t], and the stage that follows. *)
Inductive stays_alive (t : Z) : ka_stage -> response -> ka_stage -> Prop :=
  | timer_expired resp : stays_alive t timing resp writing
  | message_written resp : stays_alive t writing resp reading
  | lease_extended resp :
      refresh_in_range t (as_keep_alive_ttl (r_message resp) * 1000) -> stays_alive t reading resp timing.

Section session.
Import OpCounter Session.
#[local] Abbreviation W := (world session cb).
Implicit Types w : W.

(** The session between two callbacks, with its lease. *)
Record alive (lease : Z) w : Prop := {
  alive_wf : wf (queue w);
  alive_stream : ka_stream_ (self w) = true;
  alive_ops : in_shutdown (ops_ (self w)) = false;
  alive_reads : in_shutdown (reads_ (self w)) = false;
  alive_active : is_active_in (self w) = true;
  alive_lease : lease_id_ (self w) = lease
}.
Definition at_ka lease ks tag w : Prop :=
  alive lease w /\ exists name rq, pending_ops (queue w) !! tag = Some (AsyncOp name (functor (ka_callback ks)) rq).

Lemma keeps_alive_event lease ks resp ks' tag w :
  stays_alive (now (queue w)) ks resp ks' -> at_ka lease ks tag w ->
  exists w', on_event tag true resp w = (w', Ok tt) /\ at_ka lease ks' (next_op (queue w)) w' /\
    next_op (queue w') = next_op (queue w) + 1 /\ now (queue w') = now (queue w).
Proof.
  intros Hk [[Hwf Hst Ho Hr Ha Hl] (name & rq & Hop)]. rewrite (event_callback _ _ _ _ _ _ _ Hwf Hop).
  apply (wf_delete w tag) in Hwf. revert Hwf. set (w0 := with_queue _ w). intros Hwf.
  change (self w) with (self w0) in *. change (now (queue w)) with (now (queue w0)) in *.
  change (next_op (queue w)) with (next_op (queue w0)). clearbody w0. clear Hop.
  destruct Hk as [resp|resp|resp Hrange]; cbn [invoke_cb ka_callback].
  - rewrite on_timeout_eq by done. eexists. split; [done|]. split_and!; [|done|done].
    split; [by split; try apply with_op_le|]. eexists _, _. apply lookup_insert_eq.
  - rewrite on_write_eq by done. eexists. split; [done|]. split_and!; [|done|done].
    split; [|eexists _, _; apply lookup_insert_eq]. split; try done. by apply with_op_le.
  - rewrite on_read_eq by done. rewrite set_timer_eq by done. eexists. split; [done|]. split_and!; [|done|done].
    split; [|eexists _, _; apply lookup_insert_eq]. split; try done. by apply with_op_le.
Qed.
End session.

(** ** The whole object *)

(** The events from some stages on to the election, when the next address is [next] and the time is [t]: the answers for
    the candidate and the completions for the session come in any order, the clock may go. *)
Inductive joint : stage -> Z -> ka_stage -> Z -> Z -> Z -> list sched_event -> Prop :=
  | joint_elected tag ks ktag next t resp :
      status_ok (r_status resp) = true -> rg_kvs (as_range (r_message resp)) = [] ->
      joint asking tag ks ktag next t [ev_completion tag true resp]
  | joint_answer st tag ks ktag next t resp st' es :
      gets_on st resp st' -> joint st' next ks ktag (next + 1) t es ->
      joint st tag ks ktag next t (ev_completion tag true resp :: es)
  | joint_alive st tag ks ktag next t resp ks' es :
      stays_alive t ks resp ks' -> joint st tag ks' next (next + 1) t es ->
      joint st tag ks ktag next t (ev_completion ktag true resp :: es)
  | joint_clock st tag ks ktag next t t' es :
      joint st tag ks ktag next t' es -> joint st tag ks ktag next t (ev_clock t' :: es).

Import LeaderElection.

Section participant.
Context `{TextFormat}.
#[local] Abbreviation W := (world leader_election cb).
Implicit Types v : W.
#[local] Abbreviation left := (left_part Session.session Session.cb Candidate.candidate Candidate.cb : Part _ _ leader_election cb).
#[local] Abbreviation right := (right_part Session.session Session.cb Candidate.candidate Candidate.cb : Part _ _ leader_election cb).

Definition at_both lease st tag ks ktag v : Prop :=
  wf (queue v) /\ at_stage st tag (candidate_view v) /\ at_ka lease ks ktag (session_view v).

(** *** What an event for one object leaves of the other *)

Lemma session_op v tag name k rq :
  pending_ops (queue (session_view v)) !! tag = Some (AsyncOp name (functor k) rq) <->
  others (H:=right) (queue v) !! tag = Some (AsyncOp name (functor (inl k)) rq).
Proof.
  rewrite others_right. cbn. rewrite lookup_omap. split.
  - destruct (pending_ops (queue v) !! tag) as [op|]; [|done]. cbn. intros Hs%(inj_sel_op (H:=left)).
    rewrite <- Hs. split; [done|]. by eexists.
  - destruct (pending_ops (queue v) !! tag) as [op|]; [|by intros []]. by intros [[= ->] _].
Qed.
Lemma candidate_op v tag name k rq :
  pending_ops (queue (candidate_view v)) !! tag = Some (AsyncOp name (functor k) rq) <->
  others (H:=left) (queue v) !! tag = Some (AsyncOp name (functor (inr k)) rq).
Proof.
  rewrite others_left. cbn. rewrite lookup_omap. split.
  - destruct (pending_ops (queue v) !! tag) as [op|]; [|done]. cbn. intros Hs%(inj_sel_op (H:=right)).
    rewrite <- Hs. split; [done|]. by eexists.
  - destruct (pending_ops (queue v) !! tag) as [op|]; [|by intros []]. by intros [[= ->] _].
Qed.
(** An operation of one is not one of the other. *)
Lemma candidate_op_apart v tag name k rq :
  pending_ops (queue (candidate_view v)) !! tag = Some (AsyncOp name (functor k) rq) ->
  others (H:=right) (queue v) !! tag = None.
Proof.
  intros [Hop _]%candidate_op%others_left. apply eq_None_not_Some. intros [op [Ho [k' Hk]]%others_right].
  rewrite Hop in Ho. by injection Ho as <-.
Qed.
Lemma session_op_apart v tag name k rq :
  pending_ops (queue (session_view v)) !! tag = Some (AsyncOp name (functor k) rq) ->
  others (H:=left) (queue v) !! tag = None.
Proof.
  intros [Hop _]%session_op%others_right. apply eq_None_not_Some. intros [op [Ho [k' Hk]]%others_left].
  rewrite Hop in Ho. by injection Ho as <-.
Qed.

Lemma session_untouched lease ks ktag v v' :
  at_ka lease ks ktag (session_view v) -> wf (queue v') -> (self v').1 = (self v).1 ->
  others (H:=right) (queue v') = others (H:=right) (queue v) -> at_ka lease ks ktag (session_view v').
Proof.
  intros [[Hwf Hst Ho Hr Ha Hl] (name & rq & Hop)] Hwf' Hs Hot. split.
  - split; cbn [session_view view self get_part left_part] in *; rewrite ?Hs; try done. by apply (wf_view v').
  - exists name, rq. apply session_op. rewrite Hot. by apply session_op.
Qed.
Lemma candidate_untouched st tag v v' :
  at_stage st tag (candidate_view v) -> wf (queue v') -> (self v').2 = (self v).2 ->
  others (H:=left) (queue v') = others (H:=left) (queue v) -> at_stage st tag (candidate_view v').
Proof.
  intros [[Hwf Hm Hst Ho Hr Hk Hp] ([name c rq] & Hop & Hc)] Hwf' Hs Hot. cbn in Hc. subst c. split.
  - split; cbn [candidate_view view self get_part right_part] in *; rewrite ?Hs; try done. by apply (wf_view v').
  - eexists. split; [apply candidate_op; rewrite Hot; by apply candidate_op|done].
Qed.

(** *** Each event moves on *)

Lemma candidate_event lease st tag ks ktag v resp w' :
  at_both lease st tag ks ktag v -> on_event tag true resp (candidate_view v) = (w', Ok tt) ->
  exists v', on_event tag true resp v = (v', Ok tt) /\ candidate_view v' = w' /\ wf (queue v') /\
    at_ka lease ks ktag (session_view v').
Proof.
  intros (Hwf & [_ ([name c rq] & Hop & Hc)] & Hka) E. cbn in Hc. subst c.
  pose proof (event_through_part (H:=right) tag true resp v Hwf (candidate_op_apart _ _ _ _ _ Hop)) as Hev.
  pose proof (on_event_evolves tag true resp v Hwf) as [Hwf' _].
  destruct (on_event tag true resp v) as [v' r]. destruct Hev as (Hview & Hot & s & Hs). cbn [fst] in Hwf'.
  change (view v) with (candidate_view v) in Hview. rewrite E in Hview. injection Hview as Hw ->.
  exists v'. split_and!; [done..|]. eapply session_untouched; [exact Hka|done|by rewrite Hs|done].
Qed.
Lemma session_event lease st tag ks ktag v resp w' :
  at_both lease st tag ks ktag v -> on_event ktag true resp (session_view v) = (w', Ok tt) ->
  exists v', on_event ktag true resp v = (v', Ok tt) /\ session_view v' = w' /\ wf (queue v') /\
    at_stage st tag (candidate_view v').
Proof.
  intros (Hwf & Hst & [_ (name & rq & Hop)]) E.
  pose proof (event_through_part (H:=left) ktag true resp v Hwf (session_op_apart _ _ _ _ _ Hop)) as Hev.
  pose proof (on_event_evolves ktag true resp v Hwf) as [Hwf' _].
  destruct (on_event ktag true resp v) as [v' r]. destruct Hev as (Hview & Hot & s & Hs). cbn [fst] in Hwf'.
  change (view v) with (session_view v) in Hview. rewrite E in Hview. injection Hview as Hw ->.
  exists v'. split_and!; [done..|]. eapply candidate_untouched; [exact Hst|done|by rewrite Hs|done].
Qed.

(** The participant won: it is elected, and its session still holds the lease. *)
Definition leads lease v : Prop :=
  won (candidate_view v) /\ Session.lease_id_ (self v).1 = lease /\ Session.is_active_in (self v).1 = true.

(** The object is somewhere before the events [es]. *)
Definition joint_at lease es v : Prop :=
  exists st tag ks ktag, joint st tag ks ktag (next_op (queue v)) (now (queue v)) es /\ at_both lease st tag ks ktag v.

Lemma joint_step lease e es v :
  joint_at lease (e :: es) v ->
  exists v', (forall A (r : outcome A), sched_step e (Finished v r) = running (Finished v' r)) /\
    (es = [] /\ leads lease v' \/ joint_at lease es v').
Proof.
  intros (st & tag & ks & ktag & Hj & Hv). pose proof Hv as (Hwf & Hst & Hka). inversion Hj; subst.
  - destruct (no_predecessor_elects tag _ resp Hst ltac:(done) ltac:(done)) as (w' & E & Hwon).
    destruct (candidate_event _ _ _ _ _ v resp w' Hv E) as (v' & E' & <- & _ & [[_ _ _ _ Ha Hl] _]).
    exists v'. split; [by intros A r; cbn; rewrite E'|]. by left.
  - destruct (gets_on_event st resp st' tag _ ltac:(done) Hst) as (w' & E & Hw' & Hn' & Ht').
    destruct (candidate_event _ _ _ _ _ v resp w' Hv E) as (v' & E' & <- & Hwf' & Hka').
    cbn [candidate_view view view_queue queue next_op now] in Hw', Hn', Ht'. exists v'. split; [by intros A r; cbn; rewrite E'|].
    right. exists st', (next_op (queue v)), ks, ktag. by rewrite Hn', Ht'.
  - destruct (keeps_alive_event lease ks resp ks' ktag (session_view v) ltac:(done) Hka) as (w' & E & Hw' & Hn' & Ht').
    destruct (session_event _ _ _ _ _ v resp w' Hv E) as (v' & E' & <- & Hwf' & Hst').
    cbn [session_view view view_queue queue next_op now] in Hw', Hn', Ht'. exists v'. split; [by intros A r; cbn; rewrite E'|].
    right. exists st, tag, ks', (next_op (queue v)). by rewrite Hn', Ht'.
  - eexists. split; [done|]. right. exists st, tag, ks, ktag. split; [done|].
    destruct Hst as [[] ?], Hka as [[] ?]. split_and!; [done|split; [by split|done]..].
Qed.

(** The events up to some point, and from there to the election. *)
Lemma joint_run {A} lease es1 es2 v (r : outcome A) :
  joint_at lease (es1 ++ es2) v -> es2 <> [] ->
  exists v', sched es1 (Finished v r) = running (Finished v' r) /\ joint_at lease es2 v'.
Proof.
  intros Hj Hes. revert v Hj. induction es1 as [|e es1 IH]; intros v Hj; [by exists v|].
  destruct (joint_step _ _ _ _ Hj) as (v1 & Hs & [[[_ Hnil]%app_eq_nil _]|Hj1]); [done|].
  destruct (IH v1 Hj1) as (v' & Hrun & Hj'). exists v'. cbn [sched]. by rewrite Hs.
Qed.
Lemma joint_wins {A} lease es v (r : outcome A) :
  joint_at lease es v -> exists v', sched es (Finished v r) = running (Finished v' r) /\ leads lease v'.
Proof.
  revert v. induction es as [|e es IH]; intros v Hj; [by destruct Hj as (? & ? & ? & ? & Hj & _); inversion Hj|].
  destruct (joint_step _ _ _ _ Hj) as (v1 & Hs & [[-> Hl]|Hj1]).
  - exists v1. cbn [sched]. by rewrite Hs.
  - destruct (IH v1 Hj1) as (v' & Hrun & Hl). exists v'. cbn [sched]. by rewrite Hs.
Qed.

(** *** The constructor, and the start of the campaign *)

Lemma made_with_lease v election_name value desired lease_id r1 resp g :
  wf (queue v) -> refresh_in_range (now (queue v)) (lg_ttl g * 1000) ->
  grant_answer true resp = Ok g -> lg_error g = "" ->
  let n := next_op (queue v) in
  let id := to_uint64 (lg_id g) in
  exists v',
    sched [ev_completion n true r1; ev_wake; ev_completion (n + 1) true resp; ev_wake]
      (make election_name value desired lease_id v) = running (Finished v' (Ok tt)) /\
    wf (queue v') /\ next_op (queue v') = n + 3 /\ now (queue v') = now (queue v) /\
    at_ka id timing (n + 2) (session_view v') /\
    (self v').2 = Candidate.election_candidate_impl (Z.to_N id) election_name value.
Proof.
  intros Hwf Hrange Hg Herr n id.
  set (v1 := with_self (fun s => (Session.initial_session desired lease_id, s.2)) v).
  set (es := [ev_completion n true r1; ev_wake; ev_completion (n + 1) true resp]).
  assert (Hg' : as_lease_grant (r_message resp) = g).
  { unfold grant_answer in Hg. cbn in Hg. destruct (status_ok _); [|done]. by injection Hg. }
  assert (Hwf1 : wf (view_queue (H:=left) (queue v1))) by (by apply (wf_view v1)).
  destruct (preamble_waits (view_queue (queue v1)) desired lease_id r1 true resp Hwf1) as (p & Hp & Hout).
  destruct (SessionFacts.preamble_runs (view_queue (queue v1)) desired lease_id r1 true resp Hwf1)
    as (w & r & Hrun & Hres); [by rewrite Hg'|].
  change (World (Session.initial_session desired lease_id) (view_queue (queue v1))) with (session_view v1) in *.
  cbn [view_queue next_op] in Hp, Hrun. change (next_op (queue v1)) with n in Hp, Hrun. fold es in Hp.
  assert (Hwake : wake p = Finished w r).
  { change [ev_completion n true r1; ev_wake; ev_completion (n + 1) true resp; ev_wake] with (es ++ [ev_wake]) in Hrun.
    rewrite sched_app, Hp in Hrun. cbn in Hrun. by injection Hrun. }
  rewrite Hg, bool_decide_true in Hres by done.
  destruct Hres as (-> & Hid & _ & Hact & Hops & _ & Hst & Ho & Hr & Hwfw & Hnext & Hnow).
  destruct (make_runs election_name value desired lease_id v es p w (Ok tt) Hwf) as [Hmake _]; [|done..|].
  { repeat constructor; cbn; apply others_above; try done; subst n; lia. }
  exists (made election_name value (Ok tt) (merge (H:=left) w v1)).
  cbn [view_queue next_op now] in Hnext, Hnow.
  assert (Hview : session_view (made election_name value (Ok tt) (merge (H:=left) w v1)) = w).
  { etrans; [|apply (view_merge (H:=left) w v1)]. done. }
  split_and!; [exact Hmake| |exact Hnext|exact Hnow| |].
  - apply (wf_merge w v1); [done|]. intros tag op' [Hop _]%others_lookup. destruct Hwf as (_ & Hpos & _).
    apply Hpos in Hop. rewrite Hnext. change (next_op (queue v1)) with n. lia.
  - rewrite Hview. split; [by split|]. rewrite Hops. eexists _, _. apply lookup_insert_eq.
  - cbn. by rewrite Hid.
Qed.

Lemma campaign_under_way v lease r1 resp t ktag :
  wf (queue v) -> at_ka lease timing ktag (session_view v) ->
  (exists id election_name value, (self v).2 = Candidate.election_candidate_impl id election_name value) ->
  txn_answer "election_candidate/create_node" true resp = Ok t -> tx_succeeded t = true ->
  let n := next_op (queue v) in
  exists v',
    sched [ev_completion n true r1; ev_wake; ev_completion (n + 1) true resp; ev_wake] (campaign v) =
      running (Finished v' (Ok tt)) /\
    at_both lease asking (n + 2) timing ktag v' /\ next_op (queue v') = n + 3 /\ now (queue v') = now (queue v).
Proof.
  intros Hwf Hka (id & name & value & Hself) Ht Hs n.
  assert (Hwfc : wf (queue (candidate_view v))) by (by apply (wf_view v)).
  set (es := [ev_completion n true r1; ev_wake; ev_completion (n + 1) true resp; ev_wake]).
  destruct (campaign_asks (candidate_view v) r1 resp t) as (w & Hrun & Hst & Hnext & Hnow);
    try done; try (change (self (candidate_view v)) with (self v).2; by rewrite Hself).
  change (next_op (queue (candidate_view v))) with n in *. fold es in Hrun.
  destruct (call_evolves CandidateSafety.call_campaign (candidate_view v)) as [He Hsteps].
  destruct (sched_evolves es _ _ Hsteps Hrun) as [He' _].
  assert (Hev : evolves (view v) w) by (etrans; [exact He|exact He']).
  exists (merge (H:=right) w v). split; [|split; [split_and!|by split]].
  - etrans; [apply (sched_embed es v Candidate.campaign Hwf (call_evolves CandidateSafety.call_campaign))|].
    + repeat constructor; cbn; apply eq_None_not_Some; intros [op [Hop _]%others_lookup];
        apply Hwf in Hop; subst n; lia.
    + change (view v) with (candidate_view v). by rewrite Hrun.
  - by apply (evolves_merge v w Hev).
  - change (at_stage asking (n + 2) (view (merge (H:=right) w v))). by rewrite view_merge.
  - eapply session_untouched; [exact Hka|by apply (evolves_merge v w Hev)|done|by apply others_evolves].
Qed.

(** From the constructor to the first query. *)
Lemma participant_under_way v election_name value desired lease_id r1 r2 g r3 r4 t es :
  wf (queue v) -> refresh_in_range (now (queue v)) (lg_ttl g * 1000) ->
  grant_answer true r2 = Ok g -> lg_error g = "" ->
  txn_answer "election_candidate/create_node" true r4 = Ok t -> tx_succeeded t = true ->
  let n := next_op (queue v) in
  joint asking (n + 5) timing (n + 2) (n + 6) (now (queue v)) es ->
  exists v1,
    sched [ev_completion n true r1; ev_wake; ev_completion (n + 1) true r2; ev_wake]
      (make election_name value desired lease_id v) = running (Finished v1 (Ok tt)) /\
    exists v2,
      sched [ev_completion (n + 3) true r3; ev_wake; ev_completion (n + 4) true r4; ev_wake] (campaign v1) =
        running (Finished v2 (Ok tt)) /\
      joint_at (to_uint64 (lg_id g)) es v2.
Proof.
  intros Hwf Hrange Hg Herr Ht Hs n Hj.
  destruct (made_with_lease v election_name value desired lease_id r1 r2 g Hwf Hrange Hg Herr)
    as (v1 & Hmake & Hwf1 & Hn1 & Hnow1 & Hka & Hcand).
  exists v1. split; [done|].
  destruct (campaign_under_way v1 _ r3 r4 t _ Hwf1 Hka) as (v2 & Hrun & Hboth & Hn2 & Hnow2); [by eexists _, _, _|done..|].
  rewrite Hn1 in *. fold n in Hrun, Hboth, Hn2.
  replace (n + 3 + 1) with (n + 4) in Hrun by lia. replace (n + 3 + 2) with (n + 5) in Hboth by lia.
  exists v2. split; [done|]. exists asking, (n + 5), timing, (n + 2). rewrite Hn2, Hnow2, Hnow1.
  by replace (n + 3 + 3) with (n + 6) by lia.
Qed.

End participant.

(** ** The theorem applied: one predecessor, and a keep-alive cycle while it lives *)

#[local] Existing Instance empty_text_format.

Definition joined_memory : world leader_election cb :=
  World (Session.initial_session (seconds 10) 0, Candidate.election_candidate_impl 0 "" "") new_queue.
Definition watch_response (events : list Event) : response := Response status_OK (msg_watch
  {| wr_watch_id := 0; wr_created := true; wr_canceled := false; wr_compact_revision := 0; wr_events := events |}).
Definition found_keys (revision : Z) (kvs : list KeyValue) : response :=
  Response status_OK (msg_range {| rg_revision := revision; rg_kvs := kvs |}).
Definition created : response :=
  Response status_OK (msg_txn {| tx_revision := 7; tx_succeeded := true; tx_responses := [] |}).
Definition election_events : list sched_event := [
  ev_completion 6 true (found_keys 8 [KV "e/1" "v" 3]);
  ev_completion 3 true answer;
  ev_completion 7 true answer;
  ev_completion 8 true answer;
  ev_clock 2000000000;
  ev_completion 10 true (Response status_OK (msg_keep_alive 10));
  ev_completion 9 true (watch_response [{| ev_type := DELETE; ev_kv := KV "e/1" "" 0; ev_prev_kv := KV "e/1" "v" 3 |}]);
  ev_completion 12 true (found_keys 9 [])].

Lemma refresh_in_range_small t ttl : (0 <=? t) && (t <=? 2 ^ 62) && (0 <=? ttl) && (ttl <=? 2 ^ 44) = true -> refresh_in_range t ttl.
Proof. rewrite !andb_true_iff, !Z.leb_le. unfold refresh_in_range. tauto. Qed.

Lemma election_events_joint : joint asking 6 timing 3 7 0 election_events.
Proof.
  apply (joint_answer asking 6 timing 3 7 0 _ (creating "e/1" 8)).
  { exact (found_predecessor (found_keys 8 [KV "e/1" "v" 3]) (KV "e/1" "v" 3) eq_refl eq_refl). }
  apply (joint_alive _ 7 timing 3 8 0 _ writing); [apply timer_expired|].
  apply (joint_answer _ 7 writing 8 9 0 _ (waiting "e/1" 8)); [apply watch_requested|].
  apply (joint_alive _ 9 writing 8 10 0 _ reading); [apply message_written|].
  apply joint_clock. apply (joint_alive _ 9 reading 10 11 _ _ timing); [apply lease_extended, refresh_in_range_small; reflexivity|].
  apply (joint_answer _ 9 timing 11 12 _ _ asking).
  { apply predecessor_gone; [split; reflexivity|]. apply (bool_decide_unpack _). reflexivity. }
  apply joint_elected; reflexivity.
Qed.

