(* ===== verification/EtcdClient.v ===== *)
(** * [client_async_op] and [etcd_client] (gh/detail/client_async_op.hpp, gh/etcd_client.hpp,
      etcd_client.cpp)

    A client creates an object for each call; the object is kept alive by the functor in the queue and by the
    caller, counted in [owners], and its promise is abandoned when the last of them goes.
    Objects are addressed by number; the shared state of a promise outlives its object, so
    that an object that was destroyed keeps its place with no owner. *)

From S2P Require Import Prelude Runtime RpcPolicies Etcd CompletionQueue.
Open Scope Z_scope.
Open Scope gh_scope.

Module EtcdClient.

(** ** State *)

(** The functors of an application are values of [F]. *)
Inductive notifier (F : Type) := noop_promise_notify | functor_promise_notify (functor_ : F).
Arguments noop_promise_notify {F}.
Arguments functor_promise_notify {F} functor_.

(** [client_async_op] *)
Record client_async_op (B R F : Type) := ClientOp {
  request_ : request;
  backoff_ : B;
  retry_ : R;
  notifier_ : notifier F;
  promise_ : promise response;
  owners : nat
}.
Arguments ClientOp {B R F} _ _ _ _ _ _.
Arguments request_ {B R F} _.
Arguments backoff_ {B R F} _.
Arguments retry_ {B R F} _.
Arguments notifier_ {B R F} _.
Arguments promise_ {B R F} _.
Arguments owners {B R F} _.

(** [etcd_client], with the objects it created and the functors called, the latest first. *)
Record etcd_client (B R F : Type) := EtcdC {
  rpc_backoff_ : B;
  rpc_retry_ : R;
  urls_ : list string;
  objects : gmap Z (client_async_op B R F);
  called : list F
}.
Arguments EtcdC {B R F} _ _ _ _ _.
Arguments rpc_backoff_ {B R F} _.
Arguments rpc_retry_ {B R F} _.
Arguments urls_ {B R F} _.
Arguments objects {B R F} _.
Arguments called {B R F} _.

(** The lambda of [start], with its [self]. *)
Inductive cb := cb_response (self : Z).

(** [etcd_client::etcd_client] at time [t], in the milliseconds of the policies. *)
Definition make_client {F} (t : Z) (url : string) :
    outcome (etcd_client exponential_backoff.t limited_time.t F) :=
  match exponential_backoff.make (milliseconds 10) (Duration 15 60 1) with
  | Ok backoff => Ok (EtcdC backoff (limited_time.make t (Duration 4 3600 1)) [url] ∅ [])
  | Throw e => Throw e
  | UB w => UB w
  end.

Section client.
Context {B R F : Type} `{rpc_backoff_policy B} `{rpc_retry_policy R}.
#[local] Abbreviation C := (etcd_client B R F).
#[local] Abbreviation W := (world C cb).

Definition set_objects m (s : C) := EtcdC (rpc_backoff_ s) (rpc_retry_ s) (urls_ s) m (called s).
Definition set_called l (s : C) := EtcdC (rpc_backoff_ s) (rpc_retry_ s) (urls_ s) (objects s) l.
Definition set_promise p (o : client_async_op B R F) :=
  ClientOp (request_ o) (backoff_ o) (retry_ o) (notifier_ o) p (owners o).
Definition set_owners n (o : client_async_op B R F) :=
  ClientOp (request_ o) (backoff_ o) (retry_ o) (notifier_ o) (promise_ o) n.
Definition set_request r (o : client_async_op B R F) :=
  ClientOp r (backoff_ o) (retry_ o) (notifier_ o) (promise_ o) (owners o).

(** Code on an object. *)
Definition on_object {A} (i : Z) (m : M (client_async_op B R F) A) : M W A := fun w =>
  match objects (self w) !! i with
  | Some o => let '(o', r) := m o in (with_self (fun s => set_objects (<[i := o']> (objects s)) s) w, r)
  | None => (w, UB "dangling client_async_op")
  end.
Definition on_its_promise {A} (m : M (promise response) A) : M (client_async_op B R F) A := fun o =>
  let '(p, r) := m (promise_ o) in (set_promise p o, r).

(** ** [client_async_op] *)

(** [std::make_shared]: the creator is the first owner. *)
Definition make_shared (backoff : B) (retry : R) (request : request) (notifier : notifier F) : M W Z :=
  m ← gets_self objects;
  let i := fresh (dom (m : gmap Z _)) in
  modify_self (set_objects (<[i := ClientOp request backoff retry notifier new_promise 1]> m));;
  mret i.

(** A [shared_ptr] goes away; the destructor of the last one abandons the promise. *)
Definition release (i : Z) : M W unit :=
  on_object i (modify (fun o =>
    match owners o with
    | S (S n) => set_owners (S n) o
    | _ => set_promise (promise_abandon (promise_ o)) (set_owners 0 o)
    end)).

(** [start]: the lambda is an owner. The request is swapped with the empty one of the operation. *)
Definition start (i : Z) (empty_request : request) : M W unit :=
  r ← on_object i (gets request_);
  on_object i (modify (fun o => set_owners (S (owners o)) (set_request empty_request o)));;
  async_rpc r "foo" (cb_response i).

Definition get_future (i : Z) : M W unit := on_object i (on_its_promise promise_get_future).

(** [notifier_(promise_)] *)
Definition call_notifier (i : Z) : M W unit :=
  n ← on_object i (gets notifier_);
  match n with
  | noop_promise_notify => mret tt
  | functor_promise_notify f =>
      on_object i (on_its_promise promise_get_future);;
      modify_self (fun s => set_called (f :: called s) s)
  end.

Definition notify_value (i : Z) (resp : response) : M W unit :=
  on_object i (on_its_promise (promise_set (Ok resp)));;
  call_notifier i.
Definition notify_failure (i : Z) (ex : exn) : M W unit :=
  on_object i (on_its_promise (promise_set (Throw ex)));;
  call_notifier i.

(** The lambda of [start]. *)
Definition on_response (i : Z) (op : response) (ok : bool) : M W unit :=
  if negb ok then notify_failure i (runtime_error "aborted rpc")
  else if status_ok (r_status op) then notify_value i op
  else mret tt.

(** The queue drops the operation, and the lambda with it, after the call. *)
Definition invoke_cb (k : cb) (op : response) (ok : bool) : M W unit :=
  let '(cb_response i) := k in on_response i op ok;; release i.

(** ** [etcd_client] *)

Definition current_channel : M W string :=
  urls ← gets_self urls_;
  match urls with
  | url :: _ => mret url
  | [] => undefined "urls_[0] of an empty vector"
  end.

(** The members of the request, in seconds for the TTL. *)
Definition grant_request (lease : Z) : request := rq_lease_grant lease 100.
Definition empty_grant : request := rq_lease_grant 0 0.

(** [grant_lease] with [use_future] up to the call of [start] and from it to its end: the completion may come in
    between. *)
Definition grant_lease_start (t lease : Z) : M W Z :=
  s ← gets_self id;
  i ← make_shared (backoff_clone (rpc_backoff_ s)) (retry_clone t (rpc_retry_ s)) (grant_request lease)
        noop_promise_notify;
  current_channel;;
  start i empty_grant;;
  mret i.
Definition grant_lease_end (i : Z) : M W unit := get_future i;; release i.
Definition grant_lease_future (t lease : Z) : M W Z :=
  i ← grant_lease_start t lease;
  grant_lease_end i;;
  mret i.

(** [grant_lease] with a functor: the copies of the policies and the notifier are made, and dropped. *)
Definition grant_lease (t lease : Z) (functor : F) : M W unit :=
  s ← gets_self id;
  let rpc_retry := retry_clone t (rpc_retry_ s) in
  let rpc_backoff := backoff_clone (rpc_backoff_ s) in
  let notifier := functor_promise_notify functor in
  mret tt.

(** ** The client of the queue *)

Lemma on_object_evolves {A} i (m : M (client_async_op B R F) A) : on_object i m ⊨ (@evolves C cb).
Proof.
  intros w. unfold on_object. destruct (objects (self w) !! i) as [o|]; [|apply reflexivity].
  destruct (m o) as [o' r]. change (queue_le (queue w) (queue w)). apply reflexivity.
Qed.
#[local] Hint Resolve on_object_evolves : gh.

Lemma client_invoke_evolves k op ok : invoke_cb k op ok ⊨ (@evolves C cb).
Proof.
  destruct k. unfold invoke_cb, on_response, notify_failure, notify_value, call_notifier, release.
  respects_solve.
Qed.

#[export] Instance etcd_client_client : Client C cb := {|
  invoke := invoke_cb;
  invoke_evolves := client_invoke_evolves
|}.

(** ** What is guaranteed *)

(** What the future of a call is given: the error of a call that etcd refuses is lost. *)
Definition call_answer (ok : bool) (resp : response) : outcome response :=
  if negb ok then Throw (runtime_error "aborted rpc")
  else if status_ok (r_status resp) then Ok resp
  else Throw (future_error broken_promise).

Definition future_of (i : Z) (w : W) : option (promise response) := promise_ <$> objects (self w) !! i.

Lemma on_object_eq {A} i (m : M (client_async_op B R F) A) (w : W) o o' r :
  objects (self w) !! i = Some o -> m o = (o', r) ->
  on_object i m w = (with_self (fun s => set_objects (<[i := o']> (objects s)) s) w, r).
Proof. intros Ho Hm. unfold on_object. by rewrite Ho, Hm. Qed.

(** A world whose object [i] is [o]. *)
Definition has_object (i : Z) (o : client_async_op B R F) (w : W) : Prop := objects (self w) !! i = Some o.

(** Code on an object that [m] takes from [o] to [o']. *)
Lemma on_object_step {A} i (m : M (client_async_op B R F) A) (w : W) o o' r :
  has_object i o w -> m o = (o', r) ->
  exists w', on_object i m w = (w', r) /\ has_object i o' w' /\ queue w' = queue w.
Proof.
  intros Ho Hm. rewrite (on_object_eq _ _ _ _ _ _ Ho Hm). eexists. split; [done|].
  split; [apply lookup_insert_eq|done].
Qed.

(** The object of a call while [n] own it. *)
Definition grant_object (w : W) (t : Z) (p : promise response) (n : nat) : client_async_op B R F :=
  ClientOp empty_grant (backoff_clone (rpc_backoff_ (self w))) (retry_clone t (rpc_retry_ (self w)))
    noop_promise_notify p n.

Lemma grant_lease_start_eq t lease (w : W) url urls :
  wf (queue w) -> urls_ (self w) = url :: urls ->
  exists w', grant_lease_start t lease w = (w', Ok (fresh (dom (objects (self w))))) /\
    has_object (fresh (dom (objects (self w)))) (grant_object w t new_promise 2) w' /\
    queue w' = with_op "foo" (functor (cb_response (fresh (dom (objects (self w)))))) (grant_request lease)
                 (queue w).
Proof.
  intros Hwf Hu. unfold grant_lease_start, make_shared, current_channel, start, gets_self, modify_self.
  munfold. cbv zeta. generalize (fresh (dom (objects (self w)))). intros i. rewrite Hu. munfold.
  unfold on_object. cbn. rewrite !lookup_insert_eq. cbn. rewrite lookup_insert_eq. cbn.
  rewrite async_rpc_eq by done. eexists. split; [reflexivity|].
  split; [apply lookup_insert_eq|done].
Qed.

(** The lambda's promise after the completion, from a promise without a result. *)
Definition answered (b : bool) (ok : bool) (resp : response) : promise response :=
  Promise b (if ok && negb (status_ok (r_status resp)) then None else Some (call_answer ok resp)).

Lemma on_response_step i op ok (w : W) b n w0 t :
  has_object i (grant_object w0 t (Promise b None) n) w ->
  exists w', on_response i op ok w = (w', Ok tt) /\
    has_object i (grant_object w0 t (answered b ok op) n) w' /\ queue w' = queue w.
Proof.
  intros Ho. unfold on_response, answered, call_answer.
  assert (Hset : forall r, exists w', (on_object i (on_its_promise (promise_set r));; call_notifier i) w =
    (w', Ok tt) /\ has_object i (grant_object w0 t (Promise b (Some r)) n) w' /\ queue w' = queue w).
  { intros r. destruct (on_object_step i (on_its_promise (promise_set r)) w _
      (grant_object w0 t (Promise b (Some r)) n) (Ok tt) Ho) as (w1 & E1 & Ho1 & Hq1); [done|].
    destruct (on_object_step i (gets notifier_) w1 _ _ (Ok noop_promise_notify) Ho1 eq_refl)
      as (w2 & E2 & Ho2 & Hq2).
    exists w2. rewrite (bind_ok _ _ _ _ _ E1). unfold call_notifier. rewrite (bind_ok _ _ _ _ _ E2).
    split_and!; [done..|congruence]. }
  destruct ok; cbn [negb andb]; [|apply Hset].
  destruct (status_ok (r_status op)); cbn [negb]; [apply Hset|]. by exists w.
Qed.

Lemma release_step i (w : W) p n w0 t :
  has_object i (grant_object w0 t p (S n)) w ->
  exists w', release i w = (w', Ok tt) /\
    has_object i (grant_object w0 t (if decide (n = 0%nat) then promise_abandon p else p) n) w' /\
    queue w' = queue w.
Proof. intros Ho. eapply on_object_step; [done|]. by destruct n. Qed.

Lemma get_future_step i (w : W) r n w0 t :
  has_object i (grant_object w0 t (Promise false r) n) w ->
  exists w', get_future i w = (w', Ok tt) /\ has_object i (grant_object w0 t (Promise true r) n) w' /\
    queue w' = queue w.
Proof. intros Ho. by eapply on_object_step. Qed.

(** The completion of the call. *)
Lemma completion_step i tag op ok (w : W) b n w0 t rq :
  tag <> 0 -> pending_ops (queue w) !! tag = Some (AsyncOp "foo" (functor (cb_response i)) rq) ->
  has_object i (grant_object w0 t (Promise b None) (S n)) w ->
  exists w', on_event tag ok op w = (w', Ok tt) /\
    has_object i (grant_object w0 t
      (if decide (n = 0%nat) then promise_abandon (answered b ok op) else answered b ok op) n) w'.
Proof.
  intros Ht Hop Ho. rewrite (on_event_pending _ _ _ _ _ Ht Hop). unfold run_callback. cbn [op_callback].
  change (invoke ?k) with (invoke_cb k). cbn [invoke_cb].
  set (w1 := with_queue _ w). destruct (on_response_step i op ok w1 b (S n) w0 t Ho) as (w2 & E2 & Ho2 & _).
  rewrite (bind_ok _ _ _ _ _ E2). destruct (release_step i w2 _ n w0 t Ho2) as (w3 & E3 & Ho3 & _).
  by exists w3.
Qed.

Lemma abandon_answered b ok resp :
  promise_abandon (answered b ok resp) = Promise b (Some (call_answer ok resp)).
Proof. unfold answered, call_answer. destruct ok; [|done]. by destruct (status_ok _). Qed.

(** C31. A lease requested with [use_future]: the call returns a future, and whether the completion
    comes after the return or in the middle of the call, the future ends with the same result and the
    operation is gone. The result is the response of etcd, or an exception when the call was cancelled; when etcd
    answers with an error status, the promise is destroyed without a result, and the future has a broken
    promise in the place of the error. *)
Theorem grant_lease_outcome t lease (w : W) url urls ok resp :
  wf (queue w) -> urls_ (self w) = url :: urls ->
  let tag := next_op (queue w) in
  let i := fresh (dom (objects (self w))) in
  let result w' := exists o, objects (self w') !! i = Some o /\ owners o = 0%nat /\
    promise_ o = Promise true (Some (call_answer ok resp)) in
  (exists w1 w2, grant_lease_future t lease w = (w1, Ok i) /\
     on_event tag ok resp w1 = (w2, Ok tt) /\ result w2) /\
  (exists w1 w2 w3, grant_lease_start t lease w = (w1, Ok i) /\
     on_event tag ok resp w1 = (w2, Ok tt) /\ grant_lease_end i w2 = (w3, Ok tt) /\ result w3).
Proof.
  intros Hwf Hu tag i result.
  destruct (grant_lease_start_eq t lease w url urls Hwf Hu) as (w1 & E1 & Ho1 & Hq1). fold i in E1, Ho1, Hq1.
  assert (Ht : tag <> 0) by (destruct Hwf; unfold tag; lia).
  assert (Hop : forall w' : W, queue w' = queue w1 -> pending_ops (queue w') !! tag =
    Some (AsyncOp "foo" (functor (cb_response i)) (grant_request lease))).
  { intros w' ->. rewrite Hq1. apply lookup_insert_eq. }
  split.
  - unfold grant_lease_future. rewrite (bind_ok _ _ _ _ _ E1). unfold grant_lease_end.
    destruct (get_future_step _ _ _ _ _ _ Ho1) as (w2 & E2 & Ho2 & Hq2).
    destruct (release_step _ _ _ _ _ _ Ho2) as (w3 & E3 & Ho3 & Hq3).
    destruct (completion_step i tag resp ok w3 true 0 w t _ Ht (Hop w3 ltac:(congruence)) Ho3)
      as (w4 & E4 & Ho4).
    exists w3, w4. munfold. rewrite E2, E3. split_and!; [done..|].
    eexists. split_and!; [exact Ho4|done|]. apply abandon_answered.
  - destruct (completion_step i tag resp ok w1 false 1 w t _ Ht (Hop w1 eq_refl) Ho1) as (w2 & E2 & Ho2).
    destruct (get_future_step _ _ _ _ _ _ Ho2) as (w3 & E3 & Ho3 & _).
    destruct (release_step _ _ _ _ _ _ Ho3) as (w4 & E4 & Ho4 & _).
    exists w1, w2, w4. unfold grant_lease_end. munfold. rewrite E3, E4. split_and!; [done..|].
    eexists. split_and!; [exact Ho4|done|]. apply (abandon_answered true).
Qed.

(** The overload with a functor does not call etcd, and never calls the functor. *)
Lemma grant_lease_does_nothing t lease f (w : W) : grant_lease t lease f w = (w, Ok tt).
Proof. reflexivity. Qed.

End client.

(** The client that the constructor makes. *)
Definition sample_client : world (etcd_client exponential_backoff.t limited_time.t unit) cb :=
  match make_client 0 "localhost:2379" with
  | Ok s => World s new_queue
  | _ => World (EtcdC (exponential_backoff.Backoff 0 0 0) (limited_time.Timed 0 0) [] ∅ []) new_queue
  end.

Lemma grant_lease_outcome_witness :
  let late := Response (Status 14 "unavailable") msg_none in
  exists w1 w2, grant_lease_future 0 5 sample_client = (w1, Ok (fresh (∅ : gset Z))) /\
    on_event 1 true late w1 = (w2, Ok tt) /\
    exists o, objects (self w2) !! fresh (∅ : gset Z) = Some o /\ owners o = 0%nat /\
      promise_ o = Promise true (Some (Throw (future_error broken_promise))).
Proof.
  cbv zeta.
  apply (grant_lease_outcome 0 5 sample_client "localhost:2379" [] true
    (Response (Status 14 "unavailable") msg_none)); [|reflexivity]. apply new_queue_wf.
Defined.

End EtcdClient.
