(* ===== verification/Scenario.v ===== *)
(** * Scenarios: the unit tests as runs of the model

    A test of the sources drives one object over a queue whose interceptor
    ([mocked_grpc_interceptor]) hands every operation to a mock, and the mock completes it, at once
    or later, with a message the test made up. A scenario is the sequence of what happens: a member is called, the
    operation with some name is there, with the request the test expects, and is completed with
    the message of the test, a condition holds, the member returned. A completion runs the
    callback and wakes the thread that waits for it; the mocks of the tests often do this within the
    call that started the operation, here it is the next step, and takes the operation off the table. *)

From S2P Require Import Prelude Runtime Etcd CompletionQueue.
Open Scope Z_scope.
Open Scope gh_scope.

Section scenario.
Context {S K : Type} `{Client S K}.
#[local] Abbreviation W := (world S K).

Inductive step :=
  | calls (m : P W unit)
  | answers (name : string) (request_ok : request -> bool) (ok : bool) (resp : response)
  | returns (outcome_ok : outcome unit -> bool)
  | expects (holds : W -> bool).

(** The operations with a name: [op->name == name]. *)
Definition named (name : string) (w : W) : list (Z * async_op K) :=
  filter (fun p => op_name p.2 = name) (map_to_list (pending_ops (queue w))).

Definition run_step (s : step) (p : prog W unit) : option (prog W unit) :=
  match s with
  | calls m => match prog_outcome p with Some _ => Some (m (prog_world p)) | None => None end
  | answers name request_ok ok resp =>
      match named name (prog_world p) with
      | [(tag, op)] =>
          if request_ok (op_request op) then
            match sched [ev_completion tag ok resp; ev_wake] p with running p' => Some p' | _ => None end
          else None
      | _ => None
      end
  | returns outcome_ok =>
      match prog_outcome p with Some r => if outcome_ok r then Some p else None | None => None end
  | expects holds => if holds (prog_world p) then Some p else None
  end.
Fixpoint run_steps (ss : list step) (p : prog W unit) : option (prog W unit) :=
  match ss with
  | [] => Some p
  | s :: ss' => p' ← run_step s p; run_steps ss' p'
  end.

(** The test passes: every step can be taken. *)
Definition passes (s : S) (ss : list step) : bool :=
  bool_decide (is_Some (run_steps ss (Finished (World s new_queue) (Ok tt)))).

(** The interceptor of the queues of the tests; the scenarios give the answers of its mock. *)
Definition test_interceptor : Interceptor := mocked_grpc_interceptor quiet_mock.

(** ** The conditions *)

(** [EXPECT_NO_THROW], [EXPECT_THROW] of a member that may block. *)
Definition no_throw (r : outcome unit) : bool := match r with Ok _ => true | _ => false end.
Definition throws (r : outcome unit) : bool := match r with Throw _ => true | _ => false end.
Definition throws_this (e : exn) (r : outcome unit) : bool := bool_decide (r = Throw e).

(** [EXPECT_EQ(object->member(), a)], [EXPECT_THROW(object->member(), ...)]. *)
Definition gives {A} `{EqDecision A} (m : M W A) (a : A) : step :=
  expects (fun w => match (m w).2 with Ok b => bool_decide (b = a) | _ => false end).
Definition raises {A} (m : M W A) : step :=
  expects (fun w => match (m w).2 with Throw _ => true | _ => false end).

(** No operation with this name was started, and left pending. *)
Definition no_op (name : string) : step := expects (fun w => bool_decide (named name w = [])).
Definition an_op (name : string) : step := expects (fun w => bool_decide (length (named name w) = 1%nat)).

(** The calls of [try_cancel] so far. *)
Definition is_try_cancel (c : grpc_call) : bool :=
  match c with context_try_cancel | mocked_call m_try_cancel _ => true | _ => false end.
Definition try_cancels (n : nat) : step :=
  expects (fun w => bool_decide (length (List.filter is_try_cancel (trace (queue w))) = n)).

(** [fut.wait_for(0ms)] of a future of the queue. *)
Definition future_is (p : Z) (x : future_status) : step :=
  expects (fun w => bool_decide (wait_for_0 <$> promises (queue w) !! p = Some x)).
(** [EXPECT_NO_THROW(fut.get())], [EXPECT_THROW(fut.get(), ...)]. *)
Definition get_ok (p : Z) (value_ok : response -> bool) : step :=
  expects (fun w => match promises (queue w) !! p with
                    | Some (Promise _ (Some (Ok r))) => value_ok r
                    | _ => false
                    end).
Definition get_throws (p : Z) : step :=
  expects (fun w => match promises (queue w) !! p with
                    | Some (Promise _ (Some (Throw _))) => true
                    | _ => false
                    end).
End scenario.
Arguments step S K : clear implicits.

(** ** The requests and responses of the tests *)

Definition any : request -> bool := fun _ => true.
Definition is_txn (c : TxnRequest -> bool) (r : request) : bool :=
  match r with rq_txn t => c t | _ => false end.
Definition is_range (c : RangeRequest -> bool) (r : request) : bool :=
  match r with rq_range t => c t | _ => false end.
Definition is_watch_create (c : string -> Z -> bool -> bool) (r : request) : bool :=
  match r with rq_write_watch (create_request key _ revision _ prev_kv) => c key revision prev_kv | _ => false end.

Definition done_ok : response := Response status_OK msg_none.
Definition range (revision : Z) (kvs : list KeyValue) : response :=
  Response status_OK (msg_range {| rg_revision := revision; rg_kvs := kvs |}).
Definition txn (succeeded : bool) (revision : Z) (responses : list ResponseOp) : response :=
  Response status_OK (msg_txn {| tx_revision := revision; tx_succeeded := succeeded; tx_responses := responses |}).
Definition watch_events (watch_id : Z) (events : list Event) : response :=
  Response status_OK (msg_watch {| wr_watch_id := watch_id; wr_created := false; wr_canceled := false;
                                   wr_compact_revision := 0; wr_events := events |}).
Definition compacted (revision : Z) : response :=
  Response status_OK (msg_watch {| wr_watch_id := 0; wr_created := false; wr_canceled := false;
                                   wr_compact_revision := revision; wr_events := [] |}).
Definition put (kv : KeyValue) : Event := {| ev_type := PUT; ev_kv := kv; ev_prev_kv := KeyValue_default |}.
Definition deleted (kv : KeyValue) : Event := {| ev_type := DELETE; ev_kv := KeyValue_default; ev_prev_kv := kv |}.
