(* ===== verification/CandidateTests.v ===== *)
(** * The tests of the candidate (gh/detail/election_candidate_impl_ut.cpp)

    Each definition is a test with the name of its class: the requests it checks, the messages its
    mocks answer with, and what it expects of the candidate. *)

From S2P Require Import Prelude Runtime OpCounter Etcd CompletionQueue Candidate Scenario.
Open Scope Z_scope.
Open Scope gh_scope.

Section candidate_tests.
Context `{TextFormat}.
#[local] Existing Instance test_interceptor.
Import Candidate.
#[local] Abbreviation test := (list (step candidate cb)).

(** *** What several tests say of a request *)

Definition is_put (key value : string) (op : RequestOp) : bool :=
  match op with request_put k v _ => bool_decide (k = key /\ v = value) | _ => false end.
Definition one {A} (c : A -> bool) (l : list A) : bool := match l with [a] => c a | _ => false end.

Definition creates_node (key value : string) (lease : Z) : request -> bool := is_txn (fun t =>
  one (fun c => bool_decide (cmp_key c = key)) (tq_compare t) &&
  one (fun op => match op with
                 | request_put k v l => bool_decide (k = key /\ v = value /\ l = lease)
                 | _ => false
                 end) (tq_success t) &&
  one (fun op => match op with request_range k => bool_decide (k = key) | _ => false end) (tq_failure t)).
Definition publishes (key value : string) : request -> bool := is_txn (fun t => one (is_put key value) (tq_success t)).
Definition queries (max_create_revision : Z) : request -> bool := is_range (fun r =>
  bool_decide (rr_key r = "mock-election/" /\ rr_max_create_revision r = max_create_revision)).
Definition watches (key : string) (start_revision : Z) : request -> bool :=
  is_watch_create (fun k revision prev_kv => bool_decide (k = key /\ revision = start_revision /\ prev_kv = true)).

(** The response of a transaction that found the node. *)
Definition existing_node (value : string) : response :=
  txn false 2000 [response_range_op {| rg_revision := 0; rg_kvs := [KV "mock-election/123456" value 1500] |}].

(** [fut.wait_for(0ms)] for the future of the campaign. *)
Definition campaign_ready : step candidate cb :=
  expects (fun w => bool_decide (wait_for_0 (promise_ (self w)) = ready)).
Definition campaign_timeout : step candidate cb :=
  expects (fun w => bool_decide (wait_for_0 (promise_ (self w)) = timeout)).

(** The stream is created as soon as it is asked for; a resignation closes it, and the destructor. *)
Definition starts_campaign : test := [
  calls campaign;
  answers "election_candidate/watch" any true done_ok].
Definition resigns : test := [
  calls resign;
  answers "election_candidate/writes_done" any true done_ok;
  answers "election_candidate/finish" any true done_ok;
  returns no_throw; try_cancels 1].
Definition reset (cancels : nat) : test := [calls cleanup; returns no_throw; try_cancels cancels].

Definition mock_candidate (lease_id : N) (value : string) : candidate :=
  election_candidate_impl lease_id "mock-election" value.

(** *** The tests *)

Definition election_candidate_impl_basic : bool :=
  passes (election_candidate_impl 0x123456 "basic-election" "abc1000") [calls cleanup; returns no_throw].

Definition election_candidate_impl_normal_lifecycle : bool :=
  passes (mock_candidate 0x123456 "bcd2000") (
    starts_campaign ++ [
    answers "election_candidate/create_node" (creates_node "mock-election/123456" "bcd2000" 0x123456) true
      (txn true 2000 []);
    returns no_throw;
    answers "election_candidate/query_predecessor" (queries 1999) true (range 3000 []);
    no_op "election_candidate/on_range_request/watch";
    gives elected true; campaign_ready;
    calls (proclaim "bcd1000");
    answers "election_candidate/publish_value" any true (txn true 0 []);
    returns no_throw] ++
    resigns ++ reset 2).

Definition election_candidate_impl_existing_node_same_value : bool :=
  passes (mock_candidate 0x123456 "bcd2000") (
    starts_campaign ++ [
    answers "election_candidate/create_node" any true (existing_node "bcd2000");
    answers "election_candidate/query_predecessor" (queries 1499) true (range 3000 []);
    no_op "election_candidate/on_range_request/watch";
    returns no_throw; gives elected true; campaign_ready] ++
    resigns ++ reset 2).

Definition election_candidate_impl_existing_node_value_mismatch : bool :=
  passes (mock_candidate 0x123456 "bcd2000") (
    starts_campaign ++ [
    answers "election_candidate/create_node" any true (existing_node "bcd1200");
    answers "election_candidate/publish_value" (publishes "mock-election/123456" "bcd2000") true (txn true 0 []);
    answers "election_candidate/query_predecessor" (queries 1499) true (range 3000 []);
    no_op "election_candidate/on_range_request/watch";
    returns no_throw; gives elected true; campaign_ready] ++
    resigns ++ reset 2).

Definition election_candidate_impl_existing_node_put_error : bool :=
  passes (mock_candidate 0x123456 "bcd2000") (
    starts_campaign ++ [
    answers "election_candidate/create_node" any true (existing_node "bcd1200");
    answers "election_candidate/publish_value" (publishes "mock-election/123456" "bcd2000") true (txn false 0 []);
    returns throws; gives elected false] ++
    reset 1).

(** The test completes the first read again when the candidate resigns, a queue only completes the second. *)
Definition election_candidate_impl_compaction_before_watch : bool :=
  let predecessor := KV "mock-election/123000" "abc1000" 1000 in
  passes (mock_candidate 0x123456 "bcd2000") (
    starts_campaign ++ [
    answers "election_candidate/create_node" any true (txn true 2000 []);
    returns no_throw;
    answers "election_candidate/query_predecessor" (queries 1999) true (range 3000 [predecessor]);
    answers "election_candidate/on_range_request/watch" (watches "mock-election/123000" 3000) true done_ok;
    gives elected false; campaign_timeout;
    answers "election_candidate/on_watch_create/read" any true (compacted 5000);
    answers "election_candidate/query_predecessor" (queries 1999) true (range 5000 [predecessor]);
    answers "election_candidate/on_range_request/watch" (watches "mock-election/123000" 5000) true done_ok;
    gives elected false; campaign_timeout;
    calls resign;
    answers "election_candidate/on_watch_create/read" any false done_ok;
    answers "election_candidate/writes_done" any true done_ok;
    answers "election_candidate/finish" any true done_ok;
    returns no_throw; try_cancels 1] ++
    reset 2).

Definition election_candidate_impl_another_predecessor : bool :=
  passes (mock_candidate 0x130000 "abc1300") (
    starts_campaign ++ [
    answers "election_candidate/create_node" any true (txn true 1300 []);
    returns no_throw;
    answers "election_candidate/query_predecessor" (queries 1299) true
      (range 1300 [KV "mock-election/120000" "abc1200" 1200]);
    answers "election_candidate/on_range_request/watch" (watches "mock-election/120000" 1300) true done_ok;
    gives elected false; campaign_timeout;
    answers "election_candidate/on_watch_create/read" any true
      (watch_events 3000 [deleted (KV "mock-election/120000" "abc1200" 1000)]);
    answers "election_candidate/query_predecessor" (queries 1299) true
      (range 1400 [KV "mock-election/110000" "abc1100" 1100]);
    answers "election_candidate/on_range_request/watch" (watches "mock-election/110000" 1400) true done_ok;
    gives elected false; campaign_timeout;
    answers "election_candidate/on_watch_create/read" any true
      (watch_events 3000 [deleted (KV "mock-election/110000" "abc1100" 1100)]);
    answers "election_candidate/query_predecessor" (queries 1299) true (range 1500 []);
    no_op "election_candidate/on_range_request/watch";
    gives elected true; campaign_ready] ++
    resigns ++ reset 2).

Definition election_candidate_impl_ut : list (string * bool) := [
  ("basic", election_candidate_impl_basic);
  ("normal_lifecycle", election_candidate_impl_normal_lifecycle);
  ("existing_node_same_value", election_candidate_impl_existing_node_same_value);
  ("existing_node_value_mismatch", election_candidate_impl_existing_node_value_mismatch);
  ("existing_node_put_error", election_candidate_impl_existing_node_put_error);
  ("compaction_before_watch", election_candidate_impl_compaction_before_watch);
  ("another_predecessor", election_candidate_impl_another_predecessor)].

(** What the tests of the candidate expect of it holds, whatever text the library prints for a message: the requests
    of a campaign, of an existing node with the same or another value, of a compacted watch and of
    predecessors that go one after the other, when the future is ready and the candidate
    elected, what is thrown, and how often the stream is cancelled. *)
Theorem candidate_meets_its_tests : Forall (fun t => t.2 = true) election_candidate_impl_ut.
Proof. repeat constructor; by vm_compute. Qed.

End candidate_tests.
