(* ===== verification/ClientTests.v ===== *)
(** * The tests of the session, the observer and the membership (gh/detail/session_impl_ut.cpp,
      election_observer_impl_ut.cpp, cluster_membership_impl_ut.cpp)

    As in [CandidateTests]. *)

From S2P Require Import Prelude Runtime RpcPolicies OpCounter Etcd CompletionQueue.
From S2P Require Import Session Observer Membership Scenario.
Open Scope Z_scope.
Open Scope gh_scope.

(** ** [session_impl] *)

Section session_tests.
Context `{TextFormat}.
#[local] Existing Instance test_interceptor.
Import Session.
#[local] Abbreviation test := (list (step session cb)).

Definition asks_lease : request -> bool := fun r =>
  match r with rq_lease_grant id ttl => bool_decide (ttl = 5 /\ id = 0) | _ => false end.
Definition lease (id ttl : Z) (error : string) : response :=
  Response status_OK (msg_lease_grant {| lg_id := id; lg_ttl := ttl; lg_error := error |}).
Definition keeps_alive (id : Z) : request -> bool := fun r =>
  match r with rq_write_keep_alive i => bool_decide (i = id) | _ => false end.
Definition alive_for (ttl : Z) : response := Response status_OK (msg_keep_alive ttl).
Definition mock_session : session := initial_session (milliseconds 5000) 0.

(** [prepare_mocks_common]: the stream is there at once, and closed at once. *)
Definition starts_session (grant : response) : test := [
  calls preamble;
  answers "session/ka_stream" any true done_ok;
  answers "session/preamble/lease_grant" asks_lease true grant].
Definition closes_stream : test := [
  answers "session/shutdown/writes_done" any true done_ok;
  answers "session/shutdown/finish" any true done_ok].

Definition session_impl_basic : bool :=
  passes mock_session (
    starts_session (lease 1000 42 "") ++ [
    returns no_throw; an_op "session/set_timer/ttl_refresh";
    gives lease_id 1000; gives actual_TTL 42000;
    calls shutdown; try_cancels 1;
    answers "session/set_timer/ttl_refresh" any false done_ok;
    returns no_throw]).

Definition session_impl_lease_error : bool :=
  passes mock_session (
    starts_session (lease 0 0 "something broke") ++ [
    returns throws; no_op "session/set_timer/ttl_refresh"; try_cancels 1]).

(** The mock of the request for the lease throws a [std::string] out of the call that starts it. *)
Definition bad_manners : exn := app_exception 1.
Definition unusual_mock : mocked := fun method name =>
  match method with
  | m_async_rpc => if bool_decide (name = "session/preamble/lease_grant") then Throw bad_manners else Ok tt
  | _ => Ok tt
  end.
Definition session_impl_lease_unusual_exception : bool :=
  let unusual := mocked_grpc_interceptor unusual_mock in
  passes mock_session [
    calls preamble;
    answers "session/ka_stream" any true done_ok;
    returns (throws_this bad_manners); no_op "session/set_timer/ttl_refresh"; try_cancels 1].

Definition session_impl_full_lifecycle : bool :=
  let cycle := [
    answers "session/set_timer/ttl_refresh" any true done_ok;
    answers "session/on_timeout/write" (keeps_alive 1000) true done_ok;
    answers "session/on_write/read" any true (alive_for 24);
    gives actual_TTL 24000; an_op "session/set_timer/ttl_refresh"] in
  passes mock_session (
    starts_session (lease 1000 42 "") ++ [
    returns no_throw; gives lease_id 1000; gives actual_TTL 42000; gives is_active true] ++
    cycle ++ cycle ++ [
    gives is_active true;
    calls revoke;
    answers "session/set_timer/ttl_refresh" any false done_ok;
    answers "session/revoke/lease_revoke" any true done_ok] ++
    closes_stream ++ [
    returns no_throw; gives is_active false;
    calls shutdown; returns no_throw]).

Definition session_impl_race_timer : bool :=
  passes mock_session (
    starts_session (lease 1000 42 "") ++ [
    returns no_throw; gives lease_id 1000; gives actual_TTL 42000; gives is_active true;
    an_op "session/set_timer/ttl_refresh";
    calls revoke; gives is_active false;
    answers "session/set_timer/ttl_refresh" any false done_ok;
    no_op "session/set_timer/ttl_refresh";
    answers "session/revoke/lease_revoke" any true done_ok] ++
    closes_stream ++ [
    returns no_throw; gives is_active false;
    calls shutdown; returns no_throw]).

Definition session_impl_ut : list (string * bool) := [
  ("basic", session_impl_basic);
  ("lease_error", session_impl_lease_error);
  ("lease_unusual_exception", session_impl_lease_unusual_exception);
  ("full_lifecycle", session_impl_full_lifecycle);
  ("race_timer", session_impl_race_timer)].
End session_tests.

(** ** [election_observer_impl] *)

(** The subscriber of the tests: it notes what it is called with. *)
#[local] Instance noting : Observer.Application unit.
Proof.
  refine {| Observer.reactions _ _ _ := ([], None); Observer.iteration m := elements (dom m) |}. done.
Defined.

Section observer_tests.
Context `{TextFormat}.
#[local] Existing Instance test_interceptor.
Import Observer.
#[local] Abbreviation test := (list (step (observer unit) cb)).

Definition reads_prefix (prefix : string) : request -> bool := is_range (fun r => bool_decide (rr_key r = prefix)).
Definition mock_observer (name : string) : observer unit := election_observer_impl name.

Definition starts_observer (prefix : string) (leader : list KeyValue) : test := [
  calls startup;
  answers "election_observer/create_watcher_stream" any true done_ok;
  returns no_throw;
  answers "election_observer/discover_node_with_lowest_creation_revision" (reads_prefix prefix) true (range 0 leader);
  answers "election_observer/create_watcher" any true done_ok].

Definition leads (kv : KeyValue) : test := [
  gives has_leader true; gives current_key (kv_key kv); gives current_value (kv_value kv)].
(** [n] observations so far; the last one of these is [kv]. *)
Definition observed (n : nat) : step (observer unit) cb := expects (fun w => bool_decide (length (reports (self w)) = n)).
Definition last_observed (kv : KeyValue) : step (observer unit) cb :=
  expects (fun w => match reports (self w) with
                    | (_, key, value) :: _ => bool_decide (key = kv_key kv /\ value = kv_value kv)
                    | [] => false
                    end).
Definition subscribes : test := [calls (lift (subscribe tt;; mret tt)); returns no_throw].
Definition unsubscribes : test := [calls (lift (unsubscribe 1)); returns no_throw].
Definition reads_events (name : string) (events : list Event) : step (observer unit) cb :=
  answers name any true (watch_events 3000 events).
(** The destructor cancels the read that is pending. *)
Definition deletes_observer (pending_read : string) : test := [
  calls cleanup; try_cancels 1; answers pending_read any false done_ok; returns no_throw].

Definition election_observer_impl_basic : bool :=
  passes (mock_observer "mock-election") (
    starts_observer "mock-election/" [] ++ [
    answers "election_observer/on_watch_create/watch_read" any true (watch_events 0 []);
    gives has_leader false; raises current_key; raises current_value] ++
    deletes_observer "election_observer/on_watch_read/watch_read").

Definition election_observer_impl_normal_lifecycle : bool :=
  let abc2000 := KV "mock-election/2000" "abc2000" 1000 in
  let v2200 value := KV "mock-election/2200" value 1100 in
  passes (mock_observer "mock-election") (
    subscribes ++ starts_observer "mock-election/" [abc2000] ++ leads abc2000 ++ [
    gives election_name "mock-election"; observed 1; last_observed abc2000;
    reads_events "election_observer/on_watch_create/watch_read" [put abc2000; put (v2200 "abc2200")];
    observed 1;
    reads_events "election_observer/on_watch_read/watch_read" [deleted abc2000; put (v2200 "bcd2200")]] ++
    leads (v2200 "bcd2200") ++ [observed 2; last_observed (v2200 "bcd2200")] ++ unsubscribes ++ [
    reads_events "election_observer/on_watch_read/watch_read" [put (v2200 "cde2200")];
    observed 2] ++ leads (v2200 "cde2200") ++
    deletes_observer "election_observer/on_watch_read/watch_read").

Definition election_observer_impl_late_subscription : bool :=
  let abc2000 := KV "late-subscription/2000" "abc2000" 1000 in
  passes (mock_observer "late-subscription") (
    starts_observer "late-subscription/" [abc2000] ++ leads abc2000 ++ [
    gives election_name "late-subscription"] ++
    subscribes ++ [observed 1; last_observed abc2000] ++ unsubscribes ++ [
    calls (lift shutdown); returns no_throw;
    answers "election_observer/cancel_watcher" any true done_ok] ++
    deletes_observer "election_observer/on_watch_create/watch_read").

Definition election_observer_impl_full_shutdown : bool :=
  let abc2000 := KV "mock-election/2000" "abc2000" 1000 in
  passes (mock_observer "mock-election") (
    subscribes ++ starts_observer "mock-election/" [abc2000] ++ leads abc2000 ++ [
    gives election_name "mock-election"; observed 1; last_observed abc2000] ++ unsubscribes ++ [
    calls (lift shutdown); returns no_throw;
    answers "election_observer/cancel_watcher" any true done_ok] ++
    deletes_observer "election_observer/on_watch_create/watch_read").

(** The destructor of an observer that was not started dereferences a null pointer; the mock does not look at it. *)
Definition election_observer_impl_early_shutdown : bool :=
  passes (mock_observer "mock-election") [
    calls (lift shutdown); returns throws; gives has_leader false;
    calls cleanup; returns (fun r => match r with UB _ => true | _ => false end)].

Definition election_observer_impl_ut : list (string * bool) := [
  ("basic", election_observer_impl_basic);
  ("normal_lifecycle", election_observer_impl_normal_lifecycle);
  ("late_subscription", election_observer_impl_late_subscription);
  ("full_shutdown", election_observer_impl_full_shutdown);
  ("early_shutdown", election_observer_impl_early_shutdown)].
End observer_tests.

(** ** [cluster_membership_impl] *)

Section membership_tests.
#[local] Existing Instance test_interceptor.
Import Membership.
#[local] Abbreviation cluster := (membership exponential_backoff.t).
#[local] Abbreviation test := (list (step cluster cb)).

Definition mock_backoff : outcome exponential_backoff.t := exponential_backoff.make (milliseconds 10) (Duration 24 3600 1).
(** The test, if neither constructor throws. *)
Definition with_cluster (refresh_interval : duration) (t : test) : bool :=
  match mock_backoff with
  | Ok backoff =>
      match make backoff ["localhost:22379"] refresh_interval with
      | Ok c => passes c t
      | _ => false
      end
  | _ => false
  end.

Definition refresh : step cluster cb := answers "cluster_membership/refresh_timer" any true done_ok.
Definition member_list (ok : bool) (s : status) (members : list (list string)) : step cluster cb :=
  answers "cluster_membership/member_list" any ok (Response s (msg_member_list members)).
Definition starts_cluster : test := [calls (lift startup); returns no_throw; refresh].
Definition stops_cluster : test := [calls (lift shutdown); returns no_throw].

Definition cluster_membership_impl_normal_lifecycle : bool :=
  with_cluster (seconds 30) (
    starts_cluster ++ [
    member_list true status_OK [["url0.0"; "url0.1"]; ["url1.0"; "url1.1"]];
    gives current_urls ["url0.0"; "url0.1"; "url1.0"; "url1.1"]] ++
    stops_cluster ++ [answers "cluster_membership/refresh_timer" any false done_ok]).

Definition three_urls : test := [
  member_list true status_OK [["url0.0"; "url0.1"; "url0.2"]];
  gives current_urls ["url0.0"; "url0.1"; "url0.2"]].

Definition cluster_membership_impl_with_failure : bool :=
  with_cluster (seconds 30) (
    starts_cluster ++ three_urls ++ [
    refresh;
    member_list false status_OK [];
    member_list true (Status 4 "too long") [];
    member_list true (Status 2 "something bad") []] ++
    stops_cluster).

Definition cluster_membership_impl_with_empty_list : bool :=
  with_cluster (seconds 30) (
    starts_cluster ++ three_urls ++ [
    refresh;
    member_list true status_OK [];
    gives current_urls ["url0.0"; "url0.1"; "url0.2"];
    member_list true status_OK [["url1.0"; "url1.1"]];
    gives current_urls ["url1.0"; "url1.1"]] ++
    stops_cluster).

Definition cluster_membership_impl_invalid_arguments : bool :=
  match mock_backoff with
  | Ok backoff =>
      match make backoff ["localhost:22379"] (milliseconds 500) with Throw _ => true | _ => false end
  | _ => false
  end.

Definition cluster_membership_impl_ut : list (string * bool) := [
  ("normal_lifecycle", cluster_membership_impl_normal_lifecycle);
  ("with_failure", cluster_membership_impl_with_failure);
  ("with_empty_list", cluster_membership_impl_with_empty_list);
  ("invalid_arguments", cluster_membership_impl_invalid_arguments)].
End membership_tests.

(** What the tests of the session, the observer and the membership expect holds: the lease that is asked for and kept
    alive, its refusal and its revocation in a race with the timer; the leader an observer reports, its
    subscribers in every phase and its shut down; the URLs of the cluster after answers, errors and empty lists. *)
Theorem clients_meet_their_tests `{TextFormat} :
  Forall (fun t => t.2 = true) (session_impl_ut ++ election_observer_impl_ut ++ cluster_membership_impl_ut).
Proof. repeat constructor; by vm_compute. Qed.
