(* ===== verification/LibraryTests.v ===== *)
(** * The tests of the queue and of the small parts

    The tests of gh/detail/mocked_grpc_interceptor_ut.cpp, completion_queue_ut.cpp, base_completion_queue_ut.cpp and
    active_completion_queue_ut.cpp, and those of the functions and classes everything else uses. *)

From S2P Require Import Prelude Runtime PrefixEnd OpCounter RpcPolicies Log Etcd CompletionQueue ActiveQueue Scenario.
Open Scope Z_scope.
Open Scope gh_scope.

(** ** The functors of the tests: they count *)

Record counters := Counters { cnt_ok : Z; cnt_canceled : Z }.
Inductive counting := count_it.
#[export] Instance counters_eq_dec : EqDecision counters.
Proof. solve_decision. Defined.

Definition handle (k : counting) (op : response) (ok : bool) : M (world counters counting) unit :=
  modify_self (fun c => if ok then Counters (cnt_ok c + 1) (cnt_canceled c) else Counters (cnt_ok c) (cnt_canceled c + 1)).
Lemma handle_evolves k op ok : handle k op ok ⊨ (@evolves counters counting).
Proof. unfold handle. respects_solve. Qed.
#[local] Instance counting_client : Client counters counting := {| invoke := handle; invoke_evolves := handle_evolves |}.
#[local] Abbreviation test := (list (step counters counting)).

Definition counted (ok canceled : Z) : step counters counting :=
  expects (fun w => bool_decide (self w = Counters ok canceled)).
(** A call of the queue. *)
Definition on_queue {A} (m : M (world counters counting) A) : step counters counting := calls (lift (m;; mret tt)).
Definition passes_new (t : test) : bool := passes (Counters 0 0) t.

(** ** The mocked interceptor *)

Section mocked_tests.
#[local] Existing Instance test_interceptor.

Definition mocked_grpc_interceptor_deadline_timer : bool := passes_new [
  on_queue (make_relative_timer 100000000 "testing/relative_timer" count_it);
  an_op "testing/relative_timer"; counted 0 0;
  answers "testing/relative_timer" any true done_ok; counted 1 0;
  on_queue (t ← gets_queue now; make_deadline_timer (t + 100000000) "testing/deadline_timer" count_it);
  an_op "testing/deadline_timer"; counted 1 0;
  answers "testing/deadline_timer" any false done_ok; counted 1 1].

Definition grant_request : request := rq_lease_grant 0 5.

Definition mocked_grpc_interceptor_async_rpc : bool := passes_new [
  on_queue (async_rpc_future grant_request "test/Lease/future");
  future_is 1 timeout;
  answers "test/Lease/future" any true
    (Response status_OK (msg_lease_grant {| lg_id := 123456; lg_ttl := 7; lg_error := "" |}));
  future_is 1 ready;
  get_ok 1 (fun r => let g := as_lease_grant (r_message r) in bool_decide (lg_ttl g = 7 /\ lg_id g = 123456))].

Definition mocked_grpc_interceptor_async_rpc_cancelled : bool := passes_new [
  on_queue (async_rpc_future grant_request "test/Lease/future/cancelled");
  answers "test/Lease/future/cancelled" any false done_ok;
  future_is 1 ready; get_throws 1].

Definition mocked_grpc_interceptor_async_rpc_failed : bool := passes_new [
  on_queue (async_rpc_future grant_request "test/Lease/future/failed");
  answers "test/Lease/future/failed" any true (Response (Status 2 "bad stuff") msg_none);
  future_is 1 ready; get_throws 1].

(** A future of a stream operation: completed, then cancelled. *)
Definition future_test (start : string -> M (world counters counting) Z) (name canceled : string) : bool := passes_new [
  on_queue (start name);
  answers name any true done_ok;
  future_is 1 ready; get_ok 1 (fun _ => true);
  on_queue (start canceled);
  answers canceled any false done_ok;
  future_is 2 ready; get_throws 2].
Definition functor_test {A} (start : string -> M (world counters counting) A) (name : string) : bool := passes_new [
  on_queue (start name);
  answers name any true done_ok; counted 1 0].

Definition mocked_grpc_interceptor_create_rdwr_stream_future : bool :=
  future_test (async_create_rdwr_stream_future LeaseKeepAlive)
    "test/CreateLeaseKeepAlive/future" "test/CreateLeaseKeepAlive/future/cancelled".
Definition mocked_grpc_interceptor_create_rdwr_stream_functor : bool :=
  functor_test (fun name => async_create_rdwr_stream LeaseKeepAlive name count_it) "test/CreateLeaseKeepAlive/functor".
Definition mocked_grpc_interceptor_rdwr_stream_write_functor : bool :=
  functor_test (fun name => async_write (rq_write_keep_alive 123456) name count_it) "test/AsyncLeaseKeepAlive::Write/functor".
Definition mocked_grpc_interceptor_rdwr_stream_read_functor : bool :=
  functor_test (fun name => async_read name count_it) "test/AsyncLeaseKeepAlive::Read/functor".
Definition mocked_grpc_interceptor_rdwr_stream_writes_done_functor : bool :=
  functor_test (fun name => async_writes_done name count_it) "test/AsyncLeaseKeepAlive::WriteDone/functor".
Definition mocked_grpc_interceptor_rdwr_stream_writes_done_future : bool :=
  future_test async_writes_done_future
    "test/AsyncLeaseKeepAlive::WritesDone/future" "test/AsyncLeaseKeepAlive::WritesDone/future/canceled".
Definition mocked_grpc_interceptor_rdwr_stream_finish_functor : bool :=
  functor_test (fun name => async_finish name count_it) "test/AsyncLeaseKeepAlive::Finish/functor".
Definition mocked_grpc_interceptor_rdwr_stream_finish_future : bool :=
  future_test async_finish_future
    "test/AsyncLeaseKeepAlive::Finish/future" "test/AsyncLeaseKeepAlive::Finish/future/canceled".

Definition mocked_grpc_interceptor_ut : list (string * bool) := [
  ("deadline_timer", mocked_grpc_interceptor_deadline_timer);
  ("async_rpc", mocked_grpc_interceptor_async_rpc);
  ("async_rpc_cancelled", mocked_grpc_interceptor_async_rpc_cancelled);
  ("async_rpc_failed", mocked_grpc_interceptor_async_rpc_failed);
  ("create_rdwr_stream_future", mocked_grpc_interceptor_create_rdwr_stream_future);
  ("create_rdwr_stream_functor", mocked_grpc_interceptor_create_rdwr_stream_functor);
  ("rdwr_stream_write_functor", mocked_grpc_interceptor_rdwr_stream_write_functor);
  ("rdwr_stream_read_functor", mocked_grpc_interceptor_rdwr_stream_read_functor);
  ("rdwr_stream_writes_done_functor", mocked_grpc_interceptor_rdwr_stream_writes_done_functor);
  ("rdwr_stream_writes_done_future", mocked_grpc_interceptor_rdwr_stream_writes_done_future);
  ("rdwr_stream_finish_functor", mocked_grpc_interceptor_rdwr_stream_finish_functor);
  ("rdwr_stream_finish_future", mocked_grpc_interceptor_rdwr_stream_finish_future)].
End mocked_tests.

(** ** The event loop

    What gRPC reports is given: a cancelled timer as not ok, one that expired as ok; and [shutdown] is called while
    the loop waits. *)

#[local] Abbreviation W := (world counters counting).
(** The iterations that are left when the loop has ended. *)
Definition loop_ends (w : W) (its : list ((W -> W) * next_status)) (unused : nat) (end_ok : W -> bool) : bool :=
  match run its w with
  | (w', Ok (Some rest)) => bool_decide (length rest = unused) && end_ok w'
  | _ => false
  end.
Definition nothing : W -> W := fun w => w.
Definition stop : W -> W := fun w => (shutdown w).1.
Definition new_world : W := World (Counters 0 0) new_queue.

Definition completion_queue_basic : bool :=
  let w := (canceled ← make_relative_timer 5000000 "test-canceled" count_it;
            cancel_timer canceled;;
            make_relative_timer 5000000 "test-timer" count_it) new_world in
  loop_ends w.1 [(nothing, GOT_EVENT 1 false done_ok); (nothing, GOT_EVENT 2 true done_ok); (stop, TIMEOUT); (nothing, TIMEOUT)]
    1 (fun w' => bool_decide (self w' = Counters 1 1)).

(** An event with a null tag, and one with a tag that is not of an operation. *)
Definition completion_queue_error : bool :=
  let w := make_relative_timer 30000000 "alarm-after" count_it new_world in
  loop_ends w.1 [(nothing, GOT_EVENT 0 true done_ok); (nothing, GOT_EVENT 77 true done_ok);
                 (nothing, GOT_EVENT 1 true done_ok); (stop, TIMEOUT); (nothing, TIMEOUT)]
    1 (fun w' => bool_decide (self w' = Counters 1 0)).

Definition base_completion_queue_run_shutdown : bool :=
  loop_ends new_world [(stop, TIMEOUT); (nothing, TIMEOUT)] 1 (fun _ => true).
Definition base_completion_queue_run_timeout : bool :=
  loop_ends new_world [(nothing, TIMEOUT); (nothing, TIMEOUT); (nothing, TIMEOUT); (stop, TIMEOUT); (nothing, TIMEOUT)] 1
    (fun _ => true).

Definition completion_queue_ut : list (string * bool) := [
  ("basic", completion_queue_basic);
  ("error", completion_queue_error);
  ("run_shutdown", base_completion_queue_run_shutdown);
  ("run_timeout", base_completion_queue_run_timeout)].

(** What the tests of the queue expect holds: every kind of operation with a functor or with a future, completed, cancelled or
    failed; the loop with a cancelled timer, with events it does not know, with time outs, and its end. *)
Theorem queue_meets_its_tests : Forall (fun t => t.2 = true) (mocked_grpc_interceptor_ut ++ completion_queue_ut).
Proof. repeat constructor; by vm_compute. Qed.

(** ** Counters, policies, keys, errors and output *)

(** [async_op_counter_ut.cpp]: the thread that ends the last two operations before, around and after the call of
    [block_until_all_done]. *)
Definition async_op_counter_basic : bool :=
  let '(c, b1) := OpCounter.async_op_start OpCounter.new_counter in
  let '(c, b2) := OpCounter.async_op_start c in
  let c := OpCounter.async_op_done (OpCounter.async_op_done c) in
  let '(c, b3) := OpCounter.async_op_start c in
  let '(c, b4) := OpCounter.async_op_start c in
  let c := OpCounter.shutdown c in
  let '(c, b5) := OpCounter.async_op_start c in
  let interleavings := [
    [OpCounter.EDone; OpCounter.EDone; OpCounter.ENotifyNone; OpCounter.EEnter];
    [OpCounter.EDone; OpCounter.EEnter; OpCounter.EDone; OpCounter.ENotify 0; OpCounter.ERecheck 0];
    [OpCounter.EEnter; OpCounter.EDone; OpCounter.EDone; OpCounter.ENotify 0; OpCounter.ERecheck 0]] in
  b1 && b2 && b3 && b4 && negb b5 &&
  forallb (fun es => match OpCounter.run es (OpCounter.Config c [] 0 true false) with
                     | Some s => forallb OpCounter.returned (OpCounter.waiters s) && negb (OpCounter.async_op_start (OpCounter.counter s)).2
                     | None => false
                     end) interleavings.

Definition thrown {A} (r : outcome A) : bool := match r with Throw _ => true | _ => false end.

(** [rpc_policies_ut.cpp] *)
Definition rpc_policies_exponential_backoff : bool :=
  thrown (exponential_backoff.make (seconds 1) (milliseconds 500)) &&
  negb (thrown (exponential_backoff.make (seconds 1) (milliseconds 1500))) &&
  match exponential_backoff.make (milliseconds 10) (milliseconds 50) with
  | Ok backoff => bool_decide ((exponential_backoff.delays 5 backoff).2 = Ok [10; 20; 40; 50; 50])
  | _ => false
  end.
Definition rpc_policies_limited_errors : bool :=
  thrown (limited_errors.make 0) && thrown (limited_errors.make (-1)) && negb (thrown (limited_errors.make 10)) &&
  match limited_errors.make 3 with
  | Ok policy => bool_decide ((limited_errors.failures 0 5 policy).2 = Ok [true; true; true; false; false])
  | _ => false
  end.
(** Ten failures, 200us apart and more: one of them is not retried. *)
Definition rpc_policies_limited_time : bool :=
  let policy := limited_time.make 0 (Duration 200 1 1000000) in
  existsb (fun i => match (limited_time.on_failure (Z.quot (200 * (Z.of_nat i + 1)) 1000) policy).2 with
                    | Ok b => negb b
                    | _ => false
                    end) (seq 0 10).

(** [prefix_end_ut.cpp] *)
Definition prefix_end_basic : bool :=
  bool_decide (prefix_end "foo/" = "foo0") &&
  bool_decide (prefix_end (string_of_list_ascii (to_char <$> [255; 255])) = string_of_list_ascii (to_char <$> [0; 0; 1])) &&
  bool_decide (prefix_end ("ABC" +:+ string_of_list_ascii (to_char <$> [255])) =
               "ABD" +:+ string_of_list_ascii (to_char <$> [0])).

(** [assert_throw_ut.cpp] and [grpc_errors_ut.cpp]; what the library prints for the request of the test is given. *)
Definition assert_throw_basic : bool :=
  thrown (assert_throw_impl (W:=unit) "foo" "bar()" "bar.cc" 20 tt).2 &&
  thrown (GH_ASSERT_THROW (W:=unit) false "false" "TestBody" "assert_throw_ut.cpp" 11 tt).2 &&
  negb (thrown (GH_ASSERT_THROW (W:=unit) true "true" "TestBody" "assert_throw_ut.cpp" 12 tt).2).
Definition id_42 : string := "ID: 42" +:+ String "010" "".
Definition grpc_errors_check_grpc_status_ok : bool :=
  negb (thrown (check_grpc_status (W:=unit) status_OK "test" [] tt).2) &&
  negb (thrown (check_grpc_status (W:=unit) status_OK "test" [" in iteration="; pretty 42; ", request="; ""] tt).2).
Definition grpc_errors_check_grpc_status_error_annotations : bool :=
  bool_decide ((check_grpc_status (W:=unit) (Status 2 "bad thing") "test" [" request="; id_42] tt).2 =
    Throw (runtime_error ("test grpc error: bad thing [2] request=ID: 42" +:+ String "010" ""))).
Definition grpc_errors_check_grpc_status_error_bare : bool :=
  bool_decide ((check_grpc_status (W:=unit) (Status 2 "bad thing") "test" [] tt).2 =
    Throw (runtime_error "test grpc error: bad thing [2]")).

(** [stream_future_status_ut.cpp] and [null_stream_ut.cpp] *)
Definition stream_future_status_basic : bool :=
  let print os x := match os with Ok os => print_future_status os x | r => r end in
  let space os := match os with Ok os => Ok (os +:+ " ") | r => r end in
  bool_decide (print (space (print (space (print (Ok "") deferred)) ready)) timeout = Ok "[deferred] [ready] [timeout]") &&
  thrown (print_future_status "" no_enumerator).

Definition small_tests : list (string * bool) := [
  ("async_op_counter, basic", async_op_counter_basic);
  ("rpc_policies, exponential_backoff", rpc_policies_exponential_backoff);
  ("rpc_policies, limited_errors", rpc_policies_limited_errors);
  ("rpc_policies, limited_time", rpc_policies_limited_time);
  ("prefix_end, basic", prefix_end_basic);
  ("assert_throw, basic", assert_throw_basic);
  ("grpc_errors, check_grpc_status_ok", grpc_errors_check_grpc_status_ok);
  ("grpc_errors, check_grpc_status_error_annotations", grpc_errors_check_grpc_status_error_annotations);
  ("grpc_errors, check_grpc_status_error_bare", grpc_errors_check_grpc_status_error_bare);
  ("stream_future_status, basic", stream_future_status_basic)].

(** ** The log *)

(** The sinks append to vectors, and do not throw. *)
#[local] Instance vectors : Log.Sinks nat := {| Log.sink_throws _ _ _ := None |}.
#[local] Existing Instance Log.severity_eq_dec.
#[local] Abbreviation lg := (Log.log nat).

(** [GH_LOG_I(level, lg) << text], which ends in two rounds. *)
Definition statement (level : Log.severity) (text : M lg string) : M lg bool :=
  Log.GH_LOG_I 2 level "TestBody" "log_ut.cpp" 0 text.
(** The messages written from [old] on, the first one first: the sink, the level, and how the text starts. *)
Definition logged (old : nat) (expected : list (nat * Log.severity * string)) (r : lg * outcome bool) : bool :=
  let '(l, r) := r in
  let new := take (length (Log.written l) - old) (Log.written l) in
  match r with Ok ended => ended | _ => false end &&
  bool_decide (length new = length expected) &&
  forallb (fun p => bool_decide (p.1.1 = p.2.1) && String.prefix p.2.2 p.1.2) (zip (reverse new) expected).

Definition log_basic : bool :=
  logged 0 [(0%nat, Log.error, "[error] testing 123 42")]
    ((statement Log.error (mret "foo42");; Log.add_sink 0%nat;; statement Log.error (mret "testing 123 42")) Log.new_log).

(** The text of a disabled statement is not evaluated: it would throw. *)
Definition log_run_time_disable : bool :=
  let r := (Log.add_sink 0%nat;; statement Log.info (mret "testing 123 42")) Log.new_log in
  logged 0 [(0%nat, Log.info, "[info] testing 123 42")] r &&
  logged 1 [] ((Log.set_min_severity Log.warning;; statement Log.info (throw (runtime_error "evaluated"))) r.1).

Definition log_compile_time_disable : bool :=
  logged 0 []
    ((Log.add_sink 0%nat;; Log.set_min_severity Log.trace;; statement Log.debug (throw (runtime_error "evaluated")))
       Log.new_log).

Definition log_instance_basic : bool :=
  let lg := (Log.instance None).2 in
  logged 0 [(0%nat, Log.info, "[info] testing 123 42")]
    ((Log.add_sink 0%nat;; b ← statement Log.info (mret "testing 123 42"); Log.clear_sinks;; mret b) lg).

(** What the second sink puts before the message is its own. *)
Definition log_multiple_sinks : bool :=
  logged 0 [(0%nat, Log.error, "[error] testing 123 42"); (1%nat, Log.error, "[error] testing 123 42")]
    ((statement Log.error (mret "foo42");; Log.add_sink 0%nat;; Log.add_sink 1%nat;;
      statement Log.error (mret "testing 123 42")) Log.new_log).

Definition log_logger_disabled : bool :=
  let logger := Log.Disabled Log.null in
  negb (Log.disabled_is_open logger) &&
  bool_decide ((Log.written ((Log.add_sink 0%nat;; Log.disabled_write_to logger) (Log.new_log : lg)).1) = []).

Definition log_sink_basic : bool :=
  bool_decide (Log.written (Log.sink_log 0%nat Log.info "testing 1 2 3" (Log.new_log : lg)).1 =
    [(0%nat, Log.info, "testing 1 2 3")]).

Definition log_severity_base : bool :=
  Log.severity_ltb Log.LOWEST Log.HIGHEST &&
  bool_decide (String.concat " " (Log.print_severity <$> [Log.trace; Log.debug; Log.info; Log.notice; Log.warning;
    Log.error; Log.critical; Log.alert; Log.fatal]) = "trace debug info notice warning error critical alert fatal").

Definition log_ut : list (string * bool) := [
  ("basic", log_basic);
  ("run_time_disable", log_run_time_disable);
  ("compile_time_disable", log_compile_time_disable);
  ("instance_basic", log_instance_basic);
  ("multiple_sinks", log_multiple_sinks);
  ("logger_disabled", log_logger_disabled);
  ("log_sink, basic", log_sink_basic);
  ("log_severity, base", log_severity_base)].

(** ** [active_completion_queue_ut.cpp]

    Queues and threads are numbered; a thread ends when its queue was shut down. *)

#[local] Abbreviation shared := ActiveQueue.shared.
Definition no_queues : shared := ActiveQueue.Shared ∅ ∅.
(** The code of a block, while the threads of the list end. *)
Definition block_ends (ends : list Z) (block : P shared bool) : bool :=
  match ActiveQueue.run_others (ActiveQueue.ev_finish <$> ends) (block no_queues) with
  | Finished w (Ok b) => b && bool_decide (ActiveQueue.running w = ∅)
  | _ => false
  end.

Definition active_completion_queue_basic : bool :=
  block_ends [1] (
    shq ← lift (ActiveQueue.make 1 1);
    ActiveQueue.destroy shq;;
    mret true) &&
  block_ends [1] (
    orig ← lift (ActiveQueue.make 1 1);
    let '(copy, orig) := ActiveQueue.move orig in
    let b := negb (ActiveQueue.has_queue orig) && ActiveQueue.has_queue copy in
    ActiveQueue.destroy copy;;
    ActiveQueue.destroy orig;;
    mret b) &&
  block_ends [2; 1] (
    orig ← lift (ActiveQueue.make 1 1);
    copy ← lift (ActiveQueue.make 2 2);
    let b := ActiveQueue.has_queue orig && ActiveQueue.has_queue copy in
    '(copy, orig) ← ActiveQueue.move_assign copy orig;
    let b' := negb (ActiveQueue.has_queue orig) && ActiveQueue.has_queue copy in
    ActiveQueue.destroy copy;;
    ActiveQueue.destroy orig;;
    mret (b && b')) &&
  block_ends [1] (
    '(q, t) ← (lift (a ← ActiveQueue.make 1 1; mret (ActiveQueue.queue_ a, ActiveQueue.thread_ a)));
    let owner := ActiveQueue.make_from q t in
    let b := ActiveQueue.has_queue owner in
    ActiveQueue.destroy owner;;
    mret b).

(** What the tests of the small parts expect holds: the counter and who waits for it, the delays and the retries of the
    policies, the end of a prefix, assertions and errors of gRPC, the messages that reach the sinks, and the
    owner of a queue in all its moves. *)
Theorem parts_meet_their_tests :
  Forall (fun t => t.2 = true) (small_tests ++ log_ut ++ [("active_completion_queue, basic", active_completion_queue_basic)]).
Proof. repeat constructor; by vm_compute. Qed.
