(* ===== verification/Script.v ===== *)
(** * Programs that talk to their surroundings

    The command line programs of the repository (src/experiments/, src/examples/) as interaction trees: each
    thing they ask of the operating system, of etcd or of the library is an event, and a loop
    that polls may go on for ever. A program is run in an environment, which answers
    each event from what happened so far; [wp] is the total-correctness judgement of these
    runs, and [run] evaluates them. *)

From ITree Require Import ITree ITreeFacts Events.State Events.StateFacts.
From S2P Require Import Prelude.
Open Scope Z_scope.
Open Scope gh_scope.

(** What a program asks for, and the type of each answer. *)
Class Effects (Q : Type) := answer : Q -> Type.

Variant callE {Q : Type} `{Effects Q} : Type -> Type := call (q : Q) : callE (answer q).
Arguments callE Q {_} _.

(** Code with the variables [S]; they keep their values when an exception propagates. *)
Definition script (Q : Type) `{Effects Q} (S A : Type) : Type := S -> itree (callE Q) (S * outcome A).

Section script.
Context {Q : Type} `{Effects Q} {S : Type}.
#[local] Abbreviation script := (script Q S).

(** What follows on a normal return. *)
Definition and_then {A B} (f : A -> script B) (x : S * outcome A) : itree (callE Q) (S * outcome B) :=
  match x with
  | (s, Ok a) => f a s
  | (s, Throw e) => Ret (s, Throw e)
  | (s, UB why) => Ret (s, UB why)
  end.

#[export] Instance script_ret : MRet script := fun A a s => Ret (s, Ok a).
#[export] Instance script_bind : MBind script := fun A B f m s => ITree.bind (m s) (and_then f).

Definition ask (q : Q) : script (answer q) := fun s =>
  ITree.bind (ITree.trigger (call q)) (fun a => Ret (s, Ok a)).

(** Code that asks for nothing. *)
Definition local {A} (m : M S A) : script A := fun s => Ret (m s).

(** A call that returns or throws. *)
Definition returned {A} (o : outcome A) : script A := fun s => Ret (s, o).

Definition script_catch {A} (m : script A) (h : exn -> script A) : script A := fun s =>
  ITree.bind (m s) (fun x =>
    match x with
    | (s', Throw e) => h e s'
    | _ => Ret x
    end).

(** A local object: its destructor runs when [m] returns and when it throws. *)
Definition in_scope {A} (m : script A) (destructor : script unit) : script A := fun s =>
  ITree.bind (m s) (fun x =>
    match x with
    | (s', UB why) => Ret (s', UB why)
    | (s', r) => ITree.bind (destructor s') (and_then (fun _ => returned r))
    end).

(** [while (cond) body] *)
Definition while (cond : script bool) (body : script unit) : script unit :=
  ITree.iter (fun s =>
    ITree.bind (cond s) (fun x =>
      match x with
      | (s1, Ok true) => ITree.bind (body s1) (fun y =>
          Ret (match y with (s2, Ok _) => inl s2 | _ => inr y end))
      | (s1, Ok false) => Ret (inr (s1, Ok tt))
      | (s1, Throw e) => Ret (inr (s1, Throw e))
      | (s1, UB why) => Ret (inr (s1, UB why))
      end)).
End script.

(** ** Environments *)

(** What happened: every call with its answer. *)
Definition entry (Q : Type) `{Effects Q} : Type := {q : Q & answer q}.
Definition history (Q : Type) `{Effects Q} : Type := list (entry Q).
(** An environment answers a call from what happened before. Every run of a program is its run in one. *)
Definition environment (Q : Type) `{Effects Q} : Type := forall q : Q, history Q -> answer q.

Section runs.
Context {Q : Type} `{Effects Q} (env : environment Q).
Implicit Types h new : history Q.

Definition answered (q : Q) (a : answer q) : entry Q := existT q a.

Definition answer_call : callE Q ~> Monads.stateT (history Q) (itree void1) := fun _ c h =>
  match c with call q => Ret ((h ++ [answered q (env q h)])%list, env q h) end.

(** The run of [t] after [h] ends with the history [h'] and the result [r]. *)
Definition returns {R} (t : itree (callE Q) R) h h' (r : R) : Prop :=
  eutt eq (interp_state answer_call t h) (Ret (h', r)).

Lemma returns_ret {R} (r : R) h : returns (Ret r) h h r.
Proof. unfold returns. rewrite interp_state_ret. reflexivity. Qed.

Lemma returns_bind {R U} (t : itree (callE Q) R) (k : R -> itree (callE Q) U) h h1 h2 r u :
  returns t h h1 r -> returns (k r) h1 h2 u -> returns (ITree.bind t k) h h2 u.
Proof. unfold returns. intros H1 H2. rewrite interp_state_bind, H1, bind_ret_l. exact H2. Qed.

Lemma returns_call q h : returns (ITree.trigger (call q)) h (h ++ [answered q (env q h)]) (env q h).
Proof. unfold returns. rewrite interp_state_trigger. cbn. reflexivity. Qed.

Lemma returns_iter {I R} (body : I -> itree (callE Q) (I + R)) i h h1 h2 i' r :
  returns (body i) h h1 (inl i') -> returns (ITree.iter body i') h1 h2 r ->
  returns (ITree.iter body i) h h2 r.
Proof.
  intros H1 H2. unfold returns. rewrite unfold_iter. eapply returns_bind; [exact H1|].
  cbn. unfold returns. rewrite interp_state_tau, tau_eutt. exact H2.
Qed.
Lemma returns_iter_stop {I R} (body : I -> itree (callE Q) (I + R)) i h h1 r :
  returns (body i) h h1 (inr r) -> returns (ITree.iter body i) h h1 r.
Proof.
  intros H1. unfold returns. rewrite unfold_iter. eapply returns_bind; [exact H1|]. apply returns_ret.
Qed.

(** The result of a run is the only one. *)
Lemma returns_unique {R} (t : itree (callE Q) R) h h1 h2 r1 r2 :
  returns t h h1 r1 -> returns t h h2 r2 -> h1 = h2 /\ r1 = r2.
Proof. unfold returns. intros H1 H2. rewrite H1 in H2. apply eutt_inv_Ret in H2. by injection H2. Qed.

(** Evaluation, with fuel for the steps. *)
Fixpoint run {R} (fuel : nat) (t : itree (callE Q) R) h : option (history Q * R) :=
  match fuel with
  | O => None
  | Datatypes.S n =>
      match observe t with
      | RetF r => Some (h, r)
      | TauF t => run n t h
      | @VisF _ _ _ X c k =>
          match c in callE _ X return (X -> itree (callE Q) R) -> option (history Q * R) with
          | call q => fun k => run n (k (env q h)) (h ++ [answered q (env q h)])
          end k
      end
  end.

Lemma run_returns {R} n (t : itree (callE Q) R) h h' r : run n t h = Some (h', r) -> returns t h h' r.
Proof.
  revert t h. induction n as [|n IH]; intros t h; cbn [run]; [done|]. unfold returns.
  destruct (observe t) as [x|t'|X c k] eqn:E.
  - intros [= -> ->]. rewrite (itree_eta t), E. apply returns_ret.
  - intros Hr%IH. rewrite (itree_eta t), E, tau_eutt. exact Hr.
  - destruct c as [q]. intros Hr%IH. rewrite (itree_eta t), E, interp_state_vis. cbn.
    rewrite bind_ret_l, tau_eutt. exact Hr.
Qed.

(** ** The judgement

    In every run that starts with the variables [s] and the history [h] the code ends; what it leaves in the
    variables, what happened meanwhile and its outcome satisfy [P]. *)

Context {S : Type}.
Implicit Types s : S.

Definition wp {A} (m : script Q S A) s h (P : S -> history Q -> outcome A -> Prop) : Prop :=
  exists s' new r, returns (m s) h (h ++ new) (s', r) /\ P s' new r.

Lemma wp_mono {A} (m : script Q S A) s h (P P' : S -> history Q -> outcome A -> Prop) :
  wp m s h P -> (forall s' new r, P s' new r -> P' s' new r) -> wp m s h P'.
Proof. intros (s' & new & r & Hr & HP) Hi. exists s', new, r. auto. Qed.

Lemma wp_returned {A} (o : outcome A) s h (P : S -> history Q -> outcome A -> Prop) :
  P s [] o -> wp (returned o) s h P.
Proof. intros HP. exists s, [], o. split; [rewrite app_nil_r; apply returns_ret|done]. Qed.
Lemma wp_ret {A} (a : A) s h (P : S -> history Q -> outcome A -> Prop) :
  P s [] (Ok a) -> wp (mret a) s h P.
Proof. apply wp_returned. Qed.
Lemma wp_local {A} (m : M S A) s h (P : S -> history Q -> outcome A -> Prop) :
  P (m s).1 [] (m s).2 -> wp (local m) s h P.
Proof.
  intros HP. exists (m s).1, [], (m s).2. split; [|done]. rewrite app_nil_r. unfold local.
  destruct (m s). apply returns_ret.
Qed.
Lemma wp_ask q s h (P : S -> history Q -> outcome (answer q) -> Prop) :
  P s [answered q (env q h)] (Ok (env q h)) -> wp (ask q) s h P.
Proof.
  intros HP. eexists s, _, _. split; [|exact HP]. unfold ask.
  eapply returns_bind; [apply returns_call|apply returns_ret].
Qed.

(** What [P] says of the rest, after [n1] happened. *)
Definition after {A} (n1 : history Q) (P : S -> history Q -> outcome A -> Prop) :
    S -> history Q -> outcome A -> Prop := fun s n2 r => P s (n1 ++ n2)%list r.

Lemma wp_bind {A B} (m : script Q S A) (f : A -> script Q S B) s h P :
  wp m s h (fun s1 n1 r =>
    match r with
    | Ok a => wp (f a) s1 (h ++ n1) (after n1 P)
    | Throw e => P s1 n1 (Throw e)
    | UB why => P s1 n1 (UB why)
    end) -> wp (m ≫= f) s h P.
Proof.
  intros (s1 & n1 & r & Hr & Hk). destruct r as [a|e|why].
  - destruct Hk as (s2 & n2 & r2 & Hr2 & HP). exists s2, (n1 ++ n2), r2. split; [|exact HP].
    rewrite app_assoc. eapply returns_bind; [exact Hr|exact Hr2].
  - exists s1, n1, (Throw e). split; [|exact Hk]. eapply returns_bind; [exact Hr|apply returns_ret].
  - exists s1, n1, (UB why). split; [|exact Hk]. eapply returns_bind; [exact Hr|apply returns_ret].
Qed.

Lemma wp_catch {A} (m : script Q S A) (c : exn -> script Q S A) s h P :
  wp m s h (fun s1 n1 r =>
    match r with
    | Throw e => wp (c e) s1 (h ++ n1) (after n1 P)
    | _ => P s1 n1 r
    end) -> wp (script_catch m c) s h P.
Proof.
  intros (s1 & n1 & r & Hr & Hk). destruct r as [a|e|why].
  - eexists s1, n1, _. split; [|exact Hk]. eapply returns_bind; [exact Hr|apply returns_ret].
  - destruct Hk as (s2 & n2 & r2 & Hr2 & HP). exists s2, (n1 ++ n2), r2. split; [|exact HP].
    rewrite app_assoc. eapply returns_bind; [exact Hr|exact Hr2].
  - eexists s1, n1, _. split; [|exact Hk]. eapply returns_bind; [exact Hr|apply returns_ret].
Qed.

Lemma wp_scope {A} (m : script Q S A) (d : script Q S unit) s h P :
  wp m s h (fun s1 n1 r =>
    match r with
    | UB why => P s1 n1 (UB why)
    | _ => wp (d;; returned r) s1 (h ++ n1) (after n1 P)
    end) -> wp (in_scope m d) s h P.
Proof.
  intros (s1 & n1 & r & Hr & Hk). destruct r as [a|e|why].
  1,2: destruct Hk as (s2 & n2 & r2 & Hr2 & HP); exists s2, (n1 ++ n2), r2; split; [|exact HP];
    rewrite app_assoc; eapply returns_bind; [exact Hr|exact Hr2].
  eexists s1, n1, _. split; [|exact Hk]. eapply returns_bind; [exact Hr|apply returns_ret].
Qed.

(** A loop whose condition and body return, and that comes to an end: [n] bounds the rounds. *)
Lemma wp_while (cond : script Q S bool) (body : script Q S unit) (I : nat -> S -> history Q -> Prop)
    n s h0 n0 (P : S -> history Q -> outcome unit -> Prop) :
  I n s n0 ->
  (forall n s n0, I n s n0 ->
    wp cond s (h0 ++ n0) (fun s1 n1 r =>
      match r with
      | Ok true => exists n', n = Datatypes.S n' /\
          wp body s1 (h0 ++ n0 ++ n1) (fun s2 n2 r =>
            match r with
            | Ok _ => I n' s2 (n0 ++ n1 ++ n2)
            | Throw e => P s2 (n0 ++ n1 ++ n2) (Throw e)
            | UB why => P s2 (n0 ++ n1 ++ n2) (UB why)
            end)
      | Ok false => P s1 (n0 ++ n1) (Ok tt)
      | Throw e => P s1 (n0 ++ n1) (Throw e)
      | UB why => P s1 (n0 ++ n1) (UB why)
      end)) ->
  wp (while cond body) s (h0 ++ n0) (after n0 P).
Proof.
  intros HI Hstep. revert s n0 HI. induction n as [n IH] using lt_wf_ind. intros s n0 HI.
  destruct (Hstep n s n0 HI) as (s1 & n1 & r & Hr & Hk).
  destruct r as [[]|e|why]; [|exists s1, n1; eexists; split; [|exact Hk];
    apply returns_iter_stop; eapply returns_bind; [exact Hr|apply returns_ret]..].
  destruct Hk as (n' & -> & s2 & n2 & r2 & Hr2 & Hk). rewrite app_assoc in Hr2.
  destruct r2 as [[]|e|why]; [|exists s2, (n1 ++ n2); eexists; split; [|exact Hk];
    rewrite app_assoc; apply returns_iter_stop; eapply returns_bind; [exact Hr|];
    eapply returns_bind; [exact Hr2|apply returns_ret]..].
  destruct (IH n' ltac:(lia) s2 (n0 ++ n1 ++ n2) Hk) as (s3 & n3 & r3 & Hr3 & HP).
  exists s3, (n1 ++ n2 ++ n3), r3. split; [|unfold after in HP |- *; by rewrite <- ?app_assoc in HP].
  eapply (returns_iter _ _ _ (h0 ++ n0 ++ n1 ++ n2) _ s2);
    [|revert Hr3; by rewrite <- !app_assoc].
  eapply returns_bind; [exact Hr|]. cbv iota beta.
  apply (returns_bind _ _ _ (h0 ++ n0 ++ n1 ++ n2) _ (s2, Ok tt)); [|apply returns_ret].
  revert Hr2. by rewrite <- !app_assoc.
Qed.
End runs.
