(* ===== verification/Programs.v ===== *)
(** * What the command line programs ask of their surroundings

    The calls that the programs of src/experiments/ and src/examples/ make: to the terminal, to the
    operating system, to etcd through synchronous stubs (generated code), and to the classes of
    the library, whose members are modelled in the other files. *)

From S2P Require Import Prelude Runtime Etcd RpcPolicies Script.
Open Scope Z_scope.
Open Scope gh_scope.

(** ** Messages that only the programs use *)

Record StatusResponse := { st_member_id : Z; st_leader : Z }.
(** [PutRequest]: a lease of 0 is no lease. *)
Record PutRequest := { pq_key : string; pq_value : string; pq_lease : Z }.
Record CompactionRequest := { cq_revision : Z; cq_physical : bool }.

(** ** Calls *)

Inductive ostream := cout | cerr.
(** What an expression with [<<] writes: text, a message, the [what()] of an exception, an end of line. *)
Inductive piece :=
  | str (s : string)
  | int (z : Z)
  | proto (m : message)
  | proto_compaction (revision : Z)
  | what (e : exn)
  | endl.

(** The log sinks the programs install: they write each line to [std::cerr], all or those above [info]. *)
Inductive sink := log_all | log_above_info.

Inductive signal := SIGINT | SIGTERM.

Inductive effect :=
  (* the terminal *)
  | print (os : ostream) (text : list piece)
  | print_checked (text : list piece)
  | getline
  (* the operating system *)
  | system_clock_now
  | sleep_for (ms : Z)
  | std_signal (sig : signal)
  | interrupted
  (* gRPC and etcd *)
  | CreateChannel (target : string)
  | GetState (channel : Z)
  | Status (channel deadline : Z)
  | LeaseGrant (channel deadline ttl : Z)
  | Txn (channel : Z) (deadline : option Z) (r : TxnRequest)
  | Put (channel : Z) (deadline : option Z) (r : PutRequest)
  | DeleteRange (channel : Z) (deadline : option Z) (key : string)
  | Compact (channel : Z) (r : CompactionRequest)
  | open_watch (channel : Z)
  | stream_Write (r : WatchRequest)
  | stream_Read (old : WatchResponse)
  (* the library *)
  | add_sink (s : sink)
  | make_queue
  | destroy_queue
  | make_session (channel ttl_ms : Z)
  | session_lease_id
  | session_revoke
  | destroy_session
  | make_leader_election (channel : Z) (election_name value : string) (ttl_ms : Z)
  | campaign
  | wait_for (ms : Z)
  | future_get
  | resign
  | destroy_leader_election
  | make_watch_election (channel : Z) (election_name : string)
  | subscribe
  | startup
  | unsubscribe (token : Z)
  | shutdown
  | destroy_watch_election.

(** The answers. [GetState]: whether the channel is ready; [print_checked]: the message of the exception of a
    stream that was told to throw; [stream_Read]: whether it succeeded, and the
    message after it; [interrupted]: the flag that the signal handler sets. *)
#[export] Instance effects : Effects effect := fun q =>
  match q with
  | print _ _ | sleep_for _ | std_signal _ | open_watch _ | add_sink _ => unit
  | print_checked _ => option string
  | getline => string + string
  | system_clock_now | CreateChannel _ | session_lease_id => Z
  | interrupted | GetState _ | stream_Write _ => bool
  | Status _ _ => status * StatusResponse
  | LeaseGrant _ _ _ => status * LeaseGrantResponse
  | Txn _ _ _ => status * TxnResponse
  | Put _ _ _ => status
  | DeleteRange _ _ _ | Compact _ _ => status * Z
  | stream_Read _ => bool * WatchResponse
  | make_queue | make_session _ _ | session_revoke | make_leader_election _ _ _ _ | campaign | resign
  | make_watch_election _ _ | startup | unsubscribe _ | shutdown => outcome unit
  | future_get => outcome bool
  | subscribe => outcome Z
  | wait_for _ => future_status
  | destroy_queue | destroy_session | destroy_leader_election | destroy_watch_election => unit
  end%type.

Section programs.
Context {S : Type}.
#[local] Abbreviation prog := (script effect S).

(** A member of the library: it returns or throws. *)
Definition member {A} (m : prog (outcome A)) : prog A := o ← m; returned o.

Definition std_endl (os : ostream) (text : list piece) : prog unit := ask (print os (text ++ [endl])).

(** Output to [std::cout] after [exceptions(failbit | eofbit)]. *)
Definition cout_checked (text : list piece) : prog unit :=
  failed ← ask (print_checked (text ++ [endl]));
  match failed with
  | Some why => returned (Throw (runtime_error why))
  | None => mret tt
  end.
(** [std::getline(std::cin, input)], which throws at the end of the input. *)
Definition cin_getline : prog string :=
  line ← ask getline;
  match line with
  | inl line => mret line
  | inr why => returned (Throw (runtime_error why))
  end.

(** An exception of the application may be of any type. *)
Definition is_std_exception (e : exn) : bool := match e with app_exception _ => false | _ => true end.

(** [int main(...) try { ... } catch (std::exception const& ex) { ... }]: the exit code. *)
Definition main_try (m : prog Z) : prog Z :=
  script_catch m (fun ex =>
    if is_std_exception ex then
      std_endl cerr [str "std::exception raised: "; what ex];; mret 1
    else returned (Throw ex)).

(** [argv[i]] *)
Definition argv_at (argv : list string) (i : nat) : prog string :=
  match argv !! i with
  | Some a => mret a
  | None => returned (UB "argv read past its end")
  end.

(** [system_clock::now() + 50ms] *)
Definition deadline_50ms : prog Z :=
  t ← ask system_clock_now;
  local (int64 (t + 50 * 1000000)).
End programs.

(** ** Symbolic runs *)

(** One step of a run: what is asked for is answered by the environment, and its answer is not looked at. *)
Ltac wp_step :=
  lazymatch goal with
  | |- wp _ (_ ≫= _) _ _ _ => apply wp_bind
  | |- wp _ (mret _) _ _ _ => apply wp_ret
  | |- wp _ (returned _) _ _ _ => apply wp_returned
  | |- wp _ (local _) _ _ _ => apply wp_local; cbn [get modify gets fst snd]
  | |- wp ?env (ask ?q) ?s ?h ?P => refine (wp_ask env q s h P _)
  | |- wp _ (script_catch _ _) _ _ _ => apply wp_catch
  | |- wp _ (in_scope _ _) _ _ _ => apply wp_scope
  end; cbv beta iota; unfold after; cbn [app].

(** An answer that does not matter. *)
Lemma wp_any {S} (env : environment effect) q (s : S) h (P : S -> history effect -> outcome (answer q) -> Prop) :
  (forall a, P s [answered q a] (Ok a)) -> wp env (ask q) s h P.
Proof. intros HP. apply wp_ask, HP. Qed.
Ltac wp_skip :=
  wp_step;
  lazymatch goal with |- wp ?env (ask ?q) ?s ?h ?P => refine (wp_any env q s h P _) end;
  intros ?; cbv beta iota; unfold after; cbn [app].

Lemma wp_main_try {S} env (m : script effect S Z) (s : S) h (P : S -> history effect -> outcome Z -> Prop) :
  wp env m s h (fun s' new r =>
    match r with
    | Throw e => is_std_exception e = true /\ forall text a, P s' (new ++ [answered (print cerr text) a]) (Ok 1)
    | _ => P s' new r
    end) -> wp env (main_try m) s h P.
Proof.
  intros Hm. unfold main_try, std_endl. wp_step. eapply wp_mono; [exact Hm|].
  intros s' new [c|e|why] Hr; [done| |done]. destruct Hr as [-> Hr]. repeat wp_step. apply Hr.
Qed.

(** A return, or an exception that [main] catches. *)
Definition fine {A} (r : outcome A) : bool :=
  match r with Ok _ => true | Throw e => is_std_exception e | UB _ => false end.

(** The outcome of a program in an environment. *)
Definition exits {S A} (env : environment effect) (m : script effect S A) (s : S) (r : outcome A) : Prop :=
  exists s' new, returns env (m s) [] new (s', r).
Lemma exits_run {S A} n env (m : script effect S A) s r :
  snd <$> (snd <$> run env n (m s) []) = Some r -> exits env m s r.
Proof.
  destruct (run env n (m s) []) as [[h [s' r']]|] eqn:E; [|done]. intros [= ->].
  exists s', h. by apply (run_returns env n).
Qed.

(** A run and what a theorem says of it. *)
Lemma exits_wp {S A} env (m : script effect S A) s r (P : S -> history effect -> outcome A -> Prop) :
  exits env m s r -> wp env m s [] P -> exists s' new, P s' new r.
Proof.
  intros (s1 & h1 & H1) (s2 & h2 & r2 & H2 & HP). cbn [app] in H2.
  destruct (returns_unique env _ _ _ _ _ _ H1 H2) as [-> [= -> ->]]. by exists s2, h2.
Qed.

(** A concrete environment: two members, the second of which leads; etcd accepts everything but the value that must not get through. *)
Definition demo_env : environment effect := fun q =>
  match q with
  | print _ _ | sleep_for _ | std_signal _ | open_watch _ | add_sink _ => fun _ => tt
  | print_checked _ => fun _ => None
  | getline => fun _ => inl ""
  | system_clock_now => fun _ => 1500000000000000000
  | CreateChannel target => fun _ => if bool_decide (target = "a") then 1 else 2
  | session_lease_id => fun _ => 161
  | interrupted => fun _ => true
  | GetState _ => fun _ => false
  | stream_Write _ => fun _ => true
  | Status channel _ => fun _ => (status_OK, {| st_member_id := channel; st_leader := 2 |})
  | LeaseGrant _ _ ttl => fun _ => (status_OK, {| lg_id := 161; lg_ttl := ttl; lg_error := "" |})
  | Txn _ _ _ => fun _ => (status_OK, {| tx_revision := 7; tx_succeeded := true; tx_responses := [] |})
  | Put _ _ r => fun _ =>
      if bool_decide (pq_value r = "node1:2") then Runtime.Status 14 "unavailable" else status_OK
  | DeleteRange _ _ _ => fun _ => (status_OK, 14)
  | Compact _ _ => fun _ => (status_OK, 16)
  | stream_Read _ => fun _ => (true, {| wr_watch_id := 0; wr_created := true; wr_canceled := true;
      wr_compact_revision := 14; wr_events := [{| ev_type := PUT; ev_kv := KeyValue_default;
      ev_prev_kv := KeyValue_default |}] |})
  | make_queue | make_session _ _ | session_revoke | make_leader_election _ _ _ _ | campaign | resign
  | make_watch_election _ _ | startup | unsubscribe _ | shutdown => fun _ => Ok tt
  | future_get => fun _ => Ok true
  | subscribe => fun _ => Ok 1
  | wait_for _ => fun _ => ready
  | destroy_queue | destroy_session | destroy_leader_election | destroy_watch_election => fun _ => tt
  end.
