(* ===== verification/Experiments.v ===== *)
(** * The experiments (src/experiments/)

    [cluster_failure_behavior]: a client that picks the leader among the members of a
    cluster, and a script that expects five updates to fail; [watcher_and_compaction]: a script that shows
    what a watch loses to a compaction. The C++ driver of the first is a person or a Python script. *)

From S2P Require Import Prelude Runtime PrefixEnd Etcd RpcPolicies Script Programs.
Open Scope Z_scope.
Open Scope gh_scope.

(** A put request under the condition that the key does not exist. *)
Definition create_request_of (key value : string) (lease_id : Z) : TxnRequest := {|
  tq_compare := [{| cmp_key := key; cmp_create_revision := 0 |}];
  tq_success := [request_put key value lease_id];
  tq_failure := []
|}.

(** ** cluster_failure_behavior.cpp *)

Module ClusterFailure.

(** [gh::etcd_client] of this file. *)
Record etcd_client := Client { targets_ : list string; current_channel_ : option Z }.
#[local] Abbreviation prog := (script effect etcd_client).

Definition get_client : prog etcd_client := local get.
Definition set_current_channel (channel : Z) : prog unit :=
  local (modify (fun c => Client (targets_ c) (Some channel))).

(** A member that is up and takes itself for the leader. *)
Definition is_leader (answer : status * StatusResponse) : bool :=
  status_ok answer.1 && (st_leader answer.2 =? st_member_id answer.2).

(** The loop over the targets. *)
Fixpoint find_leader (targets : list string) : prog (option Z) :=
  match targets with
  | [] => mret None
  | target :: targets =>
      etcd_channel ← ask (CreateChannel target);
      deadline ← deadline_50ms;
      answer ← ask (Status etcd_channel deadline);
      if is_leader answer then mret (Some etcd_channel) else find_leader targets
  end.

(** Whether [current_channel_] is set and ready. *)
Definition current_ready (client : etcd_client) : prog (option Z) :=
  match current_channel_ client with
  | Some channel =>
      ready ← ask (GetState channel);
      mret (if (ready : bool) then Some channel else None)
  | None => mret None
  end.

Definition pick_channel : prog Z :=
  client ← get_client;
  current ← current_ready client;
  match current with
  | Some channel => mret channel
  | None =>
      channel ← find_leader (targets_ client);
      match channel with
      | None => returned (Throw (runtime_error "Cannot find any working cluster member"))
      | Some channel => set_current_channel channel;; mret channel
      end
  end.

Definition create_lease : prog Z :=
  channel ← pick_channel;
  deadline ← deadline_50ms;
  answer ← ask (LeaseGrant channel deadline 30);
  local (check_grpc_status answer.1 "create_lease()" []);;
  mret (lg_id answer.2).

Definition create_node (key value : string) : prog KeyValue :=
  channel ← pick_channel;
  lease_id ← create_lease;
  deadline ← deadline_50ms;
  answer ← ask (Txn channel (Some deadline) (create_request_of key value lease_id));
  local (check_grpc_status answer.1 "create_node()" [key]);;
  if negb (tx_succeeded answer.2) then returned (Throw (runtime_error ("Cannot create node " +:+ key)))
  else mret (KV key value (tx_revision answer.2)).

Definition update_node (key value : string) : prog unit :=
  channel ← pick_channel;
  deadline ← deadline_50ms;
  s ← ask (Put channel (Some deadline) {| pq_key := key; pq_value := value; pq_lease := 0 |});
  local (check_grpc_status s "update_node()" [key; value]).

Definition delete_node (key : string) : prog Z :=
  channel ← pick_channel;
  deadline ← deadline_50ms;
  answer ← ask (DeleteRange channel (Some deadline) key);
  local (check_grpc_status answer.1 "delete_node()" [key]);;
  mret answer.2.

(** The loop of updates that should fail, [n] of them to go: how many failed. *)
Fixpoint failing_updates (key value : string) (n : nat) (count : Z) : prog Z :=
  match n with
  | O => mret count
  | Datatypes.S n =>
      count ← script_catch (update_node key value;; mret count) (fun _ => mret (count + 1));
      failing_updates key value n count
  end.

Definition pause (text : string) : prog unit :=
  cout_checked [str (text +:+ ", press <Enter> to continue")];;
  cin_getline;;
  mret tt.

(** What [main] does once the client, the log and the queue are there. *)
Definition scenario (prefix : string) : prog Z :=
  let key0 := prefix +:+ "/" +:+ "node0" in
  let key1 := prefix +:+ "/" +:+ "node1" in
  pick_channel;;
  pause "Connected to etcd cluster";;
  create_node key0 "node0:0";;
  create_node key1 "node1:0";;
  pause "Nodes created";;
  script_catch (update_node key0 "node0:1") (fun _ => update_node key0 "node0:1");;
  pause "Nodes updated";;
  count ← failing_updates key1 "node1:2" 5 0;
  (if negb (count =? 5) then returned (Throw (runtime_error "expected 5 failures")) else mret tt);;
  pause "Node updates failed";;
  delete_node key1;;
  delete_node key0;;
  mret 0.

(** [argv[2]] and so on, or the default. *)
Definition endpoints_of (argv : list string) : list string :=
  match drop 2 argv with [] => ["localhost:22379"] | endpoints => endpoints end.

Definition main (argv : list string) : prog Z :=
  main_try (
    if Nat.ltb (length argv) 2 then
      program ← argv_at argv 0;
      std_endl cerr [str "Usage: "; str program; str " <prefix> [etcd-address...]"];;
      mret 1
    else
      prefix ← argv_at argv 1;
      local (modify (fun _ => Client (endpoints_of argv) None));;
      std_endl cout [str "Client created"];;
      ask (add_sink log_above_info);;
      member (ask make_queue);;
      in_scope (std_endl cout [str "Queue created"];; scenario prefix) (ask destroy_queue)).

End ClusterFailure.

(** ** watcher_and_compaction.cpp *)

Module WatcherAndCompaction.

(** [watch_response], the message every [Read] fills. *)
#[local] Abbreviation prog := (script effect WatchResponse).

(** A lease of an unsigned type in a message. *)
Definition create_node (channel : Z) (key : string) (lease_id : Z) (value : string) : prog KeyValue :=
  answer ← ask (Txn channel None (create_request_of key value (to_int64 lease_id)));
  local (check_grpc_status answer.1 "create_node()" [key; pretty lease_id]);;
  if negb (tx_succeeded answer.2) then returned (Throw (runtime_error ("Cannot create node " +:+ key)))
  else mret (KV key value (tx_revision answer.2)).

(** The lease only shows up in an error. *)
Definition update_node (channel : Z) (key : string) (lease_id : Z) (value : string) : prog unit :=
  s ← ask (Put channel None {| pq_key := key; pq_value := value; pq_lease := 0 |});
  local (check_grpc_status s "update_node()" [key; pretty lease_id; value]).

Definition delete_node (channel : Z) (key : string) : prog Z :=
  answer ← ask (DeleteRange channel None key);
  local (check_grpc_status answer.1 "delete_node()" [key]);;
  mret answer.2.

Definition make_key (prefix : string) (lease : Z) (name : string) : string :=
  prefix +:+ name +:+ "/" +:+ to_hex (Z.to_N lease).

(** [(void)watcher_stream->Read(&watch_response)], and what the program says of it. *)
Definition read_and_print : prog unit :=
  old ← local get;
  answer ← ask (stream_Read old);
  local (modify (fun _ => answer.2));;
  std_endl cout [str "Read() returned "; proto (msg_watch answer.2)].

Definition expect (b : WatchResponse -> bool) (text : string) (line : Z) : prog unit :=
  r ← local get;
  local (GH_ASSERT_THROW (b r) text "main" "experiments/watcher_and_compaction.cpp" line).

(** [create_watcher], from a revision on. *)
Definition watch_from (prefix : string) (revision : Z) : WatchRequest :=
  create_request (prefix +:+ "/")
    (prefix +:+ String (ascii_of_nat (nat_of_ascii "/" + 1)) "") revision true true.

(** [session->lease_id()] as an argument of a call. *)
Definition create_under_lease (channel : Z) (key value : string) : prog KeyValue :=
  lease ← ask session_lease_id;
  create_node channel key lease value.
Definition update_under_lease (channel : Z) (key value : string) : prog unit :=
  lease ← ask session_lease_id;
  update_node channel key lease value.

(** Two nodes, changes to the first, its deletion: the first node and the revision of its deletion. *)
Definition change_nodes (channel : Z) (key0 key1 : string) : prog (KeyValue * Z) :=
  node0 ← create_under_lease channel key0 "node0:0";
  create_under_lease channel key1 "node1:0";;
  update_under_lease channel key0 "node0:1";;
  update_under_lease channel key0 "node0:2";;
  update_under_lease channel key0 "node0:3";;
  update_under_lease channel key0 "node0:4";;
  update_under_lease channel key0 "node0:5";;
  revision ← delete_node channel key0;
  update_under_lease channel key1 "node1:1";;
  mret (node0, revision).

Definition compact_log (channel revision : Z) : prog unit :=
  answer ← ask (Compact channel {| cq_revision := revision; cq_physical := true |});
  local (check_grpc_status answer.1 "main()" []);;
  std_endl cout [str "Compacted to revision="; int revision; str ", response=";
                 proto_compaction answer.2].

(** The watch from before the compaction, which etcd cancels, and the one after it. *)
Definition watch_nodes (prefix : string) (node0 : KeyValue) (revision : Z) : prog unit :=
  ask (stream_Write (watch_from prefix (kv_create_revision node0)));;
  local (modify (fun _ => WatchResponse_default));;
  read_and_print;;
  expect wr_created "watch_response.created()" 106;;
  read_and_print;;
  expect (fun r => wr_compact_revision r =? revision) "watch_response.compact_revision() == revision" 110;;
  ask (stream_Write (watch_from prefix revision));;
  read_and_print;;
  expect wr_created "watch_response.created()" 124;;
  read_and_print;;
  expect (fun r => Nat.ltb 0 (length (wr_events r))) "watch_response.events_size() > 0" 128;;
  r ← local get;
  ask (stream_Write (cancel_request (wr_watch_id r)));;
  read_and_print;;
  expect wr_canceled "watch_response.canceled()" 137.

(** What [main] does with a session. *)
Definition scenario (prefix : string) (etcd_channel : Z) : prog Z :=
  ask (open_watch etcd_channel);;
  lease ← ask session_lease_id;
  let key0 := make_key prefix lease "/node0" in
  let key1 := make_key prefix lease "/node1" in
  changed ← change_nodes etcd_channel key0 key1;
  compact_log etcd_channel changed.2;;
  watch_nodes prefix changed.1 changed.2;;
  member (ask session_revoke);;
  mret 0.

Definition main (argv : list string) : prog Z :=
  main_try (
    if negb (Nat.eqb (length argv) 2) && negb (Nat.eqb (length argv) 3) then
      program ← argv_at argv 0;
      std_endl cerr [str "Usage: "; str program; str " <prefix> [etcd-address]"];;
      mret 1
    else
      prefix ← argv_at argv 1;
      etcd_address ← (if Nat.eqb (length argv) 2 then mret "localhost:2379" else argv_at argv 2);
      etcd_channel ← ask (CreateChannel etcd_address);
      ask (add_sink log_all);;
      member (ask make_queue);;
      in_scope (
        member (ask (make_session etcd_channel 5000));;
        in_scope (scenario prefix etcd_channel) (ask destroy_session)) (ask destroy_queue)).

End WatcherAndCompaction.
