(* ===== verification/ExperimentFacts.v ===== *)
(** * What the experiments establish when they exit with 0

    Each program is run in every environment: etcd answers whatever it does, and the library and the
    streams return or throw. *)

From S2P Require Import Prelude Runtime PrefixEnd Etcd RpcPolicies Script Programs Experiments.
Open Scope Z_scope.
Open Scope gh_scope.

(** The clock of a machine, in nanoseconds since 1970. *)
Definition clock_sane (env : environment effect) : Prop :=
  forall h, 0 <= env system_clock_now h <= 2 ^ 62.

Section experiments.
Context (env : environment effect).
Hypothesis clock : clock_sane env.

Lemma wp_deadline {S} (s : S) h (P : S -> history effect -> outcome Z -> Prop) :
  (forall t d, P s [answered system_clock_now t] (Ok d)) -> wp env deadline_50ms s h P.
Proof.
  intros HP. unfold deadline_50ms. wp_step. wp_step. apply wp_local. specialize (clock h).
  rewrite int64_in_range by (unfold INT64_MIN, INT64_MAX; lia). apply HP.
Qed.

Lemma wp_check_grpc_status {S} st location a (s : S) h (P : S -> history effect -> outcome unit -> Prop) :
  P s [] (if status_ok st then Ok tt else Throw (make_exception st location a)) ->
  wp env (local (check_grpc_status st location a)) s h P.
Proof. intros HP. wp_step. unfold check_grpc_status. by destruct (status_ok st). Qed.
End experiments.

Ltac wp_check :=
  apply wp_check_grpc_status;
  match goal with |- context [if status_ok ?st then _ else _] => destruct (status_ok st) eqn:? end;
  cbv beta iota; unfold after; cbn [app].

(** The requests that write keys. *)
Definition writes (e : entry effect) : bool :=
  match e with
  | existT (Txn _ _ _) _ | existT (Put _ _ _) _ | existT (DeleteRange _ _ _) _ => true
  | _ => false
  end.

(** ** [pick_channel] *)

Module ClusterFailureFacts.
Import ClusterFailure.

(** A member that answered, and is the leader by its own account. *)
Definition leads (a : status * StatusResponse) : bool :=
  bool_decide (error_code a.1 = 0 /\ st_leader a.2 = st_member_id a.2).
Lemma is_leader_leads a : is_leader a = leads a.
Proof.
  unfold is_leader, leads, status_ok. case_bool_decide as H; [apply andb_true_intro|apply not_true_iff_false]; lia.
Qed.

(** The members a history asked for their status: the target, its channel, and whether it leads. *)
Fixpoint probes (h : history effect) : list (string * Z * bool) :=
  match h with
  | existT (CreateChannel target) channel :: h' =>
      match h' with
      | existT system_clock_now _ :: existT (Status _ _) a :: _ => [(target, channel, leads a)]
      | _ => []
      end ++ probes h'
  | _ :: h' => probes h'
  | [] => []
  end.

(** What [pick_channel] asked, when the targets [tried] do not lead. *)
Definition none_leads (tried : list string) (ps : list (string * Z * bool)) : Prop :=
  (fst <$> (fst <$> ps)) = tried /\ Forall (fun p => p.2 = false) ps.

(** What they do: a node created, a value put, a key deleted, with success. *)
Definition creates (key value : string) (e : entry effect) : bool :=
  match e with
  | existT (Txn _ _ r) a =>
      status_ok a.1 && tx_succeeded a.2 &&
      match tq_compare r, tq_success r with
      | [c], [request_put k v _] =>
          bool_decide (cmp_key c = key) && (cmp_create_revision c =? 0) &&
          bool_decide (k = key) && bool_decide (v = value)
      | _, _ => false
      end
  | _ => false
  end.
Definition puts (key value : string) (e : entry effect) : bool :=
  match e with
  | existT (Put _ _ r) st =>
      bool_decide (pq_key r = key) && bool_decide (pq_value r = value) && status_ok st
  | _ => false
  end.
Definition deletes_key (key : string) (e : entry effect) : bool :=
  match e with
  | existT (DeleteRange _ _ k) a => bool_decide (k = key) && status_ok a.1
  | _ => false
  end.
(** How often a value was put. *)
Definition count_puts (key value : string) (h : history effect) : nat :=
  length (List.filter (puts key value) h).
Lemma count_puts_app key value h h' :
  count_puts key value (h ++ h') = (count_puts key value h + count_puts key value h')%nat.
Proof. unfold count_puts. by rewrite List.filter_app, length_app. Qed.
Lemma no_writes_no_puts key value h : existsb writes h = false -> count_puts key value h = O.
Proof.
  unfold count_puts. induction h as [|[q a] h IH]; [done|]. cbn [existsb]. intros [Hw Hh]%orb_false_elim.
  cbn [List.filter]. destruct q; try done; by apply IH.
Qed.

Section facts.
Context (env : environment effect).
Hypothesis clock : clock_sane env.

Lemma find_leader_wp targets client h :
  wp env (find_leader targets) client h (fun client' new r =>
    client' = client /\ existsb writes new = false /\
    match r with
    | Ok None => none_leads targets (probes new)
    | Ok (Some channel) => exists tried target rest ps, targets = tried ++ target :: rest /\
        probes new = ps ++ [(target, channel, true)] /\ none_leads tried ps
    | _ => False
    end).
Proof.
  revert h. induction targets as [|target targets IH]; intros h; cbn [find_leader].
  { by wp_step. }
  do 2 wp_step. wp_step. apply wp_deadline; [done|]. intros t d. do 2 wp_step.
  destruct (is_leader _) eqn:Hl; rewrite is_leader_leads in Hl.
  - wp_step. split_and!; [done..|]. exists [], target, targets, []. cbn. by rewrite Hl.
  - eapply wp_mono; [apply IH|]. intros s' new r (-> & Hw & Hr). split_and!; [done..|].
    cbn [app probes answered]. rewrite Hl. destruct r as [[c|]| |]; [| |done..].
    + destruct Hr as (tried & tgt & rest & ps & -> & -> & Ht & Hps).
      eexists (target :: tried), tgt, rest, ((target, _, false) :: ps).
      split_and!; [done..|]. split; [cbn; by rewrite Ht|by constructor].
    + destruct Hr as [<- Hps]. split; [done|by constructor].
Qed.

Definition picked (client client' : etcd_client) (new : history effect) (r : outcome Z) : Prop :=
  match r with
  | Ok channel => client' = Client (targets_ client) (Some channel) /\
      (current_channel_ client = Some channel /\ new = [answered (GetState channel) true] \/
       exists tried target rest ps, targets_ client = tried ++ target :: rest /\
         probes new = ps ++ [(target, channel, true)] /\ none_leads tried ps)
  | Throw e => client' = client /\ none_leads (targets_ client) (probes new) /\
      e = runtime_error "Cannot find any working cluster member"
  | UB _ => False
  end.

Lemma pick_channel_wp client h :
  wp env pick_channel client h (fun client' new r =>
    picked client client' new r /\ existsb writes new = false).
Proof.
  unfold pick_channel, get_client. do 2 wp_step. wp_step.
  assert (Hsearch : forall n0 h, existsb writes n0 = false ->
    (forall n, probes (n0 ++ n) = probes n) ->
    wp env (channel ← find_leader (targets_ client);
      match channel with
      | None => returned (Throw (runtime_error "Cannot find any working cluster member"))
      | Some channel => set_current_channel channel;; mret channel
      end) client h (after n0 (fun client' new r =>
        picked client client' new r /\ existsb writes new = false))).
  { intros n0 h' Hn0 Hp. wp_step. eapply wp_mono; [apply find_leader_wp|]. unfold set_current_channel.
    intros s' new [[c|]| |] (-> & Hw & Hr); [..|done|done]; repeat wp_step; rewrite app_nil_r;
      (split; [|by rewrite existsb_app, Hn0]); rewrite <- Hp in Hr; split; [done|by right|done|done]. }
  unfold current_ready. destruct (current_channel_ client) as [c|] eqn:Hc.
  - do 2 wp_step. wp_step. destruct (env (GetState c) _) eqn:Hready.
    + wp_step. split; [|done]. split; [by destruct client; cbn in *; subst|]. by left.
    + by apply (Hsearch [answered (GetState c) false]).
  - wp_step. by apply (Hsearch []).
Qed.


(** [pick_channel], whatever the members answer: it returns the channel it has when that is ready, and
    otherwise the channel of the first target whose [Status] succeeds and who is the leader: every target before
    it was asked, in order, and none after it. The channel returned becomes the current one. When
    there is no such target it throws, after it asked them all, and the current channel
    stays. *)
Theorem pick_channel_finds_leader client h :
  wp env pick_channel client h (picked client).
Proof. eapply wp_mono; [apply pick_channel_wp|]. by intros s n r [Hp _]. Qed.

(** ** The members *)

(** After [pick_channel]: an exception, or the channel. *)
Lemma wp_pick {A} (f : Z -> script effect etcd_client A) client h
    (P : etcd_client -> history effect -> outcome A -> Prop) :
  (forall s n e, existsb writes n = false -> is_std_exception e = true -> P s n (Throw e)) ->
  (forall s n c, existsb writes n = false -> wp env (f c) s (h ++ n) (after n P)) ->
  wp env (pick_channel ≫= f) client h P.
Proof.
  intros Ht Hk. wp_step. eapply wp_mono; [apply pick_channel_wp|].
  intros s n [c|e|] [Hp Hn]; [by apply Hk| |done]. apply Ht; [done|]. by destruct Hp as (_ & _ & ->).
Qed.

Lemma create_lease_wp client h :
  wp env create_lease client h (fun _ new r => existsb writes new = false /\ fine r = true).
Proof.
  unfold create_lease. apply wp_pick; [done|]. intros s n c Hn. wp_step. apply wp_deadline; [done|].
  intros t d. do 2 wp_step. wp_step. wp_check; [wp_step|]; by rewrite existsb_app, Hn.
Qed.

Lemma create_node_wp key value client h :
  wp env (create_node key value) client h (fun _ new r => fine r = true /\
    (forall k v, count_puts k v new = O) /\ (is_ok r = true -> existsb (creates key value) new = true)).
Proof.
  unfold create_node. apply wp_pick.
  { intros s n e Hn He. split_and!; [done|by intros; apply no_writes_no_puts|done]. }
  intros s n c Hn. wp_step.
  eapply wp_mono; [apply create_lease_wp|]. intros s1 n1 [lease|e|] [Hn1 Hf]; [| |done].
  2:{ unfold after. split_and!; [done| |done]. intros. by rewrite count_puts_app, !no_writes_no_puts. }
  wp_step. apply wp_deadline; [done|]. intros t d. do 2 wp_step. wp_step.
  assert (Hno : forall a k v, count_puts k v (n ++ n1 ++ [answered system_clock_now t;
    answered (Txn c (Some d) (create_request_of key value lease)) a]) = O).
  { intros. by rewrite !count_puts_app, (no_writes_no_puts _ _ n), (no_writes_no_puts _ _ n1). }
  wp_check; [|by split_and!]. destruct (tx_succeeded _) eqn:Hs; cbn [negb]; wp_step; [|by split_and!].
  split_and!; [done..|]. intros _. rewrite !existsb_app. apply orb_true_intro. right.
  apply orb_true_intro. right. cbn. rewrite Hs. rewrite Heqb. by rewrite !bool_decide_true.
Qed.

Lemma update_node_wp key value client h :
  wp env (update_node key value) client h (fun _ new r => fine r = true /\
    forall k v, count_puts k v new =
      if bool_decide (k = key) && bool_decide (v = value) && is_ok r then 1%nat else O).
Proof.
  unfold update_node. apply wp_pick.
  { intros s n e Hn He. split; [done|]. intros. rewrite no_writes_no_puts by done.
    by rewrite andb_false_r. }
  intros s n c Hn. wp_step. apply wp_deadline; [done|]. intros t d. do 2 wp_step.
  wp_check; (split; [done|]); intros k v; rewrite count_puts_app, (no_writes_no_puts _ _ n) by done;
    unfold count_puts; cbn; rewrite Heqb, ?andb_true_r, ?andb_false_r; cbn; [|done].
  rewrite (bool_decide_ext (key = k) (k = key)), (bool_decide_ext (value = v) (v = value)) by done.
  by destruct (bool_decide _ && _).
Qed.

Lemma delete_node_wp key client h :
  wp env (delete_node key) client h (fun _ new r => fine r = true /\
    (forall k v, count_puts k v new = O) /\ (is_ok r = true -> existsb (deletes_key key) new = true)).
Proof.
  unfold delete_node. apply wp_pick.
  { intros s n e Hn He. split_and!; [done|by intros; apply no_writes_no_puts|done]. }
  intros s n c Hn. wp_step. apply wp_deadline; [done|]. intros t d. do 2 wp_step. wp_step.
  wp_check; [wp_step|]; (split_and!; [done|intros; by rewrite !count_puts_app, no_writes_no_puts|]);
    [|done]. intros _. rewrite existsb_app. apply orb_true_intro. right. cbn.
  by rewrite bool_decide_true, Heqb.
Qed.

Lemma pause_wp text client h :
  wp env (pause text) client h (fun _ new r => existsb writes new = false /\ fine r = true).
Proof.
  unfold pause, cout_checked, cin_getline. repeat wp_step. destruct (env (print_checked _) _); repeat wp_step; [done|].
  destruct (env getline _); by repeat wp_step.
Qed.

(** Each of the updates fails or puts the value. *)
Lemma failing_updates_wp key value n count client h :
  wp env (failing_updates key value n count) client h (fun _ new r =>
    (forall k v, (k, v) <> (key, value) -> count_puts k v new = O) /\
    r = Ok (count + Z.of_nat n - Z.of_nat (count_puts key value new))).
Proof.
  revert count client h. induction n as [|n IH]; intros count client h; cbn [failing_updates].
  { wp_step. split; [done|]. f_equal. cbn. lia. }
  do 2 wp_step. wp_step. eapply wp_mono; [apply update_node_wp|].
  intros s n1 r [Hf Hn1]. destruct r as [[]|e|]; [| |done].
  all: wp_step; rewrite app_nil_r; eapply wp_mono; [apply IH|]; intros s2 n2 r2 [Hn2 ->].
  all: split; [intros k v Hkv; rewrite count_puts_app, Hn1, Hn2 by done|
    f_equal; rewrite count_puts_app, Hn1, !bool_decide_true by done; cbn; lia].
  - by destruct (decide (k = key)) as [->|]; [rewrite (bool_decide_false (v = value)) by congruence|
      rewrite bool_decide_false by done]; rewrite ?andb_false_r.
  - by rewrite andb_false_r.
Qed.

(** ** [main] *)

(** What a complete run did: both nodes created, the first one updated, no update of the second accepted,
    both deleted. *)
Definition demonstrated (prefix : string) (new : history effect) : Prop :=
  let key0 := prefix +:+ "/" +:+ "node0" in
  let key1 := prefix +:+ "/" +:+ "node1" in
  existsb (creates key0 "node0:0") new = true /\ existsb (creates key1 "node1:0") new = true /\
  (0 < count_puts key0 "node0:1" new)%nat /\ count_puts key1 "node1:2" new = O /\
  existsb (deletes_key key1) new = true /\ existsb (deletes_key key0) new = true.

Lemma retried_update_wp key value client h :
  wp env (script_catch (update_node key value) (fun _ => update_node key value)) client h
    (fun _ new r => fine r = true /\
      forall k v, count_puts k v new =
        if bool_decide (k = key) && bool_decide (v = value) && is_ok r then 1%nat else O).
Proof.
  wp_step. eapply wp_mono; [apply update_node_wp|]. intros s n [a|e|] [Hf Hn]; [by split| |done].
  eapply wp_mono; [apply update_node_wp|]. intros s2 n2 r2 [Hf2 Hn2]. split; [done|].
  intros k v. rewrite count_puts_app, Hn, Hn2. by rewrite andb_false_r.
Qed.

Lemma scenario_wp prefix client h :
  wp env (scenario prefix) client h (fun _ new r => fine r = true /\
    (is_ok r = true -> r = Ok 0 /\ demonstrated prefix new)).
Proof.
  unfold scenario. set (key0 := prefix +:+ "/" +:+ "node0"). set (key1 := prefix +:+ "/" +:+ "node1").
  apply wp_pick; [done|]. intros s0 n0 c H0.
  wp_step. eapply wp_mono; [apply pause_wp|]. intros s1 n1 [[]|e|] [H1 F1]; [|by split|done].
  wp_step. eapply wp_mono; [apply create_node_wp|]. intros s2 n2 [kv0|e|] (F2 & H2 & C2); [|by split|done].
  wp_step. eapply wp_mono; [apply create_node_wp|]. intros s3 n3 [kv1|e|] (F3 & H3 & C3); [|by split|done].
  wp_step. eapply wp_mono; [apply pause_wp|]. intros s4 n4 [[]|e|] [H4 F4]; [|by split|done].
  wp_step. eapply wp_mono; [apply retried_update_wp|]. intros s5 n5 [[]|e|] [F5 H5]; [|by split|done].
  wp_step. eapply wp_mono; [apply pause_wp|]. intros s6 n6 [[]|e|] [H6 F6]; [|by split|done].
  wp_step. eapply wp_mono; [apply failing_updates_wp|]. intros s7 n7 r7 [H7 ->].
  wp_step. destruct (_ =? 5) eqn:H7'; cbn [negb]; wp_step; [|by split].
  wp_step. eapply wp_mono; [apply pause_wp|]. intros s8 n8 [[]|e|] [H8 F8]; [|by split|done].
  wp_step. eapply wp_mono; [apply delete_node_wp|]. intros s9 n9 [r9|e|] (F9 & H9 & C9); [|by split|done].
  wp_step. eapply wp_mono; [apply delete_node_wp|]. intros s10 n10 [r10|e|] (F10 & H10 & C10);
    [|by split|done].
  wp_step. split; [done|]. intros _. split; [done|]. unfold demonstrated. fold key0 key1. unfold after.
  rewrite !existsb_app, !count_puts_app, !H2, !H3, !H5, !H9, !H10.
  rewrite !(no_writes_no_puts _ _ n0), !(no_writes_no_puts _ _ n1), !(no_writes_no_puts _ _ n4),
    !(no_writes_no_puts _ _ n6), !(no_writes_no_puts _ _ n8) by done.
  rewrite C2, C3, C9, C10, !orb_true_r by done. split_and!; try done.
  - rewrite !bool_decide_true by done. cbn. lia.
  - rewrite (bool_decide_false ("node1:2"%string = "node0:1"%string)) by done.
    rewrite andb_false_r. cbn. apply Z.eqb_eq in H7'. lia.
Qed.

Lemma demonstrated_app prefix n1 n n2 :
  existsb writes n1 = false -> existsb writes n2 = false -> demonstrated prefix n ->
  demonstrated prefix (n1 ++ n ++ n2).
Proof.
  intros H1 H2 (D1 & D2 & D3 & D4 & D5 & D6). unfold demonstrated. cbv zeta.
  rewrite !existsb_app, !count_puts_app, D1, D2, D4, D5, D6, !orb_true_r.
  rewrite !(no_writes_no_puts _ _ n1), !(no_writes_no_puts _ _ n2) by done. split_and!; [done|done|lia|done..].
Qed.

(** What [make_queue] throws is an exception of the standard library. *)
Definition queue_fine : Prop := forall h, fine (env make_queue h) = true.

End facts.
End ClusterFailureFacts.

(** ** watcher_and_compaction.cpp *)

Module WatcherAndCompactionFacts.
Import WatcherAndCompaction.

(** The lease of a key after the writes that etcd accepted, from the lease of each request: [None] when there is
    no key, 0 when it has no lease. *)
Definition lease_step (key : string) (lease : option Z) (e : entry effect) : option Z :=
  match e with
  | existT (Txn _ _ r) a =>
      match tq_success r with
      | [request_put k _ l] =>
          if bool_decide (k = key) && status_ok a.1 && tx_succeeded a.2 then Some l else lease
      | _ => lease
      end
  | existT (Put _ _ r) st =>
      if bool_decide (pq_key r = key) && status_ok st then Some (pq_lease r) else lease
  | existT (DeleteRange _ _ k) a => if bool_decide (k = key) && status_ok a.1 then None else lease
  | _ => lease
  end.
Definition lease_after (key : string) (lease : option Z) (h : history effect) : option Z :=
  foldl (lease_step key) lease h.
Lemma lease_after_app key lease h h' :
  lease_after key lease (h ++ h') = lease_after key (lease_after key lease h) h'.
Proof. apply foldl_app. Qed.
Lemma no_writes_lease key lease h : existsb writes h = false -> lease_after key lease h = lease.
Proof.
  induction h as [|[q a] h IH]; [done|]. cbn [existsb]. intros [Hw Hh]%orb_false_elim.
  unfold lease_after. cbn [foldl]. destruct q; try done; by apply IH.
Qed.

(** The end of the range that the program writes is the one of [prefix_end]: the watch covers the keys under
    the prefix, exactly. *)
Lemma watch_covers_nodes prefix revision key :
  exists hi, watch_from prefix revision = create_request (prefix +:+ "/") hi revision true true /\
    (in_range (prefix +:+ "/") hi key = true <-> has_prefix (prefix +:+ "/") key).
Proof.
  eexists. split; [reflexivity|].
  assert (Hp : prefix +:+ String (ascii_of_nat (nat_of_ascii "/" + 1)) "" = prefix_end (prefix +:+ "/")).
  { pose proof (prefix_end_bump (bytes prefix) "/"%char 0 ltac:(done)) as H.
    rewrite !string_of_app, !string_of_list_ascii_of_string in H. symmetry. exact H. }
  rewrite Hp. by apply in_range_prefix_end_1.
Qed.

Section facts.
Context (env : environment effect).

Lemma watcher_create_node_wp channel key value s h :
  wp env (create_under_lease channel key value) s h (fun _ new r => fine r = true).
Proof.
  unfold create_under_lease, create_node. wp_skip. do 2 wp_step. wp_step. wp_check; [|done].
  by destruct (tx_succeeded _); cbn [negb]; wp_step.
Qed.

Lemma watcher_update_node_wp channel key value s h :
  wp env (update_under_lease channel key value) s h (fun _ new r => fine r = true /\
    (is_ok r = true -> forall k l, lease_after k l new = if bool_decide (k = key) then Some 0 else l)).
Proof.
  unfold update_under_lease, update_node. wp_skip. do 2 wp_step. wp_check; (split; [done|]); [|done].
  intros _ k l. cbn. rewrite Heqb, !andb_true_r. by rewrite (bool_decide_ext (key = k) (k = key)).
Qed.

Lemma watcher_delete_node_wp channel key s h :
  wp env (delete_node channel key) s h (fun _ new r => fine r = true /\
    (is_ok r = true -> forall k l, lease_after k l new = if bool_decide (k = key) then None else l)).
Proof.
  unfold delete_node. do 2 wp_step. wp_step. wp_check; [wp_step|]; (split; [done|]); [|done].
  intros _ k l. cbn. rewrite Heqb, !andb_true_r. by rewrite (bool_decide_ext (key = k) (k = key)).
Qed.

(** The first node is gone, and the second has no lease. *)
Lemma change_nodes_wp channel key0 key1 s h :
  key0 <> key1 ->
  wp env (change_nodes channel key0 key1) s h (fun _ new r => fine r = true /\
    (is_ok r = true -> forall l, lease_after key0 l new = None /\ lease_after key1 l new = Some 0)).
Proof.
  intros Hne. unfold change_nodes.
  wp_step. eapply wp_mono; [apply watcher_create_node_wp|]. intros s1 n1 [kv0|e|] F1; [|by split|done].
  wp_step. eapply wp_mono; [apply watcher_create_node_wp|]. intros s2 n2 [kv1|e|] F2; [|by split|done].
  do 5 (wp_step; eapply wp_mono; [apply watcher_update_node_wp|]; intros ? ? [[]|?|] [Hu _]; [clear Hu|by split|done]).
  wp_step. eapply wp_mono; [apply watcher_delete_node_wp|]. intros s3 n3 [rev|e|] [F3 H3]; [|by split|done].
  wp_step. eapply wp_mono; [apply watcher_update_node_wp|]. intros s4 n4 [[]|e|] [F4 H4]; [|by split|done].
  wp_step. split; [done|]. intros _ l. unfold after. rewrite !app_nil_r, !lease_after_app.
  rewrite !H4, !H3 by done. by repeat case_bool_decide.
Qed.

(** Code that writes nothing and only throws what [main] catches. *)
Definition harmless {A} (m : script effect WatchResponse A) : Prop :=
  forall s h, wp env m s h (fun _ new r => fine r = true /\ existsb writes new = false).
Lemma harmless_bind {A B} (m : script effect WatchResponse A) (f : A -> script effect WatchResponse B) :
  harmless m -> (forall a, harmless (f a)) -> harmless (m ≫= f).
Proof.
  intros Hm Hf s h. wp_step. eapply wp_mono; [apply Hm|]. intros s1 n1 [a|e|] [F1 W1]; [|by split|done].
  eapply wp_mono; [apply Hf|]. intros s2 n2 r [F2 W2]. unfold after. by rewrite existsb_app, W1, W2.
Qed.
Lemma harmless_ask q : (forall a, writes (answered q a) = false) -> harmless (ask q).
Proof. intros Hq s h. wp_step. cbn [existsb]. by rewrite Hq. Qed.
Lemma harmless_local {A} (m : M WatchResponse A) :
  (forall s, fine (m s).2 = true) -> harmless (local m).
Proof. intros Hm s h. by apply wp_local. Qed.

Lemma fine_assert {W} b text function file line (w : W) :
  fine (GH_ASSERT_THROW b text function file line w).2 = true.
Proof. by destruct b. Qed.

Lemma fine_check {W} st location a (w : W) : fine (check_grpc_status st location a w).2 = true.
Proof. unfold check_grpc_status. by destruct (status_ok st). Qed.
Ltac harmless_solve :=
  repeat match goal with
  | |- harmless (_ ≫= _) => apply harmless_bind; [|intros ?]
  | |- harmless (ask ?q) => by refine (harmless_ask q _)
  | |- harmless (local _) => apply harmless_local; intros ?
  end; first [done | apply fine_assert | apply fine_check].

Lemma watch_nodes_harmless prefix node0 revision : harmless (watch_nodes prefix node0 revision).
Proof.
  unfold watch_nodes, read_and_print, expect, std_endl.
  harmless_solve.
Qed.

Lemma compact_log_harmless channel revision : harmless (compact_log channel revision).
Proof.
  unfold compact_log, std_endl.
  harmless_solve.
Qed.

Lemma make_key_inj prefix lease name name' :
  length (bytes name) = length (bytes name') -> make_key prefix lease name = make_key prefix lease name' -> name = name'.
Proof.
  unfold make_key. intros Hl E%(f_equal bytes). rewrite !bytes_app in E. apply app_inv_head in E.
  by apply app_inj_1 in E as [E%bytes_inj _].
Qed.

(** The second node is left without a lease, although the lease was revoked. *)
Definition node_left (prefix : string) (new : history effect) : Prop :=
  exists lease,
    lease_after (make_key prefix lease "/node0") None new = None /\
    lease_after (make_key prefix lease "/node1") None new = Some 0 /\
    answered session_lease_id lease ∈ new /\ answered session_revoke (Ok tt) ∈ new.

Lemma node_left_app prefix n1 n n2 :
  existsb writes n1 = false -> existsb writes n2 = false -> node_left prefix n ->
  node_left prefix (n1 ++ n ++ n2).
Proof.
  intros H1 H2 (lease & L0 & L1 & Hl & Hr). exists lease.
  rewrite !lease_after_app, !(no_writes_lease _ _ n1), L0, L1, !(no_writes_lease _ _ n2) by done.
  set_solver.
Qed.

(** What the members of the library throw is an exception of the standard library. *)
Definition library_fine : Prop :=
  (forall h, fine (env make_queue h) = true) /\
  (forall channel ttl h, fine (env (make_session channel ttl) h) = true) /\
  (forall h, fine (env session_revoke h) = true).

Lemma watcher_scenario_wp prefix channel s h :
  library_fine ->
  wp env (scenario prefix channel) s h (fun _ new r => fine r = true /\
    (is_ok r = true -> r = Ok 0 /\ node_left prefix new)).
Proof.
  intros (_ & _ & Hf). unfold scenario, member. wp_skip. wp_skip. rename a0 into lease.
  wp_step. eapply wp_mono; [apply change_nodes_wp|].
  { by intros E%make_key_inj. }
  intros s1 n1 [[node0 rev]|e|] [F1 H1]; [|by split|done].
  wp_step. eapply wp_mono; [apply compact_log_harmless|]. intros s2 n2 [[]|e|] [F2 W2]; [|by split|done].
  wp_step. eapply wp_mono; [apply watch_nodes_harmless|]. intros s3 n3 [[]|e|] [F3 W3]; [|by split|done].
  do 3 wp_step. match goal with |- context [env session_revoke ?h] =>
    specialize (Hf h); destruct (env session_revoke h) as [[]|e|] eqn:Er end; [|wp_step; by split|done].
  wp_step. wp_step. split; [done|]. intros _. split; [done|]. exists lease.
  destruct (H1 eq_refl None) as [L0 L1].
  assert (Hcut : forall k, lease_after k None (answered (open_watch channel) a ::
      answered session_lease_id lease :: n1 ++ n2 ++ n3 ++ [answered session_revoke (Ok ())] ++ [] ++ []) =
      lease_after k None n1).
  { intros k. change (lease_after k None (n1 ++ n2 ++ n3 ++ [answered session_revoke (Ok ())]) =
      lease_after k None n1).
    by rewrite !lease_after_app, (no_writes_lease _ _ n2), (no_writes_lease _ _ n3). }
  cbn [app] in Hcut |- *. rewrite !Hcut. set_solver.
Qed.

(** C34. What [watcher_and_compaction] leaves behind, with the library as it is and whatever etcd answers: it returns 0
    or 1, and when it returns 0 the lease was revoked, and the first node was deleted, but the last
    request that wrote the second node put it without a lease, so that it does not go with the lease. *)
Theorem watcher_leaves_node argv s :
  library_fine -> length argv = 2%nat \/ length argv = 3%nat ->
  wp env (main argv) s [] (fun _ new r => exists prefix, argv !! 1%nat = Some prefix /\
    (r = Ok 0 /\ node_left prefix new \/ r = Ok 1)).
Proof.
  intros Hlib Hargv. destruct (lookup_lt_is_Some_2 argv 1 ltac:(lia)) as [prefix Hp].
  apply wp_main_try.
  replace (negb (Nat.eqb (length argv) 2) && negb (Nat.eqb (length argv) 3)) with false
    by (destruct Hargv as [-> | ->]; done).
  pose proof Hlib as (Hq & Hs & _).
  unfold member. wp_step. unfold argv_at at 1. rewrite Hp. do 2 wp_step.
  apply (wp_mono _ _ _ _ (fun s' new r => new = [] /\ exists address, r = Ok address)).
  { unfold argv_at. destruct Hargv as [El|El]; rewrite El; cbn [Nat.eqb]; [wp_step; eauto|].
    destruct (lookup_lt_is_Some_2 argv 2 ltac:(lia)) as [a ->]. wp_step; eauto. }
  intros s' new r [-> [address ->]]. wp_skip. rename a into channel. wp_skip. do 3 wp_step.
  match goal with |- context [env make_queue ?h] => specialize (Hq h); destruct (env make_queue h) as [[]|e|] end;
    [|wp_step; split; [done|]; intros; exists prefix; auto|done].
  do 2 wp_step. do 3 wp_step.
  match goal with |- context [env (make_session channel 5000) ?h] => specialize (Hs channel 5000 h);
    destruct (env (make_session channel 5000) h) as [[]|e|] end; [| |done].
  2:{ wp_step. wp_skip. wp_step. split; [done|]. intros. exists prefix; auto. }
  wp_step. wp_step. eapply wp_mono; [by apply watcher_scenario_wp|]. intros s2 n2 r [Hf Hr].
  destruct r as [code|e|]; [| |done]; wp_skip; wp_step; wp_skip; wp_step.
  - destruct (Hr eq_refl) as [[= ->] Hd]. exists prefix. split; [done|]. left. split; [done|].
    match goal with |- node_left _ (?a :: ?b :: ?c :: ?d :: ?l) =>
      change (a :: b :: c :: d :: l) with ([a; b; c; d] ++ l) end.
    rewrite <- app_assoc. by apply node_left_app.
  - split; [done|]. intros. exists prefix. auto.
Qed.
End facts.
End WatcherAndCompactionFacts.

(** ** The theorems applied *)

Lemma demo_clock : clock_sane demo_env.
Proof. intros h. by vm_compute. Qed.

Lemma pick_channel_finds_leader_witness :
  let client := ClusterFailure.Client ["a"; "b"; "c"] None in
  exits demo_env ClusterFailure.pick_channel client (Ok 2) /\
  exists client' new, ClusterFailureFacts.picked client client' new (Ok 2).
Proof.
  cbv zeta. assert (exits demo_env ClusterFailure.pick_channel
    (ClusterFailure.Client ["a"; "b"; "c"] None) (Ok 2)) as Hx.
  { apply (exits_run 40). vm_compute. reflexivity. }
  split; [exact Hx|]. apply (exits_wp _ _ _ _ _ Hx).
  apply (ClusterFailureFacts.pick_channel_finds_leader demo_env demo_clock).
Defined.


Lemma watcher_leaves_node_witness :
  exists new, WatcherAndCompactionFacts.node_left "e" new.
Proof.
  assert (exits demo_env (WatcherAndCompaction.main ["program"; "e"]) WatchResponse_default (Ok 0)) as Hx.
  { apply (exits_run 1000). vm_compute. reflexivity. }
  destruct (exits_wp _ _ _ _ _ Hx (WatcherAndCompactionFacts.watcher_leaves_node demo_env
    ["program"; "e"] WatchResponse_default ltac:(split_and!; by intros) ltac:(by left)))
    as (_ & new & prefix & Hp & [[_ Hd]|[=]]).
  exists new. injection Hp as <-. exact Hd.
Defined.
