(* ===== verification/Examples.v ===== *)
(** * The examples (src/examples/)

    [join_election] takes part in an election until a signal arrives, [observe_election] prints who
    leads. Both poll: their loops end when the signal handler has set the flag. *)

From S2P Require Import Prelude Runtime Etcd Script Programs.
Open Scope Z_scope.
Open Scope gh_scope.

(** The start of both programs: the arguments after the name of the election, a channel and the log. *)
Definition connect {S} (argv : list string) (with_default : nat) : script effect S Z :=
  etcd_address ← (if Nat.eqb (length argv) with_default then mret "localhost:2379"
                  else argv_at argv with_default);
  etcd_channel ← ask (CreateChannel etcd_address);
  ask (add_sink log_all);;
  mret etcd_channel.

Definition catch_signals {S} : script effect S unit :=
  ask (std_signal SIGINT);;
  ask (std_signal SIGTERM).

(** [while (not interrupt) { std::this_thread::sleep_for(20ms); }] *)
Definition wait_for_interrupt {S} : script effect S unit :=
  while (i ← ask interrupted; mret (negb i)) (ask (sleep_for 20)).

(** ** join_election.cpp *)

Module JoinElection.

(** The variable [r]. *)
#[local] Abbreviation prog := (script effect future_status).

Definition poll : prog unit :=
  r ← ask (wait_for 20);
  local (modify (fun _ => r)).

(** The condition of the loop. *)
Definition undecided : prog bool :=
  i ← ask interrupted;
  if (i : bool) then mret false
  else
    r ← local get;
    mret (negb (bool_decide (r = ready))).

(** What the future says, when it is ready. *)
Definition announce : prog unit :=
  won ← member (ask future_get);
  if (won : bool) then std_endl cout [str "candidate has won the election... wait for interrupt"]
  else
    std_endl cout [str "election was aborted, possibly because server has crashed... abort client"];;
    returned (Throw (runtime_error "election aborted")).

Definition take_part : prog Z :=
  member (ask campaign);;
  catch_signals;;
  poll;;
  while undecided poll;;
  r ← local get;
  (if bool_decide (r = ready) then announce else mret tt);;
  wait_for_interrupt;;
  member (ask resign);;
  mret 0.

Definition main (argv : list string) : prog Z :=
  main_try (
    if negb (Nat.eqb (length argv) 3) && negb (Nat.eqb (length argv) 4) then
      program ← argv_at argv 0;
      std_endl cerr [str "Usage: "; str program; str " <prefix> <value> [etcd-address]"];;
      mret 1
    else
      election_name ← argv_at argv 1;
      value ← argv_at argv 2;
      etcd_channel ← connect argv 3;
      member (ask make_queue);;
      in_scope (
        member (ask (make_leader_election etcd_channel election_name value 5000));;
        in_scope take_part (ask destroy_leader_election)) (ask destroy_queue)).

End JoinElection.

(** ** observe_election.cpp *)

Module ObserveElection.
#[local] Abbreviation prog := (script effect unit).

(** The lambda that the observer calls with each leader: what it prints. *)
Definition subscriber (key value : string) : list piece :=
  if bool_decide (key = "") then [str "no current leader"; endl]
  else [str "current leader is "; str key; str ", with value="; str value; endl].

Definition watch_leaders : prog Z :=
  token ← member (ask subscribe);
  member (ask startup);;
  catch_signals;;
  wait_for_interrupt;;
  member (ask (unsubscribe token));;
  member (ask shutdown);;
  mret 0.

Definition main (argv : list string) : prog Z :=
  script_catch (main_try (
    if negb (Nat.eqb (length argv) 2) && negb (Nat.eqb (length argv) 3) then
      program ← argv_at argv 0;
      std_endl cerr [str "Usage: "; str program; str " <prefix> [etcd-address]"];;
      mret 1
    else
      election_name ← argv_at argv 1;
      etcd_channel ← connect argv 2;
      member (ask make_queue);;
      in_scope (
        member (ask (make_watch_election etcd_channel election_name));;
        in_scope watch_leaders (ask destroy_watch_election)) (ask destroy_queue)))
    (fun _ => std_endl cerr [str "unknown exception raised"];; mret 1).

End ObserveElection.
