(* ===== verification/ExampleFacts.v ===== *)
(** * What the examples do with the library

    The programs poll and print; these theorems state what is left of their runs when that is set aside: which
    members of the library they call, in which order, for every answer, and the exit code. *)

From S2P Require Import Prelude Runtime Etcd Script Programs Examples.
Open Scope Z_scope.
Open Scope gh_scope.

(** The calls of the members of the library. *)
Definition is_member (q : effect) : bool :=
  match q with
  | make_queue | destroy_queue | make_leader_election _ _ _ _ | campaign | future_get | resign
  | destroy_leader_election | make_watch_election _ _ | subscribe | startup | unsubscribe _ | shutdown
  | destroy_watch_election => true
  | _ => false
  end.
Definition members (h : history effect) : history effect := List.filter (fun e => is_member (projT1 e)) h.

(** The announcement of a victory. *)
Definition announces (e : entry effect) : bool :=
  match e with
  | existT (print cout [str text; endl]) _ =>
      bool_decide (text = "candidate has won the election... wait for interrupt")
  | _ => false
  end.
Definition announced (h : history effect) : bool := existsb announces h.

(** What is neither. *)
Definition dull (h : history effect) : Prop := members h = [] /\ announced h = false.
Lemma members_app h h' : members (h ++ h') = members h ++ members h'.
Proof. apply List.filter_app. Qed.
Lemma announced_app h h' : announced (h ++ h') = announced h || announced h'.
Proof. apply existsb_app. Qed.
Lemma members_cons e h : members (e :: h) = members [e] ++ members h.
Proof. apply (members_app [e]). Qed.
Lemma announced_cons e h : announced (e :: h) = announces e || announced h.
Proof. done. Qed.
Lemma dull_app h h' : dull h -> dull h' -> dull (h ++ h').
Proof. intros [H1 H2] [H1' H2']. split; [by rewrite members_app, H1|by rewrite announced_app, H2]. Qed.

(** The user, or the operating system, interrupts the program at some point: from then on the flag is set. *)
Definition interrupts (env : environment effect) (n : nat) : Prop :=
  forall h, (n <= length h)%nat -> env interrupted h = true.

Section loops.
Context (env : environment effect) (n : nat).
Hypothesis interrupted_at : interrupts env n.

(** A loop that stops at the latest when the flag is set, and whose condition and body are dull. *)
Lemma wp_polling {S} (cond : script effect S bool) (body : script effect S unit) s h
    (Q : S -> history effect -> Prop) :
  (forall s h, wp env cond s h (fun s' new r => dull new /\ s' = s /\
    match r with
    | Ok true => (0 < length new)%nat /\ (length h < n)%nat
    | Ok false => Q s new
    | _ => False
    end)) ->
  (forall s h, wp env body s h (fun _ new r => dull new /\ r = Ok tt)) ->
  wp env (while cond body) s h (fun s' new r => dull new /\ r = Ok tt /\
    exists before now, new = before ++ now /\ Q s' now).
Proof.
  intros Hcond Hbody. rewrite <- (app_nil_r h).
  apply (wp_while env cond body (fun k _ n0 => dull n0 /\ (n - length (h ++ n0) <= k)%nat)
    (n - length h) s h [] (fun s' new r => dull new /\ r = Ok tt /\
    exists before now, new = before ++ now /\ Q s' now)).
  { split; [done|]. by rewrite app_nil_r. }
  intros k s1 n0 [Hd Hk]. eapply wp_mono; [apply Hcond|].
  intros s2 n1 [[]|e|] (Hd1 & -> & Hr); [|..|done|done].
  - destruct Hr as [Hn1 Hlt]. destruct k as [|k]; [lia|]. exists k. split; [done|].
    eapply wp_mono; [apply Hbody|]. intros s3 n2 r [Hd2 ->].
    split; [by apply dull_app, dull_app|]. rewrite !length_app in *. lia.
  - split_and!; [by apply dull_app|done|]. by exists n0, n1.
Qed.

Lemma wait_for_interrupt_wp {S} (s : S) h :
  wp env wait_for_interrupt s h (fun _ new r => dull new /\ r = Ok tt /\
    answered interrupted true ∈ new).
Proof.
  eapply wp_mono; [apply (wp_polling _ _ _ _ (fun _ now => now = [answered interrupted true]))|].
  - intros s1 h1. do 2 wp_step. destruct (env interrupted h1) eqn:E; wp_step; [by split_and!|].
    cbn [negb]. split_and!; [done..|cbn; lia|]. apply Nat.nle_gt. intros Hle. by rewrite interrupted_at in E.
  - intros s1 h1. wp_step. by destruct (env (sleep_for 20) h1).
  - intros s' new r (Hd & -> & before & now & -> & ->). split_and!; [done..|set_solver].
Qed.

Lemma catch_signals_wp {S} (s : S) h : wp env catch_signals s h (fun _ new r => dull new /\ r = Ok tt).
Proof. unfold catch_signals. wp_skip. wp_step. by destruct (env (std_signal SIGTERM) _). Qed.

Lemma connect_wp {S} argv d (s : S) h :
  length argv = d \/ length argv = Datatypes.S d ->
  wp env (connect argv d) s h (fun _ new r => dull new /\ exists channel, r = Ok channel).
Proof.
  intros Hargv. unfold connect. wp_step.
  apply (wp_mono _ _ _ _ (fun _ new r => new = [] /\ exists address, r = Ok address)).
  - unfold argv_at. destruct (Nat.eqb_spec (length argv) d) as [E|E]; [wp_step; eauto|].
    destruct (lookup_lt_is_Some_2 argv d ltac:(lia)) as [a ->]. wp_step; eauto.
  - intros s' new r [-> [address ->]]. wp_skip. wp_skip. wp_step. split; [done|by eexists].
Qed.
End loops.

(** A call, and what follows when it returns; the exit code. *)
Definition call_then {A} (e : entry effect) (o : outcome A) (rest : history effect * Z) :
    history effect * Z :=
  match o with Ok _ => (e :: rest.1, rest.2) | _ => ([e], 1) end.
Definition finally (e : entry effect) (r : history effect * Z) : history effect * Z := (r.1 ++ [e], r.2).

(** ** join_election *)

Module JoinElectionFacts.
Import JoinElection.

(** The answers of the library: each member is called once at most, and the result of the campaign is only
    asked for when it is there. *)
Record answers := {
  a_queue : outcome unit;
  a_election : outcome unit;
  a_campaign : outcome unit;
  a_result : option (outcome bool);
  a_resign : outcome unit
}.

(** The members that [take_part] calls, and those the program calls, with the exit code. *)
Definition part_of (a : answers) : history effect * Z :=
  let resign_it := call_then (answered resign (a_resign a)) (a_resign a) ([], 0) in
  call_then (answered campaign (a_campaign a)) (a_campaign a)
    match a_result a with
    | None => resign_it
    | Some (Ok true) => call_then (answered future_get (Ok true)) (Ok true) resign_it
    | Some r => ([answered future_get r], 1)
    end.
Definition conversation (channel : Z) (name value : string) (a : answers) : history effect * Z :=
  call_then (answered make_queue (a_queue a)) (a_queue a)
    (finally (answered destroy_queue tt)
      (call_then (answered (make_leader_election channel name value 5000) (a_election a)) (a_election a)
        (finally (answered destroy_leader_election tt) (part_of a)))).

Section facts.
Context (env : environment effect) (n : nat).
Hypothesis interrupted_at : interrupts env n.

(** The outcome of the block of [main]: its exit code, or an exception for the exit code 1. *)
Definition exits_with (code : Z) (r : outcome Z) : Prop :=
  match r with Ok c => c = 0 /\ code = 0 | Throw e => is_std_exception e = true /\ code = 1 | UB _ => False end.

Lemma wait_and_resign_wp (s : future_status) h :
  (forall h, fine (env resign h) = true) ->
  wp env (wait_for_interrupt;; member (ask resign);; mret 0) s h (fun _ new r => exists ar,
    let c := call_then (answered resign ar) ar ([], 0) in
    members new = c.1 /\ exits_with c.2 r /\ announced new = false /\ answered interrupted true ∈ new).
Proof.
  intros Hr. unfold member.
  wp_step. eapply wp_mono; [by eapply wait_for_interrupt_wp|]. intros s1 n1 r1 ([M1 A1] & -> & Hi).
  do 3 wp_step. match goal with |- context [env resign ?h] => specialize (Hr h);
    destruct (env resign h) as [[]|e|] eqn:E end; [| |done].
  - wp_step. wp_step. exists (Ok tt). rewrite !members_app, !announced_app, M1, A1. split_and!; [done..|set_solver].
  - wp_step. exists (Throw e). rewrite !members_app, !announced_app, M1, A1. split_and!; [done..|set_solver].
Qed.

(** What the library throws is an exception of the standard library. *)
Definition library_fine : Prop :=
  (forall h, fine (env make_queue h) = true) /\
  (forall channel name value ttl h, fine (env (make_leader_election channel name value ttl) h) = true) /\
  (forall h, fine (env campaign h) = true) /\
  (forall h, fine (env future_get h) = true) /\
  (forall h, fine (env resign h) = true).
Hypothesis library : library_fine.

(** The program waits until the future is ready or the flag is set. *)
Lemma undecided_wp s h :
  wp env (while undecided poll) s h (fun s' new r => dull new /\ r = Ok tt /\
    (s' = ready \/ answered interrupted true ∈ new)).
Proof.
  eapply wp_mono; [apply (wp_polling env n _ _ _ _ (fun s now => s = ready \/ answered interrupted true ∈ now))|].
  - intros s1 h1. unfold undecided. do 2 wp_step. destruct (env interrupted h1) eqn:E.
    { wp_step. split_and!; [done..|]. right. set_solver. }
    do 3 wp_step. case_bool_decide as Hr; cbn [negb]; [by split_and!; [| |left]|].
    split_and!; [done..|cbn; lia|]. apply Nat.nle_gt. intros Hle. by rewrite interrupted_at in E.
  - intros s1 h1. unfold poll. wp_skip. by wp_step.
  - intros s' new r (Hd & -> & before & now & -> & Hq). split_and!; [done..|set_solver].
Qed.

Lemma poll_wp s h : wp env poll s h (fun _ new r => dull new /\ r = Ok tt).
Proof. unfold poll. wp_skip. by wp_step. Qed.

Lemma announce_wp s h :
  wp env announce s h (fun _ new r => exists o, members new = [answered future_get o] /\
    match r with
    | Ok _ => o = Ok true /\ announced new = true
    | Throw e => o <> Ok true /\ is_std_exception e = true /\ announced new = false
    | UB _ => False
    end).
Proof.
  pose proof library as (_ & _ & _ & Hf & _). unfold announce, member, std_endl. do 3 wp_step.
  specialize (Hf h). destruct (env future_get h) as [[]|e|]; [| | |done]; wp_step.
  - wp_step. exists (Ok true). by split_and!.
  - wp_skip. wp_step. exists (Ok false). by split_and!.
  - exists (Throw e). by split_and!.
Qed.

#[local] Ltac gather := rewrite ?members_app, ?announced_app;
  repeat match goal with
  | D : dull ?n |- context [members ?n] => rewrite (proj1 D)
  | D : dull ?n |- context [announced ?n] => rewrite (proj2 D)
  end; cbn [app orb].
Lemma take_part_wp s h :
  wp env take_part s h (fun _ new r => exists ac ar aq,
    let c := part_of {| a_queue := Ok tt; a_election := Ok tt; a_campaign := ac; a_result := ar;
                        a_resign := aq |} in
    members new = c.1 /\ exits_with c.2 r /\ (announced new = true <-> ar = Some (Ok true)) /\
    (r = Ok 0 -> answered interrupted true ∈ new)).
Proof.
  assert (Hmem : forall l, members (answered campaign (Ok tt) :: l) = answered campaign (Ok tt) :: members l)
    by done.
  assert (Hmore : forall l, announced (answered campaign (Ok tt) :: l) = announced l) by done.
  pose proof library as (_ & _ & Hc & _ & Hres). unfold take_part, member.
  do 3 wp_step. specialize (Hc h). destruct (env campaign h) as [[]|e|]; [| |done].
  2:{ wp_step. exists (Throw e), None, (Ok tt). by split_and!. }
  wp_step. wp_step. eapply wp_mono; [apply catch_signals_wp|]. intros s1 n1 r1 [D1 ->].
  wp_step. eapply wp_mono; [apply poll_wp|]. intros s2 n2 r2 [D2 ->].
  wp_step. eapply wp_mono; [apply undecided_wp|]. intros s3 n3 r3 (D3 & -> & _).
  wp_step. wp_step. wp_step. case_bool_decide.
  - eapply wp_mono; [apply announce_wp|]. intros s4 n4 r4 (o & M4 & H4). destruct r4 as [[]|e|]; [| |done].
    + destruct H4 as [-> A4]. eapply wp_mono; [by apply wait_and_resign_wp|].
      intros s5 n5 r5 (aq & M5 & He & A5 & Hi). exists (Ok tt), (Some (Ok true)), aq.
      unfold after. split_and!; [|exact He|by rewrite Hmore; gather; rewrite A4|set_solver].
      rewrite Hmem. gather. by rewrite M4, M5.
    + destruct H4 as (Ho & He & A4). exists (Ok tt), (Some o), (Ok tt). unfold after.
      split_and!; [|split; [exact He|]| |done].
      * rewrite Hmem. gather. rewrite M4. by destruct o as [[]| |].
      * by destruct o as [[]| |].
      * rewrite Hmore. gather. rewrite A4. split; [done|]. by intros [= ->].
  - wp_step. eapply wp_mono; [by apply wait_and_resign_wp|]. intros s5 n5 r5 (aq & M5 & He & A5 & Hi).
    exists (Ok tt), None, aq. unfold after. cbn [app].
    split_and!; [|exact He|by rewrite Hmore; gather; rewrite A5|set_solver].
    rewrite Hmem. gather. by rewrite M5.
Qed.

Lemma part_of_code a : (part_of a).2 = 0 -> a_resign a = Ok tt.
Proof. by destruct a as [? ? [[]| |] [[[]| |]|] [[]| |]]. Qed.

End facts.
End JoinElectionFacts.

(** ** observe_election *)

Module ObserveElectionFacts.
Import ObserveElection.

Record answers := {
  a_queue : outcome unit;
  a_observer : outcome unit;
  a_subscribe : outcome Z;
  a_startup : outcome unit;
  a_unsubscribe : outcome unit;
  a_shutdown : outcome unit
}.

Definition part_of (a : answers) : history effect * Z :=
  call_then (answered subscribe (a_subscribe a)) (a_subscribe a)
    (call_then (answered startup (a_startup a)) (a_startup a)
      (match a_subscribe a with
       | Ok token =>
           call_then (answered (unsubscribe token) (a_unsubscribe a)) (a_unsubscribe a)
             (call_then (answered shutdown (a_shutdown a)) (a_shutdown a) ([], 0))
       | _ => ([], 1)
       end)).
Definition conversation (channel : Z) (name : string) (a : answers) : history effect * Z :=
  call_then (answered make_queue (a_queue a)) (a_queue a)
    (finally (answered destroy_queue tt)
      (call_then (answered (make_watch_election channel name) (a_observer a)) (a_observer a)
        (finally (answered destroy_watch_election tt) (part_of a)))).

Section facts.
Context (env : environment effect) (n : nat).
Hypothesis interrupted_at : interrupts env n.

(** The members of the library have a meaning; they may throw anything. *)
Definition defined {A} (o : outcome A) : Prop := match o with UB _ => False | _ => True end.
Definition library_defined : Prop :=
  (forall h, defined (env make_queue h)) /\
  (forall channel name h, defined (env (make_watch_election channel name) h)) /\
  (forall h, defined (env subscribe h)) /\
  (forall h, defined (env startup h)) /\
  (forall token h, defined (env (unsubscribe token) h)) /\
  (forall h, defined (env shutdown h)).
Hypothesis library : library_defined.

Definition exits_with (code : Z) (r : outcome Z) : Prop :=
  match r with Ok c => c = 0 /\ code = 0 | Throw e => code = 1 | UB _ => False end.

Lemma watch_leaders_wp s h :
  wp env watch_leaders s h (fun _ new r => exists a,
    a_queue a = Ok tt /\ a_observer a = Ok tt /\ members new = (part_of a).1 /\ exits_with (part_of a).2 r).
Proof.
  destruct library as (_ & _ & Hs & Ht & Hu & Hd). unfold watch_leaders, member.
  do 3 wp_step. specialize (Hs h). destruct (env subscribe h) as [token|e|]; [| |done].
  2:{ wp_step. by exists {| a_queue := Ok tt; a_observer := Ok tt; a_subscribe := Throw e; a_startup := Ok tt;
        a_unsubscribe := Ok tt; a_shutdown := Ok tt |}. }
  do 2 wp_step. do 2 wp_step. match goal with |- context [env startup ?h] =>
    specialize (Ht h); destruct (env startup h) as [[]|e|] end; [| |done].
  2:{ wp_step. by exists {| a_queue := Ok tt; a_observer := Ok tt; a_subscribe := Ok token; a_startup := Throw e;
        a_unsubscribe := Ok tt; a_shutdown := Ok tt |}. }
  wp_step. wp_step. eapply wp_mono; [apply catch_signals_wp|]. intros s1 n1 r1 [D1 ->].
  wp_step. eapply wp_mono; [by eapply wait_for_interrupt_wp|]. intros s2 n2 r2 (D2 & -> & _).
  do 3 wp_step. match goal with |- context [env (unsubscribe token) ?h] =>
    specialize (Hu token h); destruct (env (unsubscribe token) h) as [[]|e|] end; [| |done].
  all: assert (Hmid : forall l, members (answered subscribe (Ok token) :: answered startup (Ok tt) :: n1 ++ n2 ++ l) =
      answered subscribe (Ok token) :: answered startup (Ok tt) :: members l)
    by (intros l; replace (members l) with (members (n1 ++ n2 ++ l)) by
      (by rewrite !members_app, (proj1 D1), (proj1 D2)); done).
  2:{ wp_step. exists {| a_queue := Ok tt; a_observer := Ok tt; a_subscribe := Ok token; a_startup := Ok tt;
        a_unsubscribe := Throw e; a_shutdown := Ok tt |}. by rewrite Hmid. }
  wp_step. do 3 wp_step. match goal with |- context [env shutdown ?h] =>
    specialize (Hd h); destruct (env shutdown h) as [[]|e|] end; [| |done]; wp_step; [wp_step|].
  - exists {| a_queue := Ok tt; a_observer := Ok tt; a_subscribe := Ok token; a_startup := Ok tt;
        a_unsubscribe := Ok tt; a_shutdown := Ok tt |}. by rewrite Hmid.
  - exists {| a_queue := Ok tt; a_observer := Ok tt; a_subscribe := Ok token; a_startup := Ok tt;
        a_unsubscribe := Ok tt; a_shutdown := Throw e |}. by rewrite Hmid.
Qed.

Lemma wp_catch_all m (s : unit) h (P : unit -> history effect -> outcome Z -> Prop) :
  wp env m s h (fun s' new r =>
    match r with
    | Throw e => forall text a, P s' (new ++ [answered (print cerr text) a]) (Ok 1)
    | _ => P s' new r
    end) ->
  wp env (script_catch (main_try m) (fun _ => std_endl cerr [str "unknown exception raised"];; mret 1)) s h P.
Proof.
  intros Hm. unfold main_try, std_endl. do 2 wp_step. eapply wp_mono; [exact Hm|].
  intros s' new [c|e|why] Hr; [done| |done]. destruct (is_std_exception e);
    repeat wp_step; rewrite ?app_nil_r; apply Hr.
Qed.

(** A run of [observe_election] that is interrupted at some point, whatever the library answers or throws: it ends
    with the exit code 0 or 1, and the members it calls are those of the conversation: a subscription
    before the observer starts, the end of the subscription before its shut down, after an interrupt,
    none after one that threw, and the destruction of what was made. *)
Theorem observe_election_conversation argv s :
  length argv = 2%nat \/ length argv = 3%nat ->
  wp env (main argv) s [] (fun _ new r => exists name channel a,
    argv !! 1%nat = Some name /\ members new = (conversation channel name a).1 /\
    r = Ok (conversation channel name a).2).
Proof.
  intros Hargv. destruct (lookup_lt_is_Some_2 argv 1 ltac:(lia)) as [name Hname].
  apply wp_catch_all. replace (negb (Nat.eqb (length argv) 2) && negb (Nat.eqb (length argv) 3)) with false
    by (destruct Hargv as [-> | ->]; done).
  pose proof library as (Hq & Hm & _). unfold member, argv_at. rewrite Hname. do 2 wp_step.
  wp_step. eapply wp_mono; [by apply connect_wp|]. intros s1 n1 r1 (D1 & channel & ->).
  assert (Hn1 : forall l, members (n1 ++ l) = members l) by (intros; by rewrite members_app, (proj1 D1)).
  do 3 wp_step. match goal with |- context [env make_queue ?h] =>
    specialize (Hq h); destruct (env make_queue h) as [[]|e|] end; [| |done].
  2:{ wp_step. intros text a. exists name, channel, {| a_queue := Throw e; a_observer := Ok tt;
        a_subscribe := Ok 0; a_startup := Ok tt; a_unsubscribe := Ok tt; a_shutdown := Ok tt |}.
      by rewrite <- app_assoc, Hn1. }
  do 2 wp_step. do 3 wp_step. match goal with |- context [env ?q ?h] =>
    specialize (Hm channel name h); destruct (env q h) as [[]|e|] end; [| |done].
  2:{ wp_step. wp_skip. wp_step. intros text ?. destruct a. exists name, channel, {| a_queue := Ok tt;
        a_observer := Throw e; a_subscribe := Ok 0; a_startup := Ok tt; a_unsubscribe := Ok tt;
        a_shutdown := Ok tt |}. by rewrite <- app_assoc, Hn1. }
  wp_step. wp_step. eapply wp_mono; [by apply watch_leaders_wp|].
  intros s2 n2 r2 (a & Eq & Eo & M2 & He).
  assert (Hle : forall o l, members (answered make_queue o :: answered (make_watch_election channel name) (Ok tt) :: l) =
    answered make_queue o :: answered (make_watch_election channel name) (Ok tt) :: members l) by done.
  destruct r2 as [code|e|]; [| |done]; wp_skip; wp_step; wp_skip; wp_step; destruct a0, a1.
  - destruct He as [-> He]. exists name, channel, a. unfold conversation. rewrite Eq, Eo. cbn -[part_of members].
    by rewrite Hn1, Hle, !members_app, M2, He.
  - intros text u. exists name, channel, a. unfold conversation. rewrite Eq, Eo. cbn -[part_of members].
    rewrite <- app_assoc, Hn1. cbn [app]. rewrite Hle, !members_app, M2, He. by rewrite app_nil_r.
Qed.
End facts.
End ObserveElectionFacts.

(** ** The theorems applied: a victory, and an observer that is interrupted at once *)


Lemma observe_election_conversation_witness :
  exists new channel a, members new = (ObserveElectionFacts.conversation channel "e" a).1 /\
    (ObserveElectionFacts.conversation channel "e" a).2 = 0.
Proof.
  assert (exits demo_env (ObserveElection.main ["program"; "e"]) tt (Ok 0)) as Hx.
  { apply (exits_run 1000). vm_compute. reflexivity. }
  destruct (exits_wp _ _ _ _ _ Hx (ObserveElectionFacts.observe_election_conversation demo_env 0
    ltac:(by intros h _) ltac:(by split_and!) ["program"; "e"] tt ltac:(by left)))
    as (_ & new & name & channel & a & [= <-] & Hm & [= Hc]).
  exists new, channel, a. split; [exact Hm|done].
Defined.
