(* ===== verification/Joined.v ===== *)
(** * A program over the library

    The example [join_election] (src/examples/join_election.cpp) run over the [leader_election] of the model: what the members
    of the library answer the program is what their model does with the completions that come
    meanwhile. From the command line down to the answers of etcd: a program that nobody interrupts before announces
    its victory. *)

From S2P Require Import Prelude Runtime RpcPolicies Etcd CompletionQueue Compose.
From S2P Require Import Candidate Session SessionFacts Facade FacadeFacts Progress Threads Campaign Participant.
From S2P Require Import Script Programs Examples ExampleFacts.
Open Scope Z_scope.
Open Scope gh_scope.

#[local] Existing Instance LeaderElection.leader_election_client.
#[local] Abbreviation W := (world LeaderElection.leader_election LeaderElection.cb).

(** ** The library as an environment *)

(** The memory of the object before it is made, on its queue, and what reaches the queue: during the constructor,
    during [campaign()], and up to the end of each wait for the result. *)
Record library := Library {
  memory : W;
  making : list sched_event;
  campaigning : list sched_event;
  polls : list (list sched_event)
}.

(** The end of a member, when these events let it end. *)
Definition completes `{TextFormat} {A} (es : list sched_event) (p : prog W A) : option (W * outcome A) :=
  match sched es p with running (Finished v r) => Some (v, r) | _ => None end.

Section library.
Context `{TextFormat} (l : library).

(** The future of the campaign. *)
Definition campaign_future (v : W) : promise bool := Candidate.promise_ (self v).2.

(** The members up to the result of the campaign, after [polled] waits for it: where they lead, and what they answer. *)
Definition played (q : effect) : bool :=
  match q with make_leader_election _ _ _ _ | campaign | wait_for _ | future_get => true | _ => false end.
Definition is_poll (q : effect) : bool := match q with wait_for _ => true | _ => false end.
Definition plays (polled : nat) (v : W) (q : effect) : option (W * answer q) :=
  match q with
  | make_leader_election _ election_name value ttl =>
      completes (making l) (LeaderElection.make_with_duration election_name value (milliseconds ttl) 0 v)
  | campaign => completes (campaigning l) (LeaderElection.campaign v)
  | wait_for _ =>
      r ← completes (default [] (polls l !! polled)) (Finished v (Ok tt));
      Some (r.1, wait_for_0 (campaign_future r.1))
  | future_get => r ← result (campaign_future v); Some (v, r)
  | _ => None
  end.

(** The waits so far and the world after some calls. *)
Definition library_step (st : option (nat * W)) (e : entry effect) : option (nat * W) :=
  let q := projT1 e in
  if played q then
    '(polled, v) ← st;
    r ← plays polled v q;
    Some (if is_poll q then Datatypes.S polled else polled, r.1)
  else st.
Definition library_after (h : Script.history effect) : option (nat * W) := foldl library_step (Some (0%nat, memory l)) h.

(** The answers of an environment are those of the library. *)
Definition library_is (env : environment effect) : Prop :=
  forall h polled v q v' a,
    library_after h = Some (polled, v) -> plays polled v q = Some (v', a) -> env q h = a.

(** Calls of other things. *)
Definition apart (h : Script.history effect) : Prop := Forall (fun e => played (projT1 e) = false) h.

Lemma library_after_snoc h e : library_after (h ++ [e]) = library_step (library_after h) e.
Proof. unfold library_after. by rewrite foldl_app. Qed.
Lemma library_after_apart h h' : apart h' -> library_after (h ++ h') = library_after h.
Proof.
  unfold library_after. rewrite foldl_app. generalize (foldl library_step (Some (0%nat, memory l)) h).
  intros st Ha. revert st. induction Ha as [|e h' He _ IH]; intros st; [done|]. cbn. rewrite IH.
  unfold library_step. by rewrite He.
Qed.
Lemma library_after_played h polled v q v' a :
  played q = true -> library_after h = Some (polled, v) -> plays polled v q = Some (v', a) ->
  forall b, library_after (h ++ [answered q b]) = Some (if is_poll q then Datatypes.S polled else polled, v').
Proof.
  intros Hq Hh Hp b. rewrite library_after_snoc. unfold library_step, answered. cbn [projT1]. rewrite Hq, Hh. cbn.
  by rewrite Hp.
Qed.
End library.

(** Every environment, with the library's answers where it has some. *)
Definition over `{TextFormat} (l : library) (rest : environment effect) : environment effect := fun q h =>
  match ('(polled, v) ← library_after l h; plays l polled v q) with
  | Some (_, a) => a
  | None => rest q h
  end.
Lemma over_is `{TextFormat} l rest : library_is l (over l rest).
Proof. intros h polled v q v' a Hh Hp. unfold over. rewrite Hh. cbn. by rewrite Hp. Qed.

(** ** A program that wins *)

Section wins.
Context `{TextFormat} (l : library) (env : environment effect) (interrupted_after : nat).
Hypothesis library_answers : library_is l env.
Hypothesis interrupted_at : interrupts env interrupted_after.

(** The calls of the program up to the end of a wait: six, the first wait, then the flag and a wait in each turn. *)
Definition calls_before (polled : nat) : nat := 6 + 2 * polled.
Hypothesis interrupted_late : forall h,
  (length h < calls_before (length (polls l)))%nat -> env interrupted h = false.

(** Between two waits: the participant leads already, or it is on the way. *)
Definition on_the_way (lease : Z) (polled : nat) (v : W) : Prop :=
  leads lease v \/ joint_at lease (concat (drop polled (polls l))) v.

Lemma leads_ready lease v : leads lease v -> result (campaign_future v) = Some (Ok true).
Proof. by intros [[_ Hr] _]. Qed.
Lemma joint_at_open lease es v : joint_at lease es v -> result (campaign_future v) = None.
Proof. intros (st & tag & ks & ktag & _ & _ & [[_ _ _ _ _ _ Hr] _] & _). exact Hr. Qed.

Lemma poll_on_the_way lease polled v :
  joint_at lease (concat (drop polled (polls l))) v ->
  exists v', completes (default [] (polls l !! polled)) (Finished v (Ok tt)) = Some (v', Ok tt) /\
    on_the_way lease (Datatypes.S polled) v' /\ (polled < length (polls l))%nat.
Proof.
  intros Hj. destruct (polls l !! polled) as [es|] eqn:E; cbn [default from_option id].
  2:{ rewrite drop_ge in Hj by (by apply lookup_ge_None). destruct Hj as (? & ? & ? & ? & Hj & _). inversion Hj. }
  pose proof (lookup_lt_Some _ _ _ E). rewrite (drop_S _ _ _ E) in Hj. cbn [concat] in Hj. unfold completes, on_the_way.
  destruct (concat (drop (Datatypes.S polled) (polls l))) as [|e es'] eqn:Erest.
  - rewrite app_nil_r in Hj. destruct (joint_wins _ _ _ (Ok tt) Hj) as (v' & -> & Hl). exists v'. by split_and!; [|left|].
  - destruct (joint_run _ es (e :: es') v (Ok tt) Hj) as (v' & -> & Hj'); [done|].
    exists v'. split_and!; [done| |done]. right. done.
Qed.

(** *** The waiting *)

Lemma wait_for_library h polled lease v ms :
  library_after l h = Some (polled, v) -> joint_at lease (concat (drop polled (polls l))) v ->
  exists v', env (wait_for ms) h = wait_for_0 (campaign_future v') /\
    library_after l (h ++ [answered (wait_for ms) (env (wait_for ms) h)]) = Some (Datatypes.S polled, v') /\
    on_the_way lease (Datatypes.S polled) v' /\ (polled < length (polls l))%nat.
Proof.
  intros Hh Hj. destruct (poll_on_the_way lease polled v Hj) as (v' & Hc & Hw & Hlt).
  assert (Hp : plays l polled v (wait_for ms) = Some (v', wait_for_0 (campaign_future v'))).
  { unfold plays. by rewrite Hc. }
  exists v'. split_and!; [by eapply library_answers|by eapply (library_after_played l _ _ _ (wait_for ms))|done|done].
Qed.

(** The loop ends with the result there, and the participant leading. *)
Definition waiting lease (h : Script.history effect) (s : future_status) : Prop :=
  exists polled v, library_after l h = Some (polled, v) /\ on_the_way lease polled v /\
    s = wait_for_0 (campaign_future v) /\ length h = calls_before polled.

Lemma undecided_wins lease s h :
  waiting lease h s ->
  wp env (while JoinElection.undecided JoinElection.poll) s h (fun s' new r =>
    r = Ok tt /\ s' = Runtime.ready /\ dull new /\
    exists polled v, library_after l (h ++ new) = Some (polled, v) /\ leads lease v).
Proof.
  intros Hw.
  pose (I := fun k s n0 => dull n0 /\ exists polled v, library_after l (h ++ n0) = Some (polled, v) /\
    on_the_way lease polled v /\ s = wait_for_0 (campaign_future v) /\
    length (h ++ n0) = calls_before polled /\ (length (polls l) - polled <= k)%nat).
  rewrite <- (app_nil_r h) at 1.
  apply (wp_while env JoinElection.undecided JoinElection.poll I (length (polls l)) s h []).
  { split; [done|]. rewrite app_nil_r. destruct Hw as (polled & v & ? & ? & ? & ?). exists polled, v. split_and!; try done. lia. }
  intros k s1 n0 [Hd (polled & v & Hh & Hw1 & -> & Hlen & Hk)]. unfold JoinElection.undecided. do 2 wp_step.
  assert (Hi : library_after l (h ++ n0 ++ [answered interrupted (env interrupted (h ++ n0))]) = Some (polled, v)).
  { rewrite app_assoc, library_after_apart; [done|]. by repeat constructor. }
  destruct Hw1 as [Hl|Hj].
  - assert (Hs : wait_for_0 (campaign_future v) = Runtime.ready) by (unfold wait_for_0; by rewrite (leads_ready _ _ Hl)).
    destruct (env interrupted (h ++ n0)) eqn:E.
    + wp_step. rewrite Hs. split_and!; [done..|by apply dull_app|]. by exists polled, v.
    + do 3 wp_step. rewrite Hs, bool_decide_true by done. cbn [negb].
      split_and!; [done..|by apply dull_app|]. by exists polled, v.
  - assert (Hs : wait_for_0 (campaign_future v) = timeout) by (unfold wait_for_0; by rewrite (joint_at_open _ _ _ Hj)).
    pose proof Hj as Hj'. destruct (poll_on_the_way lease polled v Hj') as (_ & _ & _ & Hlt).
    assert (env interrupted (h ++ n0) = false) as E by (apply interrupted_late; unfold calls_before in *; lia).
    rewrite E in *.
    do 3 wp_step. rewrite Hs, bool_decide_false by done. cbn [negb].
    destruct k as [|k]; [lia|]. exists k. split; [done|]. unfold JoinElection.poll. wp_step.
    rewrite app_assoc in Hi. rewrite app_assoc.
    destruct (wait_for_library _ polled lease v 20 Hi Hj) as (v' & He & Hh' & Hw' & _).
    wp_step. wp_step. rewrite He at 1. unfold I. rewrite !app_assoc. split; [by repeat apply dull_app|].
    exists (Datatypes.S polled), v'. split_and!; try done.
    + by rewrite <- app_assoc in Hh'.
    + rewrite !length_app in *. cbn [length]. unfold calls_before in *. lia.
    + lia.
Qed.

(** *** The whole program *)

Hypothesis queue_made : forall h, env make_queue h = Ok tt.
Hypothesis resign_fine : forall h, fine (env resign h) = true.

Lemma catch_signals_apart (s : future_status) h :
  wp env catch_signals s h (fun _ new r => dull new /\ apart new /\ length new = 2%nat /\ r = Ok tt).
Proof.
  unfold catch_signals. wp_skip. wp_step. destruct (env (std_signal SIGTERM) _). split_and!; try done.
  by repeat constructor.
Qed.

Lemma first_poll_wp lease s h v :
  library_after l h = Some (0%nat, v) -> joint_at lease (concat (polls l)) v -> length h = 7%nat ->
  wp env JoinElection.poll s h (fun s' new r => dull new /\ r = Ok tt /\ waiting lease (h ++ new) s').
Proof.
  intros Hh Hj Hlen. unfold JoinElection.poll. wp_step.
  destruct (wait_for_library h 0 lease v 20 Hh Hj) as (v' & He & Hh' & Hw & _).
  wp_step. wp_step. split_and!; [done|done|]. exists 1%nat, v'. rewrite He at 2. split_and!; try done.
  rewrite length_app, Hlen. done.
Qed.

Lemma announce_wins lease polled v (s : future_status) h :
  library_after l h = Some (polled, v) -> leads lease v ->
  wp env JoinElection.announce s h (fun _ new r => r = Ok tt /\ exists rest,
    new = answered future_get (Ok true) :: rest /\ members new = [answered future_get (Ok true)] /\ announced new = true).
Proof.
  intros Hh Hl. assert (Hp : plays l polled v future_get = Some (v, Ok true)).
  { unfold plays. by rewrite (leads_ready _ _ Hl). }
  pose proof (library_answers _ _ _ _ _ _ Hh Hp) as Hg. cbv beta in Hg.
  unfold JoinElection.announce, member, std_endl. do 3 wp_step. rewrite Hg. wp_step. wp_step.
  split; [by destruct (env (print _ _) _)|by eexists].
Qed.

(** What the campaign begins with, when the program asks for it. *)
Definition campaign_due lease (h : Script.history effect) : Prop :=
  exists v v', library_after l h = Some (0%nat, v) /\ plays l 0 v campaign = Some (v', Ok tt) /\
    joint_at lease (concat (polls l)) v' /\ length h = 4%nat.

(** A run that wins: it takes the result [true] when the participant leads, announces it, and calls these members,
    the answer of the resignation being [o]. *)
Definition wins lease h (calls : outcome unit -> Script.history effect) (new : Script.history effect) (r : outcome Z) : Prop :=
  exists o before rest polled v,
    members new = calls o /\ announced new = true /\ JoinElectionFacts.exits_with (if is_ok o then 0 else 1) r /\
    new = before ++ answered future_get (Ok true) :: rest /\ library_after l (h ++ before) = Some (polled, v) /\
    leads lease v.
Lemma wins_after lease h n1 calls new r :
  wins lease (h ++ n1) calls new r -> wins lease h (fun o => members n1 ++ calls o) (n1 ++ new) r.
Proof.
  intros (o & before & rest & polled & v & Hm & Ha & He & -> & Hl & Hv). exists o, (n1 ++ before), rest, polled, v.
  rewrite members_app, Hm, announced_app, Ha, orb_true_r, (app_assoc h). by split_and!; [..|rewrite app_assoc| |].
Qed.
Lemma wins_then lease h n2 calls new r :
  wins lease h calls new r -> wins lease h (fun o => calls o ++ members n2) (new ++ n2) r.
Proof.
  intros (o & before & rest & polled & v & Hm & Ha & He & -> & Hl & Hv). exists o, before, (rest ++ n2), polled, v.
  rewrite members_app, Hm, announced_app, Ha, <- app_assoc. by split_and!.
Qed.
(** Calls that are neither members nor an announcement are left out. *)
Lemma wins_calls lease h calls calls' new r : wins lease h calls new r -> (forall o, calls o = calls' o) -> wins lease h calls' new r.
Proof. intros (o & Hw) Heq. exists o. by rewrite <- Heq. Qed.

Lemma take_part_wins lease s h :
  campaign_due lease h ->
  wp env JoinElection.take_part s h (fun _ => wins lease h (fun o =>
    [answered campaign (Ok tt); answered future_get (Ok true); answered resign o])).
Proof.
  intros (v & v1 & Hh & Hp & Hj & Hlen). unfold JoinElection.take_part, member. do 3 wp_step.
  pose proof (library_answers _ _ _ _ _ _ Hh Hp) as Hc. cbv beta in Hc. rewrite Hc. wp_step.
  pose proof (library_after_played l h 0 v campaign v1 (Ok tt) eq_refl Hh Hp (Ok tt)) as Hh1. cbn [is_poll] in Hh1.
  wp_step. eapply wp_mono; [apply catch_signals_apart|]. intros s1 n1 r1 (D1 & A1 & L1 & ->).
  rewrite <- (library_after_apart l _ n1 A1) in Hh1.
  wp_step. eapply wp_mono; [by eapply first_poll_wp; [exact Hh1|exact Hj|rewrite !length_app, Hlen, L1]|].
  intros s2 n2 r2 (D2 & -> & Hw).
  wp_step. eapply wp_mono; [by eapply undecided_wins|]. intros s3 n3 r3 (-> & -> & D3 & polled & v3 & Hh3 & Hl).
  wp_step. wp_step. wp_step. rewrite bool_decide_true by done.
  rewrite app_nil_r. eapply wp_mono; [by eapply announce_wins|]. intros s4 n4 r4 (-> & rest & -> & M4 & A4).
  eapply wp_mono; [by eapply JoinElectionFacts.wait_and_resign_wp|]. intros s5 n5 r5 (o & M5 & He & A5 & _).
  eapply wins_calls.
  - apply (wins_after _ _ [_]), wins_after, wins_after, wins_after, (ex_intro _ o).
    exists [], (rest ++ n5), polled, v3. rewrite members_app, announced_app, M4, M5, A4, app_nil_r.
    split_and!; [|done|by destruct o|done|exact Hh3|exact Hl].
    by instantiate (1 := fun o => [answered future_get (Ok true); answered resign o]); destruct o.
  - intros o'. by rewrite (proj1 D1), (proj1 D2), (proj1 D3).
Qed.

Lemma connect_apart {S} argv d (s : S) h :
  length argv = d \/ length argv = Datatypes.S d ->
  wp env (connect argv d) s h (fun _ new r => dull new /\ apart new /\ length new = 2%nat /\ exists channel, r = Ok channel).
Proof.
  intros Hargv. unfold connect. wp_step.
  apply (wp_mono _ _ _ _ (fun _ new r => new = [] /\ exists address, r = Ok address)).
  - unfold argv_at. destruct (Nat.eqb_spec (length argv) d) as [E|E]; [wp_step; eauto|].
    destruct (lookup_lt_is_Some_2 argv d ltac:(lia)) as [a ->]. wp_step; eauto.
  - intros s' new r [-> [address ->]]. wp_skip. wp_skip. wp_step. split_and!; [done| |done|by eexists].
    by repeat constructor.
Qed.

Lemma object_wins channel election_name value lease s h v1 v2 :
  let make := make_leader_election channel election_name value 5000 in
  library_after l h = Some (0%nat, memory l) -> length h = 3%nat ->
  plays l 0 (memory l) make = Some (v1, Ok tt) -> plays l 0 v1 campaign = Some (v2, Ok tt) ->
  joint_at lease (concat (polls l)) v2 ->
  wp env (member (ask make);; in_scope JoinElection.take_part (ask destroy_leader_election)) s h
    (fun _ => wins lease h (fun o => [answered make (Ok tt); answered campaign (Ok tt); answered future_get (Ok true);
      answered resign o; answered destroy_leader_election tt])).
Proof.
  intros make Hh Hlen Hp Hc Hj. unfold member. do 3 wp_step.
  pose proof (library_answers _ _ _ _ _ _ Hh Hp) as Hm. cbv beta in Hm. rewrite Hm. wp_step.
  pose proof (library_after_played l h 0 _ make v1 (Ok tt) eq_refl Hh Hp (Ok tt)) as Hh1. cbn [is_poll make] in Hh1.
  wp_step. eapply wp_mono; [apply (take_part_wins lease); exists v1, v2; split_and!; [exact Hh1|done|done|]|].
  { rewrite length_app, Hlen. done. }
  intros s2 n2 r2 Hw.
  assert (Hr : forall u, wins lease h (fun o => [answered make (Ok tt); answered campaign (Ok tt); answered future_get (Ok true);
      answered resign o; answered destroy_leader_election tt]) (answered make (Ok tt) :: n2 ++ [answered destroy_leader_election u]) r2).
  { intros []. eapply wins_calls; [apply (wins_after _ _ [_]), wins_then, Hw|done]. }
  destruct r2 as [code|e|]; [| |by destruct Hw as (? & ? & ? & ? & ? & _ & _ & [] & _)]; wp_skip; wp_step; apply Hr.
Qed.

(** C5. A participant wins, from the command line on. [join_election] is run over the library of the model: the members it calls
    answer what [leader_election] does with the completions that arrive meanwhile. If etcd grants the lease, creates
    the node and answers the queries, the watches and the keep-alive messages, in any order and cut into
    the waits of the program in any way, up to the query that finds no predecessor, and the user interrupts only later, then the program
    ends; it announces its victory, having taken the result [true] when the participant led in the model; it calls
    each member once, in order, and its exit code is 0 exactly when the resignation returned. What the resignation and
    the destructors do is left to the environment. *)
Theorem join_election_wins argv election_name value s r1 r2 g r3 r4 t :
  length argv = 3%nat \/ length argv = 4%nat -> argv !! 1%nat = Some election_name -> argv !! 2%nat = Some value ->
  let q := queue (memory l) in let n := next_op q in
  wf q -> refresh_in_range (now q) (lg_ttl g * 1000) ->
  grant_answer true r2 = Ok g -> lg_error g = "" ->
  txn_answer "election_candidate/create_node" true r4 = Ok t -> tx_succeeded t = true ->
  making l = [ev_completion n true r1; ev_wake; ev_completion (n + 1) true r2; ev_wake] ->
  campaigning l = [ev_completion (n + 3) true r3; ev_wake; ev_completion (n + 4) true r4; ev_wake] ->
  joint asking (n + 5) timing (n + 2) (n + 6) (now q) (concat (polls l)) ->
  wp env (JoinElection.main argv) s [] (fun _ new r => exists channel o before rest polled v,
    members new = [answered make_queue (Ok tt); answered (make_leader_election channel election_name value 5000) (Ok tt);
      answered campaign (Ok tt); answered future_get (Ok true); answered resign o;
      answered destroy_leader_election tt; answered destroy_queue tt] /\
    announced new = true /\ r = Ok (if is_ok o then 0 else 1) /\
    new = before ++ answered future_get (Ok true) :: rest /\ library_after l before = Some (polled, v) /\
    leads (to_uint64 (lg_id g)) v).
Proof.
  intros Hargv Hname Hvalue q n Hwf Hrange Hg Herr Ht Hs Hmaking Hcampaigning Hj.
  destruct (participant_under_way (memory l) election_name value (milliseconds (duration_cast_ms (milliseconds 5000))) 0
    r1 r2 g r3 r4 t _ Hwf Hrange Hg Herr Ht Hs Hj) as (v1 & Hmake & v2 & Hcampaign & Hj2). fold q n in Hmake, Hcampaign.
  apply wp_main_try. replace (negb (Nat.eqb (length argv) 3) && negb (Nat.eqb (length argv) 4)) with false
    by (destruct Hargv as [-> | ->]; done).
  unfold member, argv_at. rewrite Hname, Hvalue. do 2 wp_step. do 2 wp_step.
  wp_step. eapply wp_mono; [by apply connect_apart|]. intros s1 n1 r (D1 & A1 & L1 & channel & ->).
  do 3 wp_step. rewrite queue_made. wp_step. wp_step.
  eapply wp_mono; [apply (object_wins channel election_name value (to_uint64 (lg_id g)) _ _ v1 v2)|].
  - rewrite (library_after_apart l n1 [_]) by (by repeat constructor). exact (library_after_apart l [] n1 A1).
  - rewrite !length_app, L1. done.
  - unfold plays, completes, LeaderElection.make_with_duration. by rewrite Hmaking, Hmake.
  - unfold plays, completes. by rewrite Hcampaigning, Hcampaign.
  - done.
  - intros s2 n2 r Hw.
    assert (Hall : forall u n3, members n3 = [] -> exists o before rest polled v,
      members ((n1 ++ answered make_queue (Ok tt) :: n2 ++ [answered destroy_queue u]) ++ n3) =
        [answered make_queue (Ok tt); answered (make_leader_election channel election_name value 5000) (Ok tt);
         answered campaign (Ok tt); answered future_get (Ok true); answered resign o;
         answered destroy_leader_election tt; answered destroy_queue tt] /\
      announced ((n1 ++ answered make_queue (Ok tt) :: n2 ++ [answered destroy_queue u]) ++ n3) = true /\
      JoinElectionFacts.exits_with (if is_ok o then 0 else 1) r /\
      (n1 ++ answered make_queue (Ok tt) :: n2 ++ [answered destroy_queue u]) ++ n3 =
        before ++ answered future_get (Ok true) :: rest /\
      library_after l before = Some (polled, v) /\ leads (to_uint64 (lg_id g)) v).
    { intros [] n3 M3. apply (wins_calls (to_uint64 (lg_id g)) [] _ _ _ r
        (wins_then _ _ n3 _ _ _ (wins_after _ [] n1 _ _ _ (wins_after _ _ [answered make_queue (Ok tt)] _ _ _
          (wins_then _ _ [answered destroy_queue tt] _ _ _ Hw))))).
      intros o. by rewrite M3, (proj1 D1). }
    destruct r as [code|e|]; [| |by destruct Hw as (? & ? & ? & ? & ? & _ & _ & [] & _)]; wp_skip; wp_step.
    + destruct (Hall a [] eq_refl) as (o & before & rest & polled & v & M & A & [-> Hc] & E & Hl).
      rewrite app_nil_r in M, A, E. exists channel, o, before, rest, polled, v. split_and!; try done; try apply Hl.
      by rewrite Hc.
    + destruct (Hall a [] eq_refl) as (_ & _ & _ & _ & _ & _ & _ & [He _] & _). split; [done|]. intros text u.
      destruct (Hall a [answered (print cerr text) u] eq_refl)
        as (o & before & rest & polled & v & M & A & [_ Hc] & E & Hl).
      exists channel, o, before, rest, polled, v. split_and!; try done; try apply Hl. by rewrite Hc.
Qed.
End wins.

(** ** The theorem applied: the run of [Participant], behind the program *)

#[local] Existing Instance empty_text_format.

(** The events of the campaign come during four waits. *)
Definition joined_library : library := {|
  memory := joined_memory;
  making := [ev_completion 1 true FacadeFacts.answer; ev_wake; ev_completion 2 true FacadeFacts.granted; ev_wake];
  campaigning := [ev_completion 4 true FacadeFacts.answer; ev_wake; ev_completion 5 true created; ev_wake];
  polls := [take 3 election_events; []; take 2 (drop 3 election_events); drop 5 election_events]
|}.
(** The user interrupts the program when it has made twenty calls. *)
Definition patient_user : environment effect := fun q =>
  match q with interrupted => fun h => Nat.leb 20 (length h) | q => demo_env q end.

Lemma over_rest l rest q h : played q = false -> over l rest q h = rest q h.
Proof. unfold over. destruct (library_after l h) as [[polled v]|]; [|done]. by destruct q. Qed.

Lemma join_election_wins_witness :
  exists s new r,
    returns (over joined_library patient_user) (JoinElection.main ["join_election"; "e"; "host:1"] timeout) [] new (s, r) /\
    announced new = true.
Proof.
  destruct (join_election_wins joined_library (over joined_library patient_user) 20 (over_is _ _)
    ltac:(intros h Hh; rewrite over_rest by done; by apply Nat.leb_le)
    ltac:(intros h Hh; rewrite over_rest by done; apply Nat.leb_gt; unfold calls_before in Hh; cbn in Hh; lia)
    ltac:(intros h; by rewrite over_rest) ltac:(intros h; by rewrite over_rest)
    ["join_election"; "e"; "host:1"] "e" "host:1" timeout FacadeFacts.answer FacadeFacts.granted
    {| lg_id := 16; lg_ttl := 10; lg_error := "" |} FacadeFacts.answer created _
    ltac:(by left) eq_refl eq_refl new_queue_wf (refresh_in_range_small 0 10000 eq_refl) eq_refl eq_refl eq_refl eq_refl
    eq_refl eq_refl election_events_joint)
    as (s & new & r & Hr & _ & _ & _ & _ & _ & _ & _ & Ha & _).
  exists s, new, r. split; [exact Hr|exact Ha].
Defined.
