(* ===== verification/IntegrationTests.v ===== *)
(** * The tests against etcd (gh/session_test.cpp, gh/leader_election_test.cpp, gh/watch_election_test.cpp)

    The repository runs these tests against a cluster; here the store of etcd is the server in memory, which has the
    laws of [Server.EtcdServer]: queries and transactions get its answers, a lease that is revoked takes its key
    away. Streams, leases and watches are answered as etcd does. Each object has a queue of
    its own; [Compose] relates that to the one queue of the tests. *)

From S2P Require Import Prelude Runtime RpcPolicies PrefixEnd OpCounter Etcd CompletionQueue Threads Compose Server.
From S2P Require Import Candidate Observer Session Facade Scenario CandidateTests ClientTests LibraryTests.
Open Scope Z_scope.
Open Scope gh_scope.

(** ** Objects around a store *)

Section lab.
Context {S K : Type} `{Client S K}.

Record lab := Lab { etcd : Memory.memory; objects : list (prog (world S K) unit) }.

(** A step of an object; etcd answers the operation of an object that has this name; the lease of a key ends. *)
Inductive lab_step :=
  | at_object (i : nat) (s : step S K)
  | etcd_serves (i : nat) (name : string)
  | lease_ends (key : string).

Definition serve (m : Memory.memory) (r : request) : option (Memory.memory * response) :=
  match r with
  | rq_range q => Some (m, Response status_OK (msg_range (Memory.range m q)))
  | rq_txn q => let '(m', t) := Memory.txn m q in Some (m', Response status_OK (msg_txn t))
  | _ => None
  end.

Definition run_lab_step (s : lab_step) (l : lab) : option lab :=
  match s with
  | at_object i s =>
      p ← objects l !! i; p' ← run_step s p; Some (Lab (etcd l) (<[i := p']> (objects l)))
  | etcd_serves i name =>
      p ← objects l !! i;
      match named name (prog_world p) with
      | [(_, op)] =>
          '(m, resp) ← serve (etcd l) (op_request op);
          p' ← run_step (answers name any true resp) p;
          Some (Lab m (<[i := p']> (objects l)))
      | _ => None
      end
  | lease_ends key => Some (Lab (Memory.expire key (etcd l)) (objects l))
  end.
Fixpoint run_lab (ss : list lab_step) (l : lab) : option lab :=
  match ss with
  | [] => Some l
  | s :: ss' => l' ← run_lab_step s l; run_lab ss' l'
  end.
Definition lab_passes (states : list S) (ss : list lab_step) : bool :=
  bool_decide (is_Some (run_lab ss (Lab (Memory.Mem 1 ∅)
    ((fun s => Finished (World s new_queue) (Ok tt)) <$> states)))).
End lab.
Arguments lab_step S K : clear implicits.

(** One refresh of a lease, of a session on its own or in a [leader_election]. *)
Definition kept_alive (ttl : Z) : response := Response status_OK (msg_keep_alive ttl).
Definition refreshes {S K} (ttl : Z) : list (step S K) := [
  answers "session/set_timer/ttl_refresh" any true done_ok;
  answers "session/on_timeout/write" any true done_ok;
  answers "session/on_write/read" any true (kept_alive ttl)].
Definition granted (id ttl : Z) : response :=
  Response status_OK (msg_lease_grant {| lg_id := id; lg_ttl := ttl; lg_error := "" |}).
Definition is_grant (ttl : Z) (r : request) : bool :=
  match r with rq_lease_grant id t => bool_decide (id = 0 /\ t = ttl) | _ => false end.

(** ** [session_test] *)

Section session_tests.
Context `{TextFormat}.
Import Session.
#[local] Abbreviation test := (list (step session cb)).

(** The session of a test, with the lease that etcd chose. *)
Definition tested_session (ttl : Z) : session := initial_session (seconds ttl) 0.
Definition gets_lease (id ttl : Z) : test := [
  calls preamble;
  answers "session/ka_stream" any true done_ok;
  answers "session/preamble/lease_grant" (is_grant ttl) true (granted id ttl);
  returns no_throw;
  expects (fun w => negb (lease_id_ (self w) =? 0))].
Definition revokes_lease : test := [
  calls revoke;
  answers "session/set_timer/ttl_refresh" any false done_ok;
  answers "session/revoke/lease_revoke" any true done_ok;
  answers "session/shutdown/writes_done" any true done_ok;
  answers "session/shutdown/finish" any true done_ok;
  returns no_throw].
Definition deletes_session : test := [calls shutdown; returns no_throw].

Definition session_test_session_basic : bool :=
  passes (tested_session 5) (
    gets_lease 7587 5 ++ [
    calls shutdown;
    answers "session/set_timer/ttl_refresh" any false done_ok;
    returns no_throw]).

Definition session_test_session_normal : bool :=
  passes (tested_session 5) (
    gets_lease 7587 5 ++ [gives is_active true] ++ revokes_lease ++ [gives is_active false] ++ deletes_session).

(** Five seconds are 25 refreshes of a lease of one second. *)
Definition session_test_session_long : bool :=
  passes (tested_session 1) (
    gets_lease 7587 1 ++ [gives is_active true] ++
    mjoin (replicate 25 (refreshes 1)) ++ [gives is_active true] ++
    revokes_lease ++ [gives is_active false] ++ deletes_session).

Definition session_test : list (string * bool) := [
  ("session_basic", session_test_session_basic);
  ("session_normal", session_test_session_normal);
  ("session_long", session_test_session_long)].

Lemma session_tests_pass : Forall (fun t => t.2 = true) session_test.
Proof. repeat constructor; by vm_compute. Qed.
End session_tests.

(** ** [leader_election_test] *)

Section leader_election_tests.
Context `{TextFormat}.
Import LeaderElection.
#[local] Abbreviation test := (list (lab_step leader_election cb)).
#[local] Abbreviation each i l := (at_object i <$> (l : list (step leader_election cb))).

(** The session of the test itself names the election. *)
Definition auxiliary_lease : N := 7587.
Definition test_election : string := "test-election/" +:+ to_hex auxiliary_lease.
Definition auxiliary_session (sleeps : nat) : bool :=
  passes (tested_session 3) (
    gets_lease (Z.of_N auxiliary_lease) 3 ++ mjoin (replicate sleeps (refreshes 3)) ++ revokes_lease ++
    deletes_session).

(** A participant that is not made yet. *)
Definition nobody : leader_election := (tested_session 3, Candidate.election_candidate_impl 0 "" "").
Definition node (lease : N) : string := Candidate.candidate_key test_election lease.

Definition joins (i : nat) (lease : N) (participant : string) : test := each i [
  calls (make test_election participant (milliseconds 3000) 0);
  answers "session/ka_stream" any true done_ok;
  answers "session/preamble/lease_grant" (is_grant 3) true (granted (Z.of_N lease) 3);
  returns no_throw; gives value participant].
Definition sleeps_5s (i : nat) : test := each i (mjoin (replicate 8 (refreshes 3))).
Definition runs_campaign (i : nat) : test :=
  each i [calls campaign; answers "election_candidate/watch" any true done_ok] ++
  [etcd_serves i "election_candidate/create_node"] ++ each i [returns no_throw] ++
  [etcd_serves i "election_candidate/query_predecessor"].

(** [future.wait_for(0ms)] and [future.get()] of a campaign. *)
Definition campaign_result (i : nat) (r : option bool) : test := each i [
  expects (fun w => bool_decide (result (Candidate.promise_ (self w).2) = Ok <$> r))].

(** The watch on another participant, and its end. *)
Definition watches_node (i : nat) (lease : N) : test := each i [
  answers "election_candidate/on_range_request/watch"
    (is_watch_create (fun k _ prev_kv => bool_decide (k = node lease /\ prev_kv = true))) true done_ok;
  answers "election_candidate/on_watch_create/read" any true (Response status_OK (msg_watch
    {| wr_watch_id := 0; wr_created := true; wr_canceled := false; wr_compact_revision := 0;
       wr_events := [] |}))].
Definition sees_end (i : nat) (lease : N) : test :=
  each i [answers "election_candidate/on_watch_read/read" any true
    (watch_events 0 [deleted (KV (node lease) "" 0)])] ++
  [etcd_serves i "election_candidate/query_predecessor"].

Definition proclaims (i : nat) (new_value : string) (outcome_ok : outcome unit -> bool) : test :=
  each i [calls (proclaim new_value)] ++ [etcd_serves i "election_candidate/publish_value"] ++
  each i [returns outcome_ok].

(** A resignation: the watch that is there is cancelled, and the read that is pending ends; the streams are closed, and the
    lease is revoked. *)
Definition quits (i : nat) (lease : N) (watched reading : bool) : test :=
  each i ([calls resign] ++
    (if watched then [answers "election_candidate/cancel_watcher" any true done_ok] else []) ++
    (if reading then [answers "election_candidate/on_watch_read/read" any false done_ok] else []) ++ [
    answers "election_candidate/writes_done" any true done_ok;
    answers "election_candidate/finish" any true done_ok;
    answers "session/set_timer/ttl_refresh" any false done_ok;
    answers "session/revoke/lease_revoke" any true done_ok]) ++
  [lease_ends (node lease)] ++
  each i [
    answers "session/shutdown/writes_done" any true done_ok;
    answers "session/shutdown/finish" any true done_ok;
    returns no_throw].
Definition leaves_scope (i : nat) : test := each i [calls destroy; returns no_throw].

Definition leader_election_basic : bool :=
  auxiliary_session 0 &&
  lab_passes [nobody] (
    joins 0 161 "42" ++ each 0%nat [gives elected false] ++
    runs_campaign 0 ++ campaign_result 0 (Some true) ++ each 0%nat [
      gives elected true; gives value "42";
      expects (fun w => match (key w).2 with
                        | Ok k => bool_decide (substring 0 (String.length test_election) k = test_election)
                        | _ => false
                        end);
      expects (fun w => match (creation_revision w).2 with Ok r => 0 <? r | _ => false end);
      expects (fun w => match (lease_id w).2 with Ok l => (0 <? l)%N | _ => false end);
      calls destroy;
      answers "session/set_timer/ttl_refresh" any false done_ok;
      returns no_throw]).

Definition leader_election_switch_leader : bool :=
  let all_proclaim := proclaims 0 "I am the best" no_throw ++ proclaims 1 "No you are not" no_throw ++
    proclaims 2 "Both wrong" no_throw in
  auxiliary_session 8 &&
  lab_passes [nobody; nobody; nobody] (
    joins 0 161 "session_a" ++ runs_campaign 0 ++ campaign_result 0 (Some true) ++
    joins 1 162 "session_b" ++ joins 2 163 "session_c" ++
    sleeps_5s 0 ++ sleeps_5s 1 ++ sleeps_5s 2 ++
    runs_campaign 2 ++ watches_node 2 161 ++ campaign_result 2 None ++
    runs_campaign 1 ++ watches_node 1 163 ++ campaign_result 1 None ++
    all_proclaim ++ all_proclaim ++
    quits 0 161 false false ++ sees_end 2 161 ++
    proclaims 0 "not dead yet" throws ++ proclaims 0 "no really" throws ++
    quits 1 162 true true ++
    campaign_result 2 (Some true) ++
    quits 2 163 true false ++
    leaves_scope 2 ++ leaves_scope 1 ++ leaves_scope 0).

Definition leader_election_abort : bool :=
  auxiliary_session 0 &&
  lab_passes [nobody; nobody] (
    joins 0 161 "session_a" ++ runs_campaign 0 ++ campaign_result 0 (Some true) ++
    joins 1 162 "session_b" ++ runs_campaign 1 ++ watches_node 1 161 ++ campaign_result 1 None ++
    quits 1 162 true true ++ campaign_result 1 (Some false) ++
    quits 0 161 false false ++
    leaves_scope 1 ++ leaves_scope 0).

(** The candidate of the test of [watch_election]. *)
Definition candidate_side (lease : N) : bool :=
  lab_passes [nobody] (
    joins 0 lease "42" ++ runs_campaign 0 ++ campaign_result 0 (Some true) ++
    (at_object 0 <$> [gives elected true; gives value "42";
      gives key (node lease); gives creation_revision 2]) ++
    proclaims 0 "abc123" no_throw ++ proclaims 0 "bcd234" no_throw ++
    (at_object 0 <$> [calls destroy;
      answers "session/set_timer/ttl_refresh" any false done_ok; returns no_throw])).

Definition leader_election_test : list (string * bool) := [
  ("basic", leader_election_basic);
  ("switch_leader", leader_election_switch_leader);
  ("abort", leader_election_abort)].

Lemma leader_election_tests_pass : Forall (fun t => t.2 = true) leader_election_test.
Proof. repeat constructor; by vm_compute. Qed.
End leader_election_tests.

(** ** [watch_election_test] *)

(** The subscriber of the test keeps the key and the value of the last call: the newest of [reports]. *)
#[local] Instance keeping : Observer.Application unit.
Proof.
  refine {| Observer.reactions _ _ _ := ([], None); Observer.iteration m := elements (dom m) |}. done.
Defined.

Section watch_election_tests.
Context `{TextFormat}.
Import WatchElection.
#[local] Abbreviation watcher := (watch_election unit).
#[local] Abbreviation test := (list (step watcher Observer.cb)).

Definition starts_watching (name : string) : test := [
  calls startup;
  answers "election_observer/create_watcher_stream" any true done_ok;
  returns no_throw;
  answers "election_observer/discover_node_with_lowest_creation_revision"
    (is_range (fun r => bool_decide (rr_key r = name +:+ "/"))) true (range 1 []);
  answers "election_observer/create_watcher" any true done_ok;
  answers "election_observer/on_watch_create/watch_read" any true (Response status_OK (msg_watch
    {| wr_watch_id := 0; wr_created := true; wr_canceled := false; wr_compact_revision := 0;
       wr_events := [] |}))].
(** etcd tells the watcher of a new value. *)
Definition hears (kv : KeyValue) : test :=
  [answers "election_observer/on_watch_read/watch_read" any true (watch_events 0 [put kv])].
Definition last_call (kv : KeyValue) : step watcher Observer.cb :=
  expects (fun w => match Observer.reports (observer_ (self w)) with
                    | (_, k, v) :: _ => bool_decide (k = kv_key kv /\ v = kv_value kv)
                    | [] => false
                    end).

(** The watcher's side of the test. *)
Definition watcher_side (key : string) : bool :=
  let elected value := KV key value 2 in
  passes (make test_election : watcher) (
    starts_watching test_election ++ [gives has_leader false; gives WatchElection.election_name test_election] ++
    hears (elected "42") ++ [
      gives has_leader true; gives current_key key; gives current_value "42";
      calls (lift (subscribe tt;; mret tt)); returns no_throw; last_call (elected "42")] ++
    hears (elected "abc123") ++ [last_call (elected "abc123"); calls (lift (unsubscribe 1)); returns no_throw] ++
    hears (elected "bcd234") ++ [
      gives current_value "bcd234"; last_call (elected "abc123");
      calls shutdown; returns no_throw;
      answers "election_observer/cancel_watcher" any true done_ok;
      calls destroy;
      answers "election_observer/on_watch_read/watch_read" any false done_ok; returns no_throw]).
Definition watch_election_basic : bool :=
  auxiliary_session 0 && candidate_side 161 && watcher_side (node 161).

Definition watch_election_test : list (string * bool) := [("basic", watch_election_basic)].

Lemma watch_election_tests_pass : Forall (fun t => t.2 = true) watch_election_test.
Proof. repeat constructor; by vm_compute. Qed.

(** The test waits for the subscriber to have a key before it looks at the value: the subscription alone gives it
    one, with the value of before, so that the wait is over before the new value came. *)
Definition subscriber_has_key : step watcher Observer.cb :=
  expects (fun w => match Observer.reports (observer_ (self w)) with
                    | (_, k, _) :: _ => negb (bool_decide (k = ""))
                    | [] => false
                    end).
Lemma watch_test_does_not_wait :
  passes (make test_election : watcher) (
    starts_watching test_election ++ hears (KV (node 161) "42" 2) ++ [
      calls (lift (subscribe tt;; mret tt)); returns no_throw;
      subscriber_has_key; last_call (KV (node 161) "42" 2)]) = true.
Proof. by vm_compute. Qed.
End watch_election_tests.

(** ** All tests *)

